(* ===== verification/_CoqProject ===== *)
-Q . S2P
Prelude.v
Core.v
Gas.v
Collections.v
ExecState.v
ExecStateFacts.v
Commit.v
Runtime.v
Invoker.v
Token.v
Codec.v
Stf.v
Example.v
StateTheorems.v
InvokerFacts.v
CallFacts.v
Isolation.v
CollectionFacts.v
Local.v
CollectionSpec.v
VectorSpec.v
UnorderedMapSpec.v
TokenFacts.v
TokenExample.v
StfFacts.v
Chain.v
CallTheorems.v
BlockTheorems.v
TokenTheorems.v
CollectionTheorems.v
Heap.v
Mempool.v
MempoolFacts.v
MempoolSpec.v
StorageBackend.v
StorageTheorems.v
Server.v
ServerFacts.v
ServerExample.v
ServerTheorems.v
EthTx.v
EthContext.v
EthGateway.v
EthEoa.v
EthFacts.v
EthExample.v
EoaFacts.v
EthTheorems.v
EoaTheorems.v
Indexing.v
IndexStore.v
IndexStoreFacts.v
IndexSpec.v
IndexTheorems.v
Rpc.v
Querier.v
Provider.v
ProviderFacts.v
RpcServer.v
RpcTheorems.v
Executor.v
ExecutorFacts.v
ExecutorTheorems.v
Nonceless.v
Scheduler.v
ExtensionTheorems.v
Genesis.v
GenesisTheorems.v
FixedPoint.v
Schema.v
GrpcConv.v
Grpc.v
GrpcFacts.v
GrpcTheorems.v
Replayer.v
ReplayTheorems.v
Simulator.v
BlockStore.v
Node.v
NodeTheorems.v
