(* ===== verification/Prelude.v ===== *)
(** * Verification of the Evolve runtime

    Evolve is a framework for blockchain applications. Accounts run code; code
    reaches storage and other accounts only through an environment; a state
    transition function executes blocks of transactions against read-only
    storage and leaves a list of changes to commit. This library models that
    core as Rocq definitions translated from the Rust sources and proves what
    the rest of the system relies on.

    ** Parts and files

    [Prelude] (this file): bytes, machine integers with their saturating,
    checked and wrapping operations, results and the [?] operator, the shared
    tactics and hint databases.

    [Core] models [crates/app/sdk/core/src]: error codes with their namespace
    hash, account identifiers, messages and requests, system requests, and the
    low-level calls. The [Environment] trait becomes two inductive types of
    programs, [QueryProg] and [EnvProg]: account code is a program that may ask
    for queries, calls, events and identifiers and go on with the answers.

    [Gas], [ExecState], [Commit]: [crates/app/stf/src/gas.rs],
    [execution_state.rs] (overlay, undo log, checkpoints, batches, limits), and
    the way the changes reach the in-memory storage
    ([crates/storage/src/mock.rs], [state_changes_to_operations] of
    [crates/app/server/src/dev.rs]).

    [Runtime], [Invoker]: [runtime_api_impl.rs], [validation.rs],
    [execution_scope.rs], [handlers.rs], [invoker.rs]. [Invoker.do_query] and
    [Invoker.do_exec] interpret programs in a monad over the execution state and
    the gas counter ([World]) whose outcomes are a result, a panic, or running
    out of fuel.

    [Collections], [Token]: the storage collections with the [AccountCode]
    generated by the [account_impl] macro, and the token account
    ([crates/app/sdk/collections], [macros], [extensions/token]). [Scheduler],
    [Nonceless]: the scheduler with its block hooks and the account that is
    protected by timestamps ([extensions/scheduler],
    [extensions/nonceless_account]). [FixedPoint]: the numbers of
    [crates/app/sdk/math]. [Genesis]: [crates/app/genesis/src], validation,
    references and execution of genesis files.

    [Codec]: the hand-written borsh code of [message.rs] and a reference
    instance of every parameter. [Stf]: [crates/app/stf/src/lib.rs] with the
    traits of [crates/app/sdk/stf_traits]. [Chain]: the state part of
    [produce_block_with_txs] of [dev.rs], block after block.

    [Heap], [Mempool]: the binary heap of the standard library with its sifting
    and [crates/app/mempool/src], the pool with its hash index, priority heap,
    sender index and in-flight set. [StorageBackend]: [cache.rs], [warming.rs],
    [types.rs] and [qmdb_impl.rs] of [crates/storage/src], the database and its
    read cache, with the steps of a read that a batch can interleave with.
    [Server]: [crates/app/server/src], blocks, their builder, block production
    from the mempool over an abstract storage, and the stored chain state, with
    the block metadata of [crates/rpc/chain-index/src/integration.rs].

    [EthTx], [EthContext], [EthGateway]: [crates/app/tx/eth/src], that is
    envelopes and sender recovery; transaction contexts, their wire format and
    the registry of addresses; decoder, verifiers and the gateway that accepts
    transactions. [EthEoa]: the validator of
    [crates/app/sdk/standards/evolve_authentication] and the account of
    [bin/testapp/src/eth_eoa.rs] that authenticates Ethereum transactions.

    [Indexing], [IndexStore]: [crates/rpc/chain-index/src], the data built from
    an executed block ([integration.rs], [types.rs]) and the index that stores
    it in tables behind a cache ([index.rs], [cache.rs], [error.rs]). [Rpc]: the
    data types of [crates/rpc/types/src] with the conversions from stored data
    and the errors of [crates/rpc/eth-jsonrpc/src/error.rs]. [Querier],
    [Provider]: [querier.rs] and [provider.rs], state queries by storage reads
    and dry runs, and the provider of blocks, receipts and logs. [RpcServer]:
    [server.rs] and [subscriptions.rs] of [crates/rpc/eth-jsonrpc/src], the
    handlers, the registry of subscriptions and the streaming tasks. [Executor]:
    [crates/rpc/evnode/src], the executor that an external consensus node
    drives, with its commit sink.

    [Schema], [GrpcConv], [Grpc]: the account schemas of
    [crates/app/sdk/core/src/schema.rs] and [crates/rpc/grpc/src], that is the
    messages, the conversions, both services and the generated dispatch.
    [BlockStore]: [crates/storage/src/block_store.rs] with the writer that the
    node puts in front of it. [Node]: [crates/app/node/src/lib.rs], the start of
    the chain, the runners and the end of a run. [Replayer]: the traces,
    breakpoints, file formats, replayer and inspector of
    [crates/testing/debugger/src]. [Simulator]: [crates/testing/simulator/src].

    A transaction travels through all of them: the gateway decodes and verifies
    it, the mempool orders it, the server proposes it in a block, the state
    transition function resolves, bootstraps and authenticates its sender and
    executes it through the invoker, and the changes go to the database. With an
    external consensus node the executor takes the place of the server, and the
    index and the RPC layer show what was executed.

    ** How the proofs are organised

    [ExecStateFacts] gives the equality of states up to metrics, the logical
    view of a key and the refinement of copying checkpoints. [InvokerFacts]
    defines the step relation [evolves], closed under the primitive effects and
    rollbacks; every call is inside it for arbitrary code, and invariants follow
    by rule induction. [CallFacts] adds read-only queries, monotonicity in the
    fuel and termination. [Isolation] is a small program logic: an account's
    code is verified against weakest preconditions over its own storage alone,
    and the result holds in every context of other accounts. [CollectionFacts]
    and [TokenFacts] use it. [Local] evaluates programs that use only their
    account's storage on a finite map, where nothing runs out, and shows that
    the runtime agrees when gas is not metered and the overlay has room.
    [CollectionSpec], [VectorSpec] and [UnorderedMapSpec] say in these terms
    what the queue, the vector and the unordered map compute. [StfFacts] and
    [Chain] lift calls to transactions, blocks and chains, [StfFacts] also
    without any condition on gas for the keys that a block may write, [Chain]
    also for transactions that the guarded account itself sends. [MempoolFacts]
    relates the pool to the list of its transactions, [MempoolSpec] to an
    abstract pool for every sequence of operations, selections and proposals
    included, following proposals and finalisations by rule induction on what a
    producer reaches. [ServerFacts] evaluates block production. [EthFacts] is
    about decoding and verification, [EoaFacts] about the registry, and about
    the Ethereum account in the logics of [Isolation] and [Local].
    [IndexStoreFacts] gives the archive of blocks that the tables represent, and
    [IndexSpec] the interface [ArchiveIndex] of an index that answers from an
    archive, with the proof that the persistent index has it; [ProviderFacts] is
    proved against this interface alone. [ExecutorFacts] is about index data and
    about sequences of requests to the executor. [GrpcFacts] shows that the
    conversions of requests are inverted by the server, those of answers by a
    client, and when a gRPC handler and a JSON-RPC handler agree. Facts that
    only one group of theorems uses are in the file of these theorems, and small
    components ([FixedPoint], [Simulator], [BlockStore], [Nonceless],
    [Scheduler]) have definitions and facts in one file.

    The properties are in [StateTheorems] (undo log, batches, commit, wire
    format), [CallTheorems] (rollback, queries, gas, limits, storage regions,
    termination, isolation), [BlockTheorems] (gas and accounting of blocks,
    failed transactions, metrics, simulation, signatures), [TokenTheorems]
    (conservation of the token supply on every chain), [CollectionTheorems] (the
    collections implement lists and finite maps), [StorageTheorems] (the
    database with its cache implements a finite map; a stale read),
    [ServerTheorems] (the pool implements a list, proposals are the best that
    fits, no transaction is lost, a tick commits and finalises what it executed;
    a value the database refuses stops production), [EthTheorems] (accepted
    transactions are signed by their sender, contexts survive encoding; what a
    signature does not protect) and [EoaTheorems] (nonces never go back as long
    as the account sends plain calls, what [authenticate] does, the registry is
    an injective map), [IndexTheorems] (the index implements an archive on every
    sequence of reads and admissible stores; what storing twice does),
    [RpcTheorems] (logs by query, the same filter for subscriptions, balances;
    storage words that are never found and the race of the tag [latest]) and
    [ExecutorTheorems] (the executor builds one chain of blocks and roots, roots
    commit to changes, the filter keeps the limits, executed proposals leave the
    pool; results attributed to the wrong transactions), [ExtensionTheorems]
    (the scheduler runs its hooks in every block; timestamps protect against
    replays on every chain), [GenesisTheorems] (genesis is all or nothing and
    its parameters survive; what validation accepts; references are resolved to
    the wrong accounts), [GrpcTheorems] (the gRPC server agrees with the
    JSON-RPC server, messages can be read back; requests that make it panic),
    [ReplayTheorems] (a replayer shows the state of its position, runs end at
    breakpoints, traces survive their formats) and [NodeTheorems] (restarts
    continue the heights, forget the last hash, and repeat heights after a
    crash, since blocks do not write the saved height). [FixedPoint] bounds the
    rounding of fractions and fees, [BlockStore] shows what the archive keeps,
    how it is bounded and what it loses, and [Simulator] that time is consistent
    and runs end. [Example], [TokenExample], [ServerExample], [EthExample] and
    the examples at the end of the files of theorems are concrete data on which
    the theorems are evaluated.

    ** Conventions and bounds

    Integers are [Z], kept at their width by the operations the source uses;
    plain [+] and [-] wrap, as in release builds. Byte strings are lists of
    bytes. The hash map of the overlay is a finite map, and what depends on its
    iteration order is stated for every order. Fuel counts nested calls and
    queries: the depth limit of 64 bounds calls, so that 65 levels and as many
    as the queries need are enough, which is proved; queries have no limit of
    their own, which is proved too. A [Vec] never has more than [u64::MAX]
    elements, which the isolation theorems assume of the undo log
    ([bounded]). Account numbers are handed out by a counter of 256 bits; the
    isolation theorems say how far it is from an account: it has passed the
    account, or the account lies above [reach], a bound the counter does not get
    to within the blocks at hand. Time, iteration orders of hash maps and the
    order in which threads interleave are arguments.

    Code that is not in the repository is a parameter with its documented
    behaviour: borsh ([Borsh], [BorshStream]: decoding inverts encoding, decoded
    integers are in range; [StorageTotal], [KeysTotal]: storage requests within
    the size limits can be encoded, a [u64] takes eight bytes; [AddressTotal]),
    Keccak-256, the Unicode tables, RLP and transaction hashes ([AlloyTx]),
    public-key recovery ([Secp256k1]), the authenticated database, SQLite
    ([Sqlite], [SqliteLaws]; [reliable] when it does not fail), the LRU cache
    ([LruCache]), the JSON of topics, call requests and genesis files, SHA-256,
    fixed-point numbers, big integers ([Uint]), the encoding and transport of
    gRPC messages ([Prost], [Tonic]), the block archive ([PrunableArchive],
    [ArchiveLaws]), the formats of trace files ([TraceCodecs]), the generator of
    random numbers ([ChaCha20]), the set of account codes, and the hooks and
    transaction types of the application. Storages that the node is run on keep
    what they commit ([DurableStorage]) and change the keys a batch names only
    ([FramedStorage]). Every theorem with such a parameter is evaluated with
    concrete instances.

    ** Not modelled

    Asynchronous I/O, network transports and process wiring: threads and the
    runtime (the loops of [dev.rs] run over the ticks given to them, a run of
    the node stops between two ticks), spawned tasks of [dev.rs], the
    construction and metrics of the database, connection settings of the index,
    the queue and workers of the verifier and the broadcast channels of
    subscriptions (what they deliver is an argument), the executor server, the
    JSON-RPC declarations and middleware, gRPC interceptors, the configuration
    files and command line of the node, and [bin] apart from the Ethereum
    account. These call external libraries and have no logic that could be
    stated without modelling the library. Of the test infrastructure, printed
    descriptions, reports with floating-point ratios, the harness of the
    simulator and the command line; macro expansion apart from the dispatch it
    generates, and code compiled only for tests. *)

From Stdlib Require Export Strings.Byte.
From stdpp Require Export base tactics numbers vector strings sorting countable gmap.
From stdpp Require Export list.

Declare Scope evolve_scope.
Delimit Scope evolve_scope with evolve.
Open Scope evolve_scope.
Open Scope Z_scope.

(** ** Bytes *)

Abbreviation bytes := (list byte).

#[export] Instance byte_eq_decision : EqDecision byte := Byte.byte_eq_dec.

#[export] Program Instance byte_countable : Countable byte :=
  {| encode b := encode (Byte.to_N b);
     decode p := n ← decode p; Byte.of_N n |}.
Next Obligation. intros b. cbn -[encode decode]. rewrite decode_encode. apply Byte.of_to_N. Qed.

#[export] Instance byte_inhabited : Inhabited byte := populate x00.

(** The numeric value of a byte, and the low byte of an integer ([as u8]). *)
Definition Z_of_byte (b : byte) : Z := Z.of_N (Byte.to_N b).

Definition byte_of_Z (z : Z) : byte :=
  default x00 (Byte.of_N (Z.to_N (z mod 256))).

(** The number of elements of a [Vec], a slice or a [String], as a [usize]. *)
Definition zlen {A} (l : list A) : Z := Z.of_nat (length l).

(** ** Fixed-width unsigned integers

    Every [u16], [u64], [u128] and [usize] of the source is a [Z]; the
    operators write out what Rust does at the edge of the width. A plain [+]
    or [-] on an unsigned integer wraps (the workspace sets no
    [overflow-checks], so release builds wrap). *)
Definition u16_max : Z := 2 ^ 16 - 1.
Definition u64_max : Z := 2 ^ 64 - 1.
Definition u128_max : Z := 2 ^ 128 - 1.

Definition is_u64 (z : Z) : Prop := 0 <= z <= u64_max.
Definition is_u128 (z : Z) : Prop := 0 <= z <= u128_max.

Definition saturating_add (m a b : Z) : Z := Z.min m (a + b).
Definition saturating_mul (m a b : Z) : Z := Z.min m (a * b).
Definition saturating_sub (a b : Z) : Z := Z.max 0 (a - b).
Definition wrapping (w z : Z) : Z := z mod 2 ^ w.
Definition checked_add (m a b : Z) : option Z := if m <? a + b then None else Some (a + b).
Definition checked_sub (a b : Z) : option Z := if a <? b then None else Some (a - b).

Abbreviation wrap16 := (wrapping 16).
Abbreviation wrap64 := (wrapping 64).
Abbreviation wrap128 := (wrapping 128).

(** Little- and big-endian byte strings ([to_le_bytes], [to_be_bytes]). *)
Fixpoint le_bytes (n : nat) (z : Z) : bytes :=
  match n with
  | O => []
  | S n => byte_of_Z z :: le_bytes n (z / 256)
  end.

Fixpoint le_value (l : bytes) : Z :=
  match l with
  | [] => 0
  | b :: l => Z_of_byte b + 256 * le_value l
  end.

Definition be_bytes (n : nat) (z : Z) : bytes := reverse (le_bytes n z).
Definition be_value (l : bytes) : Z := le_value (reverse l).

(** ** Results

    Rust's [Result<T, E>], with the error first so that [Result E] is a monad. *)
Inductive Result (E A : Type) : Type :=
| Ok (a : A)
| Err (e : E).
Arguments Ok {E A} a.
Arguments Err {E A} e.

#[export] Instance Result_ret E : MRet (Result E) := fun A a => Ok a.
#[export] Instance Result_bind E : MBind (Result E) := fun A B k m =>
  match m with Ok a => k a | Err e => Err e end.

#[export] Instance Ok_inj E A : Inj (=) (=) (@Ok E A).
Proof. by intros ?? [=]. Qed.

Definition is_ok {E A} (r : Result E A) : bool :=
  match r with Ok _ => true | Err _ => false end.

Definition is_err {E A} (r : Result E A) : bool := negb (is_ok r).

(** [Option::ok_or] and [Result::map_err] of an [Option]-shaped failure. *)
Definition ok_or {E A} (o : option A) (e : E) : Result E A :=
  match o with Some a => Ok a | None => Err e end.

(** The [?] operator inside an effectful function: run [m]; on [Ok a] go on
    with [k a], on [Err e] return [Err e] from the enclosing function. *)
Definition try_bind {M : Type -> Type} `{MBind M, MRet M} {E A B}
    (m : M (Result E A)) (k : A -> M (Result E B)) : M (Result E B) :=
  m ≫= fun r => match r with Ok a => k a | Err e => mret (Err e) end.

Notation "'let?' x := m 'in' k" := (try_bind m (fun x => k))
  (at level 10, x name, m at level 100, k at level 200,
   format "'[v' 'let?'  x  :=  m  'in' '//' k ']'") : evolve_scope.
Notation "'do?' m 'in' k" := (try_bind m (fun _ => k))
  (at level 10, m at level 100, k at level 200,
   format "'[v' 'do?'  m  'in' '//' k ']'") : evolve_scope.

(** ** Automation *)

Create HintDb evolve.
#[export] Hint Unfold is_u64 is_u128 u16_max u64_max u128_max : evolve.

(** Case analysis on the scrutinee of the innermost match or conditional. *)
Ltac split_match :=
  match goal with
  | H : context [ match ?x with _ => _ end ] |- _ =>
      lazymatch x with context [ match _ with _ => _ end ] => fail | _ => destruct x eqn:? end
  | |- context [ match ?x with _ => _ end ] =>
      lazymatch x with context [ match _ with _ => _ end ] => fail | _ => destruct x eqn:? end
  end.

(** A decidable fact, by evaluation. *)
Ltac by_decision := apply (bool_decide_unpack _); vm_compute; exact I.

Ltac split_matches := repeat (split_match; simplify_eq/=).

(** Boolean comparisons on [Z] as propositions, then linear arithmetic. *)
Ltac zbool :=
  repeat match goal with
  | H : (_ <? _) = true |- _ => apply Z.ltb_lt in H
  | H : (_ <? _) = false |- _ => apply Z.ltb_ge in H
  | H : (_ <=? _) = true |- _ => apply Z.leb_le in H
  | H : (_ <=? _) = false |- _ => apply Z.leb_gt in H
  | H : (_ =? _) = true |- _ => apply Z.eqb_eq in H
  | H : (_ =? _) = false |- _ => apply Z.eqb_neq in H
  | H : _ || _ = true |- _ => apply orb_true_iff in H
  | H : _ || _ = false |- _ => apply orb_false_iff in H; destruct H
  | H : _ && _ = true |- _ => apply andb_true_iff in H; destruct H
  | H : negb _ = true |- _ => apply negb_true_iff in H
  | H : negb _ = false |- _ => apply negb_false_iff in H
  end.

Ltac u_lia :=
  unfold is_u64, is_u128, u16_max, u64_max, u128_max, saturating_add, saturating_mul,
    saturating_sub in *; zbool; lia.

(** ** Lemmas on bytes *)

Lemma Z_of_byte_range b : 0 <= Z_of_byte b < 256.
Proof. destruct b; unfold Z_of_byte; cbn; lia. Qed.

Lemma Z_of_byte_of_Z z : Z_of_byte (byte_of_Z z) = z mod 256.
Proof.
  unfold byte_of_Z, Z_of_byte.
  assert (Hr : 0 <= z mod 256 < 256) by (apply Z.mod_pos_bound; lia).
  destruct (Byte.of_N (Z.to_N (z mod 256))) as [b|] eqn:E; cbn.
  - apply Byte.to_of_N in E. rewrite E. lia.
  - exfalso. apply Byte.of_N_None_iff in E. lia.
Qed.

Lemma byte_of_Z_of_byte b : byte_of_Z (Z_of_byte b) = b.
Proof.
  unfold byte_of_Z, Z_of_byte.
  pose proof (Z_of_byte_range b) as H. unfold Z_of_byte in H.
  rewrite Z.mod_small by done. rewrite N2Z.id, Byte.of_to_N. done.
Qed.

#[export] Instance Z_of_byte_inj : Inj (=) (=) Z_of_byte.
Proof. intros a b H. rewrite <-(byte_of_Z_of_byte a), <-(byte_of_Z_of_byte b). by rewrite H. Qed.

Lemma length_le_bytes n z : length (le_bytes n z) = n.
Proof. revert z. induction n as [|n IH]; intros z; cbn; [done|by rewrite IH]. Qed.

Lemma le_value_bytes n z : le_value (le_bytes n z) = z mod 256 ^ Z.of_nat n.
Proof.
  revert z. induction n as [|n IH]; intros z; cbn [le_bytes le_value].
  - rewrite Z.pow_0_r, Z.mod_1_r. done.
  - rewrite IH, Z_of_byte_of_Z.
    rewrite Nat2Z.inj_succ, Z.pow_succ_r by lia.
    rewrite Z.rem_mul_r by lia. done.
Qed.

Lemma le_value_range l : 0 <= le_value l < 256 ^ zlen l.
Proof.
  unfold zlen. induction l as [|b l IH]; cbn [le_value length].
  - cbn. lia.
  - rewrite Nat2Z.inj_succ, Z.pow_succ_r by lia.
    pose proof (Z_of_byte_range b). lia.
Qed.

Lemma le_bytes_value l : le_bytes (length l) (le_value l) = l.
Proof.
  induction l as [|b l IH]; cbn [le_value length le_bytes]; [done|].
  assert (Hd : (Z_of_byte b + 256 * le_value l) `div` 256 = le_value l).
  { rewrite (Z.mul_comm 256), Z.div_add by lia.
    rewrite Z.div_small by apply Z_of_byte_range. lia. }
  assert (Hm : byte_of_Z (Z_of_byte b + 256 * le_value l) = b).
  { apply (inj Z_of_byte). rewrite Z_of_byte_of_Z, (Z.mul_comm 256), Z.mod_add by lia.
    apply Z.mod_small, Z_of_byte_range. }
  by rewrite Hd, Hm, IH.
Qed.

Lemma length_be_bytes n z : length (be_bytes n z) = n.
Proof. unfold be_bytes. by rewrite length_reverse, length_le_bytes. Qed.

Lemma be_value_bytes n z : be_value (be_bytes n z) = z mod 256 ^ Z.of_nat n.
Proof. unfold be_value, be_bytes. by rewrite reverse_involutive, le_value_bytes. Qed.

Lemma be_bytes_inj n a b :
  0 <= a < 256 ^ Z.of_nat n -> 0 <= b < 256 ^ Z.of_nat n ->
  be_bytes n a = be_bytes n b -> a = b.
Proof.
  intros Ha Hb H. apply (f_equal be_value) in H.
  rewrite !be_value_bytes, !Z.mod_small in H by done. done.
Qed.

Lemma zlen_nonneg {A} (l : list A) : 0 <= zlen l.
Proof. unfold zlen. lia. Qed.

Lemma zlen_app {A} (l k : list A) : zlen (l ++ k) = zlen l + zlen k.
Proof. unfold zlen. rewrite length_app. lia. Qed.

Lemma zlen_cons {A} (x : A) l : zlen (x :: l) = 1 + zlen l.
Proof. unfold zlen. cbn. lia. Qed.

(** Two lists with a common-length head that agree as a whole agree on both parts. *)
Lemma app_inj_same_length {A} (a b c d : list A) :
  length a = length c -> a ++ b = c ++ d -> a = c /\ b = d.
Proof. apply app_inj_1. Qed.

(** ** Filtered lists *)
Lemma filter_none {A} (P : A -> Prop) `{forall x, Decision (P x)} (l : list A) :
  (forall x, x ∈ l -> ~ P x) -> filter P l = [].
Proof.
  induction l as [|a l IH]; intros Hn; [done|]. rewrite filter_cons_False by (apply Hn; left).
  apply IH. intros x Hx. apply Hn. by right.
Qed.

Lemma filter_every {A} (P : A -> Prop) `{forall x, Decision (P x)} (l : list A) :
  (forall x, x ∈ l -> P x) -> filter P l = l.
Proof.
  induction l as [|a l IH]; intros Hn; [done|]. rewrite filter_cons_True by (apply Hn; left).
  f_equal. apply IH. intros x Hx. apply Hn. by right.
Qed.

Lemma filter_fmap {A B} (f : A -> B) (P : B -> Prop) `{forall x, Decision (P x)} (l : list A) :
  filter P (f <$> l) = f <$> filter (fun x => P (f x)) l.
Proof.
  induction l as [|a l IH]; [done|]. rewrite fmap_cons, !filter_cons.
  destruct (decide (P (f a))); cbn; by rewrite IH.
Qed.

Lemma StronglySorted_filter {A} (R : relation A) (P : A -> Prop) `{forall x, Decision (P x)} (l : list A) :
  StronglySorted R l -> StronglySorted R (filter P l).
Proof.
  induction 1 as [|a l Hs IH Hall]; [constructor|]. rewrite filter_cons. case_decide; [|done].
  constructor; [done|]. apply Forall_forall. intros x [_ Hx]%list_elem_of_filter.
  by eapply Forall_forall in Hall.
Qed.

(** ** Lemmas on fixed-width integers *)

Lemma saturating_add_le m a b : saturating_add m a b <= m.
Proof. unfold saturating_add. lia. Qed.

Lemma saturating_add_exact m a b : a + b <= m -> saturating_add m a b = a + b.
Proof. unfold saturating_add. lia. Qed.

Lemma wrapping_range w z : 0 <= w -> 0 <= wrapping w z < 2 ^ w.
Proof. intros. unfold wrapping. apply Z.mod_pos_bound. lia. Qed.

Lemma wrapping_small w z : 0 <= z < 2 ^ w -> wrapping w z = z.
Proof. intros. unfold wrapping. by apply Z.mod_small. Qed.

#[export] Hint Resolve zlen_nonneg saturating_add_le : evolve.
