(* ===== verification/Core.v ===== *)
(** * The SDK core: identities, messages, errors and the execution environment

    Models [crates/app/sdk/core/src]: error codes ([error.rs]), account
    identities, the block context and the environment traits ([lib.rs]),
    messages and invoke requests ([message.rs], [encoding.rs]), the system
    request types ([storage_api.rs], [runtime_api.rs]), fungible assets
    ([fungible_asset.rs]) and the typed call helpers ([low_level.rs]).

    Account code is arbitrary Rust that talks to the chain only through
    [&mut dyn Environment] (or [&mut dyn EnvironmentQuery]). Here it is a
    program over exactly those operations: a tree whose nodes are environment
    calls and whose continuations receive the results ([EnvProg],
    [QueryProg]). The interpreter of those programs is the [Invoker]. *)

From S2P Require Import Prelude.

(** ** Error codes ([error.rs]) *)

Record ErrorCode := mkErrorCode { err_id : Z; err_arg : Z }.

#[export] Instance ErrorCode_eq_dec : EqDecision ErrorCode.
Proof. solve_decision. Defined.

Abbreviation SdkResult := (Result ErrorCode).

Definition ErrorCode_new (id : Z) : ErrorCode := mkErrorCode id 0.
Definition ErrorCode_new_with_arg (id arg : Z) : ErrorCode := mkErrorCode id arg.

(** The FNV-1a hash of [crate_namespace], reduced to its low byte. *)
Definition FNV_PRIME : Z := 0x100000001b3.
Definition FNV_OFFSET_BASIS : Z := 0xcbf29ce484222325.

Fixpoint fnv1a_loop (hash : Z) (l : bytes) : Z :=
  match l with
  | [] => hash
  | b :: l => fnv1a_loop (wrap64 (Z.lxor hash (Z_of_byte b) * FNV_PRIME)) l
  end.

Definition fnv1a_hash (l : bytes) : Z := Z.land (fnv1a_loop FNV_OFFSET_BASIS l) 0xFF.

(** [env!("CARGO_PKG_NAME")] is expanded where [crate_namespace] is defined,
    in the package [evolve_core], whichever crate uses [define_error!]. *)
Definition CARGO_PKG_NAME : string := "evolve_core".

Definition crate_namespace : Z := fnv1a_hash (String.list_byte_of_string CARGO_PKG_NAME).

Definition define_error (local : Z) : ErrorCode :=
  ErrorCode_new (Z.lor (Z.shiftl crate_namespace 8) (Z.land local 0xFF)).

Definition ERR_ENCODING : ErrorCode := define_error 0x01.
Definition ERR_UNKNOWN_FUNCTION : ErrorCode := define_error 0x02.
Definition ERR_ACCOUNT_NOT_INIT : ErrorCode := define_error 0x03.
Definition ERR_UNAUTHORIZED : ErrorCode := define_error 0x04.
Definition ERR_NOT_PAYABLE : ErrorCode := define_error 0x05.
Definition ERR_ONE_COIN : ErrorCode := define_error 0x06.
Definition ERR_INCOMPATIBLE_FA : ErrorCode := define_error 0x07.
Definition ERR_INSUFFICIENT_BALANCE : ErrorCode := define_error 0x08.
Definition ERR_OVERFLOW : ErrorCode := define_error 0x09.

Definition MAX_STORAGE_KEY_SIZE : Z := 254.

(** ** Account identities ([lib.rs]) *)

Record AccountId := mkAccountId { account_id_bytes : vec byte 32 }.

#[export] Instance AccountId_eq_dec : EqDecision AccountId.
Proof. solve_decision. Defined.

#[export] Program Instance AccountId_countable : Countable AccountId :=
  inj_countable' account_id_bytes mkAccountId _.
Next Obligation. by intros []. Qed.

Module AccountId.

Definition invalid : AccountId := mkAccountId (vreplicate 32 xff).

Definition from_bytes (b : vec byte 32) : AccountId := mkAccountId b.

Definition from_u64 (n : Z) : AccountId :=
  mkAccountId (list_to_vec (replicate 24 x00 ++ be_bytes 8 n)).

Definition as_bytes (a : AccountId) : bytes := vec_to_list (account_id_bytes a).

(** The loop of [increase]: from the last byte leftwards, add one and stop at
    the first byte that does not carry. *)
Fixpoint increase_bytes {n} (v : vec byte n) : vec byte n * bool :=
  match v with
  | [#] => ([#], true)
  | b ::: v =>
      let '(v', carry) := increase_bytes v in
      if carry then
        let b' := byte_of_Z (Z_of_byte b + 1) in
        (b' ::: v', bool_decide (Z_of_byte b = 255))
      else (b ::: v', false)
  end.

Definition increase (a : AccountId) : AccountId :=
  mkAccountId (increase_bytes (account_id_bytes a)).1.

End AccountId.

Record BlockContext := mkBlockContext { block_height : Z; block_time : Z }.

Definition BlockContext_default : BlockContext := mkBlockContext 0 0.

(** ** Fungible assets ([fungible_asset.rs]) *)

Record FungibleAsset := mkFungibleAsset { asset_id : AccountId; amount : Z }.

Module FungibleAsset.

Definition increase (self other : FungibleAsset) : SdkResult FungibleAsset :=
  if bool_decide (asset_id self ≠ asset_id other) then Err ERR_INCOMPATIBLE_FA
  else
    new_amount ← ok_or (checked_add u128_max (amount self) (amount other)) ERR_OVERFLOW;
    Ok (mkFungibleAsset (asset_id self) new_amount).

Definition decrease (self other : FungibleAsset) : SdkResult FungibleAsset :=
  if bool_decide (asset_id self ≠ asset_id other) then Err ERR_INCOMPATIBLE_FA
  else if amount self <? amount other then Err ERR_INSUFFICIENT_BALANCE
  else Ok (mkFungibleAsset (asset_id self) (amount self - amount other)).

End FungibleAsset.

(** ** Encoding ([encoding.rs])

    [Encodable]/[Decodable] are the borsh crate's [to_vec]/[from_slice]. Borsh
    is a dependency: its functions on a type are a parameter, with the one law
    the code relies on, that decoding what was encoded gives the value back. *)
Class Borsh (A : Type) := {
  to_vec : A -> option bytes;
  from_slice : bytes -> option A;
  from_slice_to_vec : forall a b, to_vec a = Some b -> from_slice b = Some a
}.

Definition encode_value {A} `{Borsh A} (a : A) : SdkResult bytes := ok_or (to_vec a) ERR_ENCODING.
Definition decode_value {A} `{Borsh A} (b : bytes) : SdkResult A := ok_or (from_slice b) ERR_ENCODING.

(** ** Messages ([message.rs]) *)

Inductive InnerMessage := OwnedBytes (b : bytes).
Record Message := mkMessage { inner : InnerMessage }.

#[export] Instance Message_eq_dec : EqDecision Message.
Proof. intros [[a]] [[b]]. destruct (decide (a = b)); [left|right]; congruence. Defined.

Module Message.

Definition from_bytes (b : bytes) : Message := mkMessage (OwnedBytes b).

Definition as_bytes (m : Message) : SdkResult bytes :=
  match inner m with OwnedBytes b => Ok b end.

Definition into_bytes (m : Message) : SdkResult bytes :=
  match inner m with OwnedBytes b => Ok b end.

Definition len (m : Message) : Z :=
  match inner m with OwnedBytes b => zlen b end.

Definition is_empty (m : Message) : bool :=
  match inner m with OwnedBytes b => bool_decide (b = []) end.

Definition new {A} `{Borsh A} (a : A) : SdkResult Message :=
  b ← encode_value a; Ok (mkMessage (OwnedBytes b)).

Definition get {A} `{Borsh A} (m : Message) : SdkResult A :=
  match inner m with OwnedBytes b => decode_value b end.

End Message.

Record InvokeRequest := mkInvokeRequest {
  human_name : string; function : Z; message : Message }.

Record InvokeResponse := mkInvokeResponse { response_message : Message }.

(** [InvokableMessage]: the function identifier of a message type. *)
Class InvokableMessage (A : Type) := {
  FUNCTION_IDENTIFIER : Z;
  FUNCTION_IDENTIFIER_NAME : string
}.
Arguments FUNCTION_IDENTIFIER A {_}.
Arguments FUNCTION_IDENTIFIER_NAME A {_}.

Module InvokeRequest.

Definition new {A} `{Borsh A, InvokableMessage A} (msg : A) : SdkResult InvokeRequest :=
  m ← Message.new msg;
  Ok (mkInvokeRequest (FUNCTION_IDENTIFIER_NAME A) (FUNCTION_IDENTIFIER A) m).

Definition new_from_message (name : string) (fn : Z) (m : Message) : InvokeRequest :=
  mkInvokeRequest name fn m.

Definition get {A} `{Borsh A} (r : InvokeRequest) : SdkResult A := Message.get (message r).

End InvokeRequest.

Module InvokeResponse.

Definition new_from_message (m : Message) : InvokeResponse := mkInvokeResponse m.

Definition new {A} `{Borsh A} (a : A) : SdkResult InvokeResponse :=
  m ← Message.new a; Ok (mkInvokeResponse m).

Definition get {A} `{Borsh A} (r : InvokeResponse) : SdkResult A := Message.get (response_message r).

Definition into_inner (r : InvokeResponse) : Message := response_message r.

End InvokeResponse.

(** ** System requests ([storage_api.rs], [runtime_api.rs]) *)

Definition STORAGE_ACCOUNT_ID : AccountId := AccountId.from_u64 1.
Definition RUNTIME_ACCOUNT_ID : AccountId := AccountId.from_u64 0.

Definition ACCOUNT_IDENTIFIER_PREFIX : byte := x00.
Definition ACCOUNT_IDENTIFIER_SINGLETON_PREFIX : byte := x01.
Definition ACCOUNT_STORAGE_PREFIX : byte := x02.
Definition CONSENSUS_PARAMS_KEY : bytes := String.list_byte_of_string "consensus_params".

Record StorageGetRequest := mkStorageGetRequest { get_account_id : AccountId; get_key : bytes }.
Record StorageGetResponse := mkStorageGetResponse { get_value : option Message }.
Record StorageSetRequest := mkStorageSetRequest { set_key : bytes; set_value : Message }.
Record StorageSetResponse := mkStorageSetResponse {}.
Record StorageRemoveRequest := mkStorageRemoveRequest { remove_key : bytes }.
Record StorageRemoveResponse := mkStorageRemoveResponse {}.

Record CreateAccountRequest := mkCreateAccountRequest {
  create_code_id : string; create_init_message : Message }.
Record CreateAccountResponse := mkCreateAccountResponse {
  new_account_id : AccountId; init_response : Message }.
Record RegisterAccountAtIdRequest := mkRegisterAccountAtIdRequest {
  register_account_id : AccountId; register_code_id : string; register_init_message : Message }.
Record RegisterAccountAtIdResponse := mkRegisterAccountAtIdResponse {}.
Record MigrateRequest := mkMigrateRequest {
  migrate_account_id : AccountId; new_code_id : string; execute_message : InvokeRequest }.

#[export] Instance StorageGetRequest_invokable : InvokableMessage StorageGetRequest :=
  {| FUNCTION_IDENTIFIER := 1; FUNCTION_IDENTIFIER_NAME := "storage_get" |}.
#[export] Instance StorageSetRequest_invokable : InvokableMessage StorageSetRequest :=
  {| FUNCTION_IDENTIFIER := 1; FUNCTION_IDENTIFIER_NAME := "storage_set" |}.
#[export] Instance StorageRemoveRequest_invokable : InvokableMessage StorageRemoveRequest :=
  {| FUNCTION_IDENTIFIER := 2; FUNCTION_IDENTIFIER_NAME := "storage_remove" |}.
#[export] Instance CreateAccountRequest_invokable : InvokableMessage CreateAccountRequest :=
  {| FUNCTION_IDENTIFIER := 1; FUNCTION_IDENTIFIER_NAME := "create_account" |}.
#[export] Instance RegisterAccountAtIdRequest_invokable : InvokableMessage RegisterAccountAtIdRequest :=
  {| FUNCTION_IDENTIFIER := 2; FUNCTION_IDENTIFIER_NAME := "register_account_at_id" |}.
#[export] Instance MigrateRequest_invokable : InvokableMessage MigrateRequest :=
  {| FUNCTION_IDENTIFIER := 3; FUNCTION_IDENTIFIER_NAME := "migrate" |}.

(** The borsh instances of the system request and response types, which the
    runtime decodes and the collections encode. *)
Class SystemCodec := {
  codec_string :: Borsh string;
  codec_account_id :: Borsh AccountId;
  codec_get_request :: Borsh StorageGetRequest;
  codec_get_response :: Borsh StorageGetResponse;
  codec_set_request :: Borsh StorageSetRequest;
  codec_set_response :: Borsh StorageSetResponse;
  codec_remove_request :: Borsh StorageRemoveRequest;
  codec_remove_response :: Borsh StorageRemoveResponse;
  codec_create_request :: Borsh CreateAccountRequest;
  codec_create_response :: Borsh CreateAccountResponse;
  codec_register_request :: Borsh RegisterAccountAtIdRequest;
  codec_register_response :: Borsh RegisterAccountAtIdResponse;
  codec_migrate_request :: Borsh MigrateRequest
}.

(** Events ([events_api.rs]). *)
Record Event := mkEvent { event_source : AccountId; event_name : string; event_contents : Message }.

(** ** The execution environment ([lib.rs])

    The getters of [EnvironmentQuery] ([whoami], [sender], [funds], [block])
    do not change while one piece of code runs: they are the [env] argument of
    the code. The operations are the nodes of the programs. *)
Record EnvView := mkEnvView {
  whoami : AccountId; sender : AccountId; funds : list FungibleAsset; block : BlockContext }.

(** Code that holds a [&mut dyn EnvironmentQuery]; [QPanic] is a Rust panic
    raised by the code itself (an [unwrap] or a failed slice index). *)
Inductive QueryProg (R : Type) : Type :=
| QRet (r : R)
| QPanic
| QDoQuery (to : AccountId) (data : InvokeRequest) (k : SdkResult InvokeResponse -> QueryProg R).
Arguments QRet {R} r.
Arguments QPanic {R}.
Arguments QDoQuery {R} to data k.

(** Code that holds a [&mut dyn Environment]. *)
Inductive EnvProg (R : Type) : Type :=
| PRet (r : R)
| PPanic
| PDoQuery (to : AccountId) (data : InvokeRequest) (k : SdkResult InvokeResponse -> EnvProg R)
| PDoExec (to : AccountId) (data : InvokeRequest) (f : list FungibleAsset)
    (k : SdkResult InvokeResponse -> EnvProg R)
| PEmitEvent (name : string) (data : bytes) (k : SdkResult unit -> EnvProg R)
| PUniqueId (k : SdkResult bytes -> EnvProg R).
Arguments PRet {R} r.
Arguments PPanic {R}.
Arguments PDoQuery {R} to data k.
Arguments PDoExec {R} to data f k.
Arguments PEmitEvent {R} name data k.
Arguments PUniqueId {R} k.

#[export] Instance QueryProg_ret : MRet QueryProg := @QRet.
#[export] Instance QueryProg_bind : MBind QueryProg := fun A B f =>
  fix go (p : QueryProg A) : QueryProg B :=
    match p with
    | QRet r => f r
    | QPanic => QPanic
    | QDoQuery to data k => QDoQuery to data (fun x => go (k x))
    end.

#[export] Instance EnvProg_ret : MRet EnvProg := @PRet.
#[export] Instance EnvProg_bind : MBind EnvProg := fun A B f =>
  fix go (p : EnvProg A) : EnvProg B :=
    match p with
    | PRet r => f r
    | PPanic => PPanic
    | PDoQuery to data k => PDoQuery to data (fun x => go (k x))
    | PDoExec to data fs k => PDoExec to data fs (fun x => go (k x))
    | PEmitEvent name data k => PEmitEvent name data (fun x => go (k x))
    | PUniqueId k => PUniqueId (fun x => go (k x))
    end.

(** An [Environment] used where an [EnvironmentQuery] is expected. *)
Fixpoint lift_query {R} (p : QueryProg R) : EnvProg R :=
  match p with
  | QRet r => PRet r
  | QPanic => PPanic
  | QDoQuery to data k => PDoQuery to data (fun x => lift_query (k x))
  end.

Definition do_query (to : AccountId) (data : InvokeRequest) : QueryProg (SdkResult InvokeResponse) :=
  QDoQuery to data QRet.
Definition do_exec (to : AccountId) (data : InvokeRequest) (fs : list FungibleAsset)
    : EnvProg (SdkResult InvokeResponse) :=
  PDoExec to data fs PRet.
Definition emit_event (name : string) (data : bytes) : EnvProg (SdkResult unit) :=
  PEmitEvent name data PRet.
Definition unique_id : EnvProg (SdkResult bytes) := PUniqueId PRet.

(** [AccountCode]: the handlers of one kind of account. *)
Record AccountCode := mkAccountCode {
  identifier : string;
  code_init : EnvView -> InvokeRequest -> EnvProg (SdkResult InvokeResponse);
  code_execute : EnvView -> InvokeRequest -> EnvProg (SdkResult InvokeResponse);
  code_query : EnvView -> InvokeRequest -> QueryProg (SdkResult InvokeResponse)
}.

(** [AccountsCodeStorage]: [with_code id f] looks the code up and passes it to [f]. *)
Record AccountsCodeStorage := mkAccountsCodeStorage {
  lookup_code : string -> SdkResult (option AccountCode) }.

Definition with_code {R} (A : AccountsCodeStorage) (id : string) (f : option AccountCode -> R)
    : SdkResult R :=
  code ← lookup_code A id; Ok (f code).

(** [one_coin]. *)
Definition one_coin (env : EnvView) : SdkResult FungibleAsset :=
  match funds env with
  | [c] => Ok (mkFungibleAsset (asset_id c) (amount c))
  | _ => Err ERR_ONE_COIN
  end.

(** ** Typed calls ([low_level.rs]) *)
Section LowLevel.
Context `{SystemCodec}.

Definition exec_account {Req Resp} `{Borsh Req, InvokableMessage Req, Borsh Resp}
    (target : AccountId) (request : Req) (fs : list FungibleAsset) : EnvProg (SdkResult Resp) :=
  let? invoke_request := mret (InvokeRequest.new request) in
  let? resp := do_exec target invoke_request fs in
  mret (InvokeResponse.get resp).

Definition query_account {Req Resp} `{Borsh Req, InvokableMessage Req, Borsh Resp}
    (target : AccountId) (request : Req) : QueryProg (SdkResult Resp) :=
  let? invoke_request := mret (InvokeRequest.new request) in
  let? resp := do_query target invoke_request in
  mret (InvokeResponse.get resp).

Definition create_account {Req Resp} `{Borsh Req, Borsh Resp}
    (code_id : string) (init_msg : Req) (fs : list FungibleAsset)
    : EnvProg (SdkResult (AccountId * Resp)) :=
  let? init_message := mret (Message.new init_msg) in
  let? runtime_response :=
    exec_account (Resp := CreateAccountResponse) RUNTIME_ACCOUNT_ID
      (mkCreateAccountRequest code_id init_message) fs in
  let? r := mret (Message.get (init_response runtime_response)) in
  mret (Ok (new_account_id runtime_response, r)).

Definition migrate_account {Req Resp} `{Borsh Req, InvokableMessage Req, Borsh Resp}
    (target : AccountId) (new_account_code : string) (migrate_request : Req)
    (fs : list FungibleAsset) : EnvProg (SdkResult Resp) :=
  let? inner_request := mret (InvokeRequest.new migrate_request) in
  let? invoke_request :=
    mret (InvokeRequest.new (mkMigrateRequest target new_account_code inner_request)) in
  let? resp := do_exec RUNTIME_ACCOUNT_ID invoke_request fs in
  mret (InvokeResponse.get resp).

Definition register_account_at_id {Req} `{Borsh Req}
    (account_id : AccountId) (code_id : string) (init_msg : Req) : EnvProg (SdkResult unit) :=
  let? init_message := mret (Message.new init_msg) in
  let? _resp :=
    exec_account (Resp := RegisterAccountAtIdResponse) RUNTIME_ACCOUNT_ID
      (mkRegisterAccountAtIdRequest account_id code_id init_message) [] in
  mret (Ok tt).

End LowLevel.

(** ** Facts about identities, encodings and assets *)

Lemma AccountId_as_bytes_length a : length (AccountId.as_bytes a) = 32%nat.
Proof. apply length_vec_to_list. Qed.

#[export] Instance AccountId_as_bytes_inj : Inj (=) (=) AccountId.as_bytes.
Proof. intros [a] [b] H. unfold AccountId.as_bytes in H. cbn in H. f_equal. by apply vec_to_list_inj2. Qed.

Lemma be_value_cons b l : be_value (b :: l) = Z_of_byte b * 256 ^ zlen l + be_value l.
Proof.
  unfold be_value, zlen. rewrite reverse_cons.
  generalize (reverse l) (length_reverse l). intros k <-.
  induction k as [|c k IH]; cbn [le_value app length].
  - rewrite Z.pow_0_r. lia.
  - rewrite Nat2Z.inj_succ, Z.pow_succ_r, IH by lia. lia.
Qed.

Lemma be_value_range l : 0 <= be_value l < 256 ^ zlen l.
Proof.
  unfold be_value. pose proof (le_value_range (reverse l)) as Hr.
  unfold zlen in *. by rewrite length_reverse in Hr.
Qed.

Lemma be_value_inj l k : length l = length k -> be_value l = be_value k -> l = k.
Proof.
  unfold be_value. intros Hl H.
  apply (inj reverse). rewrite <-(le_bytes_value (reverse l)), <-(le_bytes_value (reverse k)).
  by rewrite H, !length_reverse, Hl.
Qed.

(** The carry loop adds one to the big-endian value and reports the wrap. *)
Lemma increase_bytes_spec {n} (v : vec byte n) :
  let '(v', carry) := AccountId.increase_bytes v in
  be_value v + 1 = be_value v' + (if carry then 256 ^ Z.of_nat n else 0).
Proof.
  induction v as [|b n v IH]; cbn [AccountId.increase_bytes]; [done|].
  destruct (AccountId.increase_bytes v) as [v' carry].
  pose proof (Z_of_byte_range b) as Hb.
  assert (Hl : zlen (vec_to_list v) = Z.of_nat n) by (unfold zlen; by rewrite length_vec_to_list).
  assert (Hl' : zlen (vec_to_list v') = Z.of_nat n) by (unfold zlen; by rewrite length_vec_to_list).
  destruct carry; cbn [vec_to_list]; rewrite !be_value_cons, Hl, Hl'; [|lia].
  rewrite Z_of_byte_of_Z. case_bool_decide as Hc; cbv zeta iota.
  - rewrite Hc, Nat2Z.inj_succ, Z.pow_succ_r by lia. change ((255 + 1) mod 256) with 0. lia.
  - rewrite Z.mod_small by lia. lia.
Qed.

Lemma AccountId_increase_value a :
  be_value (AccountId.as_bytes (AccountId.increase a)) =
  (be_value (AccountId.as_bytes a) + 1) mod 2 ^ 256.
Proof.
  unfold AccountId.as_bytes, AccountId.increase. cbn [account_id_bytes].
  pose proof (increase_bytes_spec (account_id_bytes a)) as H.
  destruct (AccountId.increase_bytes (account_id_bytes a)) as [v' c]; cbn [fst].
  pose proof (be_value_range v') as Hr. unfold zlen in Hr. rewrite length_vec_to_list in Hr.
  change (256 ^ Z.of_nat 32) with (2 ^ 256) in *.
  rewrite H. destruct c.
  - rewrite <-(Z.mul_1_l (2 ^ 256)) at 1. rewrite Z.mod_add by lia. by rewrite Z.mod_small.
  - rewrite Z.add_0_r. by rewrite Z.mod_small.
Qed.

Lemma AccountId_from_u64_value n :
  is_u64 n -> be_value (AccountId.as_bytes (AccountId.from_u64 n)) = n.
Proof.
  intros Hn. unfold AccountId.as_bytes, AccountId.from_u64. cbn [account_id_bytes].
  assert (Hz : forall m l, be_value (replicate m x00 ++ l) = be_value l).
  { intros m l. induction m as [|m IH]; cbn [replicate app]; [done|]. rewrite be_value_cons, IH. done. }
  etrans; [exact (f_equal be_value (vec_to_list_to_vec (replicate 24 x00 ++ be_bytes 8 n)))|].
  rewrite Hz, be_value_bytes, Z.mod_small; [done|].
  change (256 ^ Z.of_nat 8) with (u64_max + 1). u_lia.
Qed.

Lemma AccountId_value_inj a b :
  be_value (AccountId.as_bytes a) = be_value (AccountId.as_bytes b) -> a = b.
Proof.
  intros H. apply (inj AccountId.as_bytes). apply be_value_inj; [|done].
  by rewrite !AccountId_as_bytes_length.
Qed.

Lemma AccountId_value_range a : 0 <= be_value (AccountId.as_bytes a) < 2 ^ 256.
Proof.
  pose proof (be_value_range (AccountId.as_bytes a)) as Hr. unfold zlen in Hr.
  by rewrite AccountId_as_bytes_length in Hr.
Qed.

#[export] Instance AccountId_increase_inj : Inj (=) (=) AccountId.increase.
Proof.
  intros a b H. apply AccountId_value_inj.
  apply (f_equal (fun x => be_value (AccountId.as_bytes x))) in H.
  rewrite !AccountId_increase_value in H.
  pose proof (AccountId_value_range a) as Ha. pose proof (AccountId_value_range b) as Hb.
  destruct (decide (be_value (AccountId.as_bytes a) = 2 ^ 256 - 1)) as [Ea|Ea];
  destruct (decide (be_value (AccountId.as_bytes b) = 2 ^ 256 - 1)) as [Eb|Eb].
  - congruence.
  - rewrite Ea, (Z.mod_small (be_value (AccountId.as_bytes b) + 1)) in H by lia. change ((2^256-1+1) mod 2^256) with 0 in H. lia.
  - rewrite Eb, (Z.mod_small (be_value (AccountId.as_bytes a) + 1)) in H by lia. change ((2^256-1+1) mod 2^256) with 0 in H. lia.
  - rewrite !Z.mod_small in H by lia. lia.
Qed.

Lemma Message_get_new {A} `{Borsh A} (a : A) m : Message.new a = Ok m -> Message.get m = Ok a.
Proof.
  unfold Message.new, Message.get, encode_value, decode_value.
  destruct (to_vec a) as [b|] eqn:E; cbn; intros; simplify_eq; cbn.
  by rewrite (from_slice_to_vec _ _ E).
Qed.

Lemma InvokeRequest_get_new {A} `{Borsh A, InvokableMessage A} (a : A) r :
  InvokeRequest.new a = Ok r -> InvokeRequest.get r = Ok a /\ function r = FUNCTION_IDENTIFIER A.
Proof.
  unfold InvokeRequest.new, InvokeRequest.get.
  destruct (Message.new a) as [m|e] eqn:E; cbn; intros; simplify_eq; cbn.
  split; [by apply Message_get_new|done].
Qed.

Lemma InvokeResponse_get_new {A} `{Borsh A} (a : A) r :
  InvokeResponse.new a = Ok r -> InvokeResponse.get r = Ok a.
Proof.
  unfold InvokeResponse.new, InvokeResponse.get.
  destruct (Message.new a) as [m|e] eqn:E; cbn; intros; simplify_eq; cbn.
  by apply Message_get_new.
Qed.

Lemma Message_new_inj {A} `{Borsh A} (a b : A) m :
  Message.new a = Ok m -> Message.new b = Ok m -> a = b.
Proof. intros Ha Hb. apply Message_get_new in Ha, Hb. congruence. Qed.

#[export] Hint Resolve AccountId_as_bytes_length Message_get_new InvokeResponse_get_new : evolve.
