(* ===== verification/Gas.v ===== *)
(** * Gas metering

    Models [crates/app/stf/src/gas.rs]: the per-byte storage charges, and the
    gas counter with its saturating [u64] arithmetic. *)

From S2P Require Import Prelude Core.

Definition ERR_OUT_OF_GAS : ErrorCode := define_error 0x1.

Record StorageGasConfig := mkStorageGasConfig {
  storage_get_charge : Z; storage_set_charge : Z; storage_remove_charge : Z }.

Definition StorageGasConfig_default : StorageGasConfig := mkStorageGasConfig 10 10 10.

Inductive GasCounter :=
| Infinite
| Finite (gas_limit gas_used : Z) (storage_gas_config : StorageGasConfig).

Module GasCounter.

Definition infinite : GasCounter := Infinite.

Definition finite (gas_limit : Z) (config : StorageGasConfig) : GasCounter :=
  Finite gas_limit 0 config.

Definition consume_gas (self : GasCounter) (gas : Z) : SdkResult unit * GasCounter :=
  match self with
  | Infinite => (Ok tt, self)
  | Finite gas_limit gas_used cfg =>
      let new_gas_used := saturating_add u64_max gas_used gas in
      if gas_limit <? new_gas_used then (Err ERR_OUT_OF_GAS, self)
      else (Ok tt, Finite gas_limit new_gas_used cfg)
  end.

Definition consume_get_gas (self : GasCounter) (key : bytes) (value : option Message)
    : SdkResult unit * GasCounter :=
  match self with
  | Infinite => (Ok tt, self)
  | Finite _ _ cfg =>
      let key_len := zlen key in
      let value_len :=
        match value with
        | None => 1
        | Some value => saturating_add u64_max (Message.len value) 1
        end in
      let total_size := saturating_add u64_max (saturating_add u64_max key_len 1) value_len in
      let gas := saturating_mul u64_max (storage_get_charge cfg) total_size in
      consume_gas self gas
  end.

Definition consume_set_gas (self : GasCounter) (key : bytes) (value : Message)
    : SdkResult unit * GasCounter :=
  match self with
  | Infinite => (Ok tt, self)
  | Finite _ _ cfg =>
      let total_size :=
        saturating_add u64_max
          (saturating_add u64_max (saturating_add u64_max (zlen key) 1) (Message.len value)) 1 in
      let gas := saturating_mul u64_max (storage_set_charge cfg) total_size in
      consume_gas self gas
  end.

Definition consume_remove_gas (self : GasCounter) (key : bytes) : SdkResult unit * GasCounter :=
  match self with
  | Infinite => (Ok tt, self)
  | Finite _ _ cfg =>
      let total_size := saturating_add u64_max (zlen key) 1 in
      let gas := saturating_mul u64_max (storage_remove_charge cfg) total_size in
      consume_gas self gas
  end.

Definition gas_used (self : GasCounter) : Z :=
  match self with Infinite => 0 | Finite _ used _ => used end.

End GasCounter.

(** ** Invariant and functional behaviour *)

(** A counter within its limit: what [finite] builds and every charge keeps. *)
Definition gas_wf (g : GasCounter) : Prop :=
  match g with
  | Infinite => True
  | Finite limit used _ => 0 <= used <= limit /\ limit <= u64_max
  end.

Definition config_wf (c : StorageGasConfig) : Prop :=
  is_u64 (storage_get_charge c) /\ is_u64 (storage_set_charge c) /\ is_u64 (storage_remove_charge c).

Definition gas_config_wf (g : GasCounter) : Prop :=
  match g with Infinite => True | Finite _ _ c => config_wf c end.

(** One counter is a later state of another: same mode, limit and charges,
    and no gas was given back. *)
Definition gas_le (g g' : GasCounter) : Prop :=
  match g, g' with
  | Infinite, Infinite => True
  | Finite l u c, Finite l' u' c' => l = l' /\ c = c' /\ u <= u' /\ (u <= l -> u' <= l)
  | _, _ => False
  end.

#[export] Instance gas_le_preorder : PreOrder gas_le.
Proof.
  split.
  - intros []; cbn; [done|]. repeat split; lia.
  - intros [] [] []; cbn; try done. intros (-> & -> & ? & ?) (-> & -> & ? & ?). repeat split; lia.
Qed.

Lemma gas_le_wf g g' : gas_le g g' -> gas_wf g -> gas_wf g'.
Proof. destruct g, g'; cbn; try done. intros (-> & -> & ? & ?) ?. lia. Qed.

Lemma gas_le_config g g' : gas_le g g' -> gas_config_wf g -> gas_config_wf g'.
Proof. destruct g, g'; cbn; try done. by intros (-> & -> & _). Qed.

Lemma gas_le_used g g' : gas_le g g' -> GasCounter.gas_used g <= GasCounter.gas_used g'.
Proof. destruct g, g'; cbn; try done. lia. Qed.

Lemma finite_wf l c : is_u64 l -> gas_wf (GasCounter.finite l c).
Proof. intros. cbn. u_lia. Qed.

Lemma consume_gas_le g n r g' :
  0 <= n -> gas_wf g -> GasCounter.consume_gas g n = (r, g') -> gas_le g g'.
Proof.
  intros Hn Hw. destruct g as [|l u c]; cbn [GasCounter.consume_gas]; [by intros; simplify_eq|].
  destruct (_ <? _) eqn:E; intros; simplify_eq; [reflexivity|]. cbn in *.
  split_and!; try done; u_lia.
Qed.

(** The exact outcome of a charge on a counter whose limit is below the
    saturation point. *)
Lemma consume_gas_exact l u c n :
  0 <= n -> 0 <= u -> l < u64_max ->
  GasCounter.consume_gas (Finite l u c) n =
    if l <? u + n then (Err ERR_OUT_OF_GAS, Finite l u c) else (Ok tt, Finite l (u + n) c).
Proof.
  intros Hn Hu Hl. cbn. unfold saturating_add.
  destruct (Z.ltb_spec l (u + n)), (Z.ltb_spec l (Z.min u64_max (u + n))); try lia; [done|].
  by rewrite Z.min_r by lia.
Qed.

Lemma saturating_mul_nonneg m a b : 0 <= m -> 0 <= a -> 0 <= b -> 0 <= saturating_mul m a b.
Proof. unfold saturating_mul. nia. Qed.

Lemma saturating_add_nonneg m a b : 0 <= m -> 0 <= a -> 0 <= b -> 0 <= saturating_add m a b.
Proof. unfold saturating_add. lia. Qed.

Lemma Message_len_nonneg m : 0 <= Message.len m.
Proof. destruct m as [[b]]. apply zlen_nonneg. Qed.

Lemma u64_max_nonneg : 0 <= u64_max.
Proof. done. Qed.

#[export] Hint Resolve saturating_mul_nonneg saturating_add_nonneg Message_len_nonneg
  u64_max_nonneg Z.le_0_1 : evolve.

Ltac solve_charge :=
  intros; match goal with H : gas_config_wf ?g |- _ => destruct g as [|l u c] end;
  [by simplify_eq/= |
   match goal with H : gas_config_wf (Finite _ _ _) |- _ => destruct H as (Hg & Hs & Hr) end;
   eapply consume_gas_le; [| eassumption | eassumption];
   unfold is_u64 in *; destruct_and?; cbv zeta;
   repeat match goal with |- context [match ?v with Some _ => _ | None => _ end] => destruct v end;
   auto 10 with evolve].

Lemma consume_get_gas_le g k v r g' :
  gas_config_wf g -> gas_wf g -> GasCounter.consume_get_gas g k v = (r, g') -> gas_le g g'.
Proof. solve_charge. Qed.

Lemma consume_set_gas_le g k v r g' :
  gas_config_wf g -> gas_wf g -> GasCounter.consume_set_gas g k v = (r, g') -> gas_le g g'.
Proof. solve_charge. Qed.

Lemma consume_remove_gas_le g k r g' :
  gas_config_wf g -> gas_wf g -> GasCounter.consume_remove_gas g k = (r, g') -> gas_le g g'.
Proof. solve_charge. Qed.
