(* ===== verification/Collections.v ===== *)
(** * Collections and account code

    The storage collections of the SDK, and the account code that the
    [account_impl] macro generates. *)

From S2P Require Import Prelude Core.

Open Scope evolve_scope.

(** ** Storage collections

    Models [crates/app/sdk/collections/src]: [Map], [Item], [Vector], [Queue]
    and [UnorderedMap], as programs over the environment (every operation is a
    request to the storage account). *)

Definition ERR_NOT_FOUND : ErrorCode := define_error 0x01.
Definition ERR_EMPTY : ErrorCode := define_error 0x02.
Definition ERR_DATA_CORRUPTION : ErrorCode := define_error 0x03.
Definition ERR_VALUE_MISSING : ErrorCode := define_error 0x04.
Definition ERR_KEY_MISSING : ErrorCode := define_error 0x05.

(** Machine integers with a borsh encoding of their own width. *)
Definition U64 : Set := Z.
Definition U128 : Set := Z.
#[global] Typeclasses Opaque U64 U128.

(** [unwrap_or(0)], [unwrap_or_default()]. *)
Definition unwrap_or_zero (o : option U64) : U64 := default 0 o.

(** Arithmetic and comparison of [u64] values, wrapping. *)
Definition u64_add (a b : U64) : U64 := wrap64 (a + b).
Definition u64_sub (a b : U64) : U64 := wrap64 (a - b).
Definition u64_eqb (a b : U64) : bool := a =? b.
Definition u64_leb (a b : U64) : bool := a <=? b.
Definition u64_ltb (a b : U64) : bool := a <? b.

(** What borsh gives the collections: [u64] and the unit key of [Item]. *)
Class CollectionCodec := {
  coll_u64 :: Borsh U64;
  coll_unit :: Borsh unit;
  u64_in_range : forall b n, from_slice (A := U64) b = Some n -> is_u64 n
}.

(** ** [map.rs] *)
Record Map (K V : Type) := mkMap { map_prefix : byte }.
Arguments mkMap {K V} _.
Arguments map_prefix {K V} _.

Module Map.
Section Methods.
Context `{SystemCodec} {K V : Type} `{Borsh K} `{Borsh V} (self : Map K V).

Definition make_key (key : K) : SdkResult bytes :=
  match encode_value key with
  | Ok b => Ok (map_prefix self :: b)
  | Err e => Err e
  end.

Definition set (key : K) (value : V) : EnvProg (SdkResult unit) :=
  let? key_bytes := mret (make_key key) in
  let? value := mret (Message.new value) in
  let? request := mret (InvokeRequest.new (mkStorageSetRequest key_bytes value)) in
  do? do_exec STORAGE_ACCOUNT_ID request [] in
  mret (Ok tt).

Definition may_get (key : K) (env : EnvView) : QueryProg (SdkResult (option V)) :=
  let? bytes_key := mret (make_key key) in
  let? request := mret (InvokeRequest.new (mkStorageGetRequest (whoami env) bytes_key)) in
  let? response := do_query STORAGE_ACCOUNT_ID request in
  let? resp := mret (InvokeResponse.get (A := StorageGetResponse) response) in
  match get_value resp with
  | None => mret (Ok None)
  | Some v => let? value := mret (Message.get v) in mret (Ok (Some value))
  end.

Definition get (key : K) (env : EnvView) : QueryProg (SdkResult V) :=
  let? o := may_get key env in
  mret (ok_or o ERR_NOT_FOUND).

Definition exists_ (key : K) (env : EnvView) : QueryProg (SdkResult bool) :=
  let? v := may_get key env in
  mret (Ok (bool_decide (is_Some v))).

Definition remove (key : K) : EnvProg (SdkResult unit) :=
  let? key_bytes := mret (make_key key) in
  let? request := mret (InvokeRequest.new (mkStorageRemoveRequest key_bytes)) in
  do? do_exec STORAGE_ACCOUNT_ID request [] in
  mret (Ok tt).

Definition update (key : K) (update_fn : option V -> SdkResult V) (env : EnvView)
    : EnvProg (SdkResult V) :=
  let? old_value := lift_query (may_get key env) in
  let? new_value := mret (update_fn old_value) in
  do? set key new_value in
  mret (Ok new_value).

End Methods.
End Map.

(** ** [item.rs]: a map with one key *)
Definition Item (V : Type) : Type := Map unit V.

Module Item.
Section Methods.
Context `{SystemCodec} `{CollectionCodec} {V : Type} `{Borsh V} (self : Item V).

Definition may_get (env : EnvView) : QueryProg (SdkResult (option V)) := Map.may_get self tt env.

Definition get (env : EnvView) : QueryProg (SdkResult V) :=
  let? o := may_get env in
  mret (ok_or o ERR_NOT_FOUND).

Definition set (value : V) : EnvProg (SdkResult unit) := Map.set self tt value.

Definition update (update_fn : option V -> SdkResult V) (env : EnvView) : EnvProg (SdkResult V) :=
  Map.update self tt update_fn env.

Definition remove : EnvProg (SdkResult unit) := Map.remove self tt.

End Methods.
End Item.

(** ** [vector.rs] *)
Record Vector (V : Type) := mkVector { vec_index : Item U64; vec_elems : Map U64 V }.
Arguments mkVector {V} _ _.
Arguments vec_index {V} _.
Arguments vec_elems {V} _.

Module Vector.
Section Methods.
Context `{SystemCodec} `{CollectionCodec} {V : Type} `{Borsh V}.

Definition new (index_prefix elems_prefix : byte) : Vector V :=
  mkVector (mkMap index_prefix) (mkMap elems_prefix).

Context (self : Vector V).

Definition may_get (index : U64) (env : EnvView) : QueryProg (SdkResult (option V)) :=
  Map.may_get (vec_elems self) index env.

Definition get (index : U64) (env : EnvView) : QueryProg (SdkResult V) :=
  Map.get (vec_elems self) index env.

Definition push (item : V) (env : EnvView) : EnvProg (SdkResult unit) :=
  let? o := lift_query (Item.may_get (vec_index self) env) in
  let index := unwrap_or_zero o in
  do? Map.set (vec_elems self) index item in
  do? Item.set (vec_index self) (u64_add index 1) in
  mret (Ok tt).

(** The loop of [extend], which gives the index after the last item. *)
Fixpoint extend_loop (index : U64) (iter : list V) : EnvProg (SdkResult U64) :=
  match iter with
  | [] => mret (Ok index)
  | item :: iter =>
      do? Map.set (vec_elems self) index item in
      extend_loop (u64_add index 1) iter
  end.

Definition extend (iter : list V) (env : EnvView) : EnvProg (SdkResult unit) :=
  let? o := lift_query (Item.may_get (vec_index self) env) in
  let? index := extend_loop (unwrap_or_zero o) iter in
  do? Item.set (vec_index self) index in
  mret (Ok tt).

Definition pop (env : EnvView) : EnvProg (SdkResult (option V)) :=
  let? o := lift_query (Item.may_get (vec_index self) env) in
  match o with
  | Some index =>
      let? value := lift_query (Map.get (vec_elems self) (u64_sub index 1) env) in
      do? (if u64_eqb index 1 then Item.remove (vec_index self)
           else Item.set (vec_index self) (u64_sub index 1)) in
      mret (Ok (Some value))
  | None => mret (Ok None)
  end.

Definition len (env : EnvView) : QueryProg (SdkResult U64) :=
  let? o := Item.may_get (vec_index self) env in
  mret (Ok (unwrap_or_zero o)).

(** [iter]: the first index and the length. *)
Definition iter (env : EnvView) : QueryProg (SdkResult (U64 * U64)) :=
  let? length := len env in
  mret (Ok (0 : U64, length)).

(** [VectorIter::next] from [index] of [length]: the item and the next index. *)
Definition iter_next (length index : U64) (env : EnvView)
    : QueryProg (option (SdkResult V) * U64) :=
  if u64_leb length index then mret (None, index)
  else
    result ← get index env;
    mret (Some result, u64_add index 1).

End Methods.
End Vector.

(** ** [queue.rs] *)
Record Queue (V : Type) := mkQueue {
  queue_front : Item U64; queue_back : Item U64; queue_items : Map U64 V }.
Arguments mkQueue {V} _ _ _.
Arguments queue_front {V} _.
Arguments queue_back {V} _.
Arguments queue_items {V} _.

Module Queue.
Section Methods.
Context `{SystemCodec} `{CollectionCodec} {V : Type} `{Borsh V}.

Definition new (front_prefix back_prefix items_prefix : byte) : Queue V :=
  mkQueue (mkMap front_prefix) (mkMap back_prefix) (mkMap items_prefix).

Context (self : Queue V).

Definition get_back (env : EnvView) : QueryProg (SdkResult U64) :=
  let? o := Item.may_get (queue_back self) env in
  mret (Ok (unwrap_or_zero o)).

Definition get_front (env : EnvView) : QueryProg (SdkResult U64) :=
  let? o := Item.may_get (queue_front self) env in
  mret (Ok (unwrap_or_zero o)).

Definition push_back (item : V) (env : EnvView) : EnvProg (SdkResult unit) :=
  let? back := lift_query (get_back env) in
  do? Map.set (queue_items self) back item in
  do? Item.set (queue_back self) (u64_add back 1) in
  mret (Ok tt).

Definition pop_front (env : EnvView) : EnvProg (SdkResult V) :=
  let? front := lift_query (get_front env) in
  let? back := lift_query (get_back env) in
  if u64_eqb front back then mret (Err ERR_EMPTY)
  else
    let? item := lift_query (Map.get (queue_items self) front env) in
    do? Map.remove (queue_items self) front in
    do? Item.set (queue_front self) (u64_add front 1) in
    mret (Ok item).

Definition pop_back (env : EnvView) : EnvProg (SdkResult V) :=
  let? front := lift_query (get_front env) in
  let? back := lift_query (get_back env) in
  if u64_eqb back front then mret (Err ERR_EMPTY)
  else
    let last_index := u64_sub back 1 in
    let? item := lift_query (Map.get (queue_items self) last_index env) in
    do? Map.remove (queue_items self) last_index in
    do? Item.set (queue_back self) last_index in
    mret (Ok item).

Definition is_empty (env : EnvView) : QueryProg (SdkResult bool) :=
  let? front := get_front env in
  let? back := get_back env in
  mret (Ok (u64_eqb front back)).

(** [iter]: the first index and the end; [QueueIter::next] from [index]. *)
Definition iter (env : EnvView) : QueryProg (SdkResult (U64 * U64)) :=
  let? front := get_front env in
  let? back := get_back env in
  mret (Ok (front, back)).

Definition iter_next (end_ index : U64) (env : EnvView)
    : QueryProg (option (SdkResult V) * U64) :=
  if u64_leb end_ index then mret (None, index)
  else
    item_result ← Map.may_get (queue_items self) index env;
    let index := u64_add index 1 in
    match item_result with
    | Ok (Some item) => mret (Some (Ok item), index)
    | Ok None => mret (Some (Err ERR_DATA_CORRUPTION), index)
    | Err e => mret (Some (Err e), index)
    end.

End Methods.
End Queue.

(** ** [unordered_map.rs] *)
Record UnorderedMap (K V : Type) := mkUnorderedMap {
  um_index_map : Map K U64; um_keys_vec : Vector K; um_values_map : Map K V }.
Arguments mkUnorderedMap {K V} _ _ _.
Arguments um_index_map {K V} _.
Arguments um_keys_vec {K V} _.
Arguments um_values_map {K V} _.

Module UnorderedMap.
Section Methods.
Context `{SystemCodec} `{CollectionCodec} {K V : Type} `{Borsh K} `{Borsh V}.

Definition new (index_map_prefix keys_vec_index_prefix keys_vec_elems_prefix values_map_prefix : byte)
    : UnorderedMap K V :=
  mkUnorderedMap (mkMap index_map_prefix) (Vector.new keys_vec_index_prefix keys_vec_elems_prefix)
    (mkMap values_map_prefix).

Context (self : UnorderedMap K V).

Definition len (env : EnvView) : QueryProg (SdkResult U64) := Vector.len (um_keys_vec self) env.

Definition is_empty (env : EnvView) : QueryProg (SdkResult bool) :=
  let? n := len env in
  mret (Ok (u64_eqb n 0)).

Definition may_get (key : K) (env : EnvView) : QueryProg (SdkResult (option V)) :=
  Map.may_get (um_values_map self) key env.

Definition get (key : K) (env : EnvView) : QueryProg (SdkResult V) :=
  Map.get (um_values_map self) key env.

Definition insert (key : K) (value : V) (env : EnvView) : EnvProg (SdkResult (option V)) :=
  let? index := lift_query (Map.may_get (um_index_map self) key env) in
  match index with
  | Some _ =>
      let? old_value := lift_query (Map.get (um_values_map self) key env) in
      do? Map.set (um_values_map self) key value in
      mret (Ok (Some old_value))
  | None =>
      let? new_index := lift_query (Vector.len (um_keys_vec self) env) in
      do? Vector.push (um_keys_vec self) key env in
      do? Map.set (um_index_map self) key new_index in
      do? Map.set (um_values_map self) key value in
      mret (Ok None)
  end.

Definition remove (key : K) (env : EnvView) : EnvProg (SdkResult (option V)) :=
  let? index := lift_query (Map.may_get (um_index_map self) key env) in
  match index with
  | None => mret (Ok None)
  | Some removed_index =>
      do? Map.remove (um_index_map self) key in
      let? old_value := lift_query (Map.get (um_values_map self) key env) in
      do? Map.remove (um_values_map self) key in
      let? n := lift_query (Vector.len (um_keys_vec self) env) in
      let last_index := u64_sub n 1 in
      do? (if u64_ltb removed_index last_index then
             let? last_key := lift_query (Vector.get (um_keys_vec self) last_index env) in
             do? Map.set (vec_elems (um_keys_vec self)) removed_index last_key in
             do? Map.set (um_index_map self) last_key removed_index in
             mret (Ok tt)
           else mret (Ok tt)) in
      do? Vector.pop (um_keys_vec self) env in
      mret (Ok (Some old_value))
  end.

Definition update (key : K) (update_fn : option V -> SdkResult V) (env : EnvView)
    : EnvProg (SdkResult V) :=
  let? old_value := lift_query (may_get key env) in
  let? new_value := mret (update_fn old_value) in
  do? insert key new_value env in
  mret (Ok new_value).

(** [iter]: the first index and the length. *)
Definition iter (env : EnvView) : QueryProg (SdkResult (U64 * U64)) :=
  let? length := len env in
  mret (Ok (0 : U64, length)).

(** [UnorderedMapIter::next] from [index] of [length]. *)
Definition iter_next (length index : U64) (env : EnvView)
    : QueryProg (option (SdkResult (K * V)) * U64) :=
  if u64_leb length index then mret (None, index)
  else
    maybe_key ← Vector.may_get (um_keys_vec self) index env;
    let index := u64_add index 1 in
    match maybe_key with
    | Ok (Some k) =>
        v ← Map.may_get (um_values_map self) k env;
        match v with
        | Ok (Some v) => mret (Some (Ok (k, v)), index)
        | Ok None => mret (Some (Err ERR_VALUE_MISSING), index)
        | Err e => mret (Some (Err e), index)
        end
    | Ok None => mret (Some (Err ERR_KEY_MISSING), index)
    | Err e => mret (Some (Err e), index)
    end.

End Methods.
End UnorderedMap.

(** ** The [account_impl] macro

    Models the [AccountCode] implementation that
    [crates/app/sdk/macros/src/lib.rs] generates from the annotated methods of
    an account: one dispatch arm per [#[init]], [#[exec]] and [#[query]]
    method. *)

(** [generate_init_arm] and [generate_exec_match_arm]: decode the message,
    refuse funds unless the method is payable, call, encode the response. *)
Definition exec_arm {Msg Resp} `{Borsh Msg} `{Borsh Resp} (payable : bool)
    (method : Msg -> EnvView -> EnvProg (SdkResult Resp)) (env : EnvView) (request : InvokeRequest)
    : EnvProg (SdkResult InvokeResponse) :=
  let? msg := mret (InvokeRequest.get request) in
  if negb payable && negb (bool_decide (funds env = [])) then mret (Err ERR_NOT_PAYABLE)
  else
    let? resp := method msg env in
    mret (InvokeResponse.new resp).

(** A query arm of [generate_accountcode_impl]. *)
Definition query_arm {Msg Resp} `{Borsh Msg} `{Borsh Resp}
    (method : Msg -> EnvView -> QueryProg (SdkResult Resp)) (env : EnvView) (request : InvokeRequest)
    : QueryProg (SdkResult InvokeResponse) :=
  let? msg := mret (InvokeRequest.get request) in
  let? resp := method msg env in
  mret (InvokeResponse.new resp).

(** [match request.function() { arms, _ => Err(ERR_UNKNOWN_FUNCTION) }]: the
    first arm with the identifier of the request. *)
Fixpoint dispatch {P : Type -> Type} `{MRet P}
    (arms : list (Z * (EnvView -> InvokeRequest -> P (SdkResult InvokeResponse))))
    (env : EnvView) (request : InvokeRequest) : P (SdkResult InvokeResponse) :=
  match arms with
  | [] => mret (Err ERR_UNKNOWN_FUNCTION)
  | (id, arm) :: arms =>
      if function request =? id then arm env request else dispatch arms env request
  end.
