(* ===== verification/ExecState.v ===== *)
(** * The execution state: overlay, undo log and checkpoints

    Models [crates/app/stf/src/execution_state.rs] (and the error codes of
    [errors.rs]). The read-only base store is a function from keys to read
    results; the overlay [HashMap] is a finite map; the undo log and the event
    log are lists in push order. Every operation returns the state it leaves
    behind together with its result, so that error paths are explicit. *)

From S2P Require Import Prelude Core.

(** ** Error codes ([errors.rs]) *)
Definition ERR_ACCOUNT_DOES_NOT_EXIST : ErrorCode := define_error 0x1.
Definition ERR_CODE_NOT_FOUND : ErrorCode := define_error 0x2.
Definition ERR_EXEC_IN_QUERY : ErrorCode := define_error 0x3.
Definition ERR_TOO_MANY_OBJECTS : ErrorCode := define_error 0x4.
Definition ERR_INVALID_CODE_ID : ErrorCode := define_error 0x5.
Definition ERR_EVENT_NAME_TOO_LONG : ErrorCode := define_error 0x6.
Definition ERR_EVENT_CONTENT_TOO_LARGE : ErrorCode := define_error 0x7.
Definition ERR_SAME_CODE_MIGRATION : ErrorCode := define_error 0x8.
Definition ERR_FUNDS_TO_SYSTEM_ACCOUNT : ErrorCode := define_error 0x9.
Definition ERR_OVERLAY_SIZE_EXCEEDED : ErrorCode := define_error 0x0A.
Definition ERR_TOO_MANY_EVENTS : ErrorCode := define_error 0x10.
Definition ERR_KEY_TOO_LARGE : ErrorCode := define_error 0x11.
Definition ERR_VALUE_TOO_LARGE : ErrorCode := define_error 0x12.
Definition ERR_INVALID_CHECKPOINT : ErrorCode := define_error 0x13.
Definition ERR_CALL_DEPTH_EXCEEDED : ErrorCode := define_error 0x14.

(** ** Limits *)
Definition MAX_OVERLAY_ENTRIES : Z := 100000.
Definition MAX_EVENTS_PER_EXECUTION : Z := 10000.
Definition MAX_KEY_SIZE : Z := MAX_STORAGE_KEY_SIZE.
Definition MAX_VALUE_SIZE : Z := 1024 * 1024.

(** ** Metrics

    [ExecutionMetricsCounter] holds one [Cell] per field of [ExecutionMetrics];
    its [snapshot] copies them, so one record stands for both. *)
Record ExecutionMetrics := mkExecutionMetrics {
  storage_reads : Z; storage_writes : Z; events_emitted : Z; checkpoints : Z;
  restores : Z; overlay_len_max : Z; undo_log_len_max : Z }.

Module ExecutionMetrics.

Definition default : ExecutionMetrics := mkExecutionMetrics 0 0 0 0 0 0 0.

Definition delta (self before : ExecutionMetrics) : ExecutionMetrics :=
  mkExecutionMetrics
    (saturating_sub (storage_reads self) (storage_reads before))
    (saturating_sub (storage_writes self) (storage_writes before))
    (saturating_sub (events_emitted self) (events_emitted before))
    (saturating_sub (checkpoints self) (checkpoints before))
    (saturating_sub (restores self) (restores before))
    (saturating_sub (overlay_len_max self) (overlay_len_max before))
    (saturating_sub (undo_log_len_max self) (undo_log_len_max before)).

Definition inc_storage_reads (m : ExecutionMetrics) : ExecutionMetrics :=
  mkExecutionMetrics (wrap64 (storage_reads m + 1)) (storage_writes m) (events_emitted m)
    (checkpoints m) (restores m) (overlay_len_max m) (undo_log_len_max m).

Definition inc_storage_writes (m : ExecutionMetrics) : ExecutionMetrics :=
  mkExecutionMetrics (storage_reads m) (wrap64 (storage_writes m + 1)) (events_emitted m)
    (checkpoints m) (restores m) (overlay_len_max m) (undo_log_len_max m).

Definition inc_events (m : ExecutionMetrics) : ExecutionMetrics :=
  mkExecutionMetrics (storage_reads m) (storage_writes m) (wrap64 (events_emitted m + 1))
    (checkpoints m) (restores m) (overlay_len_max m) (undo_log_len_max m).

Definition inc_checkpoints (m : ExecutionMetrics) : ExecutionMetrics :=
  mkExecutionMetrics (storage_reads m) (storage_writes m) (events_emitted m)
    (wrap64 (checkpoints m + 1)) (restores m) (overlay_len_max m) (undo_log_len_max m).

Definition inc_restores (m : ExecutionMetrics) : ExecutionMetrics :=
  mkExecutionMetrics (storage_reads m) (storage_writes m) (events_emitted m)
    (checkpoints m) (wrap64 (restores m + 1)) (overlay_len_max m) (undo_log_len_max m).

Definition update_overlay_max (value : Z) (m : ExecutionMetrics) : ExecutionMetrics :=
  if overlay_len_max m <? value then
    mkExecutionMetrics (storage_reads m) (storage_writes m) (events_emitted m)
      (checkpoints m) (restores m) value (undo_log_len_max m)
  else m.

Definition update_undo_log_max (value : Z) (m : ExecutionMetrics) : ExecutionMetrics :=
  if undo_log_len_max m <? value then
    mkExecutionMetrics (storage_reads m) (storage_writes m) (events_emitted m)
      (checkpoints m) (restores m) (overlay_len_max m) value
  else m.

End ExecutionMetrics.

(** ** The undo log *)

Abbreviation Overlay := (gmap bytes (option Message)).

Inductive StateChange :=
| ChangeSet (key : bytes) (had_overlay_entry : bool)
    (previous_overlay_value : option (option Message))
| ChangeRemove (key : bytes) (had_overlay_entry : bool)
    (previous_overlay_value : option (option Message)).

Definition revert (self : StateChange) (overlay : Overlay) : Overlay :=
  match self with
  | ChangeSet key had_overlay_entry previous_overlay_value =>
      if had_overlay_entry then
        match previous_overlay_value with
        | Some prev_value => <[key := prev_value]> overlay
        | None => overlay
        end
      else delete key overlay
  | ChangeRemove key had_overlay_entry previous_overlay_value =>
      if had_overlay_entry then
        match previous_overlay_value with
        | Some prev_value => <[key := prev_value]> overlay
        | None => overlay
        end
      else delete key overlay
  end.

Record Checkpoint := mkCheckpoint {
  undo_log_index : Z; events_index : Z; unique_objects_created : Z }.

(** ** The state *)
Record ExecutionState := mkExecutionState {
  base_storage : bytes -> SdkResult (option bytes);
  overlay : Overlay;
  undo_log : list StateChange;
  events : list Event;
  unique_objects : Z;
  metrics : ExecutionMetrics }.

(** [CoreStateChange], the change type handed to the storage layer
    ([stf_traits/src/lib.rs]). *)
Inductive CoreStateChange :=
| CoreSet (key value : bytes)
| CoreRemove (key : bytes).

Definition change_key (change : CoreStateChange) : bytes :=
  match change with CoreSet key _ => key | CoreRemove key => key end.

Inductive BatchOp := BatchSet (value : Message) | BatchRemove.
Record BatchOperation := mkBatchOperation { op_key : bytes; operation : BatchOp }.

(** Lexicographic order on byte strings ([Ord] for [[u8]]). *)
Fixpoint bytes_leb (a b : bytes) : bool :=
  match a, b with
  | [], _ => true
  | _ :: _, [] => false
  | x :: a, y :: b =>
      if Z_of_byte x <? Z_of_byte y then true
      else if Z_of_byte y <? Z_of_byte x then false
      else bytes_leb a b
  end.

Definition change_le (a b : CoreStateChange) : Prop :=
  bytes_leb (change_key a) (change_key b) = true.

#[export] Instance change_le_dec : RelDecision change_le.
Proof. intros a b. unfold change_le. apply _. Defined.

Module ExecutionState.

Definition new (base : bytes -> SdkResult (option bytes)) : ExecutionState :=
  mkExecutionState base ∅ [] [] 0 ExecutionMetrics.default.

Definition with_metrics (f : ExecutionMetrics -> ExecutionMetrics) (self : ExecutionState) :=
  mkExecutionState (base_storage self) (overlay self) (undo_log self) (events self)
    (unique_objects self) (f (metrics self)).

Definition overlay_len (self : ExecutionState) : Z := Z.of_nat (size (overlay self)).

Definition emit_event (self : ExecutionState) (event : Event) : SdkResult unit * ExecutionState :=
  if MAX_EVENTS_PER_EXECUTION <=? zlen (events self) then (Err ERR_TOO_MANY_EVENTS, self)
  else
    (Ok tt,
     mkExecutionState (base_storage self) (overlay self) (undo_log self)
       (events self ++ [event]) (unique_objects self)
       (ExecutionMetrics.inc_events (metrics self))).

Definition pop_events (self : ExecutionState) : list Event * ExecutionState :=
  (events self,
   mkExecutionState (base_storage self) (overlay self) (undo_log self) []
     (unique_objects self) (metrics self)).

Definition next_unique_object_id (self : ExecutionState) : Z * ExecutionState :=
  let id := wrap64 (unique_objects self + 1) in
  (id,
   mkExecutionState (base_storage self) (overlay self) (undo_log self) (events self) id
     (metrics self)).

Definition created_unique_objects (self : ExecutionState) : Z := unique_objects self.

Definition metrics_snapshot (self : ExecutionState) : ExecutionMetrics := metrics self.

(** The overlay is turned into changes in whatever order the hash map yields
    its entries, then sorted by key. *)
Definition change_of_entry (e : bytes * option Message) : SdkResult CoreStateChange :=
  match e with
  | (key, Some value) => v ← Message.into_bytes value; Ok (CoreSet key v)
  | (key, None) => Ok (CoreRemove key)
  end.

Definition changes_of_entries (entries : list (bytes * option Message))
    : SdkResult (list CoreStateChange) :=
  changes ← mapM change_of_entry entries;
  Ok (merge_sort change_le changes).

Definition into_changes (self : ExecutionState) : SdkResult (list CoreStateChange) :=
  changes_of_entries (map_to_list (overlay self)).

Definition get_overlay_ref (self : ExecutionState) (key : bytes) : option (option Message) :=
  overlay self !! key.

Definition get (self : ExecutionState) (key : bytes)
    : SdkResult (option Message) * ExecutionState :=
  let self := with_metrics ExecutionMetrics.inc_storage_reads self in
  (match overlay self !! key with
   | Some (Some msg) => Ok (Some msg)
   | Some None => Ok None
   | None =>
       match base_storage self key with
       | Ok value => Ok (Message.from_bytes <$> value)
       | Err e => Err e
       end
   end, self).

(** The bookkeeping at the end of [set] and [remove]. *)
Definition after_write (self : ExecutionState) : ExecutionState :=
  with_metrics (fun m =>
    ExecutionMetrics.update_overlay_max (overlay_len self)
      (ExecutionMetrics.update_undo_log_max (zlen (undo_log self))
        (ExecutionMetrics.inc_storage_writes m))) self.

Definition set (self : ExecutionState) (key : bytes) (value : Message)
    : SdkResult unit * ExecutionState :=
  if MAX_KEY_SIZE <? zlen key then (Err ERR_KEY_TOO_LARGE, self)
  else if MAX_VALUE_SIZE <? Message.len value then (Err ERR_VALUE_TOO_LARGE, self)
  else
    let len := overlay_len self in
    match overlay self !! key with
    | Some previous =>
        (Ok tt, after_write
          (mkExecutionState (base_storage self) (<[key := Some value]> (overlay self))
            (undo_log self ++ [ChangeSet key true (Some previous)])
            (events self) (unique_objects self) (metrics self)))
    | None =>
        if MAX_OVERLAY_ENTRIES <=? len then (Err ERR_OVERLAY_SIZE_EXCEEDED, self)
        else
          (Ok tt, after_write
            (mkExecutionState (base_storage self) (<[key := Some value]> (overlay self))
              (undo_log self ++ [ChangeSet key false None])
              (events self) (unique_objects self) (metrics self)))
    end.

Definition remove (self : ExecutionState) (key : bytes) : SdkResult unit * ExecutionState :=
  if MAX_KEY_SIZE <? zlen key then (Err ERR_KEY_TOO_LARGE, self)
  else
    let len := overlay_len self in
    match overlay self !! key with
    | Some previous =>
        (Ok tt, after_write
          (mkExecutionState (base_storage self) (<[key := None]> (overlay self))
            (undo_log self ++ [ChangeRemove key true (Some previous)])
            (events self) (unique_objects self) (metrics self)))
    | None =>
        if MAX_OVERLAY_ENTRIES <=? len then (Err ERR_OVERLAY_SIZE_EXCEEDED, self)
        else
          (Ok tt, after_write
            (mkExecutionState (base_storage self) (<[key := None]> (overlay self))
              (undo_log self ++ [ChangeRemove key false None])
              (events self) (unique_objects self) (metrics self)))
    end.

Definition checkpoint (self : ExecutionState) : Checkpoint * ExecutionState :=
  (mkCheckpoint (zlen (undo_log self)) (zlen (events self)) (unique_objects self),
   with_metrics ExecutionMetrics.inc_checkpoints self).

(** The loop of [restore]: while the log is longer than the checkpoint, pop
    its last change and revert it. [n] counts the iterations left. *)
Fixpoint restore_loop (n : nat) (log : list StateChange) (ov : Overlay)
    : list StateChange * Overlay :=
  match n with
  | O => (log, ov)
  | S n =>
      match last log with
      | Some change => restore_loop n (take (length log - 1) log) (revert change ov)
      | None => (log, ov)
      end
  end.

Definition restore (self : ExecutionState) (c : Checkpoint) : SdkResult unit * ExecutionState :=
  if (zlen (undo_log self) <? undo_log_index c) || (zlen (events self) <? events_index c)
  then (Err ERR_INVALID_CHECKPOINT, self)
  else
    let '(log, ov) :=
      restore_loop (Z.to_nat (zlen (undo_log self) - undo_log_index c)) (undo_log self)
        (overlay self) in
    (Ok tt,
     mkExecutionState (base_storage self) ov log
       (take (Z.to_nat (events_index c)) (events self)) (unique_objects_created c)
       (ExecutionMetrics.inc_restores (metrics self))).

(** First pass of [apply_batch]: validate every operation and count the ones
    whose key has no overlay entry yet. *)
Fixpoint batch_validate (ov : Overlay) (new_keys_count : Z) (ops : list BatchOperation)
    : SdkResult Z :=
  match ops with
  | [] => Ok new_keys_count
  | op :: ops =>
      if MAX_KEY_SIZE <? zlen (op_key op) then Err ERR_KEY_TOO_LARGE
      else
        let new_keys_count :=
          if bool_decide (is_Some (ov !! op_key op)) then new_keys_count else new_keys_count + 1 in
        match operation op with
        | BatchSet value =>
            if MAX_VALUE_SIZE <? Message.len value then Err ERR_VALUE_TOO_LARGE
            else batch_validate ov new_keys_count ops
        | BatchRemove => batch_validate ov new_keys_count ops
        end
  end.

(** Second pass: one iteration of the applying loop. *)
Definition batch_apply_one (self : ExecutionState) (op : BatchOperation) : ExecutionState :=
  let had_overlay_entry := bool_decide (is_Some (overlay self !! op_key op)) in
  let previous_overlay_value := if had_overlay_entry then overlay self !! op_key op else None in
  match operation op with
  | BatchSet value =>
      mkExecutionState (base_storage self) (<[op_key op := Some value]> (overlay self))
        (undo_log self ++ [ChangeSet (op_key op) had_overlay_entry previous_overlay_value])
        (events self) (unique_objects self) (ExecutionMetrics.inc_storage_writes (metrics self))
  | BatchRemove =>
      mkExecutionState (base_storage self) (<[op_key op := None]> (overlay self))
        (undo_log self ++ [ChangeRemove (op_key op) had_overlay_entry previous_overlay_value])
        (events self) (unique_objects self) (ExecutionMetrics.inc_storage_writes (metrics self))
  end.

Definition apply_batch (self : ExecutionState) (operations : list BatchOperation)
    : SdkResult unit * ExecutionState :=
  match batch_validate (overlay self) 0 operations with
  | Err e => (Err e, self)
  | Ok new_keys_count =>
      if MAX_OVERLAY_ENTRIES <? overlay_len self + new_keys_count
      then (Err ERR_OVERLAY_SIZE_EXCEEDED, self)
      else
        let self := foldl batch_apply_one self operations in
        (Ok tt,
         with_metrics (fun m =>
           ExecutionMetrics.update_overlay_max (overlay_len self)
             (ExecutionMetrics.update_undo_log_max (zlen (undo_log self)) m)) self)
  end.

(** [ReadonlyKV for ExecutionState]. *)
Definition kv_get (self : ExecutionState) (key : bytes)
    : SdkResult (option bytes) * ExecutionState :=
  let '(r, self) := get self key in
  (match r with
   | Ok None => Ok None
   | Ok (Some m) => b ← Message.into_bytes m; Ok (Some b)
   | Err e => Err e
   end, self).

End ExecutionState.
