(* ===== verification/ExecStateFacts.v ===== *)
(** * The execution state: rollback, refinement and determinism

    The correctness of [ExecState]: what a restore gives back, the refinement
    of the undo log against a specification that copies the state at every
    checkpoint, the batch path against one-by-one writes, and the changes
    handed to the storage layer. *)

From S2P Require Import Prelude Core ExecState.

(** ** Equality up to metrics

    Metrics are observations only: they are never rolled back, and no result
    depends on them. Two states that differ only there are equivalent. *)
Definition st_core (s : ExecutionState) :=
  (base_storage s, overlay s, undo_log s, events s, unique_objects s).

Definition st_equiv (s t : ExecutionState) : Prop := st_core s = st_core t.

Infix "≈" := st_equiv (at level 70, no associativity) : evolve_scope.

#[export] Instance st_equiv_equivalence : Equivalence st_equiv.
Proof. unfold st_equiv. split; [intros ?; done | intros ?? H; by symmetry | intros ??? H1 H2; congruence]. Qed.

Lemma st_equiv_intro s t :
  base_storage s = base_storage t -> overlay s = overlay t -> undo_log s = undo_log t ->
  events s = events t -> unique_objects s = unique_objects t -> s ≈ t.
Proof. unfold st_equiv, st_core. congruence. Qed.

#[export] Instance overlay_proper : Proper (st_equiv ==> eq) overlay.
Proof. intros s t H. unfold st_equiv, st_core in H. congruence. Qed.
#[export] Instance undo_log_proper : Proper (st_equiv ==> eq) undo_log.
Proof. intros s t H. unfold st_equiv, st_core in H. congruence. Qed.
#[export] Instance events_proper : Proper (st_equiv ==> eq) events.
Proof. intros s t H. unfold st_equiv, st_core in H. congruence. Qed.
#[export] Instance unique_objects_proper : Proper (st_equiv ==> eq) unique_objects.
Proof. intros s t H. unfold st_equiv, st_core in H. congruence. Qed.
#[export] Instance base_storage_proper : Proper (st_equiv ==> eq) base_storage.
Proof. intros s t H. unfold st_equiv, st_core in H. congruence. Qed.

Ltac st_rewrite H :=
  rewrite ?(overlay_proper _ _ H), ?(undo_log_proper _ _ H), ?(events_proper _ _ H),
    ?(unique_objects_proper _ _ H), ?(base_storage_proper _ _ H).

Lemma with_metrics_equiv f s : ExecutionState.with_metrics f s ≈ s.
Proof. done. Qed.

Lemma get_equiv s k : (ExecutionState.get s k).2 ≈ s.
Proof. done. Qed.

Lemma get_proper s t k : s ≈ t -> (ExecutionState.get s k).1 = (ExecutionState.get t k).1.
Proof. intros H. unfold ExecutionState.get. cbn. by st_rewrite H. Qed.

Lemma checkpoint_equiv s : (ExecutionState.checkpoint s).2 ≈ s.
Proof. done. Qed.

#[export] Hint Resolve with_metrics_equiv get_equiv checkpoint_equiv : evolve.

(** ** The logical value of a key *)
Definition view (s : ExecutionState) (key : bytes) : SdkResult (option bytes) :=
  match overlay s !! key with
  | Some (Some m) => Message.into_bytes m
                       ≫= fun b => Ok (Some b)
  | Some None => Ok None
  | None => base_storage s key
  end.

Lemma kv_get_view s k : (ExecutionState.kv_get s k).1 = view s k.
Proof.
  unfold ExecutionState.kv_get, ExecutionState.get, view. cbn.
  destruct (overlay s !! k) as [[[[b]]|]|]; cbn; try done.
  destruct (base_storage s k) as [[b|]|e]; done.
Qed.

Lemma get_view s k :
  (ExecutionState.get s k).1 =
  match view s k with Ok v => Ok (option_map Message.from_bytes v) | Err e => Err e end.
Proof.
  unfold ExecutionState.get, view. cbn. destruct (overlay s !! k) as [[[[b]]|]|]; [done..|].
  by destruct (base_storage s k) as [[v|]|].
Qed.

#[export] Instance view_proper : Proper (st_equiv ==> eq ==> eq) view.
Proof. intros s t H k ? <-. unfold view. by st_rewrite H. Qed.

(** ** The restore loop pops and reverts exactly the changes after the mark *)

Lemma restore_loop_spec n log ov :
  (n <= length log)%nat ->
  ExecutionState.restore_loop n log ov =
    (take (length log - n) log, foldr revert ov (drop (length log - n) log)).
Proof.
  revert log ov. induction n as [|n IH]; intros log ov Hn; cbn [ExecutionState.restore_loop].
  - rewrite Nat.sub_0_r, take_ge, drop_ge by lia. done.
  - destruct log as [|c log _] using rev_ind; [cbn in Hn; lia|].
    rewrite last_snoc. rewrite length_app in *. cbn [length] in *.
    replace (length log + 1 - 1)%nat with (length log) by lia.
    rewrite take_app_length, IH by lia.
    replace (length log + 1 - S n)%nat with (length log - n)%nat by lia.
    rewrite take_app_le, drop_app_le by lia. rewrite foldr_app. done.
Qed.

(** [extends s t]: [t] was reached from [s] by operations that only grew the
    logs, and reverting the new undo entries gives the overlay of [s] back. *)
Definition extends (s t : ExecutionState) : Prop :=
  base_storage t = base_storage s /\
  (exists suffix, undo_log t = undo_log s ++ suffix /\ foldr revert (overlay t) suffix = overlay s) /\
  events s `prefix_of` events t.

#[export] Instance extends_preorder : PreOrder extends.
Proof.
  split.
  - intros s. split; [done|]. split; [exists []; by rewrite app_nil_r | done].
  - intros s t u (Hb1 & (l1 & Hl1 & Hf1) & He1) (Hb2 & (l2 & Hl2 & Hf2) & He2).
    split; [congruence|]. split; [|by etrans].
    exists (l1 ++ l2). rewrite Hl2, Hl1, app_assoc, foldr_app, Hf2. done.
Qed.

#[export] Instance extends_proper : Proper (st_equiv ==> st_equiv ==> iff) extends.
Proof. intros s s' Hs t t' Ht. unfold extends. st_rewrite Hs. by st_rewrite Ht. Qed.

Lemma st_equiv_extends s t : s ≈ t -> extends s t.
Proof. intros ->. reflexivity. Qed.

Lemma after_write_equiv s : ExecutionState.after_write s ≈ s.
Proof. done. Qed.

Ltac one_change :=
  split; [done|]; split; [eexists [_]; split; [done|]; cbn | done].

Lemma set_extends s k v : extends s (ExecutionState.set s k v).2.
Proof.
  unfold ExecutionState.set. repeat case_match; cbn [snd]; try reflexivity; one_change.
  - by rewrite insert_insert_eq, insert_id.
  - by rewrite delete_insert_id.
Qed.

Lemma remove_extends s k : extends s (ExecutionState.remove s k).2.
Proof.
  unfold ExecutionState.remove. repeat case_match; cbn [snd]; try reflexivity; one_change.
  - by rewrite insert_insert_eq, insert_id.
  - by rewrite delete_insert_id.
Qed.

Lemma emit_event_extends s e : extends s (ExecutionState.emit_event s e).2.
Proof.
  unfold ExecutionState.emit_event. case_match; cbn [snd]; [reflexivity|].
  split; [done|]. split; [exists []; by rewrite app_nil_r | by apply prefix_app_r].
Qed.

Lemma next_unique_object_id_extends s : extends s (ExecutionState.next_unique_object_id s).2.
Proof. split; [done|]. split; [exists []; by rewrite app_nil_r | done]. Qed.

(** Rolling back to a checkpoint of [s] from any state that extends [s]
    succeeds, and gives [s] back up to metrics. *)
Lemma restore_extends s t :
  extends s t ->
  exists t', ExecutionState.restore t (ExecutionState.checkpoint s).1 = (Ok tt, t') /\ t' ≈ s.
Proof.
  intros (Hb & (suffix & Hl & Hf) & [evs He]).
  unfold ExecutionState.restore, ExecutionState.checkpoint. cbn -[Z.ltb Z.sub].
  rewrite Hl, He, !zlen_app.
  pose proof (zlen_nonneg suffix). pose proof (zlen_nonneg evs).
  destruct (Z.ltb_spec (zlen (undo_log s) + zlen suffix) (zlen (undo_log s))); [lia|].
  destruct (Z.ltb_spec (zlen (events s) + zlen evs) (zlen (events s))); [lia|]. cbn [orb].
  replace (Z.to_nat _) with (length suffix) by (unfold zlen; lia).
  rewrite restore_loop_spec by (rewrite length_app; lia).
  rewrite length_app, Nat.add_sub, take_app_length, drop_app_length.
  eexists. split; [done|].
  apply st_equiv_intro; cbn; try done.
  unfold zlen. rewrite Nat2Z.id. apply take_app_length.
Qed.

(** ** Refinement: the undo log implements copy-on-checkpoint

    The specification keeps no undo log: a checkpoint is a full copy of the
    overlay, the events and the object counter, and a restore puts the copy
    back. The limits are the same. *)
Module CopySpec.

Record Snap := mkSnap { sn_overlay : Overlay; sn_events : list Event; sn_unique : Z }.

Definition snap_of (s : ExecutionState) : Snap :=
  mkSnap (overlay s) (events s) (unique_objects s).

Definition write (s : Snap) (key : bytes) (v : option Message) : SdkResult unit * Snap :=
  if MAX_KEY_SIZE <? zlen key then (Err ERR_KEY_TOO_LARGE, s)
  else if match v with Some m => MAX_VALUE_SIZE <? Message.len m | None => false end
  then (Err ERR_VALUE_TOO_LARGE, s)
  else if bool_decide (sn_overlay s !! key = None)
          && (MAX_OVERLAY_ENTRIES <=? Z.of_nat (size (sn_overlay s)))
  then (Err ERR_OVERLAY_SIZE_EXCEEDED, s)
  else (Ok tt, mkSnap (<[key := v]> (sn_overlay s)) (sn_events s) (sn_unique s)).

Definition batch_value (op : BatchOp) : option Message :=
  match op with BatchSet v => Some v | BatchRemove => None end.

Definition batch (s : Snap) (ops : list BatchOperation) : SdkResult unit * Snap :=
  match ExecutionState.batch_validate (sn_overlay s) 0 ops with
  | Err e => (Err e, s)
  | Ok n =>
      if MAX_OVERLAY_ENTRIES <? Z.of_nat (size (sn_overlay s)) + n
      then (Err ERR_OVERLAY_SIZE_EXCEEDED, s)
      else (Ok tt,
            mkSnap (foldl (fun ov op => <[op_key op := batch_value (operation op)]> ov)
                      (sn_overlay s) ops) (sn_events s) (sn_unique s))
  end.

Definition emit (s : Snap) (e : Event) : SdkResult unit * Snap :=
  if MAX_EVENTS_PER_EXECUTION <=? zlen (sn_events s) then (Err ERR_TOO_MANY_EVENTS, s)
  else (Ok tt, mkSnap (sn_overlay s) (sn_events s ++ [e]) (sn_unique s)).

Definition read (base : bytes -> SdkResult (option bytes)) (s : Snap) (key : bytes)
    : SdkResult (option Message) :=
  match sn_overlay s !! key with
  | Some v => Ok v
  | None => match base key with
            | Ok b => Ok (Message.from_bytes <$> b)
            | Err e => Err e
            end
  end.

End CopySpec.

(** The operations a client of the state performs, and what it observes. *)
Inductive StateOp :=
| OpGet (key : bytes)
| OpSet (key : bytes) (value : Message)
| OpRemove (key : bytes)
| OpBatch (ops : list BatchOperation)
| OpEmit (e : Event)
| OpUniqueId
| OpCheckpoint
| OpRestoreLast.

Inductive Obs :=
| ObsRead (r : SdkResult (option Message))
| ObsUnit (r : SdkResult unit)
| ObsId (n : Z).

(** The implementation, with the stack of checkpoints its client holds. *)
Definition impl_step (p : ExecutionState * list Checkpoint) (op : StateOp)
    : Obs * (ExecutionState * list Checkpoint) :=
  let '(s, cks) := p in
  match op with
  | OpGet k => let '(r, s) := ExecutionState.get s k in (ObsRead r, (s, cks))
  | OpSet k v => let '(r, s) := ExecutionState.set s k v in (ObsUnit r, (s, cks))
  | OpRemove k => let '(r, s) := ExecutionState.remove s k in (ObsUnit r, (s, cks))
  | OpBatch ops => let '(r, s) := ExecutionState.apply_batch s ops in (ObsUnit r, (s, cks))
  | OpEmit e => let '(r, s) := ExecutionState.emit_event s e in (ObsUnit r, (s, cks))
  | OpUniqueId => let '(n, s) := ExecutionState.next_unique_object_id s in (ObsId n, (s, cks))
  | OpCheckpoint =>
      let '(c, s) := ExecutionState.checkpoint s in (ObsUnit (Ok tt), (s, c :: cks))
  | OpRestoreLast =>
      match cks with
      | [] => (ObsUnit (Ok tt), (s, []))
      | c :: cks => let '(r, s) := ExecutionState.restore s c in (ObsUnit r, (s, cks))
      end
  end.

Definition spec_step (base : bytes -> SdkResult (option bytes))
    (p : CopySpec.Snap * list CopySpec.Snap) (op : StateOp)
    : Obs * (CopySpec.Snap * list CopySpec.Snap) :=
  let '(s, saved) := p in
  match op with
  | OpGet k => (ObsRead (CopySpec.read base s k), (s, saved))
  | OpSet k v => let '(r, s) := CopySpec.write s k (Some v) in (ObsUnit r, (s, saved))
  | OpRemove k => let '(r, s) := CopySpec.write s k None in (ObsUnit r, (s, saved))
  | OpBatch ops => let '(r, s) := CopySpec.batch s ops in (ObsUnit r, (s, saved))
  | OpEmit e => let '(r, s) := CopySpec.emit s e in (ObsUnit r, (s, saved))
  | OpUniqueId =>
      let n := wrap64 (CopySpec.sn_unique s + 1) in
      (ObsId n, (CopySpec.mkSnap (CopySpec.sn_overlay s) (CopySpec.sn_events s) n, saved))
  | OpCheckpoint => (ObsUnit (Ok tt), (s, s :: saved))
  | OpRestoreLast =>
      match saved with
      | [] => (ObsUnit (Ok tt), (s, []))
      | s' :: saved => (ObsUnit (Ok tt), (s', saved))
      end
  end.

Fixpoint run_ops {S} (step : S -> StateOp -> Obs * S) (s : S) (ops : list StateOp) : list Obs * S :=
  match ops with
  | [] => ([], s)
  | op :: ops =>
      let '(o, s) := step s op in
      let '(os, s) := run_ops step s ops in (o :: os, s)
  end.

(** The simulation: each live checkpoint was taken from a state that the
    current one extends, and its saved copy is the copy of that state. *)
Inductive ckpts_ok : ExecutionState -> list Checkpoint -> list CopySpec.Snap -> Prop :=
| ckpts_nil s : ckpts_ok s [] []
| ckpts_cons s s0 cks saved :
    extends s0 s -> ckpts_ok s0 cks saved ->
    ckpts_ok s ((ExecutionState.checkpoint s0).1 :: cks) (CopySpec.snap_of s0 :: saved).

Lemma ckpts_ok_extends s t cks saved : extends s t -> ckpts_ok s cks saved -> ckpts_ok t cks saved.
Proof. intros Hst H. destruct H; constructor; [by etrans | done]. Qed.

Lemma snap_of_equiv s t : s ≈ t -> CopySpec.snap_of s = CopySpec.snap_of t.
Proof. intros H. unfold CopySpec.snap_of. by st_rewrite H. Qed.

Lemma set_write s k v :
  (ExecutionState.set s k v).1 = (CopySpec.write (CopySpec.snap_of s) k (Some v)).1 /\
  CopySpec.snap_of (ExecutionState.set s k v).2 = (CopySpec.write (CopySpec.snap_of s) k (Some v)).2.
Proof.
  unfold ExecutionState.set, CopySpec.write, ExecutionState.overlay_len. cbn.
  repeat case_match; try done; case_bool_decide; simplify_eq/=; congruence.
Qed.

Lemma remove_write s k :
  (ExecutionState.remove s k).1 = (CopySpec.write (CopySpec.snap_of s) k None).1 /\
  CopySpec.snap_of (ExecutionState.remove s k).2 = (CopySpec.write (CopySpec.snap_of s) k None).2.
Proof.
  unfold ExecutionState.remove, CopySpec.write, ExecutionState.overlay_len. cbn.
  repeat case_match; try done; case_bool_decide; simplify_eq/=; congruence.
Qed.

(** ** Batches *)

Lemma batch_apply_one_extends s op : extends s (ExecutionState.batch_apply_one s op).
Proof.
  unfold ExecutionState.batch_apply_one. destruct op as [k [v|]]; cbn [op_key operation];
    one_change; case_bool_decide as Hk.
  - destruct Hk as [v' Hv]. rewrite Hv. by rewrite insert_insert_eq, insert_id.
  - apply eq_None_not_Some in Hk. by rewrite delete_insert_id.
  - destruct Hk as [v' Hv]. rewrite Hv. by rewrite insert_insert_eq, insert_id.
  - apply eq_None_not_Some in Hk. by rewrite delete_insert_id.
Qed.

Lemma batch_foldl_extends ops s : extends s (foldl ExecutionState.batch_apply_one s ops).
Proof.
  revert s. induction ops as [|op ops IH]; intros s; cbn; [reflexivity|].
  etrans; [apply batch_apply_one_extends | apply IH].
Qed.

Lemma apply_batch_extends s ops : extends s (ExecutionState.apply_batch s ops).2.
Proof.
  unfold ExecutionState.apply_batch. repeat case_match; cbn [snd]; try reflexivity.
  apply batch_foldl_extends.
Qed.

Lemma batch_foldl_snap ops s :
  CopySpec.snap_of (foldl ExecutionState.batch_apply_one s ops) =
  CopySpec.mkSnap
    (foldl (fun ov op => <[op_key op := CopySpec.batch_value (operation op)]> ov) (overlay s) ops)
    (events s) (unique_objects s).
Proof.
  revert s. induction ops as [|op ops IH]; intros s; cbn [foldl]; [done|].
  rewrite IH. unfold ExecutionState.batch_apply_one. by destruct (operation op).
Qed.

Lemma batch_snap s ops :
  (ExecutionState.apply_batch s ops).1 = (CopySpec.batch (CopySpec.snap_of s) ops).1 /\
  CopySpec.snap_of (ExecutionState.apply_batch s ops).2 =
    (CopySpec.batch (CopySpec.snap_of s) ops).2.
Proof.
  unfold ExecutionState.apply_batch, CopySpec.batch, ExecutionState.overlay_len. cbn.
  repeat case_match; try done. split; [done|]. apply batch_foldl_snap.
Qed.

(** One-by-one writes, stopping at the first error. *)
Definition write_one (s : ExecutionState) (op : BatchOperation) : SdkResult unit * ExecutionState :=
  match operation op with
  | BatchSet v => ExecutionState.set s (op_key op) v
  | BatchRemove => ExecutionState.remove s (op_key op)
  end.

Fixpoint write_all (s : ExecutionState) (ops : list BatchOperation)
    : SdkResult unit * ExecutionState :=
  match ops with
  | [] => (Ok tt, s)
  | op :: ops =>
      match write_one s op with
      | (Ok _, s) => write_all s ops
      | (Err e, s) => (Err e, s)
      end
  end.

Lemma batch_validate_le ov n ops m :
  ExecutionState.batch_validate ov n ops = Ok m -> n <= m.
Proof.
  revert n. induction ops as [|[k [v|]] ops IH]; cbn; intros n H; simplify_eq; [lia|..];
    repeat case_match; simplify_eq; apply IH in H; lia.
Qed.

(** A validated operation with room in the overlay is written the same way
    alone and in a batch. *)
Lemma write_one_batch s op :
  zlen (op_key op) <= MAX_KEY_SIZE ->
  match operation op with BatchSet v => Message.len v <= MAX_VALUE_SIZE | _ => True end ->
  (is_Some (overlay s !! op_key op) \/ ExecutionState.overlay_len s < MAX_OVERLAY_ENTRIES) ->
  exists s', write_one s op = (Ok tt, s') /\ s' ≈ ExecutionState.batch_apply_one s op.
Proof.
  intros Hk Hv Hroom. destruct op as [k o]. cbn [op_key operation] in *.
  unfold write_one, ExecutionState.batch_apply_one; cbn [op_key operation].
  destruct o as [v|]; unfold ExecutionState.set, ExecutionState.remove;
    rewrite (proj2 (Z.ltb_ge _ _)) by done; rewrite ?(proj2 (Z.ltb_ge _ _)) by done;
    destruct (overlay s !! k) as [p|] eqn:E.
  1,3: rewrite bool_decide_eq_true_2 by done; eexists; split; [done|]; done.
  all: destruct Hroom as [[? ?]|Hroom]; [done|];
    rewrite (proj2 (Z.leb_gt _ _)) by done;
    rewrite bool_decide_eq_false_2 by (by intros [? ?]); eexists; split; done.
Qed.

Lemma set_proper s t k v :
  s ≈ t -> (ExecutionState.set s k v).1 = (ExecutionState.set t k v).1 /\
           (ExecutionState.set s k v).2 ≈ (ExecutionState.set t k v).2.
Proof.
  intros H. unfold ExecutionState.set, ExecutionState.overlay_len. st_rewrite H.
  repeat case_match; cbn [fst snd]; split; try done; apply st_equiv_intro; cbn; by st_rewrite H.
Qed.

Lemma remove_proper s t k :
  s ≈ t -> (ExecutionState.remove s k).1 = (ExecutionState.remove t k).1 /\
           (ExecutionState.remove s k).2 ≈ (ExecutionState.remove t k).2.
Proof.
  intros H. unfold ExecutionState.remove, ExecutionState.overlay_len. st_rewrite H.
  repeat case_match; cbn [fst snd]; split; try done; apply st_equiv_intro; cbn; by st_rewrite H.
Qed.

Lemma write_all_proper ops s t r s' :
  s ≈ t -> write_all s ops = (r, s') -> exists t', write_all t ops = (r, t') /\ s' ≈ t'.
Proof.
  revert s t. induction ops as [|op ops IH]; intros s t H; cbn; intros Hw.
  - simplify_eq. by exists t.
  - assert (Hp : (write_one s op).1 = (write_one t op).1 /\ (write_one s op).2 ≈ (write_one t op).2).
    { unfold write_one. destruct (operation op); [by apply set_proper | by apply remove_proper]. }
    destruct (write_one s op) as [r1 s1], (write_one t op) as [r2 t1]. cbn in Hp.
    destruct Hp as [-> Hp]. destruct r2; [by eapply IH | simplify_eq; by eexists].
Qed.

Lemma size_insert_bound (m : Overlay) k v :
  (size (<[k := v]> m) <= S (size m))%nat /\ (is_Some (m !! k) -> size (<[k := v]> m) = size m).
Proof.
  destruct (m !! k) as [x|] eqn:E.
  - rewrite map_size_insert_Some by done. lia.
  - rewrite map_size_insert_None by done. split; [lia|]. by intros [? ?].
Qed.

Lemma write_all_batch ov ops s n m :
  ExecutionState.batch_validate ov n ops = Ok m ->
  dom ov ⊆ dom (overlay s) ->
  ExecutionState.overlay_len s + (m - n) <= MAX_OVERLAY_ENTRIES ->
  exists s', write_all s ops = (Ok tt, s') /\ s' ≈ foldl ExecutionState.batch_apply_one s ops.
Proof.
  revert s n. induction ops as [|op ops IH]; intros s n Hval Hdom Hroom.
  { exists s. by split. }
  cbn [ExecutionState.batch_validate] in Hval.
  destruct (Z.ltb_spec MAX_KEY_SIZE (zlen (op_key op))) as [|Hk]; [done|].
  assert (Hv : match operation op with BatchSet v => Message.len v <= MAX_VALUE_SIZE | _ => True end
    /\ ExecutionState.batch_validate ov
         (if bool_decide (is_Some (ov !! op_key op)) then n else n + 1) ops = Ok m).
  { destruct (operation op) as [v|]; [|done].
    destruct (Z.ltb_spec MAX_VALUE_SIZE (Message.len v)); [done|]. split; [lia|done]. }
  destruct Hv as [Hv Hval']. pose proof (batch_validate_le _ _ _ _ Hval') as Hle.
  assert (Hov : overlay (ExecutionState.batch_apply_one s op) =
                <[op_key op := CopySpec.batch_value (operation op)]> (overlay s))
    by (unfold ExecutionState.batch_apply_one; by destruct (operation op)).
  assert (Hpres : is_Some (ov !! op_key op) -> is_Some (overlay s !! op_key op))
    by (rewrite <-!elem_of_dom; set_solver).
  destruct (size_insert_bound (overlay s) (op_key op) (CopySpec.batch_value (operation op)))
    as [Hs1 Hs2].
  destruct (write_one_batch s op Hk Hv) as (s1 & Hw & Heq).
  { case_bool_decide as Hb; [left; auto|]. right. lia. }
  assert (Heq' : exists s', write_all (ExecutionState.batch_apply_one s op) ops = (Ok tt, s') /\
            s' ≈ foldl ExecutionState.batch_apply_one (ExecutionState.batch_apply_one s op) ops).
  { apply (IH _ _ Hval').
    - rewrite Hov, dom_insert_L. set_solver.
    - unfold ExecutionState.overlay_len in *. rewrite Hov. case_bool_decide as Hb; [|lia].
      rewrite (Hs2 (Hpres Hb)). lia. }
  destruct Heq' as (s' & Hall & Hs').
  symmetry in Heq. destruct (write_all_proper _ _ _ _ _ Heq Hall) as (t' & Ht & Hst).
  exists t'. cbn [write_all foldl]. rewrite Hw. split; [done|]. by rewrite <-Hst.
Qed.

Lemma emit_snap s e :
  (ExecutionState.emit_event s e).1 = (CopySpec.emit (CopySpec.snap_of s) e).1 /\
  CopySpec.snap_of (ExecutionState.emit_event s e).2 = (CopySpec.emit (CopySpec.snap_of s) e).2.
Proof. unfold ExecutionState.emit_event, CopySpec.emit. cbn. by case_match. Qed.

Lemma impl_spec_step base s cks saved op o s' cks' :
  base_storage s = base -> ckpts_ok s cks saved ->
  impl_step (s, cks) op = (o, (s', cks')) ->
  exists saved', spec_step base (CopySpec.snap_of s, saved) op = (o, (CopySpec.snap_of s', saved'))
    /\ ckpts_ok s' cks' saved' /\ base_storage s' = base.
Proof.
  intros Hb Hck Hstep.
  assert (Hext : forall t, extends s t -> ckpts_ok t cks saved /\ base_storage t = base).
  { intros t Ht. split; [by eapply ckpts_ok_extends|]. rewrite <-Hb. apply Ht. }
  destruct op as [k|k v|k|ops|e| | |]; cbn in Hstep |- *.
  - simplify_eq. exists saved. split; [|by apply Hext, st_equiv_extends].
    f_equal. f_equal. unfold CopySpec.read. cbn. by destruct (overlay s !! k) as [[]|].
  - pose proof (set_extends s k v) as He. destruct (set_write s k v) as [H1 H2].
    destruct (ExecutionState.set s k v), (CopySpec.write _ _ _). simplify_eq/=.
    exists saved. split; [done|]. exact (Hext _ He).
  - pose proof (remove_extends s k) as He. destruct (remove_write s k) as [H1 H2].
    destruct (ExecutionState.remove s k), (CopySpec.write _ _ _). simplify_eq/=.
    exists saved. split; [done|]. exact (Hext _ He).
  - pose proof (apply_batch_extends s ops) as He. destruct (batch_snap s ops) as [H1 H2].
    destruct (ExecutionState.apply_batch s ops), (CopySpec.batch _ _). simplify_eq/=.
    exists saved. split; [done|]. exact (Hext _ He).
  - pose proof (emit_event_extends s e) as He. destruct (emit_snap s e) as [H1 H2].
    destruct (ExecutionState.emit_event s e), (CopySpec.emit _ _). simplify_eq/=.
    exists saved. split; [done|]. exact (Hext _ He).
  - pose proof (next_unique_object_id_extends s) as He. simplify_eq/=.
    exists saved. split; [done|]. exact (Hext _ He).
  - simplify_eq. eexists. split; [done|]. split; [|done].
    apply ckpts_cons; [by apply st_equiv_extends|done].
  - destruct Hck as [s|s s0 cks saved He Hck]; [by simplify_eq; exists []; repeat constructor|].
    destruct (restore_extends _ _ He) as (t' & Hr & Heq). cbn in Hstep, Hr. rewrite Hr in Hstep.
    simplify_eq. exists saved. rewrite (snap_of_equiv _ _ Heq). split; [done|].
    symmetry in Heq. split; [eapply ckpts_ok_extends; [by apply st_equiv_extends|done]|].
    rewrite <-(base_storage_proper _ _ Heq). symmetry. apply He.
Qed.

Lemma run_ops_refines base ops s cks saved :
  base_storage s = base -> ckpts_ok s cks saved ->
  (run_ops impl_step (s, cks) ops).1 = (run_ops (spec_step base) (CopySpec.snap_of s, saved) ops).1 /\
  CopySpec.snap_of (run_ops impl_step (s, cks) ops).2.1 =
    (run_ops (spec_step base) (CopySpec.snap_of s, saved) ops).2.1.
Proof.
  revert s cks saved. induction ops as [|op ops IH]; intros s cks saved Hb Hck; [done|].
  cbn [run_ops]. destruct (impl_step (s, cks) op) as [o [s' cks']] eqn:E.
  destruct (impl_spec_step _ _ _ _ _ _ _ _ Hb Hck E) as (saved' & -> & Hck' & Hb').
  specialize (IH _ _ _ Hb' Hck').
  destruct (run_ops impl_step (s', cks') ops) as [? [? ?]],
    (run_ops (spec_step base) (CopySpec.snap_of s', saved') ops) as [? [? ?]].
  cbn in *. destruct IH as [-> ->]. done.
Qed.
