(* ===== verification/Commit.v ===== *)
(** * From the overlay to storage

    Models how a block's overlay reaches the store: [into_changes] (in
    [ExecState]), [state_changes_to_operations] of
    [crates/app/server/src/dev.rs], and the in-memory [MockStorage] of
    [crates/storage/src/mock.rs] that applies the operations. Shows that the
    emitted changes do not depend on the hash map's iteration order, and that
    committing them makes the stored map equal to the state the block saw. *)

From S2P Require Import Prelude Core ExecState ExecStateFacts.

Inductive Operation :=
| OperationSet (key value : bytes)
| OperationRemove (key : bytes).

Definition state_changes_to_operations (changes : list CoreStateChange) : list Operation :=
  (fun change =>
     match change with
     | CoreSet key value => OperationSet key value
     | CoreRemove key => OperationRemove key
     end) <$> changes.

Module MockStorage.

Definition state : Type := gmap bytes bytes.

Definition new : gmap bytes bytes := ∅.

Definition get (self : gmap bytes bytes) (key : bytes) : SdkResult (option bytes) := Ok (self !! key).

Definition batch_one (guard : gmap bytes bytes) (op : Operation) : gmap bytes bytes :=
  match op with
  | OperationSet key value => <[key := value]> guard
  | OperationRemove key => delete key guard
  end.

Definition batch (self : gmap bytes bytes) (operations : list Operation)
    : SdkResult unit * gmap bytes bytes :=
  (Ok tt, foldl batch_one self operations).

End MockStorage.

(** ** The key order is a total order *)

Lemma bytes_leb_total a b : bytes_leb a b = true \/ bytes_leb b a = true.
Proof.
  revert b. induction a as [|x a IH]; intros [|y b]; cbn; auto.
  destruct (Z.ltb_spec (Z_of_byte x) (Z_of_byte y)), (Z.ltb_spec (Z_of_byte y) (Z_of_byte x)); auto.
Qed.

Lemma bytes_leb_trans a b c :
  bytes_leb a b = true -> bytes_leb b c = true -> bytes_leb a c = true.
Proof.
  revert b c. induction a as [|x a IH]; intros [|y b] [|z c]; cbn; try done.
  repeat match goal with |- context [?p <? ?q] => destruct (Z.ltb_spec p q) end;
    try done; try lia. intros. by eapply IH.
Qed.

Lemma bytes_leb_antisym a b : bytes_leb a b = true -> bytes_leb b a = true -> a = b.
Proof.
  revert b. induction a as [|x a IH]; intros [|y b]; cbn; try done.
  repeat match goal with |- context [?p <? ?q] => destruct (Z.ltb_spec p q) end; try done; try lia.
  intros. f_equal; [apply (inj Z_of_byte); lia | by apply IH].
Qed.

#[export] Instance change_le_total : Total change_le.
Proof. intros a b. apply bytes_leb_total. Qed.
#[export] Instance change_le_trans : Transitive change_le.
Proof. intros a b c. apply bytes_leb_trans. Qed.

(** ** The list of changes is a function of the overlay alone *)

Definition entry_change (e : bytes * option Message) : CoreStateChange :=
  match e with
  | (key, Some (mkMessage (OwnedBytes b))) => CoreSet key b
  | (key, None) => CoreRemove key
  end.

Lemma changes_of_entries_eq l :
  ExecutionState.changes_of_entries l = Ok (merge_sort change_le (entry_change <$> l)).
Proof.
  unfold ExecutionState.changes_of_entries.
  assert (H : mapM ExecutionState.change_of_entry l = Ok (entry_change <$> l)).
  { induction l as [|[k [[[b]]|]] l IH]; [done|..];
      unfold mapM; fold (mapM ExecutionState.change_of_entry l); rewrite IH; done. }
  by rewrite H.
Qed.

Lemma change_key_entry e : change_key (entry_change e) = e.1.
Proof. by destruct e as [k [[[b]]|]]. Qed.

Lemma entry_keys (l : list (bytes * option Message)) : change_key <$> (entry_change <$> l) = l.*1.
Proof. rewrite <-list_fmap_compose. apply list_fmap_ext. intros. apply change_key_entry. Qed.

(** Two sorted lists of changes with the same elements and distinct keys are equal. *)
Lemma sorted_changes_unique l k :
  NoDup (change_key <$> l) -> StronglySorted change_le l -> StronglySorted change_le k ->
  l ≡ₚ k -> l = k.
Proof.
  revert k. induction l as [|x l IH]; intros k Hnd Hl Hk Hp.
  { by apply Permutation_nil_l in Hp. }
  destruct k as [|y k]; [by apply Permutation_nil_r in Hp|].
  apply StronglySorted_inv in Hl as [Hl Hx]. apply StronglySorted_inv in Hk as [Hk Hy].
  assert (x = y) as <-.
  { assert (Hin : y ∈ x :: l) by (rewrite Hp; constructor).
    assert (Hin' : x ∈ y :: k) by (rewrite <-Hp; constructor).
    apply elem_of_cons in Hin as [->|Hin]; [done|].
    apply elem_of_cons in Hin' as [->|Hin']; [done|].
    rewrite Forall_forall in Hx, Hy.
    assert (Hkey : change_key x = change_key y)
      by (apply bytes_leb_antisym; [by apply Hx|by apply Hy]).
    rewrite fmap_cons, NoDup_cons in Hnd. exfalso. apply (proj1 Hnd). rewrite Hkey.
    by apply list_elem_of_fmap_2. }
  f_equal. rewrite fmap_cons, NoDup_cons in Hnd.
  apply IH; [apply Hnd|done|done|by apply Permutation_cons_inv in Hp].
Qed.

Lemma sort_entries_perm (l k : list (bytes * option Message)) :
  NoDup l.*1 -> l ≡ₚ k ->
  merge_sort change_le (entry_change <$> l) = merge_sort change_le (entry_change <$> k).
Proof.
  intros Hnd Hp. apply sorted_changes_unique.
  - by rewrite merge_sort_Permutation, entry_keys.
  - apply StronglySorted_merge_sort; apply _.
  - apply StronglySorted_merge_sort; apply _.
  - rewrite !merge_sort_Permutation. by apply fmap_Permutation.
Qed.

(** ** Applying the changes *)

Lemma batch_lookup_notin ops m k :
  k ∉ (fun op => match op with OperationSet k _ | OperationRemove k => k end) <$> ops ->
  foldl MockStorage.batch_one m ops !! k = m !! k.
Proof.
  revert m. induction ops as [|op ops IH]; intros m Hk; cbn [foldl]; [done|].
  rewrite fmap_cons, not_elem_of_cons in Hk. rewrite IH by apply Hk.
  destruct op; cbn [MockStorage.batch_one]; [rewrite lookup_insert_ne | rewrite lookup_delete_ne]; try done; by destruct Hk.
Qed.

Definition change_result (c : CoreStateChange) : option bytes :=
  match c with CoreSet _ v => Some v | CoreRemove _ => None end.

Lemma op_keys cs :
  (fun op => match op with OperationSet k _ | OperationRemove k => k end)
    <$> state_changes_to_operations cs = change_key <$> cs.
Proof. unfold state_changes_to_operations. rewrite <-list_fmap_compose. apply list_fmap_ext. by intros ? []. Qed.

Lemma batch_changes_lookup cs m c :
  NoDup (change_key <$> cs) -> c ∈ cs ->
  foldl MockStorage.batch_one m (state_changes_to_operations cs) !! change_key c = change_result c.
Proof.
  revert m. induction cs as [|d cs IH]; intros m Hnd Hc; [by apply elem_of_nil in Hc|].
  rewrite fmap_cons, NoDup_cons in Hnd. destruct Hnd as [Hd Hnd].
  apply elem_of_cons in Hc as [->|Hc]; unfold state_changes_to_operations; rewrite fmap_cons; cbn [foldl].
  - rewrite batch_lookup_notin by (by rewrite op_keys).
    destruct d; cbn; [apply lookup_insert_eq|apply lookup_delete_eq].
  - by apply IH.
Qed.

Lemma commit_lookup s m cs k :
  ExecutionState.into_changes s = Ok cs ->
  base_storage s = MockStorage.get m ->
  Ok (foldl MockStorage.batch_one m (state_changes_to_operations cs) !! k) = view s k.
Proof.
  unfold ExecutionState.into_changes. rewrite changes_of_entries_eq. intros [= <-] Hb.
  set (es := map_to_list (overlay s)).
  assert (Hnd : NoDup (change_key <$> merge_sort change_le (entry_change <$> es))).
  { rewrite merge_sort_Permutation, entry_keys. apply NoDup_fst_map_to_list. }
  unfold view. destruct (overlay s !! k) as [v|] eqn:E.
  - assert (Hin : entry_change (k, v) ∈ merge_sort change_le (entry_change <$> es)).
    { rewrite merge_sort_Permutation. apply list_elem_of_fmap_2. by apply elem_of_map_to_list. }
    pose proof (batch_changes_lookup _ m _ Hnd Hin) as H. rewrite change_key_entry in H. cbn in H.
    cbn. rewrite H. by destruct v as [[[b]]|].
  - rewrite batch_lookup_notin; [by rewrite Hb|].
    rewrite op_keys, merge_sort_Permutation, entry_keys.
    intros Hin. apply list_elem_of_fmap in Hin as ([k' v] & -> & Hin).
    apply elem_of_map_to_list in Hin. cbn in E. congruence.
Qed.
