(* ===== verification/Runtime.v ===== *)
(** * Scopes, validation and account bookkeeping of the runtime

    Models [crates/app/stf/src/execution_scope.rs] (unique identifiers),
    [validation.rs] (code ids and events) and [runtime_api_impl.rs] (the
    account-to-code table and the account counter kept in storage). *)

From S2P Require Import Prelude Core ExecState ExecStateFacts.

(** ** Execution scopes ([execution_scope.rs]) *)

Definition MAX_OBJECTS_PER_TRANSACTION : Z := u16_max.

Inductive ExecutionScope :=
| BeginBlock (height : Z)
| EndBlock (height : Z)
| TransactionScope (tx_id : vec byte 32)
| QueryScope.

Definition scope_unique_id (self : ExecutionScope) (object_id : Z) : SdkResult bytes :=
  match self with
  | BeginBlock height | EndBlock height =>
      Ok (be_bytes 8 height ++ be_bytes 8 object_id ++ replicate 16 x00)
  | TransactionScope tx_id =>
      if MAX_OBJECTS_PER_TRANSACTION <? object_id then Err ERR_TOO_MANY_OBJECTS
      else
        let object_id_u16 := wrap16 object_id in
        Ok (take 30 (vec_to_list tx_id) ++ be_bytes 2 object_id_u16)
  | QueryScope => Err ERR_EXEC_IN_QUERY
  end.

(** ** Validation ([validation.rs], limits of [lib.rs]) *)

Definition MAX_CODE_ID_LENGTH : Z := 256.
Definition MAX_EVENT_NAME_LENGTH : Z := 128.
Definition MAX_EVENT_CONTENT_SIZE : Z := 64 * 1024.

(** [str::chars]: the code points of a (valid) UTF-8 string. *)
Fixpoint utf8_chars (l : bytes) : list Z :=
  match l with
  | [] => []
  | a :: l =>
      let a := Z_of_byte a in
      let cont b := Z.land (Z_of_byte b) 0x3F in
      if a <? 0x80 then a :: utf8_chars l
      else if a <? 0xE0 then
        match l with
        | b :: l => Z.lor (Z.shiftl (Z.land a 0x1F) 6) (cont b) :: utf8_chars l
        | _ => []
        end
      else if a <? 0xF0 then
        match l with
        | b :: c :: l =>
            Z.lor (Z.shiftl (Z.land a 0x0F) 12) (Z.lor (Z.shiftl (cont b) 6) (cont c))
              :: utf8_chars l
        | _ => []
        end
      else
        match l with
        | b :: c :: d :: l =>
            Z.lor (Z.shiftl (Z.land a 0x07) 18)
              (Z.lor (Z.shiftl (cont b) 12) (Z.lor (Z.shiftl (cont c) 6) (cont d)))
              :: utf8_chars l
        | _ => []
        end
  end.

(** [char::is_alphanumeric]: the ASCII letters and digits below 0x80, the
    tables of the Unicode version the compiler ships above. The tables are a
    parameter. *)
Class UnicodeTables := { unicode_alphanumeric : Z -> bool }.

Definition is_ascii_alphanumeric (c : Z) : bool :=
  (0x30 <=? c) && (c <=? 0x39) || (0x41 <=? c) && (c <=? 0x5A) || (0x61 <=? c) && (c <=? 0x7A).

Definition is_alphanumeric `{UnicodeTables} (c : Z) : bool :=
  if c <? 0x80 then is_ascii_alphanumeric c else unicode_alphanumeric c.

Definition string_bytes (s : string) : bytes := String.list_byte_of_string s.

Definition valid_code_char `{UnicodeTables} (c : Z) : bool :=
  is_alphanumeric c || (c =? 0x2D) || (c =? 0x5F) || (c =? 0x2F).

Definition validate_code_id `{UnicodeTables} (code_id : string) : SdkResult unit :=
  if bool_decide (string_bytes code_id = []) || (MAX_CODE_ID_LENGTH <? zlen (string_bytes code_id))
  then Err ERR_INVALID_CODE_ID
  else if negb (forallb valid_code_char (utf8_chars (string_bytes code_id)))
  then Err ERR_INVALID_CODE_ID
  else Ok tt.

Definition validate_event (name : string) (contents : bytes) : SdkResult unit :=
  if MAX_EVENT_NAME_LENGTH <? zlen (string_bytes name) then Err ERR_EVENT_NAME_TOO_LONG
  else if MAX_EVENT_CONTENT_SIZE <? zlen contents then Err ERR_EVENT_CONTENT_TOO_LARGE
  else Ok tt.

(** ** Account bookkeeping ([runtime_api_impl.rs]) *)

Definition INITIAL_ACCOUNT_NUMBER : Z := 65535.

Definition get_account_code_identifier_for_account_key (account : AccountId) : bytes :=
  [ACCOUNT_IDENTIFIER_PREFIX] ++ AccountId.as_bytes account.

(** The key of an account's own storage, built by the storage handlers. *)
Definition account_storage_key (account : AccountId) (key : bytes) : bytes :=
  [ACCOUNT_STORAGE_PREFIX] ++ AccountId.as_bytes account ++ key.

Definition account_number_key : bytes := [ACCOUNT_IDENTIFIER_SINGLETON_PREFIX].

Section RuntimeApi.
Context `{SystemCodec}.

Definition get_account_code_identifier_for_account (storage : ExecutionState) (account : AccountId)
    : SdkResult (option string) * ExecutionState :=
  let key := get_account_code_identifier_for_account_key account in
  let '(code_id, storage) := ExecutionState.get storage key in
  (match code_id with
   | Err e => Err e
   | Ok None => Ok None
   | Ok (Some code_id) => id ← Message.get code_id; Ok (Some id)
   end, storage).

Definition set_account_code_identifier_for_account (storage : ExecutionState)
    (account : AccountId) (account_identifier : string) : SdkResult unit * ExecutionState :=
  let key := get_account_code_identifier_for_account_key account in
  match Message.new account_identifier with
  | Err e => (Err e, storage)
  | Ok m => ExecutionState.set storage key m
  end.

Definition next_account_number (storage : ExecutionState) : SdkResult AccountId * ExecutionState :=
  let key := account_number_key in
  let '(r, storage) := ExecutionState.get storage key in
  match r with
  | Err e => (Err e, storage)
  | Ok o =>
      match from_option Message.get (Ok (AccountId.from_u64 INITIAL_ACCOUNT_NUMBER)) o with
      | Err e => (Err e, storage)
      | Ok last =>
          match Message.new (AccountId.increase last) with
          | Err e => (Err e, storage)
          | Ok m =>
              match ExecutionState.set storage key m with
              | (Err e, storage) => (Err e, storage)
              | (Ok _, storage) => (Ok last, storage)
              end
          end
      end
  end.

End RuntimeApi.

(** ** Facts *)

Lemma scope_unique_id_length scope n id :
  scope_unique_id scope n = Ok id -> length id = 32%nat.
Proof.
  destruct scope; cbn [scope_unique_id]; intros; repeat case_match; simplify_eq;
    rewrite ?length_app, ?length_be_bytes, ?length_replicate; try done.
  rewrite length_take, length_vec_to_list. done.
Qed.

Lemma account_storage_key_inj a b k l :
  account_storage_key a k = account_storage_key b l -> a = b /\ k = l.
Proof.
  unfold account_storage_key. intros H. apply (inj (cons _)) in H.
  apply app_inj_same_length in H; [|by rewrite !AccountId_as_bytes_length].
  destruct H as [H ->]. by apply (inj AccountId.as_bytes) in H.
Qed.

Lemma identifier_key_inj a b :
  get_account_code_identifier_for_account_key a = get_account_code_identifier_for_account_key b ->
  a = b.
Proof.
  unfold get_account_code_identifier_for_account_key. cbn. intros H.
  apply (inj (cons _)) in H. by apply (inj AccountId.as_bytes) in H.
Qed.

(** The three regions of the key space never overlap. *)
Lemma key_regions_disjoint a b k :
  get_account_code_identifier_for_account_key a ≠ account_storage_key b k /\
  get_account_code_identifier_for_account_key a ≠ account_number_key /\
  account_storage_key b k ≠ account_number_key.
Proof. by split_and!. Qed.

(** The object counter is distinct per scope kind: equal identifiers of the
    same scope come from equal counters. *)
Lemma scope_unique_id_inj scope n m id :
  is_u64 n -> is_u64 m ->
  scope_unique_id scope n = Ok id -> scope_unique_id scope m = Ok id -> n = m.
Proof.
  intros Hn Hm. destruct scope as [h|h|tx|]; cbn [scope_unique_id]; [..|done].
  1,2: intros <-%(inj Ok) H%(inj Ok); apply (inj (app _)) in H;
    apply app_inj_same_length in H as [H _]; [|by rewrite !length_be_bytes];
    symmetry; apply (be_bytes_inj 8);
    [change (256 ^ Z.of_nat 8) with (u64_max + 1); u_lia ..|done].
  destruct (_ <? n) eqn:En, (_ <? m) eqn:Em; try done.
  intros <-%(inj Ok) H%(inj Ok). apply (inj (app _)) in H. symmetry.
  unfold MAX_OBJECTS_PER_TRANSACTION in *. zbool. unfold is_u64, u16_max in *.
  rewrite !wrapping_small in H by lia.
  apply (be_bytes_inj 2); [change (256 ^ Z.of_nat 2) with (2 ^ 16); lia ..|done].
Qed.

Section RuntimeFacts.
Context `{SystemCodec}.

Lemma get_code_identifier_proper s t a : s ≈ t ->
  (get_account_code_identifier_for_account s a).1 = (get_account_code_identifier_for_account t a).1.
Proof.
  intros Hst. unfold get_account_code_identifier_for_account.
  pose proof (get_proper s t (get_account_code_identifier_for_account_key a) Hst) as Hg.
  do 2 destruct (ExecutionState.get _ _). cbn in *. by subst.
Qed.

Lemma get_code_identifier_equiv s a : (get_account_code_identifier_for_account s a).2 ≈ s.
Proof. done. Qed.

Lemma set_code_identifier_extends s a id :
  extends s (set_account_code_identifier_for_account s a id).2.
Proof.
  unfold set_account_code_identifier_for_account. case_match; [apply set_extends|reflexivity].
Qed.

Lemma next_account_number_extends s : extends s (next_account_number s).2.
Proof.
  unfold next_account_number.
  destruct (ExecutionState.get s account_number_key) as [r s1] eqn:E.
  assert (Hs : extends s s1).
  { apply st_equiv_extends. symmetry. change s1 with (r, s1).2. rewrite <-E. apply get_equiv. }
  destruct r as [o|]; [|done]. case_match; [|done]. case_match; [|done].
  match goal with |- context [ExecutionState.set s1 ?k ?v] =>
    pose proof (set_extends s1 k v) as Hx; destruct (ExecutionState.set s1 k v) as [[] s2] end;
    cbn in *; by etrans.
Qed.

End RuntimeFacts.
