(* ===== verification/Invoker.v ===== *)
(** * The invoker: execution context, system handlers and nested calls

    Models [crates/app/stf/src/invoker.rs] and [handlers.rs]: the environment
    every piece of account code runs in. The mutable borrows of an [Invoker]
    (the execution state and the gas counter) are the [World] threaded through
    every operation; its other fields are the [Invoker] record. Account code
    is looked up in an arbitrary code storage and interpreted by [run_prog].

    Nested calls recurse through account code, so [do_query] and [do_exec]
    take a fuel that counts nested calls; running out of it is the outcome
    [OutOfFuel], never a result. *)

From S2P Require Import Prelude Core Gas ExecState ExecStateFacts Runtime.

(** ** The world and its monad *)

Record World := mkWorld { w_storage : ExecutionState; w_gas : GasCounter }.

(** Why an execution stopped without a result: the panic of
    [restore_checkpoint] in [do_exec], or a panic of the account code. *)
Inductive PanicReason := RestoreFailed | CodePanic.

Inductive Outcome (A : Type) : Type :=
| Done (a : A) (w : World)
| Panicked (why : PanicReason)
| OutOfFuel.
Arguments Done {A} a w.
Arguments Panicked {A} why.
Arguments OutOfFuel {A}.

Definition M (A : Type) : Type := World -> Outcome A.

#[export] Instance M_ret : MRet M := fun A a w => Done a w.
#[export] Instance M_bind : MBind M := fun A B k m w =>
  match m w with
  | Done a w => k a w
  | Panicked why => Panicked why
  | OutOfFuel => OutOfFuel
  end.

Definition on_storage {A} (f : ExecutionState -> A * ExecutionState) : M A := fun w =>
  let '(a, s) := f (w_storage w) in Done a (mkWorld s (w_gas w)).

Definition on_gas {A} (f : GasCounter -> A * GasCounter) : M A := fun w =>
  let '(a, g) := f (w_gas w) in Done a (mkWorld (w_storage w) g).

(** ** The fungible-asset transfer message ([evolve_fungible_asset]), with the
    function identifier that [account_impl] computes from its name. *)
Record TransferMsg := mkTransferMsg { transfer_to : AccountId; transfer_amount : Z }.

(** Keccak-256 is a dependency (the [tiny_keccak] crate): a parameter. *)
Class Keccak := { keccak256 : bytes -> vec byte 32 }.

Definition compute_function_id `{Keccak} (fn_name : string) : Z :=
  be_value (take 4 (vec_to_list (keccak256 (string_bytes fn_name)))).

#[export] Instance TransferMsg_invokable `{Keccak} : InvokableMessage TransferMsg :=
  {| FUNCTION_IDENTIFIER := compute_function_id "transfer";
     FUNCTION_IDENTIFIER_NAME := "transfer" |}.

(** What the runtime needs from its dependencies. *)
Class RuntimeDeps := {
  deps_codec :: SystemCodec;
  deps_unicode :: UnicodeTables;
  deps_keccak :: Keccak;
  deps_transfer :: Borsh TransferMsg
}.

(** ** The invoker ([invoker.rs]) *)

Definition MAX_CALL_DEPTH : Z := 64.

Record Invoker := mkInvoker {
  inv_whoami : AccountId;
  inv_sender : AccountId;
  inv_funds : list FungibleAsset;
  inv_scope : ExecutionScope;
  inv_call_depth : Z;
  inv_block : BlockContext }.

(** Interpret a program, given the four operations of its environment. *)
Section RunProg.
Context (dq : AccountId -> InvokeRequest -> M (SdkResult InvokeResponse)).
Context (de : AccountId -> InvokeRequest -> list FungibleAsset -> M (SdkResult InvokeResponse)).
Context (ee : string -> bytes -> M (SdkResult unit)).
Context (ui : M (SdkResult bytes)).

Fixpoint run_query_prog {R} (p : QueryProg R) : M R :=
  match p with
  | QRet r => mret r
  | QPanic => fun _ => Panicked CodePanic
  | QDoQuery to data k => r ← dq to data; run_query_prog (k r)
  end.

Fixpoint run_prog {R} (p : EnvProg R) : M R :=
  match p with
  | PRet r => mret r
  | PPanic => fun _ => Panicked CodePanic
  | PDoQuery to data k => r ← dq to data; run_prog (k r)
  | PDoExec to data fs k => r ← de to data fs; run_prog (k r)
  | PEmitEvent name data k => r ← ee name data; run_prog (k r)
  | PUniqueId k => r ← ui; run_prog (k r)
  end.

End RunProg.

Module Invoker.

(** Constructors. *)
Definition new_for_end_block (block : BlockContext) : Invoker :=
  mkInvoker RUNTIME_ACCOUNT_ID AccountId.invalid [] (EndBlock (block_height block)) 0 block.

Definition new_for_begin_block (block : BlockContext) : Invoker :=
  mkInvoker RUNTIME_ACCOUNT_ID AccountId.invalid [] (BeginBlock (block_height block)) 0 block.

Definition new_for_query_with_context (recipient sender : AccountId) (funds : list FungibleAsset)
    (block : BlockContext) : Invoker :=
  mkInvoker recipient sender funds QueryScope 0 block.

Definition new_for_query (recipient : AccountId) : Invoker :=
  new_for_query_with_context recipient RUNTIME_ACCOUNT_ID [] BlockContext_default.

Definition new_for_validate_tx (tx_identifier : vec byte 32) (block : BlockContext) : Invoker :=
  mkInvoker AccountId.invalid RUNTIME_ACCOUNT_ID [] (TransactionScope tx_identifier) 0 block.

Definition branch_query (self : Invoker) (whoami : AccountId) : Invoker :=
  mkInvoker whoami RUNTIME_ACCOUNT_ID [] (inv_scope self)
    (saturating_add u16_max (inv_call_depth self) 1) (inv_block self).

Definition branch_exec (self : Invoker) (to : AccountId) (funds : list FungibleAsset) : Invoker :=
  mkInvoker to (inv_whoami self) funds (inv_scope self)
    (saturating_add u16_max (inv_call_depth self) 1) (inv_block self).

Definition into_new_exec (self : Invoker) (sender : AccountId) : Invoker :=
  mkInvoker sender AccountId.invalid [] (inv_scope self) (inv_call_depth self) (inv_block self).

(** The getters of [EnvironmentQuery]. *)
Definition env_view (self : Invoker) : EnvView :=
  mkEnvView (inv_whoami self) (inv_sender self) (inv_funds self) (inv_block self).

Definition emit_event (self : Invoker) (name : string) (data : bytes) : M (SdkResult unit) :=
  do? mret (validate_event name data) in
  let event := mkEvent (inv_whoami self) name (Message.from_bytes data) in
  do? on_storage (fun s => ExecutionState.emit_event s event) in
  mret (Ok tt).

Definition unique_id (self : Invoker) : M (SdkResult bytes) :=
  counter ← on_storage ExecutionState.next_unique_object_id;
  mret (scope_unique_id (inv_scope self) counter).

Section Calls.
Context `{RuntimeDeps} (account_codes : AccountsCodeStorage).

(** The recursive entry points, tied below. *)
Context (dq : Invoker -> AccountId -> InvokeRequest -> M (SdkResult InvokeResponse)).
Context (de : Invoker -> AccountId -> InvokeRequest -> list FungibleAsset
                -> M (SdkResult InvokeResponse)).

(** Run a program with [self] as its environment. *)
Definition run_env {R} (self : Invoker) (p : EnvProg R) : M R :=
  run_prog (dq self) (de self) (emit_event self) (unique_id self) p.

Definition run_env_query {R} (self : Invoker) (p : QueryProg R) : M R :=
  run_query_prog (dq self) p.

(** [get_account_code_identifier_for_account(..)?.ok_or(ERR_ACCOUNT_DOES_NOT_EXIST)?] *)
Definition account_code_id (account : AccountId) : M (SdkResult string) :=
  let? o := on_storage (fun s => get_account_code_identifier_for_account s account) in
  mret (ok_or o ERR_ACCOUNT_DOES_NOT_EXIST).

(** [handlers.rs] *)
Definition handle_system_query (_request : InvokeRequest) : M (SdkResult InvokeResponse) :=
  mret (Err ERR_UNKNOWN_FUNCTION).

Definition handle_storage_query (self : Invoker) (request : InvokeRequest)
    : M (SdkResult InvokeResponse) :=
  if function request =? FUNCTION_IDENTIFIER StorageGetRequest then
    let? storage_get := mret (InvokeRequest.get (A := StorageGetRequest) request) in
    let key := account_storage_key (get_account_id storage_get) (get_key storage_get) in
    let? value := on_storage (fun s => ExecutionState.get s key) in
    do? on_gas (fun g => GasCounter.consume_get_gas g key value) in
    mret (InvokeResponse.new (mkStorageGetResponse value))
  else mret (Err ERR_UNKNOWN_FUNCTION).

Definition handle_storage_exec (self : Invoker) (request : InvokeRequest)
    : M (SdkResult InvokeResponse) :=
  if function request =? FUNCTION_IDENTIFIER StorageSetRequest then
    let? storage_set := mret (InvokeRequest.get (A := StorageSetRequest) request) in
    let key := account_storage_key (inv_whoami self) (set_key storage_set) in
    do? on_gas (fun g => GasCounter.consume_set_gas g key (set_value storage_set)) in
    do? on_storage (fun s => ExecutionState.set s key (set_value storage_set)) in
    mret (InvokeResponse.new mkStorageSetResponse)
  else if function request =? FUNCTION_IDENTIFIER StorageRemoveRequest then
    let? storage_remove := mret (InvokeRequest.get (A := StorageRemoveRequest) request) in
    let key := account_storage_key (inv_whoami self) (remove_key storage_remove) in
    do? on_gas (fun g => GasCounter.consume_remove_gas g key) in
    do? on_storage (fun s => ExecutionState.remove s key) in
    mret (InvokeResponse.new mkStorageRemoveResponse)
  else mret (Err ERR_UNKNOWN_FUNCTION).

Definition create_account (self : Invoker) (code_id : string) (msg : Message)
    (funds : list FungibleAsset) : M (SdkResult (AccountId * Message)) :=
  do? mret (validate_code_id code_id) in
  let? new_account_id := on_storage next_account_number in
  do? on_storage (fun s => set_account_code_identifier_for_account s new_account_id code_id) in
  let req := InvokeRequest.new_from_message "init" 0 msg in
  let? stored_code_id := account_code_id new_account_id in
  let invoker := branch_exec self new_account_id funds in
  let? init_resp :=
    match with_code account_codes stored_code_id (fun code =>
      match code with
      | Some code => run_env invoker (code_init code (env_view invoker) req)
      | None => mret (Err ERR_CODE_NOT_FOUND)
      end) with
    | Ok m => m
    | Err e => mret (Err e)
    end in
  mret (Ok (new_account_id, InvokeResponse.into_inner init_resp)).

Definition register_account_at_id (self : Invoker) (account_id : AccountId) (code_id : string)
    (init_msg : Message) : M (SdkResult unit) :=
  let? existing := on_storage (fun s => get_account_code_identifier_for_account s account_id) in
  match existing with
  | Some _ => mret (Ok tt)
  | None =>
      do? mret (validate_code_id code_id) in
      let key := [ACCOUNT_IDENTIFIER_PREFIX] ++ AccountId.as_bytes account_id in
      let? code_id_msg := mret (Message.new code_id) in
      do? on_gas (fun g => GasCounter.consume_set_gas g key code_id_msg) in
      do? on_storage (fun s => ExecutionState.set s key code_id_msg) in
      let req := InvokeRequest.new_from_message "init" 0 init_msg in
      let invoker := branch_exec self account_id [] in
      do? match with_code account_codes code_id (fun code =>
            match code with
            | Some code => run_env invoker (code_init code (env_view invoker) req)
            | None => mret (Err ERR_CODE_NOT_FOUND)
            end) with
          | Ok m => m
          | Err e => mret (Err e)
          end in
      mret (Ok tt)
  end.

Definition handle_system_exec (self : Invoker) (request : InvokeRequest)
    (funds : list FungibleAsset) : M (SdkResult InvokeResponse) :=
  if function request =? FUNCTION_IDENTIFIER CreateAccountRequest then
    let? req := mret (InvokeRequest.get (A := CreateAccountRequest) request) in
    let? r := create_account self (create_code_id req) (create_init_message req) funds in
    mret (InvokeResponse.new (mkCreateAccountResponse r.1 r.2))
  else if function request =? FUNCTION_IDENTIFIER RegisterAccountAtIdRequest then
    let? req := mret (InvokeRequest.get (A := RegisterAccountAtIdRequest) request) in
    do? register_account_at_id self (register_account_id req) (register_code_id req)
          (register_init_message req) in
    mret (InvokeResponse.new mkRegisterAccountAtIdResponse)
  else if function request =? FUNCTION_IDENTIFIER MigrateRequest then
    let invoker := branch_exec self RUNTIME_ACCOUNT_ID [] in
    let? req := mret (InvokeRequest.get (A := MigrateRequest) request) in
    if bool_decide (migrate_account_id req ≠ inv_sender invoker) then mret (Err ERR_UNAUTHORIZED)
    else
      let? current_code_id := account_code_id (migrate_account_id req) in
      let? code_exists :=
        mret (with_code account_codes (new_code_id req) (fun code => bool_decide (is_Some code))) in
      if negb code_exists then mret (Err ERR_CODE_NOT_FOUND)
      else if bool_decide (current_code_id = new_code_id req)
      then mret (Err ERR_SAME_CODE_MIGRATION)
      else
        do? on_storage (fun s =>
              set_account_code_identifier_for_account s (migrate_account_id req)
                (new_code_id req)) in
        de invoker (migrate_account_id req) (execute_message req) funds
  else mret (Err ERR_UNKNOWN_FUNCTION).

Definition exec_without_transfers (self : Invoker) (to : AccountId) (data : InvokeRequest)
    (funds : list FungibleAsset) : M (SdkResult InvokeResponse) :=
  if bool_decide (to = RUNTIME_ACCOUNT_ID) then handle_system_exec self data funds
  else if bool_decide (to = STORAGE_ACCOUNT_ID) then handle_storage_exec self data
  else
    let? code_id := account_code_id to in
    let invoker := branch_exec self to funds in
    match with_code account_codes code_id (fun code =>
      match code with
      | Some code => run_env invoker (code_execute code (env_view invoker) data)
      | None => mret (Err ERR_CODE_NOT_FOUND)
      end) with
    | Ok m => m
    | Err e => mret (Err e)
    end.

Fixpoint transfer_loop (self : Invoker) (to : AccountId) (funds : list FungibleAsset)
    : M (SdkResult unit) :=
  match funds with
  | [] => mret (Ok tt)
  | asset :: funds =>
      let? request := mret (InvokeRequest.new (mkTransferMsg to (amount asset))) in
      do? exec_without_transfers self (asset_id asset) request [] in
      transfer_loop self to funds
  end.

Definition handle_transfers (self : Invoker) (to : AccountId) (funds : list FungibleAsset)
    : M (SdkResult unit) :=
  match funds with
  | [] => mret (Ok tt)
  | _ =>
      if bool_decide (to = STORAGE_ACCOUNT_ID) then mret (Err ERR_FUNDS_TO_SYSTEM_ACCOUNT)
      else transfer_loop self to funds
  end.

(** The closure [restore_checkpoint]: a failed restore panics. *)
Definition restore_checkpoint (c : Checkpoint) : M unit := fun w =>
  match ExecutionState.restore (w_storage w) c with
  | (Ok _, s) => Done tt (mkWorld s (w_gas w))
  | (Err _, _) => Panicked RestoreFailed
  end.

Definition do_exec_body (self : Invoker) (to : AccountId) (data : InvokeRequest)
    (funds : list FungibleAsset) : M (SdkResult InvokeResponse) :=
  if MAX_CALL_DEPTH <=? inv_call_depth self then mret (Err ERR_CALL_DEPTH_EXCEEDED)
  else
    checkpoint ← on_storage ExecutionState.checkpoint;
    transfers ← handle_transfers self to funds;
    match transfers with
    | Err transfer_err => _ ← restore_checkpoint checkpoint; mret (Err transfer_err)
    | Ok _ =>
        resp ← exec_without_transfers self to data funds;
        if is_err resp then _ ← restore_checkpoint checkpoint; mret resp
        else mret resp
    end.

Definition do_query_body (self : Invoker) (to : AccountId) (data : InvokeRequest)
    : M (SdkResult InvokeResponse) :=
  if bool_decide (to = RUNTIME_ACCOUNT_ID) then handle_system_query data
  else if bool_decide (to = STORAGE_ACCOUNT_ID) then handle_storage_query self data
  else
    let? code_id := account_code_id to in
    let invoker := branch_query self to in
    match with_code account_codes code_id (fun code =>
      match code with
      | Some code => run_env_query invoker (code_query code (env_view invoker) data)
      | None => mret (Err ERR_CODE_NOT_FOUND)
      end) with
    | Ok m => m
    | Err e => mret (Err e)
    end.

End Calls.

Section Tie.
Context `{RuntimeDeps} (account_codes : AccountsCodeStorage).

Fixpoint do_query (fuel : nat) (self : Invoker) (to : AccountId) (data : InvokeRequest)
    : M (SdkResult InvokeResponse) :=
  match fuel with
  | O => fun _ => OutOfFuel
  | S fuel => do_query_body account_codes (do_query fuel) self to data
  end.

Fixpoint do_exec (fuel : nat) (self : Invoker) (to : AccountId) (data : InvokeRequest)
    (funds : list FungibleAsset) : M (SdkResult InvokeResponse) :=
  match fuel with
  | O => fun _ => OutOfFuel
  | S fuel => do_exec_body account_codes (do_query fuel) (do_exec fuel) self to data funds
  end.

(** An environment program run by [self], with [fuel] nested calls. *)
Definition run (fuel : nat) {R} (self : Invoker) (p : EnvProg R) : M R :=
  run_env (do_query fuel) (do_exec fuel) self p.

End Tie.

End Invoker.
