(* ===== verification/Token.v ===== *)
(** * The token account

    Models [crates/app/sdk/extensions/token/src/lib.rs] (the [Token] account)
    with the messages of [crates/app/sdk/standards/evolve_fungible_asset], as
    the [AccountCode] the [account_impl] macro generates for it. *)

From S2P Require Import Prelude Core Collections Runtime Invoker.

Open Scope evolve_scope.

Definition ERR_NOT_ENOUGH_BALANCE : ErrorCode := define_error 0x1.
Definition ERR_UNDERFLOW : ErrorCode := define_error 0x2.

Record FungibleAssetMetadata := mkFungibleAssetMetadata {
  fa_name : string; fa_symbol : string; fa_decimals : Z; fa_icon_url : string;
  fa_description : string }.

(** The messages generated for the annotated methods. *)
Record InitializeMsg := mkInitializeMsg {
  im_metadata : FungibleAssetMetadata;
  im_balances : list (AccountId * Z);
  im_supply_manager : option AccountId }.
Record MintMsg := mkMintMsg { mint_recipient : AccountId; mint_amount : Z }.
Record BurnMsg := mkBurnMsg { burn_from_account : AccountId; burn_amount : Z }.
Record MetadataMsg := mkMetadataMsg {}.
Record GetBalanceMsg := mkGetBalanceMsg { gb_account : AccountId }.
Record TotalSupplyMsg := mkTotalSupplyMsg {}.

(** What borsh gives the token. A decoded [u128] is one. *)
Class TokenCodec `{Borsh TransferMsg} := {
  tok_u128 :: Borsh U128;
  tok_metadata :: Borsh FungibleAssetMetadata;
  tok_manager :: Borsh (option AccountId);
  tok_balance_response :: Borsh (option U128);
  tok_initialize :: Borsh InitializeMsg;
  tok_mint :: Borsh MintMsg;
  tok_burn :: Borsh BurnMsg;
  tok_metadata_msg :: Borsh MetadataMsg;
  tok_get_balance :: Borsh GetBalanceMsg;
  tok_total_supply :: Borsh TotalSupplyMsg;
  u128_in_range : forall b n, from_slice (A := U128) b = Some n -> is_u128 n;
  transfer_in_range : forall b m, from_slice (A := TransferMsg) b = Some m -> is_u128 (transfer_amount m)
}.

(** [unwrap_or_default() + amount] and [checked_sub] on [u128]. *)
Definition u128_add (balance : option U128) (amount : Z) : U128 := wrap128 (default 0 balance + amount).
Definition u128_checked_sub (balance : option U128) (amount : Z) (e : ErrorCode) : SdkResult U128 :=
  ok_or (checked_sub (default 0 balance) amount) e.

Module Token.
Section Methods.
Context `{RuntimeDeps} `{CollectionCodec} `{!TokenCodec}.

(** The storage prefixes of the [#[storage(n)]] fields. *)
Definition metadata_item : Item FungibleAssetMetadata := mkMap x00.
Definition balances : Map AccountId U128 := mkMap x01.
Definition total_supply_item : Item U128 := mkMap x02.
Definition supply_manager : Item (option AccountId) := mkMap x03.

Fixpoint initialize_loop (bs : list (AccountId * Z)) (total_supply : U128)
    : EnvProg (SdkResult U128) :=
  match bs with
  | [] => mret (Ok total_supply)
  | (account, balance) :: bs =>
      do? Map.set (V := U128) balances account balance in
      initialize_loop bs (wrap128 (total_supply + balance))
  end.

Definition initialize (msg : InitializeMsg) (env : EnvView) : EnvProg (SdkResult unit) :=
  do? Item.set metadata_item (im_metadata msg) in
  let? total_supply := initialize_loop (im_balances msg) 0 in
  do? Item.set supply_manager (im_supply_manager msg) in
  do? Item.set total_supply_item total_supply in
  mret (Ok tt).

Definition mint_unchecked (recipient : AccountId) (amount : Z) (env : EnvView)
    : EnvProg (SdkResult unit) :=
  do? Map.update balances recipient (fun balance => Ok (u128_add balance amount)) env in
  do? Item.update total_supply_item (fun supply => Ok (u128_add supply amount)) env in
  mret (Ok tt).

Definition mint (msg : MintMsg) (env : EnvView) : EnvProg (SdkResult unit) :=
  let? manager := lift_query (Item.get supply_manager env) in
  if bool_decide (manager ≠ Some (sender env)) then mret (Err ERR_UNAUTHORIZED)
  else mint_unchecked (mint_recipient msg) (mint_amount msg) env.

Definition burn_unchecked (from_account : AccountId) (amount : Z) (env : EnvView)
    : EnvProg (SdkResult unit) :=
  do? Map.update balances from_account
        (fun balance => u128_checked_sub balance amount ERR_UNDERFLOW) env in
  do? Item.update total_supply_item
        (fun supply => u128_checked_sub supply amount ERR_UNDERFLOW) env in
  mret (Ok tt).

Definition burn (msg : BurnMsg) (env : EnvView) : EnvProg (SdkResult unit) :=
  let? manager := lift_query (Item.get supply_manager env) in
  if bool_decide (manager ≠ Some (sender env)) then mret (Err ERR_UNAUTHORIZED)
  else burn_unchecked (burn_from_account msg) (burn_amount msg) env.

Definition transfer (msg : TransferMsg) (env : EnvView) : EnvProg (SdkResult unit) :=
  do? Map.update balances (sender env)
        (fun balance => u128_checked_sub balance (transfer_amount msg) ERR_NOT_ENOUGH_BALANCE) env in
  do? Map.update balances (transfer_to msg)
        (fun balance => Ok (u128_add balance (transfer_amount msg))) env in
  mret (Ok tt).

(** [Ok(self.metadata.may_get(env)?.unwrap())] *)
Definition metadata (msg : MetadataMsg) (env : EnvView)
    : QueryProg (SdkResult FungibleAssetMetadata) :=
  let? o := Item.may_get metadata_item env in
  match o with Some m => mret (Ok m) | None => QPanic end.

Definition get_balance (msg : GetBalanceMsg) (env : EnvView) : QueryProg (SdkResult (option U128)) :=
  Map.may_get balances (gb_account msg) env.

Definition total_supply (msg : TotalSupplyMsg) (env : EnvView) : QueryProg (SdkResult U128) :=
  Item.get total_supply_item env.

(** The generated [AccountCode]: [impl Token] first, then the interface. *)
Definition code : AccountCode := {|
  identifier := "Token";
  code_init := exec_arm false initialize;
  code_execute := dispatch
    [ (compute_function_id "mint", exec_arm false mint);
      (compute_function_id "burn", exec_arm false burn);
      (compute_function_id "transfer", exec_arm false transfer) ];
  code_query := dispatch
    [ (compute_function_id "metadata", query_arm metadata);
      (compute_function_id "get_balance", query_arm get_balance);
      (compute_function_id "total_supply", query_arm total_supply) ] |}.

End Methods.
End Token.
