(* ===== verification/Codec.v ===== *)
(** * Borsh streams and a reference codec

    The hand-written borsh implementations of
    [crates/app/sdk/core/src/message.rs] ([Message], [InvokeRequest]) over the
    stream interface of the borsh crate, and a reference instance of every
    parameter of the development (the borsh wire format for the runtime's own
    types, an ASCII-only table, a stand-in hash), which shows that the laws
    assumed of them can hold and lets the definitions run on concrete inputs. *)

From S2P Require Import Prelude Core Runtime Invoker.

Open Scope evolve_scope.

(** ** Streams

    [BorshSerialize::serialize] and [BorshDeserialize::deserialize_reader]: a
    reader gives the value and the bytes it has not consumed. The law is the
    round trip on a prefix of any input. *)
Class BorshStream (A : Type) := {
  serialize : A -> option bytes;
  deserialize_reader : bytes -> option (A * bytes);
  deserialize_serialize a b rest :
    serialize a = Some b -> deserialize_reader (b ++ rest) = Some (a, rest)
}.

(** [borsh::to_vec] and [borsh::from_slice]: the whole slice must be read. *)
Definition stream_from_slice {A} `{BorshStream A} (b : bytes) : option A :=
  match deserialize_reader b with
  | Some (a, []) => Some a
  | _ => None
  end.

Lemma stream_from_slice_serialize {A} `{BorshStream A} a b :
  serialize a = Some b -> stream_from_slice b = Some a.
Proof.
  intros Hs. unfold stream_from_slice. pose proof (deserialize_serialize a b [] Hs) as Hd.
  rewrite app_nil_r in Hd. by rewrite Hd.
Qed.

Definition stream_borsh {A} `{BorshStream A} : Borsh A :=
  {| to_vec := serialize; from_slice := stream_from_slice;
     from_slice_to_vec := stream_from_slice_serialize |}.

(** [reader.read_exact] of [n] bytes. *)
Definition read_exact (n : nat) (reader : bytes) : option (bytes * bytes) :=
  if (n <=? length reader)%nat then Some (take n reader, drop n reader) else None.

Lemma read_exact_app b rest : read_exact (length b) (b ++ rest) = Some (b, rest).
Proof.
  unfold read_exact. rewrite length_app.
  replace (_ <=? _)%nat with true by (symmetry; apply Nat.leb_le; lia).
  by rewrite take_app_length, drop_app_length.
Qed.

(** ** UTF-8 validity, as [String::from_utf8] checks it. *)
Definition between (lo hi : Z) (b : byte) : bool := (lo <=? Z_of_byte b) && (Z_of_byte b <=? hi).
Definition continuation : byte -> bool := between 0x80 0xBF.

Fixpoint utf8_valid (b : bytes) : bool :=
  match b with
  | [] => true
  | b0 :: r0 =>
      if between 0 0x7F b0 then utf8_valid r0
      else match r0 with
      | [] => false
      | b1 :: r1 =>
          if between 0xC2 0xDF b0 then continuation b1 && utf8_valid r1
          else match r1 with
          | [] => false
          | b2 :: r2 =>
              if between 0xE0 0xEF b0
              then between (if Z_of_byte b0 =? 0xE0 then 0xA0 else 0x80)
                           (if Z_of_byte b0 =? 0xED then 0x9F else 0xBF) b1
                   && continuation b2 && utf8_valid r2
              else match r2 with
              | [] => false
              | b3 :: r3 =>
                  between 0xF0 0xF4 b0
                  && between (if Z_of_byte b0 =? 0xF0 then 0x90 else 0x80)
                             (if Z_of_byte b0 =? 0xF4 then 0x8F else 0xBF) b1
                  && continuation b2 && continuation b3 && utf8_valid r3
              end
          end
      end
  end.

Definition from_utf8 (b : bytes) : option string :=
  if utf8_valid b then Some (String.string_of_list_byte b) else None.

(** ** The implementations of [message.rs] *)
Section MessageImpls.
Context (u32_stream u64_stream : BorshStream Z) (vec_u8 : BorshStream bytes).

Definition Message_serialize (self : Message) : option bytes :=
  @serialize _ vec_u8 (match inner self with OwnedBytes b => b end).

Definition Message_deserialize_reader (reader : bytes) : option (Message * bytes) :=
  '(b, reader) ← @deserialize_reader _ vec_u8 reader; Some (mkMessage (OwnedBytes b), reader).

Definition InvokeRequest_serialize (self : InvokeRequest) : option bytes :=
  let name_bytes := string_bytes (human_name self) in
  let len := zlen name_bytes in
  if len <=? 0xFFFFFFFF then
    f ← @serialize _ u64_stream (function self);
    m ← Message_serialize (message self);
    Some (le_bytes 4 len ++ name_bytes ++ f ++ m)
  else None.

Definition InvokeRequest_deserialize_reader (reader : bytes) : option (InvokeRequest * bytes) :=
  '(len, reader) ← @deserialize_reader _ u32_stream reader;
  '(buf, reader) ← read_exact (Z.to_nat len) reader;
  name ← from_utf8 buf;
  '(fn, reader) ← @deserialize_reader _ u64_stream reader;
  '(msg, reader) ← Message_deserialize_reader reader;
  Some (mkInvokeRequest name fn msg, reader).

Lemma Message_stream_law m b rest :
  Message_serialize m = Some b -> Message_deserialize_reader (b ++ rest) = Some (m, rest).
Proof.
  unfold Message_serialize, Message_deserialize_reader. intros Hs.
  rewrite (deserialize_serialize _ _ rest Hs). by destruct m as [[?]].
Qed.

(** The name is written as its little-endian length and its bytes: what
    [u32::deserialize_reader] and [read_exact] read back. *)
Lemma InvokeRequest_stream_law r b rest :
  (forall n, 0 <= n <= 0xFFFFFFFF -> @serialize _ u32_stream n = Some (le_bytes 4 n)) ->
  utf8_valid (string_bytes (human_name r)) = true ->
  InvokeRequest_serialize r = Some b ->
  InvokeRequest_deserialize_reader (b ++ rest) = Some (r, rest).
Proof.
  intros Hu32 Hutf. unfold InvokeRequest_serialize, InvokeRequest_deserialize_reader.
  destruct (_ <=? _) eqn:El; [|done]. set (name := string_bytes (human_name r)) in *.
  destruct (@serialize _ u64_stream (function r)) as [f|] eqn:Ef; [|done].
  destruct (Message_serialize (message r)) as [m|] eqn:Em; [|done].
  cbn [mbind option_bind]. intros Hb. apply (inj Some) in Hb as <-.
  assert (Hlen : 0 <= zlen name) by (unfold zlen; lia).
  rewrite <-!app_assoc, (deserialize_serialize _ _ _ (Hu32 (zlen name) ltac:(lia))).
  cbn [mbind option_bind]. unfold zlen at 1. rewrite Nat2Z.id, read_exact_app.
  cbn [mbind option_bind]. unfold from_utf8. rewrite Hutf. cbn [mbind option_bind].
  rewrite (deserialize_serialize _ _ _ Ef). cbn [mbind option_bind].
  rewrite (Message_stream_law _ _ _ Em). cbn [mbind option_bind].
  unfold name, string_bytes. rewrite String.string_of_list_byte_of_string. by destruct r.
Qed.

End MessageImpls.

(** ** The reference instances *)
Module Reference.

(** Unsigned integers: [n] little-endian bytes. *)
Definition uint_serialize (n : nat) (z : Z) : option bytes :=
  if (0 <=? z) && (z <? 256 ^ Z.of_nat n) then Some (le_bytes n z) else None.

Definition uint_deserialize (n : nat) (reader : bytes) : option (Z * bytes) :=
  '(b, reader) ← read_exact n reader; Some (le_value b, reader).

Lemma uint_law n z b rest :
  uint_serialize n z = Some b -> uint_deserialize n (b ++ rest) = Some (z, rest).
Proof.
  unfold uint_serialize, uint_deserialize. destruct (_ && _) eqn:Er; [|done].
  intros Hb. apply (inj Some) in Hb as <-.
  rewrite <-(length_le_bytes n z) at 1. rewrite read_exact_app. cbn [mbind option_bind].
  rewrite le_value_bytes, Z.mod_small by lia. done.
Qed.

Definition uint (n : nat) : BorshStream Z :=
  {| serialize := uint_serialize n; deserialize_reader := uint_deserialize n;
     deserialize_serialize := uint_law n |}.

(** [Vec<u8>]: a [u32] length and the bytes. *)
Definition vec_serialize (v : bytes) : option bytes :=
  n ← uint_serialize 4 (zlen v); Some (n ++ v).

Definition vec_deserialize (reader : bytes) : option (bytes * bytes) :=
  '(n, reader) ← uint_deserialize 4 reader; read_exact (Z.to_nat n) reader.

Lemma vec_law v b rest : vec_serialize v = Some b -> vec_deserialize (b ++ rest) = Some (v, rest).
Proof.
  unfold vec_serialize, vec_deserialize. destruct (uint_serialize 4 (zlen v)) as [n|] eqn:En; [|done].
  cbn [mbind option_bind]. intros Hb. apply (inj Some) in Hb as <-.
  rewrite <-app_assoc, (uint_law 4 _ _ _ En). cbn [mbind option_bind].
  unfold zlen. by rewrite Nat2Z.id, read_exact_app.
Qed.

#[export] Instance vec_u8 : BorshStream bytes :=
  {| serialize := vec_serialize; deserialize_reader := vec_deserialize;
     deserialize_serialize := vec_law |}.

(** Values in bijection with a streamed type, where [up] may reject. *)
Section Iso.
Context {A B} `{BorshStream A} (down : B -> A) (up : A -> option B).
Context (ok : B -> bool) (up_down : forall b, ok b = true -> up (down b) = Some b).

Definition iso_serialize (x : B) : option bytes := if ok x then serialize (down x) else None.

Definition iso_deserialize (reader : bytes) : option (B * bytes) :=
  '(a, reader) ← deserialize_reader reader; x ← up a; Some (x, reader).

Lemma iso_law x b rest : iso_serialize x = Some b -> iso_deserialize (b ++ rest) = Some (x, rest).
Proof using up_down.
  unfold iso_serialize, iso_deserialize. destruct (ok x) eqn:Eo; [|done]. intros Hs.
  rewrite (deserialize_serialize _ _ _ Hs). cbn [mbind option_bind]. by rewrite (up_down x Eo).
Qed.

Definition iso : BorshStream B :=
  {| serialize := iso_serialize; deserialize_reader := iso_deserialize;
     deserialize_serialize := iso_law |}.
End Iso.

(** Structs are the concatenation of their fields. *)
Section Pair.
Context {A B} `{BorshStream A} `{BorshStream B}.

Definition pair_serialize (p : A * B) : option bytes :=
  a ← serialize p.1; b ← serialize p.2; Some (a ++ b).

Definition pair_deserialize (reader : bytes) : option (A * B * bytes) :=
  '(a, reader) ← deserialize_reader reader;
  '(b, reader) ← deserialize_reader reader; Some (a, b, reader).

Lemma pair_law p b rest :
  pair_serialize p = Some b -> pair_deserialize (b ++ rest) = Some (p, rest).
Proof.
  unfold pair_serialize, pair_deserialize. destruct (serialize p.1) as [x|] eqn:Ex; [|done].
  destruct (serialize p.2) as [y|] eqn:Ey; [|done]. cbn [mbind option_bind].
  intros Hb. apply (inj Some) in Hb as <-.
  rewrite <-app_assoc, (deserialize_serialize _ _ _ Ex). cbn [mbind option_bind].
  rewrite (deserialize_serialize _ _ _ Ey). by destruct p.
Qed.

#[export] Instance pair_stream : BorshStream (A * B) :=
  {| serialize := pair_serialize; deserialize_reader := pair_deserialize;
     deserialize_serialize := pair_law |}.
End Pair.

(** [Option]: a tag byte. *)
Section Option.
Context {A} `{BorshStream A}.

Definition option_serialize (o : option A) : option bytes :=
  match o with
  | None => Some [x00]
  | Some a => b ← serialize a; Some (x01 :: b)
  end.

Definition option_deserialize (reader : bytes) : option (option A * bytes) :=
  match reader with
  | x00 :: reader => Some (None, reader)
  | x01 :: reader => '(a, reader) ← deserialize_reader reader; Some (Some a, reader)
  | _ => None
  end.

Lemma option_law o b rest :
  option_serialize o = Some b -> option_deserialize (b ++ rest) = Some (o, rest).
Proof.
  destruct o as [a|]; cbn [option_serialize]; [|by intros [= <-]].
  destruct (serialize a) as [x|] eqn:Ex; [|done]. cbn [mbind option_bind].
  intros Hb. apply (inj Some) in Hb as <-. cbn [app option_deserialize].
  by rewrite (deserialize_serialize _ _ _ Ex).
Qed.

#[export] Instance option_stream : BorshStream (option A) :=
  {| serialize := option_serialize; deserialize_reader := option_deserialize;
     deserialize_serialize := option_law |}.
End Option.

(** Empty structs. *)
Definition unit_stream {A} (a0 : A) (all : forall a, a = a0) : BorshStream A.
Proof.
  refine {| serialize _ := Some []; deserialize_reader r := Some (a0, r) |}.
  intros a b rest [= <-]. by rewrite (all a).
Defined.

#[export] Instance string_stream : BorshStream string.
Proof.
  refine (iso string_bytes from_utf8 (fun s => utf8_valid (string_bytes s)) _).
  intros s Hs. unfold from_utf8. rewrite Hs. f_equal. apply String.string_of_list_byte_of_string.
Defined.

#[export] Instance message_stream : BorshStream Message :=
  {| serialize := Message_serialize vec_u8;
     deserialize_reader := Message_deserialize_reader vec_u8;
     deserialize_serialize := Message_stream_law vec_u8 |}.

(** [[u8; N]]: the bytes, without a length. *)
Fixpoint read_vec (n : nat) (reader : bytes) : option (vec byte n * bytes) :=
  match n with
  | O => Some ([#], reader)
  | S n =>
      match reader with
      | [] => None
      | b :: reader => '(v, reader) ← read_vec n reader; Some (b ::: v, reader)
      end
  end.

Lemma read_vec_law n (v : vec byte n) rest : read_vec n (vec_to_list v ++ rest) = Some (v, rest).
Proof. induction v as [|b n v IH]; cbn [vec_to_list app read_vec]; [done|]. by rewrite IH. Qed.

Definition array (n : nat) : BorshStream (vec byte n).
Proof.
  refine {| serialize v := Some (vec_to_list v); deserialize_reader := read_vec n |}.
  intros v b rest [= <-]. apply read_vec_law.
Defined.

(** The derived implementations of the runtime's types. *)
#[export] Instance account_stream : BorshStream AccountId :=
  iso (H := array 32) account_id_bytes (fun v => Some (mkAccountId v)) (fun _ => true)
    (fun a _ => ltac:(by destruct a)).

#[export] Instance request_stream : BorshStream InvokeRequest.
Proof.
  refine {| serialize r := if utf8_valid (string_bytes (human_name r))
                           then InvokeRequest_serialize (uint 8) vec_u8 r else None;
            deserialize_reader := InvokeRequest_deserialize_reader (uint 4) (uint 8) vec_u8 |}.
  intros r b rest. destruct (utf8_valid _) eqn:Hu; [|done]. intros Hs.
  eapply InvokeRequest_stream_law; [|done|done].
  intros n Hn. cbn [serialize uint]. unfold uint_serialize.
  change (256 ^ Z.of_nat 4) with 4294967296.
  destruct (_ && _) eqn:E; [done|]. apply andb_false_iff in E. lia.
Defined.

Ltac by_iso := let x := fresh in intros x _; by destruct x.

#[export] Instance get_request_stream : BorshStream StorageGetRequest.
Proof.
  refine (iso (fun r => (get_account_id r, get_key r))
            (fun p => Some (mkStorageGetRequest p.1 p.2)) (fun _ => true) _). by_iso.
Defined.
#[export] Instance get_response_stream : BorshStream StorageGetResponse.
Proof. refine (iso get_value (fun v => Some (mkStorageGetResponse v)) (fun _ => true) _). by_iso. Defined.
#[export] Instance set_request_stream : BorshStream StorageSetRequest.
Proof.
  refine (iso (fun r => (set_key r, set_value r))
            (fun p => Some (mkStorageSetRequest p.1 p.2)) (fun _ => true) _). by_iso.
Defined.
#[export] Instance set_response_stream : BorshStream StorageSetResponse :=
  unit_stream mkStorageSetResponse (fun a => ltac:(by destruct a)).
#[export] Instance remove_request_stream : BorshStream StorageRemoveRequest.
Proof. refine (iso remove_key (fun k => Some (mkStorageRemoveRequest k)) (fun _ => true) _). by_iso. Defined.
#[export] Instance remove_response_stream : BorshStream StorageRemoveResponse :=
  unit_stream mkStorageRemoveResponse (fun a => ltac:(by destruct a)).
#[export] Instance create_request_stream : BorshStream CreateAccountRequest.
Proof.
  refine (iso (fun r => (create_code_id r, create_init_message r))
            (fun p => Some (mkCreateAccountRequest p.1 p.2)) (fun _ => true) _). by_iso.
Defined.
#[export] Instance create_response_stream : BorshStream CreateAccountResponse.
Proof.
  refine (iso (fun r => (new_account_id r, init_response r))
            (fun p => Some (mkCreateAccountResponse p.1 p.2)) (fun _ => true) _). by_iso.
Defined.
#[export] Instance register_request_stream : BorshStream RegisterAccountAtIdRequest.
Proof.
  refine (iso (fun r => (register_account_id r, register_code_id r, register_init_message r))
            (fun p => Some (mkRegisterAccountAtIdRequest p.1.1 p.1.2 p.2)) (fun _ => true) _). by_iso.
Defined.
#[export] Instance register_response_stream : BorshStream RegisterAccountAtIdResponse :=
  unit_stream mkRegisterAccountAtIdResponse (fun a => ltac:(by destruct a)).
#[export] Instance migrate_request_stream : BorshStream MigrateRequest.
Proof.
  refine (iso (fun r => (migrate_account_id r, new_code_id r, execute_message r))
            (fun p => Some (mkMigrateRequest p.1.1 p.1.2 p.2)) (fun _ => true) _). by_iso.
Defined.
#[export] Instance transfer_stream : BorshStream TransferMsg.
Proof.
  refine (iso (H := pair_stream (H0 := uint 16)) (fun r => (transfer_to r, transfer_amount r))
            (fun p => Some (mkTransferMsg p.1 p.2)) (fun _ => true) _). by_iso.
Defined.

#[export] Instance u64_borsh : Borsh Z := @stream_borsh Z (uint 8).

(** A hash with 32 bytes of output: the first bytes of the input, padded. *)
Fixpoint pad (n : nat) (b : bytes) : vec byte n :=
  match n with
  | O => [#]
  | S n => match b with [] => x00 ::: pad n [] | x :: b => x ::: pad n b end
  end.

#[export] Instance keccak : Keccak := {| keccak256 := pad 32 |}.
#[export] Instance ascii_only : UnicodeTables := {| unicode_alphanumeric _ := false |}.

#[export] Instance codec : SystemCodec := {|
  codec_string := stream_borsh;
  codec_account_id := stream_borsh;
  codec_get_request := stream_borsh;
  codec_get_response := stream_borsh;
  codec_set_request := stream_borsh;
  codec_set_response := stream_borsh;
  codec_remove_request := stream_borsh;
  codec_remove_response := stream_borsh;
  codec_create_request := stream_borsh;
  codec_create_response := stream_borsh;
  codec_register_request := stream_borsh;
  codec_register_response := stream_borsh;
  codec_migrate_request := stream_borsh |}.

#[export] Instance deps : RuntimeDeps := {|
  deps_codec := codec;
  deps_unicode := ascii_only;
  deps_keccak := keccak;
  deps_transfer := stream_borsh |}.

End Reference.
