(* ===== verification/Stf.v ===== *)
(** * The state transition function

    Models [crates/app/stf/src/lib.rs] (the [Stf] struct and its methods),
    [results.rs], [metrics.rs] and the traits of
    [crates/app/sdk/stf_traits/src/lib.rs] it is generic in. The components of
    an [Stf] (begin and end blockers, the validator, the post-transaction
    handler) and the methods of a [Transaction] that receive an environment are
    environment programs, run by the invoker the code creates for each phase. *)

From S2P Require Import Prelude Core Gas ExecState ExecStateFacts Runtime Invoker.

(** ** The traits of [stf_traits] *)

Record SenderBootstrap := mkSenderBootstrap {
  bootstrap_account_code_id : string; bootstrap_init_message : Message }.

Class Transaction (Tx : Type) := {
  tx_sender : Tx -> AccountId;
  tx_recipient : Tx -> AccountId;
  tx_request : Tx -> InvokeRequest;
  tx_gas_limit : Tx -> Z;
  tx_funds : Tx -> list FungibleAsset;
  compute_identifier : Tx -> vec byte 32;
  resolve_sender_account : Tx -> EnvView -> EnvProg (SdkResult AccountId);
  resolve_recipient_account : Tx -> EnvView -> EnvProg (SdkResult AccountId);
  sender_bootstrap : Tx -> option SenderBootstrap;
  after_sender_bootstrap : Tx -> AccountId -> EnvView -> EnvProg (SdkResult unit)
}.

(** The default bodies of the trait's methods. *)
Definition default_resolve_sender_account {Tx} (sender : Tx -> AccountId) (self : Tx)
    (_env : EnvView) : EnvProg (SdkResult AccountId) := PRet (Ok (sender self)).
Definition default_resolve_recipient_account {Tx} (recipient : Tx -> AccountId) (self : Tx)
    (_env : EnvView) : EnvProg (SdkResult AccountId) := PRet (Ok (recipient self)).
Definition default_sender_bootstrap {Tx} (_self : Tx) : option SenderBootstrap := None.
Definition default_after_sender_bootstrap {Tx} (_self : Tx) (_resolved_sender : AccountId)
    (_env : EnvView) : EnvProg (SdkResult unit) := PRet (Ok tt).

Class Block (B Tx : Type) := {
  block_context : B -> BlockContext;
  block_txs : B -> list Tx;
  block_gas_limit : B -> Z
}.

Definition default_block_gas_limit : Z := u64_max.

(** ** Signature pre-verification *)

Record SignatureVerificationResult := mkSignatureVerificationResult {
  sig_index : Z; sig_result : SdkResult unit }.

(** [par_iter().enumerate().map(..).collect()] keeps the order of the slice. *)
Definition verify_signatures_parallel {Tx} (txs : list Tx) (verify_signature : Tx -> SdkResult unit)
    : list SignatureVerificationResult :=
  imap (fun index tx => mkSignatureVerificationResult (Z.of_nat index) (verify_signature tx)) txs.

Fixpoint filter_valid_signatures {Tx} (txs : list Tx) (results : list SignatureVerificationResult)
    : list Tx * list Z :=
  match txs, results with
  | tx :: txs, result :: results =>
      let '(valid_txs, indices) := filter_valid_signatures txs results in
      if is_ok (sig_result result)
      then (tx :: valid_txs, sig_index result :: indices)
      else (valid_txs, indices)
  | _, _ => ([], [])
  end.

(** ** Results and metrics *)

Record TxResult := mkTxResult {
  tx_events : list Event; tx_gas_used : Z; tx_response : SdkResult InvokeResponse }.

Record BlockResult := mkBlockResult {
  begin_block_events : list Event;
  tx_results : list TxResult;
  end_block_events : list Event;
  gas_used : Z;
  txs_skipped : Z }.

Record TxExecutionMetrics := mkTxExecutionMetrics {
  txm_index : Z;
  txm_duration_ns : Z;
  txm_gas_used : Z;
  txm_storage_reads : Z;
  txm_storage_writes : Z;
  txm_events_emitted : Z;
  txm_checkpoints : Z;
  txm_restores : Z;
  txm_overlay_len_max : Z;
  txm_undo_log_len_max : Z }.

Definition TxExecutionMetrics_from_delta (index duration_ns gas_used : Z) (delta : ExecutionMetrics)
    : TxExecutionMetrics := {|
  txm_index := index;
  txm_duration_ns := duration_ns;
  txm_gas_used := gas_used;
  txm_storage_reads := storage_reads delta;
  txm_storage_writes := storage_writes delta;
  txm_events_emitted := events_emitted delta;
  txm_checkpoints := checkpoints delta;
  txm_restores := restores delta;
  txm_overlay_len_max := overlay_len_max delta;
  txm_undo_log_len_max := undo_log_len_max delta |}.

Record BlockExecutionMetrics := mkBlockExecutionMetrics {
  bm_begin_block_ns : Z;
  bm_end_block_ns : Z;
  bm_total_ns : Z;
  bm_storage_reads : Z;
  bm_storage_writes : Z;
  bm_events_emitted : Z;
  bm_checkpoints : Z;
  bm_restores : Z;
  bm_overlay_len_max : Z;
  bm_undo_log_len_max : Z;
  bm_txs : list TxExecutionMetrics }.

Definition BlockExecutionMetrics_from_delta (begin_block_ns end_block_ns total_ns : Z)
    (delta : ExecutionMetrics) (txs : list TxExecutionMetrics) : BlockExecutionMetrics := {|
  bm_begin_block_ns := begin_block_ns;
  bm_end_block_ns := end_block_ns;
  bm_total_ns := total_ns;
  bm_storage_reads := storage_reads delta;
  bm_storage_writes := storage_writes delta;
  bm_events_emitted := events_emitted delta;
  bm_checkpoints := checkpoints delta;
  bm_restores := restores delta;
  bm_overlay_len_max := overlay_len_max delta;
  bm_undo_log_len_max := undo_log_len_max delta;
  bm_txs := txs |}.

(** What the clock reads during a block: the nanoseconds of its phases and of
    each transaction, by index. *)
Record Timings := mkTimings {
  t_begin_block_ns : Z; t_end_block_ns : Z; t_total_ns : Z; t_tx_ns : Z -> Z }.

(** ** The [Stf] struct *)

Record Stf (Tx B : Type) := mkStf {
  begin_blocker : B -> EnvView -> EnvProg unit;
  end_blocker : EnvView -> EnvProg unit;
  tx_validator : Tx -> EnvView -> EnvProg (SdkResult unit);
  post_tx_handler : Tx -> Z -> SdkResult InvokeResponse -> EnvView -> EnvProg (SdkResult unit);
  storage_gas_config : StorageGasConfig }.
Arguments mkStf {Tx B}.
Arguments begin_blocker {Tx B} _.
Arguments end_blocker {Tx B} _.
Arguments tx_validator {Tx B} _.
Arguments post_tx_handler {Tx B} _.
Arguments storage_gas_config {Tx B} _.

Record QueryContext := mkQueryContext {
  q_gas_limit : option Z; q_sender : AccountId; q_funds : list FungibleAsset;
  q_block : BlockContext }.

(** Run [m] with a gas counter local to it: [let mut gas_counter = g; ..]. *)
Definition with_gas_counter {A} (g : GasCounter) (m : M A) : M A := fun w =>
  match m (mkWorld (w_storage w) g) with
  | Done a w' => Done a (mkWorld (w_storage w') (w_gas w))
  | Panicked why => Panicked why
  | OutOfFuel => OutOfFuel
  end.

(** [gas_counter.gas_used()] and [state.pop_events()]. *)
Definition read_gas_used : M Z := on_gas (fun g => (GasCounter.gas_used g, g)).
Definition pop_events : M (list Event) := on_storage ExecutionState.pop_events.

Module Stf.
Section Methods.
Context `{RuntimeDeps} {Tx B : Type} `{Transaction Tx} `{Block B Tx}.
Context (self : Stf Tx B) (account_codes : AccountsCodeStorage) (fuel : nat).

(** The calls an [Invoker] makes, at the fuel of the whole run. *)
Definition run {R} (ctx : Invoker) (code : EnvView -> EnvProg R) : M R :=
  Invoker.run account_codes fuel ctx (code (Invoker.env_view ctx)).
Definition do_exec := Invoker.do_exec account_codes fuel.
Definition do_query := Invoker.do_query account_codes fuel.

Definition do_begin_block (block : B) : M (list Event) :=
  _ ← with_gas_counter Infinite
        (run (Invoker.new_for_begin_block (block_context block)) (begin_blocker self block));
  pop_events.

Definition do_end_block (block : BlockContext) : M (list Event) :=
  _ ← with_gas_counter Infinite (run (Invoker.new_for_end_block block) (end_blocker self));
  pop_events.

Definition tx_error_result (err : ErrorCode) : M TxResult :=
  events ← pop_events;
  gas_used ← read_gas_used;
  mret (mkTxResult events gas_used (Err err)).

Definition resolve_sender_phase (tx : Tx) (block : BlockContext) : M (SdkResult AccountId) :=
  run (Invoker.new_for_begin_block block) (resolve_sender_account tx).

Definition bootstrap_sender_phase (tx : Tx) (resolved_sender : AccountId) (block : BlockContext)
    : M (SdkResult unit) :=
  match sender_bootstrap tx with
  | None => mret (Ok tt)
  | Some bootstrap =>
      let reg_ctx := Invoker.new_for_begin_block block in
      do? Invoker.register_account_at_id account_codes do_query do_exec reg_ctx resolved_sender
            (bootstrap_account_code_id bootstrap) (bootstrap_init_message bootstrap) in
      do? run reg_ctx (after_sender_bootstrap tx resolved_sender) in
      _ ← pop_events;
      mret (Ok tt)
  end.

Definition validate_tx_phase (tx : Tx) (ctx : Invoker) : M (SdkResult unit) :=
  run ctx (tx_validator self tx).

Definition execute_tx_phase (tx : Tx) (ctx : Invoker) (resolved_sender : AccountId)
    : M (SdkResult InvokeResponse) :=
  let exec_ctx := Invoker.into_new_exec ctx resolved_sender in
  let? recipient := run exec_ctx (resolve_recipient_account tx) in
  response ← do_exec exec_ctx recipient (tx_request tx) (tx_funds tx);
  gas_used ← read_gas_used;
  post_tx_result ← run exec_ctx (post_tx_handler self tx gas_used response);
  match post_tx_result with
  | Ok _ => mret response
  | Err post_tx_err => mret (Err post_tx_err)
  end.

(** [apply_tx] after its gas counter is created: the four phases. *)
Definition apply_tx_phases (tx : Tx) (block : BlockContext) : M TxResult :=
  resolved ← resolve_sender_phase tx block;
  match resolved with
  | Err err => tx_error_result err
  | Ok resolved_sender =>
      bootstrapped ← bootstrap_sender_phase tx resolved_sender block;
      match bootstrapped with
      | Err err => tx_error_result err
      | Ok _ =>
          let validation_ctx := Invoker.new_for_validate_tx (compute_identifier tx) block in
          validated ← validate_tx_phase tx validation_ctx;
          match validated with
          | Err err => tx_error_result err
          | Ok _ =>
              response ← execute_tx_phase tx validation_ctx resolved_sender;
              events ← pop_events;
              gas_used ← read_gas_used;
              mret (mkTxResult events gas_used response)
          end
      end
  end.

Definition apply_tx (tx : Tx) (gas_config : StorageGasConfig) (block : BlockContext) : M TxResult :=
  with_gas_counter (Finite (tx_gas_limit tx) 0 gas_config) (apply_tx_phases tx block).

(** The transaction loop of [apply_block], from the transactions left; [len]
    is [txs.len()]. It gives [tx_results], [cumulative_gas], [txs_skipped]. *)
Fixpoint apply_txs (len : Z) (block_ctx : BlockContext) (limit : Z) (txs : list Tx)
    (results : list TxResult) (cumulative_gas skipped : Z) : M (list TxResult * Z * Z) :=
  match txs with
  | [] => mret (results, cumulative_gas, skipped)
  | tx :: txs =>
      if limit <? saturating_add u64_max cumulative_gas (tx_gas_limit tx)
      then apply_txs len block_ctx limit txs results cumulative_gas (skipped + 1)
      else
        tx_result ← apply_tx tx (storage_gas_config self) block_ctx;
        let cumulative_gas := saturating_add u64_max cumulative_gas (tx_gas_used tx_result) in
        let results := results ++ [tx_result] in
        if limit <=? cumulative_gas
        then mret (results, cumulative_gas, skipped + (len - zlen results))
        else apply_txs len block_ctx limit txs results cumulative_gas skipped
  end.

Definition apply_block_body (block : B) : M BlockResult :=
  begin_events ← do_begin_block block;
  let txs := block_txs block in
  r ← apply_txs (zlen txs) (block_context block) (block_gas_limit block) txs [] 0 0;
  let '(results, cumulative_gas, skipped) := r in
  end_events ← do_end_block (block_context block);
  mret (mkBlockResult begin_events results end_events cumulative_gas skipped).

(** A run from fresh execution state over [storage]. *)
Definition on_fresh_state {A} (storage : bytes -> SdkResult (option bytes)) (g : GasCounter) (m : M A)
    : Outcome A :=
  m (mkWorld (ExecutionState.new storage) g).

Definition apply_block (storage : bytes -> SdkResult (option bytes)) (block : B)
    : Outcome BlockResult :=
  on_fresh_state storage Infinite (apply_block_body block).

(** The instrumented loop. *)
Definition metrics_snapshot : M ExecutionMetrics :=
  on_storage (fun s => (ExecutionState.metrics_snapshot s, s)).

Fixpoint apply_txs_with_metrics (clock : Timings) (len : Z) (block_ctx : BlockContext) (limit : Z)
    (index : Z) (txs : list Tx) (results : list TxResult) (tx_metrics : list TxExecutionMetrics)
    (cumulative_gas skipped : Z) : M (list TxResult * Z * Z * list TxExecutionMetrics) :=
  match txs with
  | [] => mret (results, cumulative_gas, skipped, tx_metrics)
  | tx :: txs =>
      if limit <? saturating_add u64_max cumulative_gas (tx_gas_limit tx)
      then apply_txs_with_metrics clock len block_ctx limit (index + 1) txs results tx_metrics
             cumulative_gas (skipped + 1)
      else
        tx_start_metrics ← metrics_snapshot;
        tx_result ← apply_tx tx (storage_gas_config self) block_ctx;
        tx_end_metrics ← metrics_snapshot;
        let delta := ExecutionMetrics.delta tx_end_metrics tx_start_metrics in
        let tx_metrics := tx_metrics ++ [TxExecutionMetrics_from_delta index (t_tx_ns clock index)
                                           (tx_gas_used tx_result) delta] in
        let cumulative_gas := saturating_add u64_max cumulative_gas (tx_gas_used tx_result) in
        let results := results ++ [tx_result] in
        if limit <=? cumulative_gas
        then mret (results, cumulative_gas, skipped + (len - zlen results), tx_metrics)
        else apply_txs_with_metrics clock len block_ctx limit (index + 1) txs results tx_metrics
               cumulative_gas skipped
  end.

Definition apply_block_with_metrics (clock : Timings)
    (storage : bytes -> SdkResult (option bytes)) (block : B)
    : Outcome (BlockResult * BlockExecutionMetrics) :=
  on_fresh_state storage Infinite (
    block_start_metrics ← metrics_snapshot;
    begin_events ← do_begin_block block;
    let txs := block_txs block in
    r ← apply_txs_with_metrics clock (zlen txs) (block_context block) (block_gas_limit block)
          0 txs [] [] 0 0;
    let '(results, cumulative_gas, skipped, tx_metrics) := r in
    end_events ← do_end_block (block_context block);
    block_end_metrics ← metrics_snapshot;
    let delta := ExecutionMetrics.delta block_end_metrics block_start_metrics in
    mret (mkBlockResult begin_events results end_events cumulative_gas skipped,
          BlockExecutionMetrics_from_delta (t_begin_block_ns clock) (t_end_block_ns clock)
            (t_total_ns clock) delta tx_metrics)).

Definition system_exec {R} (storage : bytes -> SdkResult (option bytes)) (block : BlockContext)
    (action : EnvView -> EnvProg (SdkResult R)) : Outcome (SdkResult R) :=
  on_fresh_state storage Infinite (
    let? resp := run (Invoker.new_for_begin_block block) action in
    _ ← pop_events;
    mret (Ok resp)).

(** The entry points that return no state: it is dropped with the outcome. *)
Definition query {Req} `{InvokableMessage Req} `{Borsh Req}
    (storage : bytes -> SdkResult (option bytes)) (to : AccountId) (req : Req) (gc : GasCounter)
    : Outcome (SdkResult InvokeResponse) :=
  on_fresh_state storage gc (
    let ctx := Invoker.new_for_query to in
    let? request := mret (InvokeRequest.new req) in
    do_query ctx to request).

Definition query_invoke_request (storage : bytes -> SdkResult (option bytes)) (to : AccountId)
    (request : InvokeRequest) (context : QueryContext) : Outcome TxResult :=
  let gas_counter :=
    from_option (fun limit => GasCounter.finite limit (storage_gas_config self)) GasCounter.infinite
      (q_gas_limit context) in
  on_fresh_state storage gas_counter (
    let ctx := Invoker.new_for_query_with_context to (q_sender context) (q_funds context)
                 (q_block context) in
    response ← do_query ctx to request;
    events ← pop_events;
    gas_used ← read_gas_used;
    mret (mkTxResult events gas_used response)).

Definition simulate_transaction (storage : bytes -> SdkResult (option bytes)) (tx : Tx)
    (block : BlockContext) : Outcome TxResult :=
  on_fresh_state storage Infinite (apply_tx tx (storage_gas_config self) block).

(** [run], under the name [run_readonly]: a read-only closure on an account. *)
Definition run_readonly {R} (storage : bytes -> SdkResult (option bytes)) (account_id : AccountId)
    (handle : EnvView -> QueryProg (SdkResult R)) : Outcome (SdkResult R) :=
  on_fresh_state storage Infinite (
    let invoker := Invoker.new_for_query account_id in
    Invoker.run_env_query do_query invoker (handle (Invoker.env_view invoker))).

Definition run_with_code {T R} (default : T) (storage : bytes -> SdkResult (option bytes))
    (account_id : AccountId) (handle : T -> EnvView -> QueryProg (SdkResult R))
    : Outcome (SdkResult R) :=
  run_readonly storage account_id (handle default).

Definition run_with_ref {T R} (from : AccountId -> T)
    (storage : bytes -> SdkResult (option bytes)) (account_id : AccountId)
    (handle : T -> EnvView -> QueryProg (SdkResult R)) : Outcome (SdkResult R) :=
  run_readonly storage account_id (handle (from account_id)).

End Methods.
End Stf.
