(* ===== verification/Example.v ===== *)
(** * A concrete chain

    A small application over the reference codec: two account codes, a base
    storage with two accounts, transactions and blocks. The theorems of the
    development are evaluated on it. *)

From S2P Require Import Prelude Core Gas ExecState Runtime Invoker Codec Stf.

Import Reference.

(** A register: function 1 stores its message under one key, function 2 stores
    it and then fails. Its query reads the key back. *)
Definition cell_key : bytes := [x6e].

Definition store (m : Message) : EnvProg (SdkResult InvokeResponse) :=
  match InvokeRequest.new (mkStorageSetRequest cell_key m) with
  | Ok r => do_exec STORAGE_ACCOUNT_ID r []
  | Err e => PRet (Err e)
  end.

Definition cell_execute (env : EnvView) (req : InvokeRequest) : EnvProg (SdkResult InvokeResponse) :=
  if function req =? 1 then store (message req)
  else _ ← store (message req); PRet (Err ERR_UNAUTHORIZED).

Definition cell_query (env : EnvView) (req : InvokeRequest) : QueryProg (SdkResult InvokeResponse) :=
  match InvokeRequest.new (mkStorageGetRequest (whoami env) cell_key) with
  | Ok r => do_query STORAGE_ACCOUNT_ID r
  | Err e => QRet (Err e)
  end.

Definition empty_response : SdkResult InvokeResponse :=
  Ok (InvokeResponse.new_from_message (Message.from_bytes [])).

Definition cell : AccountCode := {|
  identifier := "cell";
  code_init _ _ := PRet empty_response;
  code_execute := cell_execute;
  code_query := cell_query |}.

(** A code whose query asks its own account the same question. *)
Definition looping : AccountCode := {|
  identifier := "loop";
  code_init _ _ := PRet empty_response;
  code_execute _ _ := PRet empty_response;
  code_query env req := do_query (whoami env) req |}.

Definition codes : AccountsCodeStorage := {|
  lookup_code id :=
    Ok (if bool_decide (id = "cell") then Some cell
        else if bool_decide (id = "loop") then Some looping else None) |}.

Definition cell_account : AccountId := AccountId.from_u64 100.
Definition loop_account : AccountId := AccountId.from_u64 101.

(** The committed storage: the code identifiers of the two accounts. *)
Definition base (key : bytes) : SdkResult (option bytes) :=
  Ok (if bool_decide (key = get_account_code_identifier_for_account_key cell_account)
      then to_vec "cell"
      else if bool_decide (key = get_account_code_identifier_for_account_key loop_account)
      then to_vec "loop"
      else None).

Definition world : World :=
  mkWorld (ExecutionState.new base) (GasCounter.finite 5000 StorageGasConfig_default).

Definition ctx : Invoker := Invoker.new_for_begin_block BlockContext_default.

Definition call (fn : Z) : InvokeRequest :=
  InvokeRequest.new_from_message "call" fn (Message.from_bytes [x2a]).

(** Transactions of the application: a recipient, a function and a gas limit;
    every optional method of the trait has its default body. *)
Record CellTx := mkCellTx { ct_recipient : AccountId; ct_function : Z; ct_gas_limit : Z }.

#[export] Instance CellTx_transaction : Transaction CellTx := {|
  tx_sender _ := AccountId.from_u64 7;
  tx_recipient := ct_recipient;
  tx_request tx := call (ct_function tx);
  tx_gas_limit := ct_gas_limit;
  tx_funds _ := [];
  compute_identifier _ := vreplicate 32 x00;
  resolve_sender_account := default_resolve_sender_account (fun _ => AccountId.from_u64 7);
  resolve_recipient_account := default_resolve_recipient_account ct_recipient;
  sender_bootstrap := default_sender_bootstrap;
  after_sender_bootstrap := default_after_sender_bootstrap |}.

Record CellBlock := mkCellBlock { cb_limit : Z; cb_txs : list CellTx }.

#[export] Instance CellBlock_block : Block CellBlock CellTx := {|
  block_context _ := mkBlockContext 1 1;
  block_txs := cb_txs;
  block_gas_limit := cb_limit |}.

Definition stf : Stf CellTx CellBlock := {|
  begin_blocker _ _ := PRet tt;
  end_blocker _ := PRet tt;
  tx_validator _ _ := PRet (Ok tt);
  post_tx_handler _ _ _ _ := PRet (Ok tt);
  storage_gas_config := StorageGasConfig_default |}.

Definition cell_tx (fn limit : Z) : CellTx := mkCellTx cell_account fn limit.

(** What a run gave, without the state, which holds functions. *)
Definition value_of {A} (o : Outcome A) : option A :=
  match o with Done a _ => Some a | _ => None end.

Definition storage_of {A} (o : Outcome A) : option ExecutionState :=
  match o with Done _ w => Some (w_storage w) | _ => None end.
