(* ===== verification/StateTheorems.v ===== *)
(** * Theorems on the execution state, its commit and the wire format

    The properties of [execution_state.rs], of the conversion of its changes
    for storage, and of the hand-written borsh code of [message.rs]. *)

From S2P Require Import Prelude Core Gas Collections ExecState ExecStateFacts Commit Runtime Invoker Token Codec.
From S2P Require Import Example.

Open Scope evolve_scope.

(** C2: the undo log refines copy-on-checkpoint. For every sequence of reads,
    writes, removals, batches, events, object ids, checkpoints and restores of
    the latest checkpoint, the execution state answers exactly what a
    specification answers that copies the whole state at each checkpoint and
    puts the copy back at each restore, and ends in the same overlay, events
    and object counter. No restore in such a sequence fails. *)
Theorem undo_log_refines_copy base ops :
  let impl := run_ops impl_step (ExecutionState.new base, []) ops in
  let spec := run_ops (spec_step base) (CopySpec.mkSnap ∅ [] 0, []) ops in
  impl.1 = spec.1 /\ CopySpec.snap_of impl.2.1 = spec.2.1.
Proof. apply (run_ops_refines base ops (ExecutionState.new base) [] []); [done | constructor]. Qed.

(** A batch is all or nothing, and equals one-by-one writes. When
    [apply_batch] fails the state is the one before; when it succeeds, writing
    the operations one at a time succeeds too and gives the same state (overlay
    and undo log included, metrics aside). *)
Theorem apply_batch_sequential s ops :
  match ExecutionState.apply_batch s ops with
  | (Ok _, s') => exists s'', write_all s ops = (Ok tt, s'') /\ s'' ≈ s'
  | (Err _, s') => s' = s
  end.
Proof.
  unfold ExecutionState.apply_batch.
  destruct (ExecutionState.batch_validate _ _ _) as [n|e] eqn:Ev; [|done].
  destruct (_ <? _) eqn:El; [done|].
  destruct (write_all_batch _ _ s _ _ Ev) as (s' & Hw & Heq); [done | lia|].
  exists s'. split; [done|]. etrans; [exact Heq|]. done.
Qed.

(** Committing a block makes storage equal to what the block saw. After the
    changes of an execution state are applied to the storage it ran on, every
    key holds the value the state's reads gave. *)
Theorem commit_reads_state s storage changes k :
  base_storage s = MockStorage.get storage -> ExecutionState.into_changes s = Ok changes ->
  MockStorage.get (MockStorage.batch storage (state_changes_to_operations changes)).2 k =
  (ExecutionState.kv_get s k).1.
Proof. intros Hb Hc. rewrite kv_get_view. by apply commit_lookup. Qed.

(** The emitted changes are deterministic. Whatever order the overlay's hash
    map yields its entries in, [into_changes] gives the same list, sorted by
    key without repetition. *)
Theorem changes_order_independent s entries :
  entries ≡ₚ map_to_list (overlay s) ->
  ExecutionState.changes_of_entries entries = ExecutionState.into_changes s /\
  exists changes, ExecutionState.into_changes s = Ok changes /\
    StronglySorted change_le changes /\ NoDup (change_key <$> changes).
Proof.
  intros Hp. unfold ExecutionState.into_changes. rewrite !changes_of_entries_eq. split.
  - f_equal. apply sort_entries_perm; [|done]. rewrite Hp. apply NoDup_fst_map_to_list.
  - eexists. split; [done|]. split; [apply StronglySorted_merge_sort; apply _|].
    rewrite merge_sort_Permutation, entry_keys. apply NoDup_fst_map_to_list.
Qed.

(** Requests survive the wire. A request that [InvokeRequest]'s hand-written
    borsh code serialises is read back as it was, from the front of any input,
    leaving the rest unread. *)
Theorem request_roundtrip (u32_stream u64_stream : BorshStream Z) (vec_u8 : BorshStream bytes) r b rest :
  (forall n, 0 <= n <= 4294967295 -> @serialize _ u32_stream n = Some (le_bytes 4 n)) ->
  utf8_valid (string_bytes (human_name r)) = true ->
  InvokeRequest_serialize u64_stream vec_u8 r = Some b ->
  InvokeRequest_deserialize_reader u32_stream u64_stream vec_u8 (b ++ rest) = Some (r, rest).
Proof. apply InvokeRequest_stream_law. Qed.

(** Error codes of different crates collide. The namespace of every error is
    computed from the name of the core crate, so that running out of gas, a
    missing account, a decoding error, a missing collection entry and a missing
    token balance are the same error code. *)
Theorem error_codes_collide :
  Forall (eq ERR_OUT_OF_GAS)
    [ERR_ACCOUNT_DOES_NOT_EXIST; ERR_ENCODING; ERR_NOT_FOUND; ERR_NOT_ENOUGH_BALANCE].
Proof. by repeat constructor. Qed.

(** ** The theorems at work *)
Import Reference.

Definition written : ExecutionState :=
  (ExecutionState.remove (ExecutionState.set (ExecutionState.new
    (MockStorage.get {[ [x01] := [x05]; [x02] := [x06] ]})) [x02] (Message.from_bytes [x07])).2 [x01]).2.

Lemma commit_reads_state_witness : exists changes,
  ExecutionState.into_changes written = Ok changes /\ length changes = 2%nat /\
  MockStorage.get (MockStorage.batch {[ [x01] := [x05]; [x02] := [x06] ]}
                     (state_changes_to_operations changes)).2 [x02] = Ok (Some [x07]).
Proof.
  destruct (ExecutionState.into_changes written) as [changes|] eqn:E; [|by vm_compute in E].
  exists changes. split; [done|]. split; [by vm_compute in E; simplify_eq|].
  by rewrite (commit_reads_state written _ changes [x02]).
Defined.

Lemma changes_order_independent_witness :
  ExecutionState.changes_of_entries (reverse (map_to_list (overlay written))) =
  ExecutionState.into_changes written.
Proof. apply (changes_order_independent written). apply reverse_Permutation. Defined.

Lemma request_roundtrip_witness :
  match InvokeRequest_serialize (uint 8) Reference.vec_u8 (call 7) with
  | Some b => InvokeRequest_deserialize_reader (uint 4) (uint 8) Reference.vec_u8 (b ++ [x01]) = Some (call 7, [x01])
  | None => False
  end.
Proof.
  destruct (InvokeRequest_serialize (uint 8) Reference.vec_u8 (call 7)) as [b|] eqn:E; [|discriminate E].
  apply (request_roundtrip (uint 4) (uint 8) Reference.vec_u8); [|reflexivity|exact E].
  intros n Hn. cbn [serialize uint]. unfold uint_serialize.
  change (256 ^ Z.of_nat 4) with 4294967296.
  destruct (_ && _) eqn:En; [done|]. apply andb_false_iff in En. lia.
Defined.
