(* ===== verification/InvokerFacts.v ===== *)
(** * What account code can do to the world

    Everything an execution does to the state and the gas counter is a
    sequence of a few primitive steps: protocol-key writes, event and object
    counters, gas charges, and rollbacks to a checkpoint taken earlier in the
    same sequence. [evolves] is that step relation; [do_exec] and every
    program run through it are shown to stay inside it for arbitrary account
    code, and the invariants follow by rule induction. *)

From S2P Require Import Prelude Core Gas ExecState ExecStateFacts Runtime Invoker.

(** The keys the runtime writes: an account's code identifier, the account
    counter, and an account's own storage. *)
Inductive protocol_key : bytes -> Prop :=
| identifier_key a : protocol_key (get_account_code_identifier_for_account_key a)
| number_key : protocol_key account_number_key
| storage_key a k : protocol_key (account_storage_key a k).

Inductive storage_charge : (GasCounter -> SdkResult unit * GasCounter) -> Prop :=
| charge_get k v : storage_charge (fun g => GasCounter.consume_get_gas g k v)
| charge_set k v : storage_charge (fun g => GasCounter.consume_set_gas g k v)
| charge_remove k : storage_charge (fun g => GasCounter.consume_remove_gas g k).

(** The longest undo log seen so far, which no rollback lowers. *)
Definition log_max (s : ExecutionState) : Z := undo_log_len_max (metrics s).

Inductive evolves : World -> World -> Prop :=
| ev_trans w1 w2 w3 : evolves w1 w2 -> evolves w2 w3 -> evolves w1 w3
| ev_observe w s : s ≈ w_storage w -> log_max (w_storage w) <= log_max s ->
    evolves w (mkWorld s (w_gas w))
| ev_set w k v : protocol_key k ->
    evolves w (mkWorld (ExecutionState.set (w_storage w) k v).2 (w_gas w))
| ev_remove w k : protocol_key k ->
    evolves w (mkWorld (ExecutionState.remove (w_storage w) k).2 (w_gas w))
| ev_emit w e : evolves w (mkWorld (ExecutionState.emit_event (w_storage w) e).2 (w_gas w))
| ev_unique w : evolves w (mkWorld (ExecutionState.next_unique_object_id (w_storage w)).2 (w_gas w))
| ev_charge w f : storage_charge f -> evolves w (mkWorld (w_storage w) (f (w_gas w)).2)
| ev_rollback w w1 s : evolves w w1 ->
    ExecutionState.restore (w_storage w1) (ExecutionState.checkpoint (w_storage w)).1 = (Ok tt, s) ->
    evolves w (mkWorld s (w_gas w1)).

#[export] Instance evolves_refl : Reflexive evolves.
Proof. intros [s g]. by apply (ev_observe (mkWorld s g)). Qed.

#[export] Instance evolves_preorder : PreOrder evolves.
Proof. split; [apply _ | intros ???; apply ev_trans]. Qed.

Lemma get_log_max s k : log_max s <= log_max (ExecutionState.get s k).2.
Proof. done. Qed.

(** ** Invariants of the step relation *)

Lemma evolves_extends w w' : evolves w w' -> extends (w_storage w) (w_storage w').
Proof.
  induction 1; cbn [w_storage]; try reflexivity.
  - by etrans.
  - apply st_equiv_extends. by symmetry.
  - apply set_extends.
  - apply remove_extends.
  - apply emit_event_extends.
  - apply next_unique_object_id_extends.
  - destruct (restore_extends _ _ IHevolves) as (t' & Hr & Heq).
    rewrite Hr in H0. simplify_eq. by apply st_equiv_extends.
Qed.

(** A rollback in the course of an execution cannot fail, and undoes it. *)
Lemma evolves_restore w w' :
  evolves w w' ->
  exists s, ExecutionState.restore (w_storage w') (ExecutionState.checkpoint (w_storage w)).1
              = (Ok tt, s) /\ s ≈ w_storage w.
Proof. intros H. apply restore_extends, evolves_extends, H. Qed.

(** ** The length of the undo log *)

Lemma after_write_log_max s :
  log_max s <= log_max (ExecutionState.after_write s) /\
  zlen (undo_log s) <= log_max (ExecutionState.after_write s).
Proof.
  unfold log_max, ExecutionState.after_write, ExecutionMetrics.update_overlay_max,
    ExecutionMetrics.update_undo_log_max.
  cbn. repeat case_match; cbn in *; lia.
Qed.

(** What a write of [v] at [k] does when it succeeds. *)
Record wrote (k : bytes) (v : option Message) (s s' : ExecutionState) : Prop := {
  wr_base : base_storage s' = base_storage s;
  wr_overlay : overlay s' = <[k := v]> (overlay s);
  wr_log : zlen (undo_log s') = zlen (undo_log s) + 1;
  wr_max : log_max s <= log_max s' /\ zlen (undo_log s') <= log_max s' }.

Lemma after_write_wrote k v s c :
  wrote k v s (ExecutionState.after_write
    (mkExecutionState (base_storage s) (<[k := v]> (overlay s)) (undo_log s ++ [c])
       (events s) (unique_objects s) (metrics s))).
Proof.
  set (t := mkExecutionState _ _ _ _ _ _). destruct (after_write_log_max t) as [Hmax Hlog].
  split; [done | done | | done]. cbn. by rewrite zlen_app.
Qed.

(** A write either fails and leaves the state as it is, or happens. *)
Lemma set_cases s k v :
  (exists e, ExecutionState.set s k v = (Err e, s)) \/
  (exists s', ExecutionState.set s k v = (Ok tt, s') /\ wrote k (Some v) s s').
Proof.
  unfold ExecutionState.set. repeat case_match; try (left; by eexists); right; eexists;
    (split; [done | apply after_write_wrote]).
Qed.

Lemma remove_cases s k :
  (exists e, ExecutionState.remove s k = (Err e, s)) \/
  (exists s', ExecutionState.remove s k = (Ok tt, s') /\ wrote k None s s').
Proof.
  unfold ExecutionState.remove. repeat case_match; try (left; by eexists); right; eexists;
    (split; [done | apply after_write_wrote]).
Qed.

(** At most one entry more in the log, and the maximum covers it. *)
Definition one_write (s s' : ExecutionState) : Prop :=
  log_max s <= log_max s' /\
  (s' = s \/ zlen (undo_log s') = zlen (undo_log s) + 1 /\ zlen (undo_log s') <= log_max s').

Lemma wrote_one_write k v s s' : wrote k v s s' -> one_write s s'.
Proof. intros [_ _ Hl [Hm Hm']]. split; [done | by right]. Qed.

Lemma set_one_write s k v : one_write s (ExecutionState.set s k v).2.
Proof.
  destruct (set_cases s k v) as [[e ->]|(s' & -> & Hw)];
    [by split; [|left] | by eapply wrote_one_write].
Qed.

Lemma remove_one_write s k : one_write s (ExecutionState.remove s k).2.
Proof.
  destruct (remove_cases s k) as [[e ->]|(s' & -> & Hw)];
    [by split; [|left] | by eapply wrote_one_write].
Qed.

Lemma restore_log_max s c s' :
  ExecutionState.restore s c = (Ok tt, s') -> log_max s' = log_max s.
Proof. unfold ExecutionState.restore. repeat case_match; intros; by simplify_eq. Qed.

Lemma evolves_log_max w w' : evolves w w' -> log_max (w_storage w) <= log_max (w_storage w').
Proof.
  induction 1; cbn [w_storage]; try done.
  - lia.
  - apply set_one_write.
  - apply remove_one_write.
  - unfold ExecutionState.emit_event. by case_match.
  - by rewrite (restore_log_max _ _ _ H0).
Qed.

Definition log_ok (s : ExecutionState) : Prop := zlen (undo_log s) <= log_max s.

Lemma one_write_log_ok s s' : one_write s s' -> log_ok s -> log_ok s'.
Proof. unfold log_ok. intros [Hm [->|[Hl Hm']]] Hs; lia. Qed.

Lemma evolves_log_ok w w' : evolves w w' -> log_ok (w_storage w) -> log_ok (w_storage w').
Proof.
  induction 1; cbn [w_storage]; intros Hw; auto.
  - unfold log_ok in *. st_rewrite H. lia.
  - eapply one_write_log_ok; [apply set_one_write | done].
  - eapply one_write_log_ok; [apply remove_one_write | done].
  - unfold log_ok, ExecutionState.emit_event in *. by case_match.
  - destruct (evolves_restore _ _ H) as (t & Hr & Heq). rewrite Hr in H0. simplify_eq.
    unfold log_ok in *. st_rewrite Heq. rewrite (restore_log_max _ _ _ Hr).
    pose proof (evolves_log_max _ _ H). lia.
Qed.

Lemma evolves_gas_le w w' :
  evolves w w' -> gas_wf (w_gas w) -> gas_config_wf (w_gas w) -> gas_le (w_gas w) (w_gas w').
Proof.
  induction 1; cbn [w_gas]; intros Hw Hc; try reflexivity; [| |auto].
  - specialize (IHevolves1 Hw Hc). etrans; [exact IHevolves1|].
    apply IHevolves2; [by eapply gas_le_wf | by eapply gas_le_config].
  - destruct H as [k v|k v|k];
      [ destruct (GasCounter.consume_get_gas _ k v) eqn:E; by eapply consume_get_gas_le
      | destruct (GasCounter.consume_set_gas _ k v) eqn:E; by eapply consume_set_gas_le
      | destruct (GasCounter.consume_remove_gas _ k) eqn:E; by eapply consume_remove_gas_le ].
Qed.

Lemma set_overlay_other s k v k' :
  k' ≠ k -> overlay (ExecutionState.set s k v).2 !! k' = overlay s !! k'.
Proof.
  intros Hne. unfold ExecutionState.set. repeat case_match; cbn; try done; by rewrite lookup_insert_ne.
Qed.

Lemma remove_overlay_other s k k' :
  k' ≠ k -> overlay (ExecutionState.remove s k).2 !! k' = overlay s !! k'.
Proof.
  intros Hne. unfold ExecutionState.remove. repeat case_match; cbn; try done; by rewrite lookup_insert_ne.
Qed.

(** Keys outside the protocol's regions are never written. *)
Lemma evolves_protocol_keys w w' k :
  evolves w w' -> ~ protocol_key k -> overlay (w_storage w') !! k = overlay (w_storage w) !! k.
Proof.
  intros H Hk. induction H; cbn [w_storage]; try done.
  - by rewrite IHevolves2.
  - by st_rewrite H.
  - apply set_overlay_other. by intros ->.
  - apply remove_overlay_other. by intros ->.
  - unfold ExecutionState.emit_event. by case_match.
  - destruct (evolves_restore _ _ H) as (t' & Hr & Heq). rewrite Hr in H0. simplify_eq.
    by st_rewrite Heq.
Qed.

(** ** Computations that stay inside the relation *)

(** Every result is reached by [evolves], and the only panic is the code's own. *)
Definition m_sound {A} (m : M A) : Prop := forall w,
  match m w with
  | Done _ w' => evolves w w'
  | Panicked why => why = CodePanic
  | OutOfFuel => True
  end.

(** In addition, an error leaves the storage as it was. *)
Definition m_atomic {A} (m : M (SdkResult A)) : Prop := forall w,
  match m w with
  | Done r w' => evolves w w' /\ (is_err r = true -> w_storage w' ≈ w_storage w)
  | Panicked why => why = CodePanic
  | OutOfFuel => True
  end.

Lemma m_atomic_sound {A} (m : M (SdkResult A)) : m_atomic m -> m_sound m.
Proof. intros H w. specialize (H w). destruct (m w); [apply H | done | done]. Qed.

Lemma m_sound_ret {A} (a : A) : m_sound (mret a).
Proof. intros w. cbn. reflexivity. Qed.

Lemma m_sound_bind {A B} (m : M A) (k : A -> M B) :
  m_sound m -> (forall a, m_sound (k a)) -> m_sound (m ≫= k).
Proof.
  intros Hm Hk w. specialize (Hm w). unfold mbind, M_bind. destruct (m w) as [a w1| |]; try done.
  specialize (Hk a w1). destruct (k a w1); try done. by etrans.
Qed.

Lemma m_sound_try {A B} (m : M (SdkResult A)) (k : A -> M (SdkResult B)) :
  m_sound m -> (forall a, m_sound (k a)) -> m_sound (try_bind m k).
Proof. intros Hm Hk. apply m_sound_bind; [done|]. intros [a|e]; [apply Hk | apply m_sound_ret]. Qed.

Lemma m_sound_out_of_fuel {A} : m_sound (fun _ => @OutOfFuel A).
Proof. by intros w. Qed.

Lemma m_sound_panic {A} : m_sound (fun _ => @Panicked A CodePanic).
Proof. by intros w. Qed.

Lemma on_storage_sound {A} (f : ExecutionState -> A * ExecutionState) :
  (forall w, evolves w (mkWorld (f (w_storage w)).2 (w_gas w))) -> m_sound (on_storage f).
Proof.
  intros Hf w. unfold on_storage. specialize (Hf w). by destruct (f (w_storage w)).
Qed.

Lemma get_sound k : m_sound (on_storage (fun s => ExecutionState.get s k)).
Proof. apply on_storage_sound. intros w. by apply ev_observe. Qed.

Lemma set_sound k v : protocol_key k -> m_sound (on_storage (fun s => ExecutionState.set s k v)).
Proof. intros. apply on_storage_sound. intros w. by apply ev_set. Qed.

Lemma remove_sound k : protocol_key k -> m_sound (on_storage (fun s => ExecutionState.remove s k)).
Proof. intros. apply on_storage_sound. intros w. by apply ev_remove. Qed.

Lemma emit_sound e : m_sound (on_storage (fun s => ExecutionState.emit_event s e)).
Proof. apply on_storage_sound. intros w. apply ev_emit. Qed.

Lemma next_unique_sound : m_sound (on_storage ExecutionState.next_unique_object_id).
Proof. apply on_storage_sound. intros w. apply ev_unique. Qed.

Lemma charge_sound f : storage_charge f -> m_sound (on_gas f).
Proof.
  intros Hf w. unfold on_gas. pose proof (ev_charge w f Hf) as H. by destruct (f (w_gas w)).
Qed.

Create HintDb sound.
#[export] Hint Resolve m_sound_ret m_sound_out_of_fuel m_sound_panic get_sound set_sound remove_sound
  emit_sound next_unique_sound charge_sound : sound.
#[export] Hint Constructors protocol_key storage_charge : sound.

(** Walk through a computation: binds, branches, then the known steps. *)
Ltac sound :=
  repeat first
    [ progress intros
    | solve [eauto with sound]
    | apply m_sound_try
    | apply m_sound_bind
    | match goal with |- m_sound (if ?b then _ else _) => destruct b end
    | match goal with |- m_sound (match ?x with _ => _ end) => destruct x end ].

Section RunSound.
Context (dq : AccountId -> InvokeRequest -> M (SdkResult InvokeResponse)).
Context (de : AccountId -> InvokeRequest -> list FungibleAsset -> M (SdkResult InvokeResponse)).
Context (ee : string -> bytes -> M (SdkResult unit)).
Context (ui : M (SdkResult bytes)).
Context (Hdq : forall to data, m_sound (dq to data)).
Context (Hde : forall to data fs, m_sound (de to data fs)).
Context (Hee : forall name data, m_sound (ee name data)).
Context (Hui : m_sound ui).

Lemma run_query_prog_sound {R} (p : QueryProg R) : m_sound (run_query_prog dq p).
Proof using Hdq. induction p; cbn [run_query_prog]; sound. Qed.

Lemma run_prog_sound {R} (p : EnvProg R) : m_sound (run_prog dq de ee ui p).
Proof using All. induction p; cbn [run_prog]; sound. Qed.

End RunSound.

Section CallSound.
Context `{RuntimeDeps} (account_codes : AccountsCodeStorage).

Lemma set_code_identifier_sound a id :
  m_sound (on_storage (fun s => set_account_code_identifier_for_account s a id)).
Proof.
  apply on_storage_sound. intros w. unfold set_account_code_identifier_for_account.
  destruct (Message.new id); [apply ev_set; constructor | by apply ev_observe].
Qed.

Lemma get_code_identifier_sound a :
  m_sound (on_storage (fun s => get_account_code_identifier_for_account s a)).
Proof. apply on_storage_sound. intros w. by apply ev_observe. Qed.

Lemma next_account_number_sound : m_sound (on_storage next_account_number).
Proof.
  apply on_storage_sound. intros w. unfold next_account_number.
  pose proof (get_equiv (w_storage w) account_number_key) as Hg.
  pose proof (get_log_max (w_storage w) account_number_key) as Hm.
  destruct (ExecutionState.get (w_storage w) account_number_key) as [r s1]. cbn [snd] in Hg, Hm.
  pose proof (ev_observe w s1 Hg Hm) as Ho.
  destruct r as [o|e]; [|done]. destruct (from_option _ _ _) as [last|e]; [|done].
  destruct (Message.new _) as [m|e]; [|done].
  pose proof (ev_set (mkWorld s1 (w_gas w)) account_number_key m number_key) as Hs. cbn in Hs.
  destruct (ExecutionState.set s1 account_number_key m) as [[] s2]; cbn in *; by etrans.
Qed.

#[local] Hint Resolve set_code_identifier_sound get_code_identifier_sound
  next_account_number_sound : sound.

Lemma emit_event_sound inv name data : m_sound (Invoker.emit_event inv name data).
Proof. unfold Invoker.emit_event. sound. Qed.

Lemma unique_id_sound inv : m_sound (Invoker.unique_id inv).
Proof. unfold Invoker.unique_id. sound. Qed.

Lemma account_code_id_sound a : m_sound (Invoker.account_code_id a).
Proof. unfold Invoker.account_code_id. sound. Qed.

Lemma handle_storage_query_sound inv req : m_sound (Invoker.handle_storage_query inv req).
Proof. unfold Invoker.handle_storage_query. sound. Qed.

Lemma handle_storage_exec_sound inv req : m_sound (Invoker.handle_storage_exec inv req).
Proof. unfold Invoker.handle_storage_exec. sound. Qed.

#[local] Hint Resolve emit_event_sound unique_id_sound account_code_id_sound
  handle_storage_query_sound handle_storage_exec_sound : sound.

Context (dq : Invoker -> AccountId -> InvokeRequest -> M (SdkResult InvokeResponse)).
Context (de : Invoker -> AccountId -> InvokeRequest -> list FungibleAsset
                -> M (SdkResult InvokeResponse)).
Context (Hdq : forall inv to data, m_sound (dq inv to data)).
Context (Hde : forall inv to data fs, m_sound (de inv to data fs)).

Lemma run_env_sound {R} inv (p : EnvProg R) : m_sound (Invoker.run_env dq de inv p).
Proof using Hdq Hde. apply run_prog_sound; auto with sound. Qed.

Lemma run_env_query_sound {R} inv (p : QueryProg R) : m_sound (Invoker.run_env_query dq inv p).
Proof using Hdq. apply run_query_prog_sound; auto. Qed.

#[local] Hint Resolve run_env_sound run_env_query_sound : sound.

Lemma with_code_sound {A} id (f : option AccountCode -> M (SdkResult A)) :
  (forall c, m_sound (f c)) ->
  m_sound (match with_code account_codes id f with Ok m => m | Err e => mret (Err e) end).
Proof.
  intros Hf. unfold with_code. destruct (lookup_code account_codes id); [apply Hf | apply m_sound_ret].
Qed.

Lemma create_account_sound inv id msg fs :
  m_sound (Invoker.create_account account_codes dq de inv id msg fs).
Proof using Hdq Hde.
  unfold Invoker.create_account. do 4 (apply m_sound_try; [solve [auto with sound]|intros]).
  apply m_sound_try; [apply with_code_sound|]; sound.
Qed.

Lemma register_account_at_id_sound inv a id msg :
  m_sound (Invoker.register_account_at_id account_codes dq de inv a id msg).
Proof using Hdq Hde.
  unfold Invoker.register_account_at_id. apply m_sound_try; [auto with sound|]. intros [?|]; [sound|].
  apply m_sound_try; [auto with sound|]. intros _.
  apply m_sound_try; [auto with sound|]. intros m.
  apply m_sound_try; [auto with sound|]. intros _.
  apply m_sound_try; [apply set_sound, identifier_key|]. intros _.
  apply m_sound_try; [apply with_code_sound|]; sound.
Qed.

#[local] Hint Resolve create_account_sound register_account_at_id_sound : sound.

Lemma handle_system_exec_sound inv req fs :
  m_sound (Invoker.handle_system_exec account_codes dq de inv req fs).
Proof using Hdq Hde. unfold Invoker.handle_system_exec. sound. Qed.

#[local] Hint Resolve handle_system_exec_sound : sound.

Lemma exec_without_transfers_sound inv to data fs :
  m_sound (Invoker.exec_without_transfers account_codes dq de inv to data fs).
Proof using Hdq Hde.
  unfold Invoker.exec_without_transfers. do 2 (case_match; [auto with sound|]).
  apply m_sound_try; [auto with sound|]. intros id. apply with_code_sound. sound.
Qed.

#[local] Hint Resolve exec_without_transfers_sound : sound.

Lemma transfer_loop_sound inv to fs :
  m_sound (Invoker.transfer_loop account_codes dq de inv to fs).
Proof using Hdq Hde. induction fs; cbn [Invoker.transfer_loop]; sound. Qed.

Lemma handle_transfers_sound inv to fs :
  m_sound (Invoker.handle_transfers account_codes dq de inv to fs).
Proof using Hdq Hde.
  unfold Invoker.handle_transfers. destruct fs; [auto with sound|].
  case_match; [auto with sound | apply transfer_loop_sound].
Qed.

Lemma do_query_body_sound inv to data :
  m_sound (Invoker.do_query_body account_codes dq inv to data).
Proof using Hdq.
  unfold Invoker.do_query_body. case_match; [unfold Invoker.handle_system_query; auto with sound|].
  case_match; [auto with sound|].
  apply m_sound_try; [auto with sound|]. intros id. apply with_code_sound. sound.
Qed.

(** The rollback of [do_exec]: from any point reached after its checkpoint,
    restoring succeeds and gives the storage back. *)
Lemma restore_checkpoint_rollback w w' :
  evolves w w' ->
  exists s, Invoker.restore_checkpoint (ExecutionState.checkpoint (w_storage w)).1 w'
              = Done tt (mkWorld s (w_gas w')) /\
            s ≈ w_storage w /\ evolves w (mkWorld s (w_gas w')).
Proof.
  intros Hw. destruct (evolves_restore _ _ Hw) as (s & Hr & Heq). exists s.
  unfold Invoker.restore_checkpoint. rewrite Hr. split; [done|]. split; [done|].
  by eapply ev_rollback.
Qed.

Lemma do_exec_body_atomic inv to data fs :
  m_atomic (Invoker.do_exec_body account_codes dq de inv to data fs).
Proof using Hdq Hde.
  intros w. unfold Invoker.do_exec_body.
  destruct (MAX_CALL_DEPTH <=? _); [by cbn; split; [reflexivity|]|].
  unfold mbind at 1, M_bind at 1, on_storage at 1. cbv beta iota.
  destruct (ExecutionState.checkpoint (w_storage w)) as [c s0] eqn:Ec.
  assert (Hc : c = (ExecutionState.checkpoint (w_storage w)).1) by (by rewrite Ec).
  assert (H0 : evolves w (mkWorld s0 (w_gas w))).
  { change s0 with (c, s0).2. rewrite <-Ec. by apply ev_observe. }
  unfold mbind at 1, M_bind at 1.
  pose proof (handle_transfers_sound inv to fs (mkWorld s0 (w_gas w))) as Ht.
  destruct (Invoker.handle_transfers _ _ _ _ _ _ _) as [t w1| |]; try done.
  assert (H1 : evolves w w1) by (by etrans). destruct t as [[]|e].
  - unfold mbind at 1, M_bind at 1.
    pose proof (exec_without_transfers_sound inv to data fs w1) as Hx.
    destruct (Invoker.exec_without_transfers _ _ _ _ _ _ _ _) as [resp w2| |]; try done.
    assert (H2 : evolves w w2) by (by etrans). destruct (is_err resp) eqn:Er.
    + destruct (restore_checkpoint_rollback _ _ H2) as (s & Hs & Heq & Hev).
      unfold mbind, M_bind. rewrite Hc, Hs. cbn. by split.
    + cbn. rewrite Er. by split.
  - destruct (restore_checkpoint_rollback _ _ H1) as (s & Hs & Heq & Hev).
    unfold mbind, M_bind. rewrite Hc, Hs. cbn. by split.
Qed.

End CallSound.

Section Tied.
Context `{RuntimeDeps} (account_codes : AccountsCodeStorage).

Lemma do_query_sound fuel inv to data : m_sound (Invoker.do_query account_codes fuel inv to data).
Proof.
  revert inv to data. induction fuel as [|fuel IH]; intros; [by intros w|].
  cbn [Invoker.do_query]. by apply do_query_body_sound.
Qed.

Lemma do_exec_atomic fuel inv to data fs :
  m_atomic (Invoker.do_exec account_codes fuel inv to data fs).
Proof.
  revert inv to data fs. induction fuel as [|fuel IH]; intros; [by intros w|].
  cbn [Invoker.do_exec]. apply do_exec_body_atomic; [apply do_query_sound|].
  intros. apply m_atomic_sound, IH.
Qed.

Lemma run_sound fuel {R} inv (p : EnvProg R) : m_sound (Invoker.run account_codes fuel inv p).
Proof.
  apply run_env_sound; [apply do_query_sound|]. intros. apply m_atomic_sound, do_exec_atomic.
Qed.

End Tied.

#[export] Hint Resolve emit_event_sound unique_id_sound account_code_id_sound
  do_query_sound run_sound : sound.

(** ** Resource limits *)

(** The limits of [execution_state.rs] on what one execution state holds. *)
Record within_limits (s : ExecutionState) : Prop := {
  wl_overlay : ExecutionState.overlay_len s <= MAX_OVERLAY_ENTRIES;
  wl_events : zlen (events s) <= MAX_EVENTS_PER_EXECUTION;
  wl_keys : map_Forall (fun k _ => zlen k <= MAX_KEY_SIZE) (overlay s);
  wl_values : map_Forall (fun _ v => forall m, v = Some m -> Message.len m <= MAX_VALUE_SIZE) (overlay s) }.

Lemma within_limits_equiv s t : s ≈ t -> within_limits s -> within_limits t.
Proof.
  intros Hst [H1 H2 H3 H4]. unfold ExecutionState.overlay_len in *.
  split; unfold ExecutionState.overlay_len; by rewrite <-?(overlay_proper _ _ Hst), <-?(events_proper _ _ Hst).
Qed.

Lemma within_limits_new base : within_limits (ExecutionState.new base).
Proof. split; cbn; try done; apply map_Forall_empty. Qed.

Lemma insert_limits s s' k (v : option Message) :
  within_limits s -> events s' = events s -> overlay s' = <[k := v]> (overlay s) ->
  zlen k <= MAX_KEY_SIZE -> (forall m, v = Some m -> Message.len m <= MAX_VALUE_SIZE) ->
  (is_Some (overlay s !! k) \/ ExecutionState.overlay_len s < MAX_OVERLAY_ENTRIES) ->
  within_limits s'.
Proof.
  intros [H1 H2 H3 H4] He Ho Hk Hv Hroom. unfold ExecutionState.overlay_len in *.
  destruct (size_insert_bound (overlay s) k v) as [Hs1 Hs2].
  split; unfold ExecutionState.overlay_len; rewrite ?He, ?Ho; [|done|..].
  - destruct Hroom as [Hr|Hr]; [rewrite (Hs2 Hr); lia | lia].
  - by apply map_Forall_insert_2.
  - by apply map_Forall_insert_2.
Qed.

Lemma set_limits s k v : within_limits s -> within_limits (ExecutionState.set s k v).2.
Proof.
  intros Hs. unfold ExecutionState.set.
  destruct (MAX_KEY_SIZE <? zlen k) eqn:Ek; [done|].
  destruct (MAX_VALUE_SIZE <? Message.len v) eqn:Ev; [done|].
  destruct (overlay s !! k) as [p|] eqn:Eo; [|destruct (_ <=? _) eqn:El; [done|]];
    eapply insert_limits with (k := k) (v := Some v); try done; try lia;
    try (intros m [= <-]; lia); first [by left | right; lia].
Qed.

Lemma remove_limits s k : within_limits s -> within_limits (ExecutionState.remove s k).2.
Proof.
  intros Hs. unfold ExecutionState.remove.
  destruct (MAX_KEY_SIZE <? zlen k) eqn:Ek; [done|].
  destruct (overlay s !! k) as [p|] eqn:Eo; [|destruct (_ <=? _) eqn:El; [done|]];
    eapply insert_limits with (k := k) (v := None); try done; try lia; first [by left | right; lia].
Qed.

Lemma evolves_limits w w' :
  evolves w w' -> within_limits (w_storage w) -> within_limits (w_storage w').
Proof.
  induction 1; cbn [w_storage]; intros Hw; auto using set_limits, remove_limits.
  - by eapply within_limits_equiv.
  - destruct Hw. unfold ExecutionState.emit_event. destruct (_ <=? _) eqn:El; [done|].
    split; cbn; try done. rewrite zlen_app. unfold zlen in *; cbn in *; lia.
  - by destruct Hw.
  - destruct (evolves_restore _ _ H) as (t & Hr & Heq). rewrite Hr in H0. simplify_eq.
    by eapply within_limits_equiv.
Qed.
