(* ===== verification/CallFacts.v ===== *)
(** Properties of nested calls, for arbitrary account code: queries are
    read-only, the result of a call does not depend on the fuel once it is
    enough, execution terminates when queries do (the call depth bounds it), a
    query that queries itself never returns, and which storage keys a call can
    write. *)

From S2P Require Import Prelude Core Gas ExecState ExecStateFacts Runtime Invoker InvokerFacts.

Open Scope evolve_scope.

(** ** Queries are read-only *)

Definition m_readonly {A} (m : M A) : Prop := forall w,
  match m w with
  | Done _ w' => w_storage w' ≈ w_storage w
  | Panicked why => why = CodePanic
  | OutOfFuel => True
  end.

Lemma m_readonly_ret {A} (a : A) : m_readonly (mret a).
Proof. intros w. cbn. reflexivity. Qed.

Lemma m_readonly_bind {A B} (m : M A) (k : A -> M B) :
  m_readonly m -> (forall a, m_readonly (k a)) -> m_readonly (m ≫= k).
Proof.
  intros Hm Hk w. specialize (Hm w). unfold mbind, M_bind. destruct (m w) as [a w1| |]; try done.
  specialize (Hk a w1). destruct (k a w1); try done. by etrans.
Qed.

Lemma m_readonly_try {A B} (m : M (SdkResult A)) (k : A -> M (SdkResult B)) :
  m_readonly m -> (forall a, m_readonly (k a)) -> m_readonly (try_bind m k).
Proof.
  intros Hm Hk. apply m_readonly_bind; [done|]. intros [a|e]; [apply Hk | apply m_readonly_ret].
Qed.

Lemma get_readonly k : m_readonly (on_storage (fun s => ExecutionState.get s k)).
Proof.
  intros w. unfold on_storage. pose proof (get_equiv (w_storage w) k) as Hg.
  by destruct (ExecutionState.get (w_storage w) k).
Qed.

Lemma get_code_identifier_readonly `{SystemCodec} a :
  m_readonly (on_storage (fun s => get_account_code_identifier_for_account s a)).
Proof.
  intros w. unfold on_storage. pose proof (get_code_identifier_equiv (w_storage w) a) as Hg.
  by destruct (get_account_code_identifier_for_account (w_storage w) a).
Qed.

Lemma on_gas_readonly {A} (f : GasCounter -> A * GasCounter) : m_readonly (on_gas f).
Proof. intros w. unfold on_gas. destruct (f (w_gas w)). cbn. reflexivity. Qed.

#[export] Hint Resolve m_readonly_ret m_readonly_bind m_readonly_try get_readonly
  get_code_identifier_readonly on_gas_readonly : sound.
#[export] Hint Extern 1 (m_readonly (fun _ => Panicked CodePanic)) => intros ?; reflexivity : sound.

Section ReadOnly.
Context `{RuntimeDeps} (account_codes : AccountsCodeStorage).

Lemma run_query_prog_readonly dq {R} (p : QueryProg R) :
  (forall to data, m_readonly (dq to data)) -> m_readonly (run_query_prog dq p).
Proof. intros Hdq. induction p; cbn [run_query_prog]; auto with sound. Qed.

Lemma do_query_readonly fuel inv to data :
  m_readonly (Invoker.do_query account_codes fuel inv to data).
Proof.
  revert inv to data. induction fuel as [|fuel IH]; intros; [by intros w|].
  cbn [Invoker.do_query]. unfold Invoker.do_query_body. case_match; [apply m_readonly_ret|].
  case_match.
  - unfold Invoker.handle_storage_query. case_match; [|apply m_readonly_ret].
    repeat (apply m_readonly_try; [solve [auto with sound]|intros]). apply m_readonly_ret.
  - unfold Invoker.account_code_id, with_code.
    apply m_readonly_try; [auto with sound|intros id].
    destruct (lookup_code account_codes id) as [[c|]|]; [|apply m_readonly_ret..].
    by apply run_query_prog_readonly.
Qed.

End ReadOnly.

(** ** Fuel *)

(** [m'] gives the result of [m] wherever [m] does not run out of fuel. *)
Definition m_below {A} (m m' : M A) : Prop := forall w, m w ≠ OutOfFuel -> m' w = m w.

Infix "⊑ₘ" := m_below (at level 70) : evolve_scope.

Lemma m_below_refl {A} (m : M A) : m ⊑ₘ m.
Proof. by intros w. Qed.

Lemma m_below_bind {A B} (m m' : M A) (k k' : A -> M B) :
  m ⊑ₘ m' -> (forall a, k a ⊑ₘ k' a) -> m ≫= k ⊑ₘ m' ≫= k'.
Proof.
  intros Hm Hk w. unfold mbind, M_bind. specialize (Hm w). intros Hne.
  destruct (m w) as [a w1| |] eqn:Em; [rewrite Hm by done; by apply Hk | by rewrite Hm | done].
Qed.

Lemma m_below_try {A B} (m m' : M (SdkResult A)) (k k' : A -> M (SdkResult B)) :
  m ⊑ₘ m' -> (forall a, k a ⊑ₘ k' a) -> try_bind m k ⊑ₘ try_bind m' k'.
Proof. intros Hm Hk. apply m_below_bind; [done|]. intros [a|e]; [done | apply m_below_refl]. Qed.

#[export] Hint Resolve m_below_refl m_below_bind m_below_try : sound.

(** Walk two copies of one computation that differ in their recursive calls. *)
Ltac below :=
  repeat first
    [ progress intros
    | solve [eauto with sound]
    | apply m_below_refl
    | apply m_below_try
    | apply m_below_bind
    | match goal with |- (if ?b then _ else _) ⊑ₘ _ => destruct b end
    | match goal with |- (match ?x with _ => _ end) ⊑ₘ _ => destruct x end ].

Section Fuel.
Context `{RuntimeDeps} (account_codes : AccountsCodeStorage).

Section Below.
Context (dq dq' : Invoker -> AccountId -> InvokeRequest -> M (SdkResult InvokeResponse)).
Context (de de' : Invoker -> AccountId -> InvokeRequest -> list FungibleAsset
                -> M (SdkResult InvokeResponse)).
Context (Hdq : forall inv to data, dq inv to data ⊑ₘ dq' inv to data).
Context (Hde : forall inv to data fs, de inv to data fs ⊑ₘ de' inv to data fs).

Lemma run_query_prog_below {R} inv (p : QueryProg R) :
  Invoker.run_env_query dq inv p ⊑ₘ Invoker.run_env_query dq' inv p.
Proof using Hdq.
  unfold Invoker.run_env_query. induction p; cbn [run_query_prog]; auto with sound.
Qed.

Lemma run_prog_below {R} inv (p : EnvProg R) :
  Invoker.run_env dq de inv p ⊑ₘ Invoker.run_env dq' de' inv p.
Proof using Hdq Hde.
  unfold Invoker.run_env. induction p; cbn [run_prog]; auto with sound.
Qed.

#[local] Hint Resolve run_query_prog_below run_prog_below : sound.

Lemma with_code_below {A} id (f f' : option AccountCode -> M (SdkResult A)) :
  (forall c, f c ⊑ₘ f' c) ->
  match with_code account_codes id f with Ok m => m | Err e => mret (Err e) end
  ⊑ₘ match with_code account_codes id f' with Ok m => m | Err e => mret (Err e) end.
Proof. intros Hf. unfold with_code. destruct (lookup_code account_codes id); [apply Hf | done]. Qed.

Lemma do_query_body_below inv to data :
  Invoker.do_query_body account_codes dq inv to data
  ⊑ₘ Invoker.do_query_body account_codes dq' inv to data.
Proof using Hdq.
  unfold Invoker.do_query_body. do 2 (case_match; [apply m_below_refl|]).
  apply m_below_try; [apply m_below_refl|]. intros id. apply with_code_below. below.
Qed.

Lemma create_account_below inv id msg fs :
  Invoker.create_account account_codes dq de inv id msg fs
  ⊑ₘ Invoker.create_account account_codes dq' de' inv id msg fs.
Proof using Hdq Hde.
  unfold Invoker.create_account. do 4 (apply m_below_try; [apply m_below_refl|intros]).
  apply m_below_try; [apply with_code_below|]; below.
Qed.

Lemma register_account_at_id_below inv a id msg :
  Invoker.register_account_at_id account_codes dq de inv a id msg
  ⊑ₘ Invoker.register_account_at_id account_codes dq' de' inv a id msg.
Proof using Hdq Hde.
  unfold Invoker.register_account_at_id. apply m_below_try; [apply m_below_refl|].
  intros [?|]; [apply m_below_refl|]. do 4 (apply m_below_try; [apply m_below_refl|intros]).
  apply m_below_try; [apply with_code_below|]; below.
Qed.

#[local] Hint Resolve create_account_below register_account_at_id_below : sound.

Lemma handle_system_exec_below inv req fs :
  Invoker.handle_system_exec account_codes dq de inv req fs
  ⊑ₘ Invoker.handle_system_exec account_codes dq' de' inv req fs.
Proof using Hdq Hde. unfold Invoker.handle_system_exec. below. Qed.

#[local] Hint Resolve handle_system_exec_below : sound.

Lemma exec_without_transfers_below inv to data fs :
  Invoker.exec_without_transfers account_codes dq de inv to data fs
  ⊑ₘ Invoker.exec_without_transfers account_codes dq' de' inv to data fs.
Proof using Hdq Hde.
  unfold Invoker.exec_without_transfers. do 2 (case_match; [auto with sound|]).
  apply m_below_try; [apply m_below_refl|]. intros id. apply with_code_below. below.
Qed.

#[local] Hint Resolve exec_without_transfers_below : sound.

Lemma transfer_loop_below inv to fs :
  Invoker.transfer_loop account_codes dq de inv to fs
  ⊑ₘ Invoker.transfer_loop account_codes dq' de' inv to fs.
Proof using Hdq Hde. induction fs; cbn [Invoker.transfer_loop]; below. Qed.

#[local] Hint Resolve transfer_loop_below : sound.

Lemma do_exec_body_below inv to data fs :
  Invoker.do_exec_body account_codes dq de inv to data fs
  ⊑ₘ Invoker.do_exec_body account_codes dq' de' inv to data fs.
Proof using Hdq Hde.
  unfold Invoker.do_exec_body, Invoker.handle_transfers. below.
Qed.

End Below.

Lemma do_query_below_S fuel inv to data :
  Invoker.do_query account_codes fuel inv to data
  ⊑ₘ Invoker.do_query account_codes (S fuel) inv to data.
Proof.
  revert inv to data. induction fuel as [|fuel IH]; intros; [by intros w|].
  cbn [Invoker.do_query]. by apply do_query_body_below.
Qed.

Lemma do_exec_below_S fuel inv to data fs :
  Invoker.do_exec account_codes fuel inv to data fs
  ⊑ₘ Invoker.do_exec account_codes (S fuel) inv to data fs.
Proof.
  revert inv to data fs. induction fuel as [|fuel IH]; intros; [by intros w|].
  cbn [Invoker.do_exec]. apply do_exec_body_below; [apply do_query_below_S | done].
Qed.

Lemma m_below_trans {A} (m1 m2 m3 : M A) : m1 ⊑ₘ m2 -> m2 ⊑ₘ m3 -> m1 ⊑ₘ m3.
Proof. intros H12 H23 w Hne. rewrite <-H12 in Hne |- * by done. by apply H23. Qed.

Lemma do_query_below n m inv to data : (n <= m)%nat ->
  Invoker.do_query account_codes n inv to data ⊑ₘ Invoker.do_query account_codes m inv to data.
Proof.
  induction 1; [apply m_below_refl|]. eapply m_below_trans; [done | apply do_query_below_S].
Qed.

Lemma do_exec_below n m inv to data fs : (n <= m)%nat ->
  Invoker.do_exec account_codes n inv to data fs ⊑ₘ Invoker.do_exec account_codes m inv to data fs.
Proof.
  induction 1; [apply m_below_refl|]. eapply m_below_trans; [done | apply do_exec_below_S].
Qed.

Lemma run_below n m {R} inv (p : EnvProg R) : (n <= m)%nat ->
  Invoker.run account_codes n inv p ⊑ₘ Invoker.run account_codes m inv p.
Proof.
  intros Hnm. apply run_prog_below; intros; [by apply do_query_below | by apply do_exec_below].
Qed.

End Fuel.

(** ** Termination *)

Definition m_returns {A} (m : M A) : Prop := forall w, m w ≠ OutOfFuel.

Lemma m_returns_ret {A} (a : A) : m_returns (mret a).
Proof. by intros w. Qed.

Lemma m_returns_bind {A B} (m : M A) (k : A -> M B) :
  m_returns m -> (forall a, m_returns (k a)) -> m_returns (m ≫= k).
Proof.
  intros Hm Hk w. specialize (Hm w). unfold mbind, M_bind.
  destruct (m w); [apply Hk | done | done].
Qed.

Lemma m_returns_try {A B} (m : M (SdkResult A)) (k : A -> M (SdkResult B)) :
  m_returns m -> (forall a, m_returns (k a)) -> m_returns (try_bind m k).
Proof.
  intros Hm Hk. apply m_returns_bind; [done|]. intros [a|e]; [apply Hk | apply m_returns_ret].
Qed.

Lemma on_storage_returns {A} (f : ExecutionState -> A * ExecutionState) : m_returns (on_storage f).
Proof. intros w. unfold on_storage. by destruct (f (w_storage w)). Qed.

Lemma on_gas_returns {A} (f : GasCounter -> A * GasCounter) : m_returns (on_gas f).
Proof. intros w. unfold on_gas. by destruct (f (w_gas w)). Qed.

Lemma m_below_returns {A} (m m' : M A) : m ⊑ₘ m' -> m_returns m -> m_returns m'.
Proof. intros Hb Hm w. by rewrite (Hb w (Hm w)). Qed.

Lemma restore_checkpoint_returns c : m_returns (Invoker.restore_checkpoint c).
Proof. intros w. unfold Invoker.restore_checkpoint. by repeat case_match. Qed.

Lemma with_code_returns {A} account_codes id (f : option AccountCode -> M (SdkResult A)) :
  (forall c, m_returns (f c)) ->
  m_returns (match with_code account_codes id f with Ok m => m | Err e => mret (Err e) end).
Proof.
  intros Hf. unfold with_code. destruct (lookup_code account_codes id); [apply Hf | by intros w].
Qed.

#[export] Hint Resolve m_returns_ret on_storage_returns on_gas_returns
  restore_checkpoint_returns : sound.
#[export] Hint Extern 1 (m_returns (fun _ => Panicked _)) => intros ?; discriminate : sound.

Ltac returns :=
  repeat first
    [ progress intros
    | solve [eauto with sound]
    | apply m_returns_try
    | apply m_returns_bind
    | apply with_code_returns
    | match goal with |- m_returns (if ?b then _ else _) => destruct b end
    | match goal with |- m_returns (match ?x with _ => _ end) => destruct x end ].

Section Termination.
Context `{RuntimeDeps} (account_codes : AccountsCodeStorage).

Lemma branch_exec_depth inv to fs :
  inv_call_depth inv < MAX_CALL_DEPTH ->
  inv_call_depth (Invoker.branch_exec inv to fs) = inv_call_depth inv + 1.
Proof. unfold MAX_CALL_DEPTH. cbn. u_lia. Qed.

Section Body.
Context (dq : Invoker -> AccountId -> InvokeRequest -> M (SdkResult InvokeResponse)).
Context (de : Invoker -> AccountId -> InvokeRequest -> list FungibleAsset
                -> M (SdkResult InvokeResponse)).
Context (d : Z) (Hd : d < MAX_CALL_DEPTH).
Context (Hdq : forall inv to data, m_returns (dq inv to data)).
Context (Hde : forall inv to data fs, inv_call_depth inv = d + 1 -> m_returns (de inv to data fs)).

Lemma run_env_returns {R} inv (p : EnvProg R) :
  inv_call_depth inv = d + 1 -> m_returns (Invoker.run_env dq de inv p).
Proof using Hdq Hde.
  intros Hinv. unfold Invoker.run_env. induction p; cbn [run_prog]; returns.
  all: unfold Invoker.emit_event, Invoker.unique_id; returns.
Qed.

Lemma branch_depth_eq inv to fs :
  inv_call_depth inv = d -> inv_call_depth (Invoker.branch_exec inv to fs) = d + 1.
Proof using Hd. intros Hinv. rewrite branch_exec_depth; lia. Qed.

#[local] Hint Resolve run_env_returns branch_depth_eq Hde : sound.

Lemma handle_system_exec_returns inv req fs :
  inv_call_depth inv = d -> m_returns (Invoker.handle_system_exec account_codes dq de inv req fs).
Proof using Hd Hdq Hde.
  intros Hinv. unfold Invoker.handle_system_exec, Invoker.create_account,
    Invoker.register_account_at_id, Invoker.account_code_id.
  returns.
Qed.

Lemma handle_storage_exec_returns inv req : m_returns (Invoker.handle_storage_exec inv req).
Proof. unfold Invoker.handle_storage_exec. returns. Qed.

#[local] Hint Resolve handle_system_exec_returns handle_storage_exec_returns : sound.

Lemma exec_without_transfers_returns inv to data fs :
  inv_call_depth inv = d ->
  m_returns (Invoker.exec_without_transfers account_codes dq de inv to data fs).
Proof using Hd Hdq Hde.
  intros Hinv. unfold Invoker.exec_without_transfers, Invoker.account_code_id.
  do 2 (case_match; [auto with sound|]). returns.
Qed.

#[local] Hint Resolve exec_without_transfers_returns : sound.

Lemma do_exec_body_returns inv to data fs :
  inv_call_depth inv = d -> m_returns (Invoker.do_exec_body account_codes dq de inv to data fs).
Proof using Hd Hdq Hde.
  intros Hinv. unfold Invoker.do_exec_body, Invoker.handle_transfers.
  assert (m_returns (Invoker.transfer_loop account_codes dq de inv to fs)).
  { induction fs; cbn [Invoker.transfer_loop]; returns. }
  returns.
Qed.

End Body.

(** Every query returns with [q] nested calls. *)
Definition queries_return (q : nat) : Prop :=
  forall inv to data, m_returns (Invoker.do_query account_codes q inv to data).

Lemma do_exec_returns q n inv to data fs :
  queries_return q -> MAX_CALL_DEPTH <= inv_call_depth inv + Z.of_nat n ->
  m_returns (Invoker.do_exec account_codes (S n + q) inv to data fs).
Proof.
  intros Hq. revert inv to data fs. induction n as [|n IH]; intros inv to data fs Hn.
  - cbn [Nat.add Invoker.do_exec]. unfold Invoker.do_exec_body.
    replace (MAX_CALL_DEPTH <=? _) with true by (symmetry; lia). by intros w.
  - change (S (S n) + q)%nat with (S (S n + q)). cbn [Invoker.do_exec].
    destruct (decide (MAX_CALL_DEPTH <= inv_call_depth inv)) as [Hd|Hd].
    + unfold Invoker.do_exec_body. replace (MAX_CALL_DEPTH <=? _) with true by (symmetry; lia).
      by intros w.
    + apply (do_exec_body_returns _ _ (inv_call_depth inv)); [lia | | | done].
      * intros. eapply m_below_returns; [apply (do_query_below account_codes q); lia | apply Hq].
      * intros. apply IH. lia.
Qed.

(** Queries stratified by a rank of the queried accounts: the code of an
    account queries only accounts of smaller rank. *)
Fixpoint queries_below (rank : AccountId -> nat) (r : nat) {R} (p : QueryProg R) : Prop :=
  match p with
  | QRet _ | QPanic => True
  | QDoQuery to data k => (rank to < r)%nat /\ forall x, queries_below rank r (k x)
  end.

Definition ranked_codes (rank : AccountId -> nat) : Prop :=
  forall id c env req, lookup_code account_codes id = Ok (Some c) ->
    whoami env ≠ RUNTIME_ACCOUNT_ID -> whoami env ≠ STORAGE_ACCOUNT_ID ->
    queries_below rank (rank (whoami env)) (code_query c env req).

Lemma ranked_query_returns rank fuel inv to data :
  ranked_codes rank -> (rank to < fuel)%nat ->
  m_returns (Invoker.do_query account_codes fuel inv to data).
Proof.
  intros Hc. revert inv to data. induction fuel as [|fuel IH]; intros inv to data Hr; [lia|].
  cbn [Invoker.do_query]. unfold Invoker.do_query_body. case_bool_decide; [by intros w|].
  case_bool_decide; [unfold Invoker.handle_storage_query; returns|].
  unfold Invoker.account_code_id, with_code. apply m_returns_try; [returns|]. intros id.
  destruct (lookup_code account_codes id) as [[c|]|] eqn:El; [|by intros w..].
  pose proof (Hc id c (Invoker.env_view (Invoker.branch_query inv to)) data El ltac:(done) ltac:(done)) as Hq.
  unfold mbind, Result_bind, Invoker.run_env_query. cbn [Invoker.env_view whoami inv_whoami Invoker.branch_query] in Hq.
  induction (code_query c _ data) as [r| |to' data' k IHk]; cbn [run_query_prog]; [returns..|].
  destruct Hq as [Hto Hk]. apply m_returns_bind; [apply IH; lia | auto].
Qed.

Lemma ranked_queries_return rank q :
  ranked_codes rank -> (forall a, (rank a < q)%nat) -> queries_return q.
Proof. intros Hc Hq inv to data. by eapply ranked_query_returns. Qed.

(** A program's calls all return if the invoker's calls do. *)
Lemma run_returns q n {R} inv (p : EnvProg R) :
  queries_return q -> MAX_CALL_DEPTH <= inv_call_depth inv + Z.of_nat n ->
  m_returns (Invoker.run account_codes (S n + q) inv p).
Proof.
  intros Hq Hn. unfold Invoker.run, Invoker.run_env.
  assert (Hdq : forall to data, m_returns (Invoker.do_query account_codes (S n + q) inv to data)).
  { intros. eapply m_below_returns; [apply (do_query_below account_codes q); lia | apply Hq]. }
  pose proof (fun to data fs => do_exec_returns q n inv to data fs Hq Hn) as Hde.
  induction p; cbn [run_prog]; returns.
  all: unfold Invoker.emit_event, Invoker.unique_id; returns.
Qed.

End Termination.

(** ** A query that queries itself *)

Section Recursion.
Context `{RuntimeDeps} (account_codes : AccountsCodeStorage).

(** The code of [a] answers request [data] by querying [a] with [data]. *)
Definition self_querying (c : AccountCode) (data : InvokeRequest) : Prop :=
  forall env, exists k, code_query c env data = QDoQuery (whoami env) data k.

Lemma self_query_diverges a id c data fuel inv w :
  a ≠ RUNTIME_ACCOUNT_ID -> a ≠ STORAGE_ACCOUNT_ID ->
  lookup_code account_codes id = Ok (Some c) -> self_querying c data ->
  (get_account_code_identifier_for_account (w_storage w) a).1 = Ok (Some id) ->
  Invoker.do_query account_codes fuel inv a data w = OutOfFuel.
Proof.
  intros Ha1 Ha2 Hc Hself. revert inv w. induction fuel as [|fuel IH]; intros inv w Hid; [done|].
  cbn [Invoker.do_query]. unfold Invoker.do_query_body. rewrite !bool_decide_false by done.
  unfold Invoker.account_code_id, try_bind. unfold mbind at 1 2, M_bind, on_storage.
  pose proof (get_code_identifier_equiv (w_storage w) a) as Heq.
  destruct (get_account_code_identifier_for_account (w_storage w) a) as [r s1] eqn:Eg.
  cbn in Hid, Heq. subst r. unfold mret, M_ret, ok_or, with_code, mbind, Result_bind. rewrite Hc.
  destruct (Hself (Invoker.env_view (Invoker.branch_query inv a))) as [k Hk]. rewrite Hk.
  unfold Invoker.run_env_query. cbn [run_query_prog whoami Invoker.env_view inv_whoami
    Invoker.branch_query]. unfold mbind, M_bind. rewrite IH; [done|]. cbn [w_storage].
  rewrite (get_code_identifier_proper _ _ a Heq). by rewrite Eg.
Qed.

End Recursion.
