(* ===== verification/Isolation.v ===== *)
(** * Isolation: one account against all other code

    A program logic for the code of one account [a] that runs next to
    arbitrary other code: [wp] says what a program of [a] does to the account's
    own storage, where every call to another account may call back and gives
    back any storage that satisfies the account's invariant. If the code of
    [a] keeps its invariant in this logic, every execution of the runtime keeps
    it, whoever starts it and whatever the other accounts' code does: only [a]
    writes its storage, only [a] can migrate its code, its identifier is
    handed out once, and a failed call is rolled back. *)

From S2P Require Import Prelude Core Gas ExecState ExecStateFacts Runtime Invoker InvokerFacts.
From S2P Require Import CallFacts.

Open Scope evolve_scope.

(** The storage of one account, as reads see it. *)
Abbreviation Store := (bytes -> SdkResult (option bytes)).

Definition store_eq (f g : Store) : Prop := forall k, f k = g k.

Definition own (a : AccountId) (s : ExecutionState) : Store := fun k => view s (account_storage_key a k).

Definition upd (st : Store) (k : bytes) (v : option bytes) : Store := fun k' =>
  if decide (k' = k) then Ok v else st k'.

#[export] Instance store_eq_equivalence : Equivalence store_eq.
Proof. split; [by intros f k | by intros f g H k | intros f g h H1 H2 k; by rewrite H1]. Qed.

#[export] Instance upd_proper : Proper (store_eq ==> eq ==> eq ==> store_eq) upd.
Proof. intros f g Hfg k _ <- v _ <- k'. unfold upd. by case_decide. Qed.

(** Account identifiers as 256-bit numbers. *)
Definition value (a : AccountId) : Z := be_value (AccountId.as_bytes a).

(** ** The effect of storage requests on the caller's storage *)
Section Effects.
Context `{RuntimeDeps}.

(** A successful [StorageSetRequest] or [StorageRemoveRequest]. *)
Definition storage_effect (st : Store) (data : InvokeRequest) : Store :=
  if function data =? FUNCTION_IDENTIFIER StorageSetRequest then
    match InvokeRequest.get (A := StorageSetRequest) data with
    | Ok r => match Message.into_bytes (set_value r) with
              | Ok b => upd st (set_key r) (Some b)
              | Err _ => st
              end
    | Err _ => st
    end
  else
    match InvokeRequest.get (A := StorageRemoveRequest) data with
    | Ok r => upd st (remove_key r) None
    | Err _ => st
    end.

(** What a successful query can answer: a read of the account's own storage is
    faithful, anything else is arbitrary. *)
Definition query_answer (a : AccountId) (st : Store) (to : AccountId) (data : InvokeRequest)
    (resp : InvokeResponse) : Prop :=
  to = STORAGE_ACCOUNT_ID ->
  forall r, InvokeRequest.get (A := StorageGetRequest) data = Ok r -> get_account_id r = a ->
    exists v, st (get_key r) = Ok v /\
              InvokeResponse.new (mkStorageGetResponse (Message.from_bytes <$> v)) = Ok resp.

(** What the storage account answers to a write that succeeds. *)
Definition storage_response (data : InvokeRequest) (resp : InvokeResponse) : Prop :=
  if function data =? FUNCTION_IDENTIFIER StorageSetRequest
  then InvokeResponse.new mkStorageSetResponse = Ok resp
  else InvokeResponse.new mkStorageRemoveResponse = Ok resp.

(** A call the code of an account may make outside its own storage. *)
Definition outside (to : AccountId) (data : InvokeRequest) (fs : list FungibleAsset) : Prop :=
  to ≠ STORAGE_ACCOUNT_ID /\
  (to = RUNTIME_ACCOUNT_ID -> function data ≠ FUNCTION_IDENTIFIER MigrateRequest) /\
  Forall (fun f => asset_id f ≠ STORAGE_ACCOUNT_ID /\ asset_id f ≠ RUNTIME_ACCOUNT_ID) fs.

(** ** Weakest preconditions of the account's programs

    [I] is the invariant the account promises whenever other code may run. *)
Section Wp.
Context (a : AccountId) (I : Store -> Prop).

Fixpoint wp {R} (p : EnvProg R) (Q : R -> Store -> Prop) (st : Store) : Prop :=
  match p with
  | PRet r => Q r st
  | PPanic => True
  | PDoQuery to data k =>
      (forall e, wp (k (Err e)) Q st) /\
      (forall resp, query_answer a st to data resp -> wp (k (Ok resp)) Q st)
  | PDoExec to data fs k =>
      if decide (to = STORAGE_ACCOUNT_ID) then
        (forall e, wp (k (Err e)) Q st) /\
        (forall resp, storage_response data resp -> wp (k (Ok resp)) Q (storage_effect st data))
      else
        outside to data fs /\ I st /\
        (forall e, wp (k (Err e)) Q st) /\
        (forall resp st', I st' -> wp (k (Ok resp)) Q st')
  | PEmitEvent _ _ k => forall r, wp (k r) Q st
  | PUniqueId k => forall r, wp (k r) Q st
  end.

Lemma storage_effect_proper st st' data :
  store_eq st st' -> store_eq (storage_effect st data) (storage_effect st' data).
Proof.
  intros Hst. unfold storage_effect. repeat case_match; try done; by rewrite Hst.
Qed.

Lemma query_answer_proper st st' to data resp :
  store_eq st st' -> query_answer a st' to data resp -> query_answer a st to data resp.
Proof. intros Hst Hq Hto r Hr Ha. rewrite (Hst (get_key r)). by apply Hq. Qed.

Lemma wp_proper {R} (p : EnvProg R) (Q : R -> Store -> Prop) st st' :
  (forall f g, store_eq f g -> I f -> I g) ->
  (forall r f g, store_eq f g -> Q r f -> Q r g) ->
  store_eq st st' -> wp p Q st -> wp p Q st'.
Proof.
  intros HI HQ. revert st st'. induction p as [r| |to data k IH|to data fs k IH|n d k IH|k IH];
    intros st st' Hst; cbn [wp].
  - by apply HQ.
  - done.
  - intros [He Hr]. split; [intros e; by eapply IH|].
    intros resp Hresp. eapply IH; [done|]. apply Hr. by eapply query_answer_proper.
  - case_decide.
    + intros [He Hr]. split; [intros e; by eapply IH|].
      intros resp Hresp. eapply IH; [by apply storage_effect_proper | by apply Hr].
    + intros (Ho & Hi & He & Hr). split_and!; [done | by eapply HI | intros e; by eapply IH |].
      intros resp st'' Hi'. by apply Hr.
  - intros Hr r. by eapply IH.
  - intros Hr r. by eapply IH.
Qed.

Lemma wp_bind {R S} (p : EnvProg R) (f : R -> EnvProg S) Q st :
  wp p (fun r st => wp (f r) Q st) st -> wp (p ≫= f) Q st.
Proof.
  revert st. induction p as [r| |to data k IH|to data fs k IH|n d k IH|k IH]; intros st; cbn; try done.
  - intros [He Hr]. split; intros; apply IH; auto.
  - case_decide.
    + intros [He Hr]. split; intros; apply IH; auto.
    + intros (Ho & Hi & He & Hr). split_and!; [done | done | intros; apply IH; auto..].
  - intros Hr r. apply IH; auto.
  - intros Hr r. apply IH; auto.
Qed.

Lemma wp_mono {R} (p : EnvProg R) (Q Q' : R -> Store -> Prop) st :
  (forall r st, Q r st -> Q' r st) -> wp p Q st -> wp p Q' st.
Proof.
  intros HQ. revert st. induction p as [r| |to data k IH|to data fs k IH|n d k IH|k IH]; intros st; cbn [wp]; auto.
  - intros [He Hr]. split; intros; apply IH; auto.
  - case_decide.
    + intros [He Hr]. split; intros; apply IH; auto.
    + intros (Ho & Hi & He & Hr). split_and!; [done | done | intros; apply IH; auto..].
Qed.

End Wp.
End Effects.

Create HintDb keeps.

(** ** What the rest of the system leaves alone *)
Section Guard.
Context `{RuntimeDeps} (account_codes : AccountsCodeStorage).
Context (a : AccountId) (cid : string) (c : AccountCode) (kappa reach : Z) (I : Store -> Prop).

(** The account's code identifier is [cid], and the counter of account
    identifiers has passed the account or is out of its reach, which is at least
    [reach]; [kappa] bounds the counter, less the writes of the execution so
    far. *)
Definition next_id (s : ExecutionState) : SdkResult AccountId :=
  match (ExecutionState.get s account_number_key).1 with
  | Err e => Err e
  | Ok o => from_option Message.get (Ok (AccountId.from_u64 INITIAL_ACCOUNT_NUMBER)) o
  end.

Record intact (s : ExecutionState) : Prop := {
  in_code : (get_account_code_identifier_for_account s a).1 = Ok (Some cid);
  in_next : forall last, next_id s = Ok last ->
            (value a < value last \/ reach <= value a) /\ value last <= kappa + zlen (undo_log s) }.

Record good (s : ExecutionState) : Prop := {
  good_intact : intact s;
  good_log : log_ok s;
  good_inv : I (own a s) }.

(** Every undo log of the execution fits a [usize]. *)
Definition bounded (w : World) : Prop := log_max (w_storage w) <= u64_max.

Definition G (w : World) : Prop := good (w_storage w).

(** Sound computations with a pre- and postcondition, up to [bounded]. *)
Definition m_step {A} (P : World -> Prop) (m : M A) (Q : A -> World -> Prop) : Prop :=
  m_sound m /\ forall w r w', P w -> m w = Done r w' -> bounded w' -> Q r w'.

Definition m_keeps {A} (m : M A) : Prop := m_step G m (fun _ => G).

Lemma evolves_bounded w w' : evolves w w' -> bounded w' -> bounded w.
Proof. unfold bounded. intros Hev Hb. pose proof (evolves_log_max _ _ Hev). lia. Qed.

Lemma sound_evolves {A} (m : M A) w r w' : m_sound m -> m w = Done r w' -> evolves w w'.
Proof. intros Hm Hr. specialize (Hm w). by rewrite Hr in Hm. Qed.

Lemma m_step_ret {A} (x : A) P Q : (forall w, P w -> Q x w) -> m_step P (mret x) Q.
Proof. intros HQ. split; [apply m_sound_ret|]. intros w r w' Hw [= <- <-] _. by apply HQ. Qed.

Lemma m_step_bind {A B} (m : M A) (k : A -> M B) P Q R :
  m_step P m Q -> (forall x, m_step (Q x) (k x) R) -> m_step P (m ≫= k) R.
Proof.
  intros [Hms Hm] Hk. split; [apply m_sound_bind; [done | apply Hk]|].
  intros w r w'. unfold mbind, M_bind. destruct (m w) as [x w1| |] eqn:Em; try done.
  intros Hw Hr Hb. eapply Hk; [|done|done]. eapply Hm; [done|done|].
  eapply evolves_bounded; [|done]. eapply sound_evolves; [apply Hk | done].
Qed.

Lemma m_step_try {A B} (m : M (SdkResult A)) (k : A -> M (SdkResult B)) P
    (Q : SdkResult A -> World -> Prop) R :
  m_step P m Q -> (forall x, m_step (Q (Ok x)) (k x) R) -> (forall e w, Q (Err e) w -> R (Err e) w) ->
  m_step P (try_bind m k) R.
Proof.
  intros Hm Hk He. eapply m_step_bind; [exact Hm|]. intros [x|e]; [apply Hk|].
  apply m_step_ret, He.
Qed.

Lemma m_step_weaken {A} (m : M A) (P P' : World -> Prop) (Q Q' : A -> World -> Prop) :
  m_step P m Q -> (forall w, P' w -> P w) -> (forall x w, Q x w -> Q' x w) -> m_step P' m Q'.
Proof. intros [Hs Hm] HP HQ. split; [done|]. intros. eapply HQ, Hm; eauto. Qed.

Lemma m_step_try_ok {A B} (x : A) (k : A -> M (SdkResult B)) P R :
  m_step P (k x) R -> m_step P (try_bind (mret (Ok x)) k) R.
Proof. done. Qed.

(** A fact that the precondition gives may be used in the proof. *)
Lemma m_step_fact {A} (phi : Prop) (m : M A) P Q :
  m_sound m -> (forall w, P w -> phi) -> (phi -> m_step P m Q) -> m_step P m Q.
Proof. intros Hs HP Hm. split; [done|]. intros w r w' Hw. by apply (Hm (HP w Hw)). Qed.

Lemma m_keeps_ret {A} (x : A) : m_keeps (mret x).
Proof. by apply m_step_ret. Qed.

Lemma m_keeps_bind {A B} (m : M A) (k : A -> M B) :
  m_keeps m -> (forall x, m_keeps (k x)) -> m_keeps (m ≫= k).
Proof. intros Hm Hk. by eapply m_step_bind. Qed.

Lemma m_keeps_try {A B} (m : M (SdkResult A)) (k : A -> M (SdkResult B)) :
  m_keeps m -> (forall x, m_keeps (k x)) -> m_keeps (try_bind m k).
Proof. intros Hm Hk. eapply m_step_try; [exact Hm | exact Hk | done]. Qed.

Lemma m_keeps_panic {A} : m_keeps (fun _ => @Panicked A CodePanic).
Proof. split; [apply m_sound_panic | done]. Qed.

(** *** Frames *)

Lemma get_frame s s' k :
  base_storage s' = base_storage s -> overlay s' !! k = overlay s !! k ->
  (ExecutionState.get s' k).1 = (ExecutionState.get s k).1.
Proof. intros Hb Ho. unfold ExecutionState.get. cbn. by rewrite Hb, Ho. Qed.

Lemma view_frame s s' k :
  base_storage s' = base_storage s -> overlay s' !! k = overlay s !! k -> view s' k = view s k.
Proof. intros Hb Ho. unfold view. by rewrite Hb, Ho. Qed.

Lemma code_frame s s' x :
  base_storage s' = base_storage s ->
  overlay s' !! get_account_code_identifier_for_account_key x
  = overlay s !! get_account_code_identifier_for_account_key x ->
  (get_account_code_identifier_for_account s' x).1 = (get_account_code_identifier_for_account s x).1.
Proof.
  intros Hb Ho. pose proof (get_frame _ _ _ Hb Ho) as Hg. unfold get_account_code_identifier_for_account.
  do 2 destruct (ExecutionState.get _ _). cbn in *. by subst.
Qed.

Lemma intact_frame s s' :
  base_storage s' = base_storage s ->
  overlay s' !! get_account_code_identifier_for_account_key a
  = overlay s !! get_account_code_identifier_for_account_key a ->
  overlay s' !! account_number_key = overlay s !! account_number_key ->
  zlen (undo_log s) <= zlen (undo_log s') ->
  intact s -> intact s'.
Proof.
  intros Hb Hc Hn Hl [H1 H2]. split; [by rewrite (code_frame _ _ _ Hb Hc)|].
  intros last. unfold next_id. rewrite (get_frame _ _ _ Hb Hn). intros Hlast.
  specialize (H2 last Hlast). lia.
Qed.

Lemma own_frame s s' x :
  base_storage s' = base_storage s ->
  (forall k, overlay s' !! account_storage_key x k = overlay s !! account_storage_key x k) ->
  store_eq (own x s') (own x s).
Proof. intros Hb Ho k. by apply view_frame. Qed.

Context (HI : forall f g, store_eq f g -> I f -> I g).

(** Operations that leave overlay, base and log alone. *)
Lemma good_same s s' :
  base_storage s' = base_storage s -> overlay s' = overlay s -> undo_log s' = undo_log s ->
  log_max s <= log_max s' -> good s -> good s'.
Proof using HI.
  intros Hb Ho Hl Hm [H1 H2 H3]. split.
  - apply (intact_frame s); try done; rewrite ?Ho, ?Hl; done.
  - unfold log_ok in *. rewrite Hl. lia.
  - eapply HI; [|done]. symmetry. apply own_frame; [done|]. intros. by rewrite Ho.
Qed.

Lemma good_equiv s s' : s' ≈ s -> log_max s <= log_max s' -> good s -> good s'.
Proof using HI. intros Hs. apply good_same; by st_rewrite Hs. Qed.

(** A write to a key of another region. *)
Lemma good_write_other s s' k :
  one_write s s' -> base_storage s' = base_storage s ->
  (forall k', k' ≠ k -> overlay s' !! k' = overlay s !! k') ->
  k ≠ get_account_code_identifier_for_account_key a -> k ≠ account_number_key ->
  (forall k', k ≠ account_storage_key a k') ->
  good s -> good s'.
Proof using HI.
  intros Hw Hb Ho Hc Hn Hs [H1 H2 H3]. split.
  - apply (intact_frame s); try done; [apply Ho; congruence..|]. destruct Hw as [_ [->|[-> _]]]; lia.
  - by eapply one_write_log_ok.
  - eapply HI; [|done]. symmetry. apply own_frame; [done|]. intros k'. apply Ho. intros E. by apply (Hs k').
Qed.

Lemma set_base s k v : base_storage (ExecutionState.set s k v).2 = base_storage s.
Proof. unfold ExecutionState.set. by repeat case_match. Qed.

Lemma remove_base s k : base_storage (ExecutionState.remove s k).2 = base_storage s.
Proof. unfold ExecutionState.remove. by repeat case_match. Qed.

(** The keys of other accounts. *)
Inductive foreign_key : bytes -> Prop :=
| foreign_identifier b : b ≠ a -> foreign_key (get_account_code_identifier_for_account_key b)
| foreign_storage b k : b ≠ a -> foreign_key (account_storage_key b k).

Lemma foreign_key_protocol k : foreign_key k -> protocol_key k.
Proof. destruct 1; constructor. Qed.

Lemma foreign_key_regions k : foreign_key k ->
  k ≠ get_account_code_identifier_for_account_key a /\ k ≠ account_number_key /\
  (forall k', k ≠ account_storage_key a k').
Proof.
  destruct 1 as [b Hb|b k Hb]; split_and!; try done.
  - by intros ?%identifier_key_inj.
  - intros k' [? ?]%account_storage_key_inj. done.
Qed.

Lemma good_set_foreign s k v : foreign_key k -> good s -> good (ExecutionState.set s k v).2.
Proof using HI.
  intros (? & ? & ?)%foreign_key_regions. apply (good_write_other _ _ k); try done.
  - apply set_one_write.
  - apply set_base.
  - intros. by apply set_overlay_other.
Qed.

Lemma good_remove_foreign s k : foreign_key k -> good s -> good (ExecutionState.remove s k).2.
Proof using HI.
  intros (? & ? & ?)%foreign_key_regions. apply (good_write_other _ _ k); try done.
  - apply remove_one_write.
  - apply remove_base.
  - intros. by apply remove_overlay_other.
Qed.

(** *** The primitive steps *)

Lemma on_storage_keeps {A} (f : ExecutionState -> A * ExecutionState) :
  m_sound (on_storage f) -> (forall s, good s -> good (f s).2) -> m_keeps (on_storage f).
Proof.
  intros Hs Hf. split; [done|]. intros w r w' Hw. unfold on_storage.
  specialize (Hf (w_storage w) Hw). destruct (f (w_storage w)). by intros [= <- <-] _.
Qed.

Lemma get_keeps k : m_keeps (on_storage (fun s => ExecutionState.get s k)).
Proof using HI. apply on_storage_keeps; [apply get_sound|]. intros s. by apply good_equiv. Qed.

Lemma set_keeps k v : foreign_key k -> m_keeps (on_storage (fun s => ExecutionState.set s k v)).
Proof using HI.
  intros Hk. apply on_storage_keeps; [by apply set_sound, foreign_key_protocol|].
  intros s. by apply good_set_foreign.
Qed.

Lemma remove_keeps k : foreign_key k -> m_keeps (on_storage (fun s => ExecutionState.remove s k)).
Proof using HI.
  intros Hk. apply on_storage_keeps; [by apply remove_sound, foreign_key_protocol|].
  intros s. by apply good_remove_foreign.
Qed.

Lemma emit_keeps e : m_keeps (on_storage (fun s => ExecutionState.emit_event s e)).
Proof using HI.
  apply on_storage_keeps; [apply emit_sound|]. intros s. unfold ExecutionState.emit_event.
  case_match; [done|]. by apply good_same.
Qed.

Lemma next_unique_keeps : m_keeps (on_storage ExecutionState.next_unique_object_id).
Proof using HI. apply on_storage_keeps; [apply next_unique_sound|]. intros s. by apply good_same. Qed.

Lemma charge_keeps f : storage_charge f -> m_keeps (on_gas f).
Proof.
  intros Hf. split; [by apply charge_sound|]. intros w r w' Hw. unfold on_gas.
  destruct (f (w_gas w)). by intros [= <- <-] _.
Qed.

Lemma readonly_keeps {A} (m : M A) : m_sound m -> m_readonly m -> m_keeps m.
Proof using HI.
  intros Hs Hr. split; [done|]. intros w r w' Hw Hm _. specialize (Hs w). specialize (Hr w).
  rewrite Hm in Hs, Hr. apply (good_equiv (w_storage w)); [done | by apply evolves_log_max | done].
Qed.

Lemma get_code_identifier_keeps x :
  m_keeps (on_storage (fun s => get_account_code_identifier_for_account s x)).
Proof using HI. apply readonly_keeps; [apply get_code_identifier_sound | apply get_code_identifier_readonly]. Qed.

Lemma set_code_identifier_keeps x id :
  x ≠ a -> m_keeps (on_storage (fun s => set_account_code_identifier_for_account s x id)).
Proof using HI.
  intros Hx. apply on_storage_keeps; [apply set_code_identifier_sound|]. intros s Hs.
  unfold set_account_code_identifier_for_account. case_match; [|done].
  apply good_set_foreign; [by constructor | done].
Qed.

Lemma good_next s s' last m :
  kappa + u64_max + 1 < reach <= 2 ^ 256 -> log_max s' <= u64_max ->
  wrote account_number_key (Some m) s s' -> Message.new (AccountId.increase last) = Ok m ->
  (value a < value last \/ reach <= value a) /\ value last <= kappa + zlen (undo_log s) -> good s -> good s'.
Proof using HI.
  intros Hk Hb [Hbase Hov Hlog [Hmax Hmax']] Hm Hlast [[Hcode _] Hlok Hinv]. split; [split|..].
  - rewrite <-Hcode. apply code_frame; [done|]. by rewrite Hov, lookup_insert_ne.
  - intros last'. unfold next_id, ExecutionState.get. cbn. rewrite Hov, lookup_insert_eq. cbn.
    rewrite (Message_get_new _ _ Hm). intros [= <-]. unfold value in *.
    rewrite AccountId_increase_value, Z.mod_small; [lia|].
    pose proof (AccountId_value_range last). lia.
  - by unfold log_ok.
  - eapply HI; [|done]. symmetry. apply own_frame; [done|]. intros k. by rewrite Hov, lookup_insert_ne.
Qed.

(** The identifier handed out is not [a], and the counter stays past it. *)
Lemma next_account_number_step :
  kappa + u64_max + 1 < reach <= 2 ^ 256 ->
  m_step G (on_storage next_account_number) (fun r w => G w /\ forall id, r = Ok id -> id ≠ a).
Proof using HI.
  intros Hk. split; [apply next_account_number_sound|]. intros w r w' Hw. unfold on_storage, next_account_number.
  assert (Hg : good (ExecutionState.get (w_storage w) account_number_key).2) by by apply (good_equiv (w_storage w)).
  pose proof (in_next _ (good_intact _ Hg)) as Hnext. unfold next_id in Hnext.
  rewrite (get_proper _ (w_storage w)) in Hnext by done.
  destruct (ExecutionState.get (w_storage w) account_number_key) as [o s1]. cbn [fst snd] in Hg, Hnext.
  destruct o as [o|e]; [|by intros [= <- <-]].
  destruct (from_option Message.get _ o) as [last|e] eqn:El; [|by intros [= <- <-]].
  destruct (Message.new (AccountId.increase last)) as [m|e] eqn:Em; [|by intros [= <- <-]].
  specialize (Hnext last eq_refl).
  destruct (set_cases s1 account_number_key m) as [[e ->]|(s2 & -> & Hwr)];
    [by intros [= <- <-]|].
  intros [= <- <-] Hb. unfold G, bounded in *. cbn [w_storage] in *. split.
  - by apply (good_next s1 s2 last m).
  - intros id [= <-] ->. pose proof (wr_max _ _ _ _ Hwr). pose proof (wr_log _ _ _ _ Hwr). lia.
Qed.

(** *** Code of the other accounts *)

#[local] Hint Resolve m_keeps_ret m_keeps_panic get_keeps set_keeps remove_keeps emit_keeps
  next_unique_keeps charge_keeps get_code_identifier_keeps set_code_identifier_keeps : keeps.
#[local] Hint Constructors foreign_key storage_charge : keeps.

Ltac keeps :=
  repeat first
    [ progress intros
    | solve [eauto with keeps]
    | apply m_keeps_try
    | apply m_keeps_bind
    | match goal with |- m_keeps (if ?b then _ else _) => destruct b end
    | match goal with |- m_keeps (match ?x with _ => _ end) => destruct x end ].

Context (Hkappa : kappa + u64_max + 1 < reach <= 2 ^ 256).
Context (Hrt : a ≠ RUNTIME_ACCOUNT_ID) (Hst : a ≠ STORAGE_ACCOUNT_ID).

Section Handlers.
Context (dq : Invoker -> AccountId -> InvokeRequest -> M (SdkResult InvokeResponse)).
Context (de : Invoker -> AccountId -> InvokeRequest -> list FungibleAsset
                -> M (SdkResult InvokeResponse)).

(** Who may call what without touching [a]'s storage or code directly. *)
Definition allowed (inv : Invoker) (to : AccountId) (data : InvokeRequest)
    (fs : list FungibleAsset) : Prop :=
  inv_whoami inv ≠ a \/ outside to data fs.

Context (Hdq : forall inv to data, m_sound (dq inv to data) /\ m_readonly (dq inv to data)).
Context (Hde : forall inv to data fs, allowed inv to data fs -> m_keeps (de inv to data fs)).
Context (Hdea : forall inv to data fs, m_atomic (de inv to data fs)).

Lemma dq_keeps inv to data : m_keeps (dq inv to data).
Proof using HI Hdq. apply readonly_keeps; apply Hdq. Qed.

Lemma emit_event_keeps inv name data : m_keeps (Invoker.emit_event inv name data).
Proof using HI. unfold Invoker.emit_event. keeps. Qed.

Lemma unique_id_keeps inv : m_keeps (Invoker.unique_id inv).
Proof using HI. unfold Invoker.unique_id. keeps. Qed.

Lemma account_code_id_keeps x : m_keeps (Invoker.account_code_id x).
Proof using HI. unfold Invoker.account_code_id. keeps. Qed.

#[local] Hint Resolve dq_keeps emit_event_keeps unique_id_keeps account_code_id_keeps : keeps.

Lemma run_env_sound' {R} inv (p : EnvProg R) : m_sound (Invoker.run_env dq de inv p).
Proof using Hdq Hdea. apply run_env_sound; [apply Hdq|]. intros. apply m_atomic_sound, Hdea. Qed.

(** Any program of another account. *)
Lemma run_env_other {R} inv (p : EnvProg R) :
  inv_whoami inv ≠ a -> m_keeps (Invoker.run_env dq de inv p).
Proof using HI Hdq Hde.
  intros Hinv. unfold Invoker.run_env. induction p; cbn [run_prog]; keeps.
  apply Hde. by left.
Qed.

Lemma with_code_keeps {A} id (f : option AccountCode -> M (SdkResult A)) :
  (forall x, m_keeps (f x)) ->
  m_keeps (match with_code account_codes id f with Ok m => m | Err e => mret (Err e) end).
Proof. intros Hf. unfold with_code. destruct (lookup_code account_codes id); [apply Hf | apply m_keeps_ret]. Qed.

Lemma create_account_keeps inv id msg fs :
  m_keeps (Invoker.create_account account_codes dq de inv id msg fs).
Proof using HI Hkappa Hdq Hde Hdea.
  unfold Invoker.create_account. apply m_keeps_try; [keeps|]. intros _.
  eapply m_step_try; [by apply next_account_number_step | | by intros e w []].
  intros x. cbv zeta. apply (m_step_fact (x ≠ a)); [| intros w [_ Hne]; by apply Hne |].
  - do 2 (apply m_sound_try; [auto using set_code_identifier_sound with sound|intros]).
    apply m_sound_try; [apply with_code_sound; intros []|]; auto using run_env_sound', m_sound_ret.
  - intros Hxa. apply (m_step_weaken _ G _ (fun _ => G)); [| by intros w [] | done].
    do 2 (apply m_keeps_try; [keeps|intros]).
    apply m_keeps_try; [apply with_code_keeps | keeps].
    intros [code|]; [by apply run_env_other | keeps].
Qed.

(** [a] is registered already: registering it again does nothing. *)
Lemma get_code_step x :
  m_step G (on_storage (fun s => get_account_code_identifier_for_account s x))
    (fun r w => G w /\ (x = a -> r = Ok (Some cid))).
Proof using HI.
  destruct (get_code_identifier_keeps x) as [Hs Hk]. split; [done|]. intros w r w' Hw Hr Hb.
  split; [by eapply Hk|]. intros ->. unfold on_storage in Hr.
  pose proof (in_code _ (good_intact _ Hw)) as Hcode.
  destruct (get_account_code_identifier_for_account (w_storage w) a). by simplify_eq/=.
Qed.

Lemma register_account_at_id_keeps inv x id msg :
  m_keeps (Invoker.register_account_at_id account_codes dq de inv x id msg).
Proof using HI Hdq Hde Hdea.
  unfold Invoker.register_account_at_id.
  eapply m_step_try; [apply get_code_step | | by intros e w []].
  intros [e|]; [apply m_step_ret; by intros w []|]. cbv zeta.
  apply (m_step_fact (x ≠ a)); [| intros w [_ Hx] ->; by specialize (Hx eq_refl) |].
  - do 3 (apply m_sound_try; [auto with sound|intros]).
    apply m_sound_try; [apply set_sound, identifier_key|intros].
    apply m_sound_try; [apply with_code_sound; intros []|]; auto using run_env_sound', m_sound_ret.
  - intros Hxa. apply (m_step_weaken _ G _ (fun _ => G)); [| by intros w [] | done].
    do 3 (apply m_keeps_try; [keeps|intros]).
    apply m_keeps_try; [by apply set_keeps, foreign_identifier|intros].
    apply m_keeps_try; [apply with_code_keeps | keeps].
    intros [code|]; [by apply run_env_other | keeps].
Qed.

#[local] Hint Resolve create_account_keeps register_account_at_id_keeps : keeps.

Lemma handle_system_exec_keeps inv req fs :
  inv_whoami inv ≠ a \/ function req ≠ FUNCTION_IDENTIFIER MigrateRequest ->
  m_keeps (Invoker.handle_system_exec account_codes dq de inv req fs).
Proof using HI Hkappa Hrt Hdq Hde Hdea.
  intros Hm. unfold Invoker.handle_system_exec. do 2 (case_match; [keeps|]).
  case_match; [|keeps]. destruct Hm as [Hwho|Hfn]; [|exfalso; lia].
  apply m_keeps_try; [keeps|]. intros r. case_bool_decide as Hr; [keeps|]. cbn in Hr.
  assert (Hx : migrate_account_id r ≠ a) by congruence.
  do 2 (apply m_keeps_try; [keeps|intros]). do 2 (case_match; [keeps|]).
  apply m_keeps_try; [keeps|]. intros _. apply Hde. by left.
Qed.

Lemma handle_storage_exec_keeps inv req :
  inv_whoami inv ≠ a -> m_keeps (Invoker.handle_storage_exec inv req).
Proof using HI. intros Hwho. unfold Invoker.handle_storage_exec. keeps. Qed.

(** *** The account's own code *)

(** Everything but the invariant, and the account's storage is [st]. *)
Record at_store (st : Store) (s : ExecutionState) : Prop := {
  at_intact : intact s;
  at_log : log_ok s;
  at_own : store_eq (own a s) st }.

Definition Gat (st : Store) (w : World) : Prop := at_store st (w_storage w).

Lemma at_store_good st s : at_store st s -> I st -> good s.
Proof using HI. intros [H1 H2 H3] Hi. split; try done. eapply HI; [|exact Hi]. by symmetry. Qed.

Lemma good_at_store s : good s -> at_store (own a s) s.
Proof. intros [H1 H2 H3]. by split. Qed.

Lemma at_store_same st s s' :
  base_storage s' = base_storage s -> overlay s' = overlay s -> undo_log s' = undo_log s ->
  log_max s <= log_max s' -> at_store st s -> at_store st s'.
Proof.
  intros Hb Ho Hl Hm [H1 H2 H3]. split.
  - apply (intact_frame s); try done; rewrite ?Ho, ?Hl; done.
  - unfold log_ok in *. rewrite Hl. lia.
  - rewrite <-H3. apply own_frame; [done|]. intros. by rewrite Ho.
Qed.

Lemma at_store_equiv st s s' : s' ≈ s -> log_max s <= log_max s' -> at_store st s -> at_store st s'.
Proof. intros Hs. apply at_store_same; by st_rewrite Hs. Qed.

(** A successful write to the account's own storage. *)
Lemma own_wrote k v s s' :
  wrote (account_storage_key a k) v s s' ->
  store_eq (own a s') (upd (own a s) k (match v with Some (mkMessage (OwnedBytes b)) => Some b | None => None end)).
Proof.
  intros [Hb Ho _ _] k'. unfold own, upd, view. rewrite Hb, Ho. case_decide as Hk.
  - subst k'. rewrite lookup_insert_eq. by destruct v as [[[b]]|].
  - rewrite lookup_insert_ne; [done|]. by intros [_ ?]%account_storage_key_inj.
Qed.

Lemma at_store_wrote st k v s s' :
  wrote (account_storage_key a k) v s s' -> at_store st s ->
  at_store (upd st k (match v with Some (mkMessage (OwnedBytes b)) => Some b | None => None end)) s'.
Proof.
  intros Hw [H1 H2 H3]. pose proof (own_wrote _ _ _ _ Hw) as Hown. split.
  - destruct Hw as [Hb Ho Hl _]. apply (intact_frame s); try done; rewrite ?Ho, ?lookup_insert_ne by done; [done..|lia].
  - eapply one_write_log_ok; [by eapply wrote_one_write | done].
  - by rewrite Hown, H3.
Qed.

Definition storage_post (st : Store) (data : InvokeRequest) (r : SdkResult InvokeResponse)
    (w : World) : Prop :=
  match r with
  | Ok resp => storage_response data resp /\ Gat (storage_effect st data) w
  | Err _ => Gat st w
  end.

Lemma on_gas_at st (f : GasCounter -> SdkResult unit * GasCounter) :
  storage_charge f -> m_step (Gat st) (on_gas f) (fun _ => Gat st).
Proof.
  intros Hf. split; [by apply charge_sound|]. intros w r w' Hw. unfold on_gas.
  destruct (f (w_gas w)). by intros [= <- <-] _.
Qed.

Lemma set_own_step st k b :
  m_step (Gat st) (on_storage (fun s => ExecutionState.set s (account_storage_key a k) (mkMessage (OwnedBytes b))))
    (fun r w => match r with Ok _ => Gat (upd st k (Some b)) w | Err _ => Gat st w end).
Proof.
  split; [apply set_sound, storage_key|]. intros w r w' Hw. unfold on_storage.
  destruct (set_cases (w_storage w) (account_storage_key a k) (mkMessage (OwnedBytes b)))
    as [[e ->]|(s' & -> & Hwr)]; intros [= <- <-] _; [done|].
  by apply (at_store_wrote st k (Some (mkMessage (OwnedBytes b))) (w_storage w)).
Qed.

Lemma remove_own_step st k :
  m_step (Gat st) (on_storage (fun s => ExecutionState.remove s (account_storage_key a k)))
    (fun r w => match r with Ok _ => Gat (upd st k None) w | Err _ => Gat st w end).
Proof.
  split; [apply remove_sound, storage_key|]. intros w r w' Hw. unfold on_storage.
  destruct (remove_cases (w_storage w) (account_storage_key a k)) as [[e ->]|(s' & -> & Hwr)];
    intros [= <- <-] _; [done|].
  by apply (at_store_wrote st k None (w_storage w)).
Qed.

(** Up to the encoding of its response, which may fail after the write. *)
Lemma handle_storage_exec_own inv st data :
  inv_whoami inv = a ->
  m_step (Gat st) (Invoker.handle_storage_exec inv data)
    (fun r w => is_ok r = true -> storage_post st data r w).
Proof.
  intros Hwho. unfold Invoker.handle_storage_exec, storage_post, storage_response, storage_effect.
  rewrite Hwho. case_match; [|case_match; [|by apply m_step_ret]].
  - destruct (InvokeRequest.get data) as [[k [[b]]]|e] eqn:Eg; [|by apply m_step_ret].
    apply m_step_try_ok. cbv zeta. cbn [set_key set_value Message.into_bytes inner].
    eapply m_step_try; [apply on_gas_at; constructor | | done]. intros [].
    eapply m_step_try; [apply set_own_step | | done]. intros []. cbn beta iota.
    apply m_step_ret. intros w Hw. by destruct (InvokeResponse.new _).
  - destruct (InvokeRequest.get data) as [[k]|e] eqn:Eg; [|by apply m_step_ret].
    apply m_step_try_ok. cbv zeta. cbn [remove_key].
    eapply m_step_try; [apply on_gas_at; constructor | | done]. intros [].
    eapply m_step_try; [apply remove_own_step | | done]. intros []. cbn beta iota.
    apply m_step_ret. intros w Hw. by destruct (InvokeResponse.new _).
Qed.

(** The calls made by the account's code, at the level of [do_exec]. *)
Context (Hown : forall inv data fs st, inv_whoami inv = a ->
  m_step (Gat st) (de inv STORAGE_ACCOUNT_ID data fs) (storage_post st data)).
Context (Hans : forall inv to data w resp w',
  dq inv to data w = Done (Ok resp) w' -> query_answer a (own a (w_storage w)) to data resp).

Lemma query_step st inv to data :
  m_step (Gat st) (dq inv to data)
    (fun r w => Gat st w /\ forall resp, r = Ok resp -> query_answer a st to data resp).
Proof using Hdq Hans.
  destruct (Hdq inv to data) as [Hs Hr]. split; [done|]. intros w r w' Hw Hm Hb. split.
  - specialize (Hr w). specialize (Hs w). rewrite Hm in Hr, Hs.
    apply (at_store_equiv st (w_storage w)); [done | by apply evolves_log_max | done].
  - intros resp ->. eapply query_answer_proper; [symmetry; apply (at_own _ _ Hw) | by eapply Hans].
Qed.

Lemma outside_step st inv to data fs :
  outside to data fs -> I st ->
  m_step (Gat st) (de inv to data fs)
    (fun r w => match r with Ok _ => G w | Err _ => Gat st w end).
Proof using HI Hde Hdea.
  intros Ho Hi. split; [apply m_atomic_sound, Hdea|]. intros w r w' Hw Hm Hb.
  pose proof (Hdea inv to data fs w) as Ha. rewrite Hm in Ha. destruct Ha as [Hev Herr].
  destruct r as [resp|e].
  - eapply (Hde inv to data fs); [by right | by eapply at_store_good | done | done].
  - apply (at_store_equiv st (w_storage w)); [by apply Herr | by apply evolves_log_max | done].
Qed.

Lemma emit_event_at st inv name data :
  m_step (Gat st) (Invoker.emit_event inv name data) (fun _ => Gat st).
Proof.
  split; [apply emit_event_sound|]. intros w r w' Hw. unfold Invoker.emit_event, try_bind.
  unfold mret, M_ret, mbind, M_bind, on_storage. destruct (validate_event name data); [|by intros [= <- <-]].
  unfold ExecutionState.emit_event. destruct (_ <=? _); [by intros [= <- <-]|].
  intros [= <- <-] _. by apply (at_store_same st (w_storage w)).
Qed.

Lemma unique_id_at st inv : m_step (Gat st) (Invoker.unique_id inv) (fun _ => Gat st).
Proof. split; [apply unique_id_sound|]. intros w r w' Hw [= <- <-] _. by apply (at_store_same st (w_storage w)). Qed.

Lemma m_step_any {A} (m : M A) Q :
  m_sound m -> (forall st, I st -> m_step (Gat st) m Q) -> m_step G m Q.
Proof.
  intros Hs Hm. split; [done|]. intros w r w' Hw. apply (Hm (own a (w_storage w))).
  - apply Hw.
  - by apply good_at_store.
Qed.

(** Running a program of the account gives what [wp] says. *)
Lemma run_env_own {R} (p : EnvProg R) (Q : R -> Store -> Prop) inv st :
  inv_whoami inv = a -> wp a I p Q st ->
  m_step (Gat st) (Invoker.run_env dq de inv p) (fun r w => exists st', Gat st' w /\ Q r st').
Proof using HI Hdq Hde Hdea Hown Hans.
  intros Hwho. unfold Invoker.run_env. revert st.
  induction p as [r| |to data k IH|to data fs k IH|n d k IH|k IH]; intros st; cbn [wp run_prog].
  - intros HQ. apply m_step_ret. eauto.
  - intros _. split; [apply m_sound_panic | done].
  - intros [He Hr]. eapply m_step_bind; [apply query_step|]. intros [resp|e].
    + apply (m_step_fact (query_answer a st to data resp));
        [apply run_env_sound' | intros w [_ Hq]; by apply Hq |].
      intros Hq. eapply m_step_weaken; [apply IH, Hr, Hq | by intros w [] | done].
    + eapply m_step_weaken; [apply IH, He | by intros w [] | done].
  - case_decide as Hto.
    + intros [He Hr]. subst to. eapply m_step_bind; [by apply Hown|]. intros [resp|e].
      * apply (m_step_fact (storage_response data resp)); [apply run_env_sound' | by intros w [] |].
        intros Hresp. eapply m_step_weaken; [apply IH, Hr, Hresp | by intros w [] | done].
      * apply IH, He.
    + intros (Ho & Hi & He & Hr). eapply m_step_bind; [by apply outside_step|]. intros [resp|e].
      * apply m_step_any; [apply run_env_sound'|]. intros st' Hi'. by apply IH, Hr.
      * apply IH, He.
  - intros Hr. eapply m_step_bind; [apply emit_event_at|]. intros r. apply IH, Hr.
  - intros Hr. eapply m_step_bind; [apply unique_id_at|]. intros r. apply IH, Hr.
Qed.

(** *** Calls *)

(** The account's code keeps its invariant when it succeeds. *)
Definition keeps_invariant : Prop := forall env req st,
  whoami env = a -> I st ->
  wp a I (code_execute c env req) (fun r st' => is_ok r = true -> I st') st.

Context (Hcode : lookup_code account_codes cid = Ok (Some c)) (Hsafe : keeps_invariant).

Definition m_keeps_ok {A} (m : M (SdkResult A)) : Prop :=
  m_step G m (fun r w => is_ok r = true -> G w).

Lemma m_keeps_keeps_ok {A} (m : M (SdkResult A)) : m_keeps m -> m_keeps_ok m.
Proof. intros Hm. eapply m_step_weaken; [exact Hm | done | by intros r w]. Qed.

Lemma account_code_id_step x :
  m_step G (Invoker.account_code_id x) (fun r w => G w /\ (x = a -> r = Ok cid)).
Proof using HI.
  unfold Invoker.account_code_id. eapply m_step_try; [apply get_code_step | |].
  - intros o. apply m_step_ret. intros w [Hw Ho]. split; [done|]. intros Hx.
    specialize (Ho Hx). by simplify_eq.
  - intros e w [Hw Ho]. split; [done|]. intros Hx. by specialize (Ho Hx).
Qed.

Lemma exec_without_transfers_ok inv to data fs :
  (inv_whoami inv ≠ a \/ to ≠ STORAGE_ACCOUNT_ID /\
     (to = RUNTIME_ACCOUNT_ID -> function data ≠ FUNCTION_IDENTIFIER MigrateRequest)) ->
  m_keeps_ok (Invoker.exec_without_transfers account_codes dq de inv to data fs).
Proof using HI Hkappa Hrt Hst Hdq Hde Hdea Hown Hans Hcode Hsafe.
  intros Hal. unfold Invoker.exec_without_transfers.
  case_bool_decide as Hr; [apply m_keeps_keeps_ok, handle_system_exec_keeps; tauto|].
  case_bool_decide as Hs; [apply m_keeps_keeps_ok, handle_storage_exec_keeps; tauto|].
  eapply m_step_try; [apply account_code_id_step | | by intros e w []]. intros id. cbv zeta.
  apply (m_step_fact (to = a -> id = cid)).
  { apply with_code_sound. intros []; auto using run_env_sound', m_sound_ret. }
  { intros w [_ Hid] Hto. specialize (Hid Hto). by simplify_eq. }
  intros Hid. destruct (decide (to = a)) as [->|Hto].
  - rewrite (Hid eq_refl). unfold with_code, mbind, Result_bind. rewrite Hcode.
    apply (m_step_weaken _ G _ (fun r w => exists st', Gat st' w /\ (is_ok r = true -> I st'))).
    + apply m_step_any; [apply run_env_sound'|]. intros st Hi.
      apply run_env_own; [done|]. by apply Hsafe.
    + by intros w [].
    + intros r w (st' & Hw & Hi) Hr'. eapply at_store_good; [exact Hw | auto].
  - apply (m_step_weaken _ G _ (fun r w => is_ok r = true -> G w)); [|by intros w []|done].
    apply m_keeps_keeps_ok, with_code_keeps. intros [code|]; [by apply run_env_other | keeps].
Qed.

Lemma transfer_loop_ok inv to fs :
  (inv_whoami inv ≠ a \/
     Forall (fun f => asset_id f ≠ STORAGE_ACCOUNT_ID /\ asset_id f ≠ RUNTIME_ACCOUNT_ID) fs) ->
  m_keeps_ok (Invoker.transfer_loop account_codes dq de inv to fs).
Proof using HI Hkappa Hrt Hst Hdq Hde Hdea Hown Hans Hcode Hsafe.
  intros Hal. induction fs as [|f fs IH]; cbn [Invoker.transfer_loop]; [by apply m_step_ret|].
  rewrite Forall_cons in Hal. destruct (InvokeRequest.new _) as [req|e]; [|by apply m_step_ret].
  apply m_step_try_ok.
  eapply m_step_try; [apply exec_without_transfers_ok; tauto | | done]. intros r. cbn [is_ok].
  eapply m_step_weaken; [apply IH; tauto | intros w Hw; by apply Hw | done].
Qed.

Lemma handle_transfers_ok inv to data fs :
  allowed inv to data fs -> m_keeps_ok (Invoker.handle_transfers account_codes dq de inv to fs).
Proof using HI Hkappa Hrt Hst Hdq Hde Hdea Hown Hans Hcode Hsafe.
  intros Hal. unfold Invoker.handle_transfers. destruct fs as [|f fs]; [by apply m_step_ret|].
  case_match; [by apply m_step_ret|]. apply transfer_loop_ok. unfold allowed, outside in Hal. tauto.
Qed.

(** What a successful call went through. *)
Lemma do_exec_body_ok inv to data fs w resp w' :
  Invoker.do_exec_body account_codes dq de inv to data fs w = Done (Ok resp) w' ->
  exists w1 w2,
    w1 = mkWorld (ExecutionState.checkpoint (w_storage w)).2 (w_gas w) /\
    Invoker.handle_transfers account_codes dq de inv to fs w1 = Done (Ok tt) w2 /\
    Invoker.exec_without_transfers account_codes dq de inv to data fs w2 = Done (Ok resp) w'.
Proof.
  unfold Invoker.do_exec_body. destruct (MAX_CALL_DEPTH <=? _); [done|].
  unfold mbind, M_bind, on_storage. destruct (ExecutionState.checkpoint (w_storage w)) as [ck s0].
  intros Hr. exists (mkWorld s0 (w_gas w)).
  destruct (Invoker.handle_transfers _ _ _ _ _ _ _) as [[[]|e] w2| |]; try done.
  - exists w2. split_and!; try done.
    destruct (Invoker.exec_without_transfers _ _ _ _ _ _ _ _) as [[r|e] w3| |]; try done.
    cbn in Hr. by destruct (Invoker.restore_checkpoint _ _).
  - by destruct (Invoker.restore_checkpoint _ _).
Qed.

Lemma do_exec_body_keeps inv to data fs :
  allowed inv to data fs -> m_keeps (Invoker.do_exec_body account_codes dq de inv to data fs).
Proof using HI Hkappa Hrt Hst Hdq Hde Hdea Hown Hans Hcode Hsafe.
  intros Hal.
  assert (Hat : m_atomic (Invoker.do_exec_body account_codes dq de inv to data fs)).
  { apply do_exec_body_atomic; [apply Hdq|]. intros. apply m_atomic_sound, Hdea. }
  split; [by apply m_atomic_sound|]. intros w r w' Hw Hr Hb. specialize (Hat w). rewrite Hr in Hat.
  destruct Hat as [Hev Herr]. destruct r as [resp|e].
  - apply do_exec_body_ok in Hr as (w1 & w2 & -> & Ht & Hx).
    destruct (handle_transfers_ok inv to data fs Hal) as [_ Hht].
    destruct (exec_without_transfers_ok inv to data fs) as [Hxs Hxk].
    { destruct Hal as [?|(? & ? & _)]; [by left | by right]. }
    eapply Hxk; [|exact Hx|done|done]. eapply Hht; [|exact Ht| |done].
    + by apply (good_equiv (w_storage w)).
    + eapply evolves_bounded; [by eapply sound_evolves | done].
  - apply (good_equiv (w_storage w)); [by apply Herr | by apply evolves_log_max | done].
Qed.

(** A storage call of the account itself. *)
Lemma do_exec_body_own inv data fs st :
  inv_whoami inv = a ->
  m_step (Gat st) (Invoker.do_exec_body account_codes dq de inv STORAGE_ACCOUNT_ID data fs)
    (storage_post st data).
Proof using Hdq Hdea.
  intros Hwho.
  assert (Hat : m_atomic (Invoker.do_exec_body account_codes dq de inv STORAGE_ACCOUNT_ID data fs)).
  { apply do_exec_body_atomic; [apply Hdq|]. intros. apply m_atomic_sound, Hdea. }
  split; [by apply m_atomic_sound|]. intros w r w' Hw Hr Hb. specialize (Hat w). rewrite Hr in Hat.
  destruct Hat as [Hev Herr]. destruct r as [resp|e].
  - apply do_exec_body_ok in Hr as (w1 & w2 & -> & Ht & Hx). destruct fs as [|f fs]; [|done].
    injection Ht as <-. destruct (handle_storage_exec_own inv st data Hwho) as [_ Hs].
    eapply Hs; [|exact Hx|done|done].
    apply (at_store_equiv st (w_storage w)); [apply checkpoint_equiv | done | exact Hw].
  - apply (at_store_equiv st (w_storage w)); [by apply Herr | by apply evolves_log_max | done].
Qed.

End Handlers.

(** ** The tied calls *)

Context (Hcode : lookup_code account_codes cid = Ok (Some c)) (Hsafe : keeps_invariant).

Lemma do_query_answer fuel inv to data w resp w' :
  Invoker.do_query account_codes fuel inv to data w = Done (Ok resp) w' ->
  query_answer a (own a (w_storage w)) to data resp.
Proof using account_codes a.
  clear Hrt Hst.
  destruct fuel as [|fuel]; [done|]. cbn [Invoker.do_query]. unfold Invoker.do_query_body.
  intros Hr -> r Hreq Ha. rewrite bool_decide_false, bool_decide_true in Hr by done.
  unfold Invoker.handle_storage_query in Hr. destruct (_ =? _) eqn:Ef; [|done].
  rewrite Hreq in Hr. unfold try_bind, mbind, M_bind, mret, M_ret, on_storage, on_gas in Hr.
  rewrite Ha in Hr. pose proof (get_view (w_storage w) (account_storage_key a (get_key r))) as Hv.
  destruct (ExecutionState.get _ _) as [g s1]. cbn [fst] in Hv. unfold own.
  destruct (view _ _) as [v|e]; cbn in Hv; subst g; [|done]. exists v. split; [done|].
  cbn [w_gas w_storage] in Hr. destruct (GasCounter.consume_get_gas _ _ _) as [[] ?]; [|done].
  by destruct (InvokeResponse.new _); simplify_eq.
Qed.

Lemma do_exec_guarded_both fuel :
  (forall inv to data fs, allowed inv to data fs ->
     m_keeps (Invoker.do_exec account_codes fuel inv to data fs)) /\
  (forall inv data fs st, inv_whoami inv = a ->
     m_step (Gat st) (Invoker.do_exec account_codes fuel inv STORAGE_ACCOUNT_ID data fs)
       (storage_post st data)).
Proof using HI Hkappa Hrt Hst Hcode Hsafe.
  induction fuel as [|fuel [IH1 IH2]]; [by split; intros; split|].
  assert (Hdq : forall inv to data, m_sound (Invoker.do_query account_codes fuel inv to data) /\
                  m_readonly (Invoker.do_query account_codes fuel inv to data)).
  { intros. split; [apply do_query_sound | apply do_query_readonly]. }
  pose proof (do_exec_atomic account_codes fuel) as Hat.
  split; intros; cbn [Invoker.do_exec].
  - apply do_exec_body_keeps; try done. intros ??????. apply do_query_answer.
  - by apply do_exec_body_own.
Qed.

Lemma do_exec_guarded fuel inv to data fs :
  allowed inv to data fs -> m_keeps (Invoker.do_exec account_codes fuel inv to data fs).
Proof using HI Hkappa Hrt Hst Hcode Hsafe. apply do_exec_guarded_both. Qed.

(** Code that runs as the account itself and keeps its invariant. *)
Lemma run_own fuel {R} inv (p : EnvProg R) :
  inv_whoami inv = a -> (forall st, I st -> wp a I p (fun _ st' => I st') st) ->
  m_keeps (Invoker.run account_codes fuel inv p).
Proof using HI Hkappa Hrt Hst Hcode Hsafe.
  intros Hwho Hp. destruct (do_exec_guarded_both fuel) as [H1 H2].
  assert (Hdq : forall inv to data, m_sound (Invoker.do_query account_codes fuel inv to data) /\
                  m_readonly (Invoker.do_query account_codes fuel inv to data)).
  { intros. split; [apply do_query_sound | apply do_query_readonly]. }
  pose proof (do_exec_atomic account_codes fuel) as Hat. unfold Invoker.run.
  eapply m_step_weaken; [apply m_step_any with (Q := fun _ w => exists st', Gat st' w /\ I st') | done |].
  - apply run_env_sound; [apply Hdq|]. intros. apply m_atomic_sound, Hat.
  - intros st Hi. apply run_env_own; try done; [|by apply Hp]. intros ??????. apply do_query_answer.
  - intros r w (st' & Hw & Hi). by eapply at_store_good.
Qed.

Lemma run_guarded fuel {R} inv (p : EnvProg R) :
  inv_whoami inv ≠ a -> m_keeps (Invoker.run account_codes fuel inv p).
Proof using HI Hkappa Hrt Hst Hcode Hsafe.
  intros Hwho. apply run_env_other; [| |done].
  - intros. split; [apply do_query_sound | apply do_query_readonly].
  - apply do_exec_guarded.
Qed.

Lemma register_guarded fuel inv x id msg :
  m_keeps (Invoker.register_account_at_id account_codes (Invoker.do_query account_codes fuel)
             (Invoker.do_exec account_codes fuel) inv x id msg).
Proof using HI Hkappa Hrt Hst Hcode Hsafe.
  apply register_account_at_id_keeps.
  - intros. split; [apply do_query_sound | apply do_query_readonly].
  - apply do_exec_guarded.
  - apply do_exec_atomic.
Qed.


End Guard.
