(* ===== verification/CollectionFacts.v ===== *)
(** * Weakest preconditions of the collections

    What the operations of [Map] and [Item] do to the storage of the account
    that runs them, in the logic of [Isolation]: reads are faithful, writes
    change one key, and every error leaves the storage as it was. *)

From S2P Require Import Prelude Core Collections Runtime Invoker InvokerFacts Isolation.

Open Scope evolve_scope.

(** The decoded value at a key of a store. *)
Definition read {V} `{Borsh V} (st : Store) (k : bytes) : SdkResult (option V) :=
  match st k with
  | Err e => Err e
  | Ok None => Ok None
  | Ok (Some b) => match decode_value b with Ok v => Ok (Some v) | Err e => Err e end
  end.

Lemma read_proper {V} `{Borsh V} st st' k : store_eq st st' -> read (V := V) st k = read st' k.
Proof. intros Hs. unfold read. by rewrite (Hs k). Qed.

Lemma read_upd {V} `{Borsh V} st k (v : V) b :
  encode_value v = Ok b -> read (upd st k (Some b)) k = Ok (Some v).
Proof.
  unfold read, upd, encode_value, decode_value. rewrite decide_True by done.
  destruct (to_vec v) eqn:E; cbn; intros; simplify_eq. by rewrite (from_slice_to_vec _ _ E).
Qed.

Lemma read_upd_ne {V} `{Borsh V} st k k' v : k' ≠ k -> read (V := V) (upd st k v) k' = read st k'.
Proof. intros Hk. unfold read, upd. by rewrite decide_False. Qed.

Lemma read_upd_None {V} `{Borsh V} st k : read (V := V) (upd st k None) k = Ok None.
Proof. unfold read, upd. by rewrite decide_True. Qed.

Lemma encode_value_inj {A} `{Borsh A} (x y : A) b :
  encode_value x = Ok b -> encode_value y = Ok b -> x = y.
Proof.
  unfold encode_value. destruct (to_vec x) eqn:Ex, (to_vec y) eqn:Ey; cbn; intros; simplify_eq.
  apply from_slice_to_vec in Ex, Ey. congruence.
Qed.

Section Wp.
Context `{RuntimeDeps} (a : AccountId) (I : Store -> Prop).

Section Map.
Context {K V : Type} `{Borsh K} `{Borsh V} (m : Map K V).

Lemma make_key_inj k1 k2 b : Map.make_key m k1 = Ok b -> Map.make_key m k2 = Ok b -> k1 = k2.
Proof.
  unfold Map.make_key. destruct (encode_value k1) eqn:E1, (encode_value k2) eqn:E2; intros; simplify_eq.
  by eapply encode_value_inj.
Qed.

Lemma wp_may_get key env Q st :
  whoami env = a ->
  (forall e, Q (Err e) st) ->
  (forall k o, Map.make_key m key = Ok k -> read st k = Ok o -> Q (Ok o) st) ->
  wp a I (lift_query (Map.may_get m key env)) Q st.
Proof.
  intros Hwho He Hok. unfold Map.may_get. destruct (Map.make_key m key) as [k|e] eqn:Ek; [|apply He].
  cbn. destruct (InvokeRequest.new _) as [req|e] eqn:Ereq; [|apply He]. cbn. split; [apply He|].
  intros resp Hans. destruct (InvokeRequest_get_new _ _ Ereq) as [Hget _].
  destruct (Hans eq_refl _ Hget Hwho) as (v & Hv & Hresp). cbn in Hv.
  rewrite (InvokeResponse_get_new _ _ Hresp). cbn.
  specialize (Hok k). unfold read in Hok. rewrite Hv in Hok.
  destruct v as [b|]; cbn; [|by apply Hok]. unfold Message.get. cbn.
  destruct (decode_value b) as [x|e]; cbn; [by apply Hok | apply He].
Qed.

Lemma wp_set key v Q st :
  (forall e, Q (Err e) st) ->
  (forall k b, Map.make_key m key = Ok k -> encode_value v = Ok b -> Q (Ok tt) (upd st k (Some b))) ->
  wp a I (Map.set m key v) Q st.
Proof.
  intros He Hok. unfold Map.set. destruct (Map.make_key m key) as [k|e] eqn:Ek; [|apply He]. cbn.
  unfold Message.new. destruct (encode_value v) as [b|e] eqn:Ev; [|apply He]. cbn.
  destruct (InvokeRequest.new _) as [req|e] eqn:Ereq; [|apply He]. cbn. rewrite decide_True by done.
  split; [apply He|]. intros resp _. destruct (InvokeRequest_get_new _ _ Ereq) as [Hget Hfn].
  unfold storage_effect. rewrite Hfn, Z.eqb_refl, Hget. cbn. by apply Hok.
Qed.

Lemma wp_remove key Q st :
  (forall e, Q (Err e) st) ->
  (forall k, Map.make_key m key = Ok k -> Q (Ok tt) (upd st k None)) ->
  wp a I (Map.remove m key) Q st.
Proof.
  intros He Hok. unfold Map.remove. destruct (Map.make_key m key) as [k|e] eqn:Ek; [|apply He]. cbn.
  destruct (InvokeRequest.new _) as [req|e] eqn:Ereq; [|apply He]. cbn. rewrite decide_True by done.
  split; [apply He|]. intros resp _. destruct (InvokeRequest_get_new _ _ Ereq) as [Hget Hfn].
  unfold storage_effect. rewrite Hfn, Hget. cbn. by apply Hok.
Qed.

Lemma wp_try {R S} (p : EnvProg (SdkResult R)) (f : R -> EnvProg (SdkResult S)) Q st :
  wp a I p (fun r st => match r with Ok x => wp a I (f x) Q st | Err e => Q (Err e) st end) st ->
  wp a I (try_bind p f) Q st.
Proof. intros Hp. apply wp_bind. eapply wp_mono; [|exact Hp]. by intros [x|e] st'. Qed.

Lemma wp_lift_bind {R S} (p : QueryProg R) (f : R -> QueryProg S) Q st :
  wp a I (lift_query p) (fun r st => wp a I (lift_query (f r)) Q st) st ->
  wp a I (lift_query (p ≫= f)) Q st.
Proof.
  revert st. induction p as [r| |to data k IH]; intros st; cbn; try done.
  intros [He Hr]. split; intros; apply IH; auto.
Qed.

Lemma wp_lift_try {R S} (p : QueryProg (SdkResult R)) (f : R -> QueryProg (SdkResult S)) Q st :
  wp a I (lift_query p)
    (fun r st => match r with Ok x => wp a I (lift_query (f x)) Q st | Err e => Q (Err e) st end) st ->
  wp a I (lift_query (try_bind p f)) Q st.
Proof. intros Hp. apply wp_lift_bind. eapply wp_mono; [|exact Hp]. by intros [x|e] st'. Qed.

Lemma wp_get key env Q st :
  whoami env = a ->
  (forall e, Q (Err e) st) ->
  (forall k x, Map.make_key m key = Ok k -> read st k = Ok (Some x) -> Q (Ok x) st) ->
  wp a I (lift_query (Map.get m key env)) Q st.
Proof.
  intros Hwho He Hok. unfold Map.get. apply wp_lift_try, wp_may_get; [done | done |].
  intros k [x|] Hk Ho; cbn; [by eapply Hok | apply He].
Qed.

Lemma wp_update key f env Q st :
  whoami env = a ->
  (forall e, Q (Err e) st) ->
  (forall k o x b, Map.make_key m key = Ok k -> read st k = Ok o -> f o = Ok x ->
     encode_value x = Ok b -> Q (Ok x) (upd st k (Some b))) ->
  wp a I (Map.update m key f env) Q st.
Proof.
  intros Hwho He Hok. unfold Map.update. apply wp_try, wp_may_get; [done | done |].
  intros k o Hk Ho. destruct (f o) as [x|e] eqn:Ef; [|apply He]. cbn.
  apply wp_try, wp_set; [done|]. intros k' b Hk' Hb. assert (k' = k) as -> by congruence. by apply (Hok _ o).
Qed.

End Map.
End Wp.
