(* ===== verification/Local.v ===== *)
(** * Local execution of account programs

    [exec_local a p st] runs a program of account [a] that only uses its own
    storage on a finite map [st]. Nothing fails for want of gas or overlay
    space, so that it says what a program computes, not only what it computes
    when it succeeds; [run_local] shows that the runtime agrees. *)

From S2P Require Import Prelude Core Gas Collections ExecState ExecStateFacts Runtime Invoker InvokerFacts CallFacts.
From S2P Require Import Isolation CollectionFacts.

Open Scope evolve_scope.

(** Borsh encodes every storage request and response within the size limits. *)
Class StorageTotal `{SystemCodec} : Prop := {
  get_request_encodes : forall a k, zlen k <= MAX_KEY_SIZE -> is_Some (to_vec (mkStorageGetRequest a k));
  get_response_encodes : forall v, (forall m, v = Some m -> Message.len m <= MAX_VALUE_SIZE) ->
                         is_Some (to_vec (mkStorageGetResponse v));
  set_request_encodes : forall k m, zlen k <= MAX_KEY_SIZE -> Message.len m <= MAX_VALUE_SIZE ->
                        is_Some (to_vec (mkStorageSetRequest k m));
  set_response_encodes : is_Some (to_vec mkStorageSetResponse);
  remove_request_encodes : forall k, zlen k <= MAX_KEY_SIZE -> is_Some (to_vec (mkStorageRemoveRequest k));
  remove_response_encodes : is_Some (to_vec mkStorageRemoveResponse)
}.

(** It encodes a [u64] in eight bytes and the unit in none. *)
Class KeysTotal `{CollectionCodec} : Prop := {
  u64_encodes : forall n, is_u64 n -> exists b, to_vec (A := U64) n = Some b /\ zlen b = 8;
  unit_encodes : to_vec tt = Some []
}.

Create HintDb local.

Section Local.
Context `{RuntimeDeps} (a : AccountId).

(** A read of the account's own storage; [None] for a read of another's. *)
Definition local_query (st : gmap bytes bytes) (data : InvokeRequest)
    : option (SdkResult InvokeResponse) :=
  if function data =? FUNCTION_IDENTIFIER StorageGetRequest then
    match InvokeRequest.get (A := StorageGetRequest) data with
    | Ok r => if decide (get_account_id r = a)
              then Some (InvokeResponse.new (mkStorageGetResponse (Message.from_bytes <$> st !! get_key r)))
              else None
    | Err e => Some (Err e)
    end
  else Some (Err ERR_UNKNOWN_FUNCTION).

(** A write checked against the size limits, undone if its response cannot be
    encoded. *)
Definition local_write (st : gmap bytes bytes) (key : bytes) (value : option Message)
    (resp : SdkResult InvokeResponse) : SdkResult InvokeResponse * gmap bytes bytes :=
  if MAX_KEY_SIZE <? zlen (account_storage_key a key) then (Err ERR_KEY_TOO_LARGE, st)
  else if MAX_VALUE_SIZE <? from_option Message.len 0 value then (Err ERR_VALUE_TOO_LARGE, st)
  else match resp with
       | Ok _ => (resp, match value with
                        | Some (mkMessage (OwnedBytes b)) => <[key := b]> st
                        | None => delete key st
                        end)
       | Err _ => (resp, st)
       end.

Definition local_exec (st : gmap bytes bytes) (data : InvokeRequest)
    : SdkResult InvokeResponse * gmap bytes bytes :=
  if function data =? FUNCTION_IDENTIFIER StorageSetRequest then
    match InvokeRequest.get (A := StorageSetRequest) data with
    | Ok r => local_write st (set_key r) (Some (set_value r)) (InvokeResponse.new mkStorageSetResponse)
    | Err e => (Err e, st)
    end
  else if function data =? FUNCTION_IDENTIFIER StorageRemoveRequest then
    match InvokeRequest.get (A := StorageRemoveRequest) data with
    | Ok r => local_write st (remove_key r) None (InvokeResponse.new mkStorageRemoveResponse)
    | Err e => (Err e, st)
    end
  else (Err ERR_UNKNOWN_FUNCTION, st).

Fixpoint exec_local {R} (p : EnvProg R) (st : gmap bytes bytes) : option (R * gmap bytes bytes) :=
  match p with
  | PRet r => Some (r, st)
  | PDoQuery to data k =>
      if decide (to = STORAGE_ACCOUNT_ID)
      then resp ← local_query st data; exec_local (k resp) st
      else None
  | PDoExec to data [] k =>
      if decide (to = STORAGE_ACCOUNT_ID)
      then let '(resp, st) := local_exec st data in exec_local (k resp) st
      else None
  | _ => None
  end.

(** The number of storage requests that may write. *)
Fixpoint local_writes {R} (p : EnvProg R) (st : gmap bytes bytes) : Z :=
  match p with
  | PDoQuery to data k => from_option (fun resp => local_writes (k resp) st) 0 (local_query st data)
  | PDoExec to data [] k => let '(resp, st) := local_exec st data in 1 + local_writes (k resp) st
  | _ => 0
  end.

(** ** Sequencing *)

Lemma exec_local_bind {R S} (p : EnvProg R) (f : R -> EnvProg S) st :
  exec_local (p ≫= f) st = '(r, st') ← exec_local p st; exec_local (f r) st'.
Proof.
  revert st. induction p as [r| |to data k IH|to data fs k IH|name data k IH|k IH]; intros st;
    try done; cbn.
  - destruct (decide _); [|done]. destruct (local_query st data) as [resp|]; [|done]. apply IH.
  - destruct fs; [|done]. destruct (decide _); [|done]. destruct (local_exec st data). apply IH.
Qed.

Lemma exec_local_try {R S} (p : EnvProg (SdkResult R)) (f : R -> EnvProg (SdkResult S)) st :
  exec_local (try_bind p f) st =
  '(r, st') ← exec_local p st;
  match r with Ok x => exec_local (f x) st' | Err e => Some (Err e, st') end.
Proof.
  unfold try_bind. rewrite exec_local_bind. destruct (exec_local p st) as [[[x|e] st']|]; done.
Qed.

Lemma exec_local_lift_bind {R S} (p : QueryProg R) (f : R -> QueryProg S) st :
  exec_local (lift_query (p ≫= f)) st =
  '(r, st') ← exec_local (lift_query p) st; exec_local (lift_query (f r)) st'.
Proof.
  induction p as [r| |to data k IH]; try done; cbn.
  destruct (decide _); [|done]. destruct (local_query st data) as [resp|]; [|done]. apply IH.
Qed.

Lemma exec_local_lift_try {R S} (p : QueryProg (SdkResult R)) (f : R -> QueryProg (SdkResult S)) st :
  exec_local (lift_query (try_bind p f)) st =
  '(r, st') ← exec_local (lift_query p) st;
  match r with Ok x => exec_local (lift_query (f x)) st' | Err e => Some (Err e, st') end.
Proof.
  unfold try_bind. rewrite exec_local_lift_bind.
  destruct (exec_local (lift_query p) st) as [[[x|e] st']|]; done.
Qed.

(** ** Typed cells *)

Definition values_fit (st : gmap bytes bytes) : Prop :=
  map_Forall (fun _ v => zlen v <= MAX_VALUE_SIZE) st.

Definition short (k : bytes) : Prop := zlen (account_storage_key a k) <= MAX_KEY_SIZE.

Definition fits {V} `{Borsh V} (v : V) : Prop :=
  exists b, encode_value v = Ok b /\ zlen b <= MAX_VALUE_SIZE.

Section Cells.
Context `{!StorageTotal}.
Context {K V : Type} `{Borsh K} `{Borsh V}.

Definition key_ok (m : Map K V) (key : K) : Prop := exists k, Map.make_key m key = Ok k /\ short k.

(** The cell of [key] holds [o]. *)
Definition holds (m : Map K V) (key : K) (st : gmap bytes bytes) (o : option V) : Prop :=
  exists k, Map.make_key m key = Ok k /\ short k /\
    match st !! k with
    | None => o = None
    | Some b => exists v, decode_value b = Ok v /\ o = Some v
    end.

Definition put (m : Map K V) (key : K) (v : V) (st : gmap bytes bytes) : gmap bytes bytes :=
  match Map.make_key m key, encode_value v with
  | Ok k, Ok b => <[k := b]> st
  | _, _ => st
  end.

Definition erase (m : Map K V) (key : K) (st : gmap bytes bytes) : gmap bytes bytes :=
  match Map.make_key m key with Ok k => delete k st | Err _ => st end.

Lemma holds_key_ok m key st o : holds m key st o -> key_ok m key.
Proof. intros (k & Hk & Hs & _). by exists k. Qed.

Lemma short_key k : short k -> zlen k <= MAX_KEY_SIZE.
Proof.
  unfold short, account_storage_key, zlen. rewrite !length_app. lia.
Qed.

Lemma exec_may_get m key env st o :
  whoami env = a -> values_fit st -> holds m key st o ->
  exec_local (lift_query (Map.may_get m key env)) st = Some (Ok o, st).
Proof.
  intros Hwho Hfit (k & Hk & Hs & Ho). unfold Map.may_get. rewrite Hk, Hwho. cbn.
  destruct (get_request_encodes a k (short_key k Hs)) as [b Hb].
  destruct (InvokeRequest.new (mkStorageGetRequest a k)) as [req|] eqn:Ereq;
    [|unfold InvokeRequest.new, Message.new, encode_value in Ereq; by rewrite Hb in Ereq].
  apply InvokeRequest_get_new in Ereq as [Hget Hfn]. cbn.
  unfold local_query. rewrite Hfn, Z.eqb_refl, Hget. cbn. rewrite !decide_True by done. cbn.
  destruct (get_response_encodes (Message.from_bytes <$> st !! k)) as [rb Hrb].
  { intros mv Hmv. destruct (st !! k) as [v|] eqn:Ev; simplify_eq/=. by apply (Hfit k). }
  destruct (InvokeResponse.new _) as [resp|] eqn:Eresp;
    [|unfold InvokeResponse.new, Message.new, encode_value in Eresp; by rewrite Hrb in Eresp].
  apply InvokeResponse_get_new in Eresp. cbn. rewrite Eresp. cbn.
  destruct (st !! k) as [v|]; [destruct Ho as (x & Hx & ->) | by subst]. cbn.
  unfold Message.get. cbn. by rewrite Hx.
Qed.

Lemma exec_set m key v st :
  key_ok m key -> fits v -> exec_local (Map.set m key v) st = Some (Ok tt, put m key v st).
Proof.
  intros (k & Hk & Hs) (b & Hb & Hl). unfold Map.set, put, Message.new. rewrite Hk, Hb. cbn.
  destruct (set_request_encodes k (mkMessage (OwnedBytes b)) (short_key k Hs) Hl) as [rb Hrb].
  destruct (InvokeRequest.new _) as [req|] eqn:Ereq;
    [|unfold InvokeRequest.new, Message.new, encode_value in Ereq; by rewrite Hrb in Ereq].
  apply InvokeRequest_get_new in Ereq as [Hget Hfn]. cbn.
  unfold local_exec. rewrite Hfn, Z.eqb_refl, Hget. unfold local_write. cbn [set_key set_value from_option].
  unfold short in Hs. rewrite (proj2 (Z.ltb_ge _ _) Hs). cbn [Message.len inner].
  change (Message.len (mkMessage (OwnedBytes b))) with (zlen b). rewrite (proj2 (Z.ltb_ge _ _) Hl).
  destruct set_response_encodes as [sb Hsb].
  destruct (InvokeResponse.new mkStorageSetResponse) as [resp|] eqn:Eresp;
    [done|unfold InvokeResponse.new, Message.new, encode_value in Eresp; by rewrite Hsb in Eresp].
Qed.

Lemma exec_remove m key st :
  key_ok m key -> exec_local (Map.remove m key) st = Some (Ok tt, erase m key st).
Proof.
  intros (k & Hk & Hs). unfold Map.remove, erase. rewrite Hk. cbn.
  destruct (remove_request_encodes k (short_key k Hs)) as [rb Hrb].
  destruct (InvokeRequest.new _) as [req|] eqn:Ereq;
    [|unfold InvokeRequest.new, Message.new, encode_value in Ereq; by rewrite Hrb in Ereq].
  apply InvokeRequest_get_new in Ereq as [Hget Hfn]. cbn.
  unfold local_exec. rewrite Hfn, Hget. cbn [Z.eqb]. unfold local_write. cbn [remove_key from_option].
  unfold short in Hs. rewrite (proj2 (Z.ltb_ge _ _) Hs).
  destruct remove_response_encodes as [sb Hsb].
  destruct (InvokeResponse.new mkStorageRemoveResponse) as [resp|] eqn:Eresp;
    [done|unfold InvokeResponse.new, Message.new, encode_value in Eresp; by rewrite Hsb in Eresp].
Qed.

Lemma holds_put m key v st : key_ok m key -> fits v -> holds m key (put m key v st) (Some v).
Proof.
  intros (k & Hk & Hs) (b & Hb & _). exists k. split; [done|]. split; [done|].
  unfold put. rewrite Hk, Hb, lookup_insert_eq. exists v. split; [|done].
  unfold encode_value in Hb. unfold decode_value. destruct (to_vec v) eqn:E; simplify_eq/=.
  by rewrite (from_slice_to_vec _ _ E).
Qed.

Lemma holds_erase m key st : key_ok m key -> holds m key (erase m key st) None.
Proof.
  intros (k & Hk & Hs). exists k. split; [done|]. split; [done|]. unfold erase. by rewrite Hk, lookup_delete_eq.
Qed.

Lemma values_fit_put m key v st : fits v -> values_fit st -> values_fit (put m key v st).
Proof.
  intros (b & Hb & Hl) Hst. unfold put. rewrite Hb. case_match; [|done]. by apply map_Forall_insert_2.
Qed.

Lemma values_fit_erase m key st : values_fit st -> values_fit (erase m key st).
Proof. intros Hst. unfold erase. case_match; [|done]. by apply map_Forall_delete. Qed.

End Cells.

(** Two cells with different storage keys. *)
Definition apart {K V K' V'} `{Borsh K, Borsh K'} (m : Map K V) (key : K)
    (m' : Map K' V') (key' : K') : Prop :=
  map_prefix m ≠ map_prefix m' \/
  forall k k', Map.make_key m key = Ok k -> Map.make_key m' key' = Ok k' -> k ≠ k'.

Section Frames.
Context {K V K' V' : Type} `{Borsh K} `{Borsh V} `{Borsh K'} `{Borsh V'}.

Lemma apart_keys (m : Map K V) (m' : Map K' V') key key' k k' :
  apart m key m' key' -> Map.make_key m key = Ok k -> Map.make_key m' key' = Ok k' -> k ≠ k'.
Proof.
  intros [Hp|Hk]; [|by apply Hk]. unfold Map.make_key. intros. repeat case_match; simplify_eq.
  by intros [= ? _].
Qed.

Lemma holds_put_apart (m : Map K V) key v (m' : Map K' V') key' st o :
  apart m key m' key' -> holds m' key' st o -> holds m' key' (put m key v st) o.
Proof.
  intros Ha (k' & Hk' & Hs & Ho). exists k'. split; [done|]. split; [done|]. unfold put.
  destruct (Map.make_key m key) as [k|] eqn:Hk; [|done]. destruct (encode_value v); [|done].
  rewrite lookup_insert_ne; [done|]. by eapply apart_keys.
Qed.

Lemma holds_erase_apart (m : Map K V) key (m' : Map K' V') key' st o :
  apart m key m' key' -> holds m' key' st o -> holds m' key' (erase m key st) o.
Proof.
  intros Ha (k' & Hk' & Hs & Ho). exists k'. split; [done|]. split; [done|]. unfold erase.
  destruct (Map.make_key m key) as [k|] eqn:Hk; [|done]. rewrite lookup_delete_ne; [done|].
  by eapply apart_keys.
Qed.

Lemma apart_prefix (m : Map K V) key (m' : Map K' V') key' :
  map_prefix m ≠ map_prefix m' -> apart m key m' key'.
Proof. by left. Qed.

Lemma apart_key (m : Map K V) key key' : key ≠ key' -> apart m key m key'.
Proof. intros Hne. right. intros k k' Hk Hk' ->. by eapply Hne, make_key_inj. Qed.

End Frames.

(** ** Cells outside the prefixes of a collection *)

Definition same_outside (ps : list byte) (st st' : gmap bytes bytes) : Prop :=
  forall p k, p ∉ ps -> st' !! (p :: k) = st !! (p :: k).

#[export] Instance same_outside_preorder ps : PreOrder (same_outside ps).
Proof. split; [by intros st p k | intros s1 s2 s3 H12 H23 p k Hp; by rewrite H23, H12]. Qed.

Lemma same_outside_mono ps ps' st st' : ps ⊆ ps' -> same_outside ps st st' -> same_outside ps' st st'.
Proof. intros Hsub Hs p k Hp. apply Hs. intros Hin. by apply Hp, Hsub. Qed.

Section Outside.
Context {K V : Type} `{Borsh K} `{Borsh V}.

Lemma make_key_prefix (m : Map K V) key k : Map.make_key m key = Ok k -> exists b, k = map_prefix m :: b.
Proof. unfold Map.make_key. case_match; [|done]. intros. simplify_eq. by eexists. Qed.

Lemma holds_same_outside ps (m : Map K V) key st st' o :
  same_outside ps st st' -> map_prefix m ∉ ps -> holds m key st o -> holds m key st' o.
Proof.
  intros Hs Hp (k & Hk & Hsh & Ho). exists k. split; [done|]. split; [done|].
  destruct (make_key_prefix _ _ _ Hk) as [b ->]. by rewrite (Hs _ _ Hp).
Qed.

Lemma same_outside_put ps (m : Map K V) key v st : map_prefix m ∈ ps -> same_outside ps st (put m key v st).
Proof.
  intros Hin p b Hp. unfold put. destruct (Map.make_key m key) as [k|] eqn:Hk; [|done].
  destruct (encode_value v); [|done]. destruct (make_key_prefix _ _ _ Hk) as [b' ->].
  rewrite lookup_insert_ne; [done|]. intros [= <- _]. done.
Qed.

Lemma same_outside_erase ps (m : Map K V) key st : map_prefix m ∈ ps -> same_outside ps st (erase m key st).
Proof.
  intros Hin p b Hp. unfold erase. destruct (Map.make_key m key) as [k|] eqn:Hk; [|done].
  destruct (make_key_prefix _ _ _ Hk) as [b' ->]. rewrite lookup_delete_ne; [done|]. intros [= <- _]. done.
Qed.

End Outside.

Section Keys.
Context `{CollectionCodec} `{!KeysTotal} {V : Type} `{Borsh V}.

Lemma key_ok_u64 (m : Map U64 V) n : is_u64 n -> key_ok m n.
Proof.
  intros (b & Hb & Hl)%u64_encodes. exists (map_prefix m :: b). unfold Map.make_key, encode_value.
  rewrite Hb. split; [done|]. unfold short, account_storage_key.
  rewrite !zlen_app, !zlen_cons, Hl. unfold zlen. rewrite AccountId_as_bytes_length. done.
Qed.

Lemma key_ok_unit (m : Map unit V) : key_ok m tt.
Proof.
  exists [map_prefix m]. unfold Map.make_key, encode_value. rewrite unit_encodes. split; [done|].
  unfold short, account_storage_key. rewrite !zlen_app. unfold zlen. rewrite AccountId_as_bytes_length. done.
Qed.

Lemma fits_u64 (n : U64) : is_u64 n -> fits n.
Proof.
  intros (b & Hb & Hl)%u64_encodes. exists b. unfold encode_value. rewrite Hb. split; [done|].
  rewrite Hl. done.
Qed.

End Keys.

End Local.

#[export] Hint Resolve key_ok_u64 key_ok_unit fits_u64 holds_put holds_erase values_fit_put
  values_fit_erase holds_put_apart holds_erase_apart : local.

(** Cells written one after the other, under the prefixes of a collection. *)
Ltac outside_steps :=
  repeat match goal with
  | |- same_outside _ _ (put ?m _ _ _) => etrans; [|apply (same_outside_put _ m)]
  | |- same_outside _ _ (erase ?m _ _) => etrans; [|apply (same_outside_erase _ m)]
  | |- same_outside _ ?st ?st => reflexivity
  end.

(** ** Local execution agrees with the runtime

    What [exec_local] computes for a program of one account is what the
    runtime does, when gas is not metered and the overlay has room for the
    writes of the program: [run_local]. *)

Section Adequacy.
Context `{RuntimeDeps} (account_codes : AccountsCodeStorage) (a : AccountId).

(** The storage of [a] is [st], with room for [n] more entries. *)
Record local_world (st : gmap bytes bytes) (n : Z) (w : World) : Prop := {
  lw_gas : w_gas w = Infinite;
  lw_own : forall k, own a (w_storage w) k = Ok (st !! k);
  lw_room : ExecutionState.overlay_len (w_storage w) + n <= MAX_OVERLAY_ENTRIES }.

Lemma local_world_equiv st n w w' :
  w_storage w' ≈ w_storage w -> w_gas w' = Infinite -> local_world st n w -> local_world st n w'.
Proof.
  intros Hs Hg [_ Ho Hr]. split; [done | | unfold ExecutionState.overlay_len in *; by st_rewrite Hs].
  intros k. unfold own in *. by rewrite Hs.
Qed.

Lemma local_world_weaken st n n' w : n' <= n -> local_world st n w -> local_world st n' w.
Proof. intros Hn [Hg Ho Hr]. split; [done | done | lia]. Qed.

Lemma local_world_wrote st n w s' k v :
  wrote (account_storage_key a k) (Message.from_bytes <$> v) (w_storage w) s' ->
  local_world st (n + 1) w -> local_world (partial_alter (fun _ => v) k st) n (mkWorld s' (w_gas w)).
Proof.
  intros [Hb Ho _ _] [Hg Hown Hr]. split; [done | |]; cbn [w_storage w_gas].
  - intros k'. specialize (Hown k'). unfold own, view in *. rewrite Hb, Ho. destruct (decide (k = k')) as [<-|Hne].
    + rewrite lookup_insert_eq, lookup_partial_alter_eq. by destruct v.
    + rewrite lookup_insert_ne, lookup_partial_alter_ne by (done || by intros [_ ?]%account_storage_key_inj).
      done.
  - unfold ExecutionState.overlay_len in *. rewrite Ho.
    pose proof (proj1 (size_insert_bound (overlay (w_storage w)) (account_storage_key a k) (Message.from_bytes <$> v))).
    lia.
Qed.

(** Writes that pass the size checks happen. *)
Lemma set_local st n w k (b : bytes) :
  local_world st (n + 1) w -> 0 <= n ->
  exists s', ExecutionState.set (w_storage w) (account_storage_key a k) (mkMessage (OwnedBytes b)) =
    (if MAX_KEY_SIZE <? zlen (account_storage_key a k) then Err ERR_KEY_TOO_LARGE
     else if MAX_VALUE_SIZE <? zlen b then Err ERR_VALUE_TOO_LARGE else Ok tt, s') /\
    (short a k -> zlen b <= MAX_VALUE_SIZE -> local_world (<[k := b]> st) n (mkWorld s' (w_gas w))).
Proof.
  intros Hw Hn. destruct (set_cases (w_storage w) (account_storage_key a k) (mkMessage (OwnedBytes b)))
    as [[e He]|(s' & He & Hwr)]; rewrite He.
  - exists (w_storage w). revert He. unfold ExecutionState.set, short. change (Message.len _) with (zlen b).
    destruct (_ <? _) eqn:E1; [intros; simplify_eq; split; [done | lia]|].
    destruct (_ <? zlen b) eqn:E2; [intros; simplify_eq; split; [done | lia]|].
    case_match; [done|]. destruct (MAX_OVERLAY_ENTRIES <=? _) eqn:E3; [|done]. pose proof (lw_room _ _ _ Hw). lia.
  - exists s'. revert He. unfold ExecutionState.set. change (Message.len _) with (zlen b).
    destruct (_ <? _) eqn:E1; [done|]. destruct (_ <? zlen b) eqn:E2; [done|]. intros _. split; [done|]. intros _ _.
    by apply (local_world_wrote st n w s' k (Some b)).
Qed.

Lemma remove_local st n w k :
  local_world st (n + 1) w -> 0 <= n ->
  exists s', ExecutionState.remove (w_storage w) (account_storage_key a k) =
    (if MAX_KEY_SIZE <? zlen (account_storage_key a k) then Err ERR_KEY_TOO_LARGE else Ok tt, s') /\
    (short a k -> local_world (delete k st) n (mkWorld s' (w_gas w))).
Proof.
  intros Hw Hn. destruct (remove_cases (w_storage w) (account_storage_key a k)) as [[e He]|(s' & He & Hwr)]; rewrite He.
  - exists (w_storage w). revert He. unfold ExecutionState.remove, short.
    destruct (_ <? _) eqn:E1; [intros; simplify_eq; split; [done | lia]|].
    case_match; [done|]. destruct (MAX_OVERLAY_ENTRIES <=? _) eqn:E3; [|done]. pose proof (lw_room _ _ _ Hw). lia.
  - exists s'. revert He. unfold ExecutionState.remove. destruct (_ <? _) eqn:E1; [done|]. intros _.
    split; [done|]. intros _. by apply (local_world_wrote st n w s' k None).
Qed.

Lemma local_writes_nonneg {R} (p : EnvProg R) : forall st, 0 <= local_writes a p st.
Proof.
  induction p as [x| |to data k IH|to data fs k IH|name data k IH|k IH]; intros st; cbn [local_writes]; try done.
  - destruct (local_query a st data); cbn; [apply IH | done].
  - destruct fs; [|done]. destruct (local_exec a st data) as [resp st1]. specialize (IH resp st1). lia.
Qed.

Lemma local_writes_lift {R} (p : QueryProg R) st : local_writes a (lift_query p) st = 0.
Proof.
  induction p as [x| |to data k IH]; cbn [lift_query local_writes]; try done.
  destruct (local_query a st data); [apply IH | done].
Qed.

Context (inv : Invoker) (Hwho : inv_whoami inv = a).

Lemma handle_storage_exec_local st n w data :
  local_world st (n + 1) w -> 0 <= n ->
  exists w', Invoker.handle_storage_exec inv data w = Done (local_exec a st data).1 w' /\
    w_gas w' = Infinite /\
    (is_err (local_exec a st data).1 = false -> local_world (local_exec a st data).2 n w').
Proof using Hwho.
  intros Hw Hn. unfold Invoker.handle_storage_exec, local_exec, local_write.
  pose proof (lw_gas _ _ _ Hw) as Hg.
  destruct (_ =? _); [|destruct (_ =? _)].
  - destruct (InvokeRequest.get data) as [[k [[b]]]|e]; [|by exists w].
    unfold try_bind, mbind, M_bind, mret, M_ret, on_storage, on_gas. cbn [set_key set_value from_option].
    rewrite Hwho, Hg. cbn [GasCounter.consume_set_gas w_gas w_storage].
    destruct (set_local st n w k b Hw Hn) as (s' & Hset & Hw').
    change (Message.len _) with (zlen b). rewrite Hset. unfold short in Hw'. rewrite Hg in Hw'.
    destruct (Z.ltb_spec MAX_KEY_SIZE (zlen (account_storage_key a k))); [by eexists|].
    destruct (Z.ltb_spec MAX_VALUE_SIZE (zlen b)); [by eexists|].
    destruct (InvokeResponse.new mkStorageSetResponse); eexists; (split; [done|]; split; [done|]);
      intros Hf; [by apply Hw' | done].
  - destruct (InvokeRequest.get data) as [[k]|e]; [|by exists w].
    unfold try_bind, mbind, M_bind, mret, M_ret, on_storage, on_gas. cbn [remove_key from_option].
    rewrite Hwho, Hg. cbn [GasCounter.consume_remove_gas w_gas w_storage].
    destruct (remove_local st n w k Hw Hn) as (s' & Hset & Hw'). rewrite Hset. unfold short in Hw'. rewrite Hg in Hw'.
    destruct (Z.ltb_spec MAX_KEY_SIZE (zlen (account_storage_key a k))); [by eexists|].
    destruct (InvokeResponse.new mkStorageRemoveResponse); eexists; (split; [done|]; split; [done|]);
      intros Hf; [by apply Hw' | done].
  - by exists w.
Qed.

Lemma local_exec_error st data : is_err (local_exec a st data).1 = true -> (local_exec a st data).2 = st.
Proof.
  clear inv Hwho. unfold local_exec, local_write. repeat case_match; done.
Qed.

Lemma do_exec_local fuel st n w data :
  inv_call_depth inv < MAX_CALL_DEPTH -> local_world st (n + 1) w -> 0 <= n ->
  exists w', Invoker.do_exec account_codes (S fuel) inv STORAGE_ACCOUNT_ID data [] w =
             Done (local_exec a st data).1 w' /\ local_world (local_exec a st data).2 n w'.
Proof using Hwho.
  intros Hdepth Hw Hn. cbn [Invoker.do_exec]. unfold Invoker.do_exec_body.
  rewrite (proj2 (Z.leb_gt _ _) Hdepth).
  set (w0 := mkWorld (ExecutionState.checkpoint (w_storage w)).2 (w_gas w)).
  assert (Hw0 : local_world st (n + 1) w0).
  { eapply local_world_equiv; [apply checkpoint_equiv | apply Hw | done]. }
  destruct (handle_storage_exec_local st n w0 data Hw0 Hn) as (w1 & He & Hg & Hok).
  unfold mbind, M_bind, on_storage. cbn [ExecutionState.checkpoint Invoker.handle_transfers].
  unfold mret at 1, M_ret at 1. unfold Invoker.exec_without_transfers.
  rewrite bool_decide_false, bool_decide_true by done. change (mkWorld _ (w_gas w)) with w0. rewrite He.
  destruct (is_err (local_exec a st data).1) eqn:Er; [|exists w1; split; [done | by apply Hok]].
  assert (Hev : evolves w w1).
  { etrans; [apply (ev_observe w (w_storage w0)); [apply checkpoint_equiv | done]|].
    pose proof (handle_storage_exec_sound inv data w0) as Hs. by rewrite He in Hs. }
  destruct (restore_checkpoint_rollback _ _ Hev) as (s & Hs & Heq & _).
  change (mkCheckpoint _ _ _) with (ExecutionState.checkpoint (w_storage w)).1. rewrite Hs.
  eexists. split; [done|]. rewrite (local_exec_error _ _ Er). apply (local_world_weaken st (n + 1)); [lia|].
  by apply (local_world_equiv st (n + 1) w).
Qed.

Lemma do_query_local fuel st n w data resp :
  local_world st n w -> local_query a st data = Some resp ->
  exists w', Invoker.do_query account_codes (S fuel) inv STORAGE_ACCOUNT_ID data w = Done resp w' /\
             local_world st n w'.
Proof using account_codes a.
  intros Hw. cbn [Invoker.do_query]. unfold Invoker.do_query_body.
  rewrite bool_decide_false, bool_decide_true by done. unfold local_query, Invoker.handle_storage_query.
  destruct (_ =? _); [|intros; simplify_eq; by exists w].
  destruct (InvokeRequest.get data) as [r|e]; [|intros; simplify_eq; by exists w].
  case_decide as Ha; [|done]. intros. simplify_eq.
  unfold try_bind, mbind, M_bind, mret, M_ret, on_storage, on_gas. rewrite Ha.
  pose proof (get_view (w_storage w) (account_storage_key a (get_key r))) as Hv.
  pose proof (lw_own _ _ _ Hw (get_key r)) as Hown. unfold own in Hown. rewrite Hown in Hv.
  pose proof (get_equiv (w_storage w) (account_storage_key a (get_key r))) as Heq.
  destruct (ExecutionState.get _ _) as [g s1]. cbn [fst snd] in *. subst g.
  pose proof (lw_gas _ _ _ Hw) as Hg. cbn [w_gas w_storage]. rewrite Hg. cbn [GasCounter.consume_get_gas w_storage].
  eexists. split; [done|]. by eapply local_world_equiv.
Qed.

(** The runtime does what [exec_local] computes. *)
Lemma run_local {R} (p : EnvProg R) fuel : forall st w r st',
  inv_call_depth inv < MAX_CALL_DEPTH -> local_world st (local_writes a p st) w ->
  exec_local a p st = Some (r, st') ->
  exists w', Invoker.run account_codes (S fuel) inv p w = Done r w' /\ local_world st' 0 w'.
Proof using Hwho.
  unfold Invoker.run, Invoker.run_env.
  induction p as [x| |to data k IH|to data fs k IH|name data k IH|k IH]; intros st w r st' Hd Hw He; try done.
  - cbn in *. simplify_eq. by exists w.
  - cbn [exec_local local_writes run_prog] in *. case_decide as Hto; [|done]. subst to.
    destruct (local_query a st data) as [resp|] eqn:Eq; [|done]. cbn [mbind option_bind from_option] in *.
    destruct (do_query_local fuel st _ w data resp Hw Eq) as (w1 & Hq & Hw1).
    unfold mbind, M_bind. rewrite Hq. by eapply IH.
  - cbn [exec_local local_writes run_prog] in *. destruct fs; [|done]. case_decide as Hto; [|done]. subst to.
    pose proof (do_exec_local fuel st) as Hx.
    specialize (Hx (local_writes a (k (local_exec a st data).1) (local_exec a st data).2) w data Hd).
    destruct (local_exec a st data) as [resp st1]. cbn [fst snd] in *. rewrite Z.add_comm in Hw.
    destruct (Hx Hw) as (w1 & Hq & Hw1); [apply local_writes_nonneg|].
    unfold mbind, M_bind. rewrite Hq. by eapply IH.
Qed.

End Adequacy.
