(* ===== verification/CollectionSpec.v ===== *)
(** * What the collections compute

    Sequences of operations and iterator loops as programs, what it means that
    they give the results of an abstract structure, and the queue, which refines
    a list with two ends. *)

From S2P Require Import Prelude Core Gas Collections ExecState ExecStateFacts Runtime Invoker InvokerFacts CallFacts.
From S2P Require Import Isolation CollectionFacts Local.

Open Scope evolve_scope.

(** Evaluates the next storage access of a local execution. *)
Ltac local_step :=
  rewrite ?exec_local_try, ?exec_local_lift_try, ?exec_local_bind, ?exec_local_lift_bind;
  (erewrite exec_may_get by eauto with local) || (rewrite exec_set by eauto with local)
  || (rewrite exec_remove by eauto with local);
  cbn [mbind option_bind lift_query exec_local mret QueryProg_ret EnvProg_ret].

Lemma u64_add_small (x y : Z) : 0 <= x + y <= u64_max -> u64_add x y = x + y.
Proof. intros. unfold u64_add. apply wrapping_small. unfold u64_max in *. lia. Qed.

Lemma u64_sub_small (x y : Z) : 0 <= x - y <= u64_max -> u64_sub x y = x - y.
Proof. intros. unfold u64_sub. apply wrapping_small. unfold u64_max in *. lia. Qed.

(** ** Sequences of operations *)

Fixpoint run_local_ops {Op Obs} `{RuntimeDeps} (a : AccountId) (impl : Op -> EnvProg Obs) (ops : list Op)
    (st : gmap bytes bytes) : option (list Obs * gmap bytes bytes) :=
  match ops with
  | [] => Some ([], st)
  | op :: ops =>
      '(o, st) ← exec_local a (impl op) st;
      '(os, st) ← run_local_ops a impl ops st; Some (o :: os, st)
  end.

Fixpoint model_ops {Op Obs S} (step : Op -> S -> Obs * S) (ops : list Op) (s : S) : list Obs * S :=
  match ops with
  | [] => ([], s)
  | op :: ops => let '(o, s) := step op s in let '(os, s) := model_ops step ops s in (o :: os, s)
  end.

(** The sequence as one program of the account. *)
Fixpoint ops_prog {Op Obs} (impl : Op -> EnvProg Obs) (ops : list Op) : EnvProg (list Obs) :=
  match ops with
  | [] => mret []
  | op :: ops => o ← impl op; os ← ops_prog impl ops; mret (o :: os)
  end.

Lemma exec_ops_prog {Op Obs} `{RuntimeDeps} (a : AccountId) (impl : Op -> EnvProg Obs) ops : forall st,
  exec_local a (ops_prog impl ops) st = run_local_ops a impl ops st.
Proof.
  induction ops as [|op ops IH]; intros st; [done|]. cbn [ops_prog run_local_ops].
  rewrite exec_local_bind. destruct (exec_local a (impl op) st) as [[o st1]|]; [|done]. cbn [mbind option_bind].
  rewrite exec_local_bind, IH. done.
Qed.

(** Every operation meets [ok] in the state it is applied to. *)
Fixpoint ops_ok {Op Obs S} (step : Op -> S -> Obs * S) (ok : Op -> S -> Prop) (ops : list Op) (s : S) : Prop :=
  match ops with
  | [] => True
  | op :: ops => ok op s /\ ops_ok step ok ops (step op s).2
  end.

Lemma local_ops_refine {Op Obs S} `{RuntimeDeps} (a : AccountId) (impl : Op -> EnvProg Obs) (step : Op -> S -> Obs * S)
    (ok : Op -> S -> Prop) (R : gmap bytes bytes -> S -> Prop) :
  (forall st s op, R st s -> ok op s ->
     exists st', exec_local a (impl op) st = Some ((step op s).1, st') /\ R st' (step op s).2) ->
  forall ops st s, R st s -> ops_ok step ok ops s ->
  exists st', run_local_ops a impl ops st = Some ((model_ops step ops s).1, st') /\
              R st' (model_ops step ops s).2.
Proof.
  intros Hstep. induction ops as [|op ops IH]; intros st s HR; [by exists st|].
  intros [Hok Hops]. destruct (Hstep _ _ _ HR Hok) as (st1 & He & HR1).
  destruct (IH _ _ HR1 Hops) as (st2 & He2 & HR2). exists st2. cbn [run_local_ops model_ops].
  rewrite He. cbn [mbind option_bind]. rewrite He2. cbn [mbind option_bind].
  destruct (step op s) as [o s1]. cbn [snd] in *. by destruct (model_ops step ops s1).
Qed.

(** Nothing is stored under the prefixes of a collection. *)
Record fresh (ps : list byte) (st : gmap bytes bytes) : Prop := {
  fresh_fit : values_fit st;
  fresh_none : forall p k, p ∈ ps -> st !! (p :: k) = None }.

Lemma holds_fresh {K V} `{Borsh K} `{Borsh V} (a : AccountId) ps (m : Map K V) key st :
  fresh ps st -> map_prefix m ∈ ps -> key_ok a m key -> holds a m key st None.
Proof.
  intros [_ Hn] Hin (k & Hk & Hs). exists k. split; [done|]. split; [done|].
  destruct (make_key_prefix _ _ _ Hk) as [b ->]. by rewrite Hn.
Qed.

(** A [for] loop over an iterator, for at most [n] elements. *)
Fixpoint collect {R} (next : U64 -> QueryProg (option R * U64)) (n : nat) (index : U64)
    : QueryProg (list R) :=
  match n with
  | O => QPanic
  | S n =>
      r ← next index;
      match r.1 with
      | None => mret []
      | Some x => xs ← collect next n r.2; mret (x :: xs)
      end
  end.

(** The iterator yields the elements of [l] from [index] on. *)
Lemma collect_spec {R} `{RuntimeDeps} a (next : U64 -> QueryProg (option R * U64)) st (l : list R) :
  forall index n, (length l < n)%nat ->
  (forall i, exec_local a (lift_query (next (index + Z.of_nat i))) st =
     Some (match l !! i with
           | Some x => (Some x, index + Z.of_nat i + 1)
           | None => (None, index + Z.of_nat i)
           end, st)) ->
  exec_local a (lift_query (collect next n index)) st = Some (l, st).
Proof.
  induction l as [|x l IH]; intros index [|n] Hn Hnext; [cbn in Hn; lia..| |cbn in Hn; lia|];
    cbn [collect]; rewrite exec_local_lift_bind.
  - pose proof (Hnext 0%nat) as H0. rewrite Z.add_0_r in H0. by rewrite H0.
  - pose proof (Hnext 0%nat) as H0. rewrite Z.add_0_r in H0. rewrite H0. cbn [lookup list_lookup mbind option_bind fst snd].
    rewrite exec_local_lift_bind, IH; [done | cbn in Hn; lia|].
    intros i. specialize (Hnext (S i)). replace (index + Z.of_nat (S i)) with (index + 1 + Z.of_nat i) in Hnext by lia.
    done.
Qed.

Section Specs.
Context `{RuntimeDeps} `{CollectionCodec} `{Hst : !StorageTotal} `{Hkt : !KeysTotal} (a : AccountId).
Context {V : Type} `{Borsh V}.

(** ** Map *)

Lemma exec_get {K} `{Borsh K} (m : Map K V) key env st o :
  whoami env = a -> values_fit st -> holds a m key st o ->
  exec_local a (lift_query (Map.get m key env)) st = Some (ok_or o ERR_NOT_FOUND, st).
Proof. intros. unfold Map.get. local_step. by destruct o. Qed.

(** ** Queue *)

Record queue_rep (q : Queue V) (st : gmap bytes bytes) (f : Z) (l : list V) : Prop := {
  qr_fit : values_fit st;
  qr_front : exists o, holds a (queue_front q) tt st o /\ unwrap_or_zero o = f;
  qr_back : exists o, holds a (queue_back q) tt st o /\ unwrap_or_zero o = f + zlen l;
  qr_items : forall i x, l !! i = Some x -> holds a (queue_items q) (f + Z.of_nat i) st (Some x);
  qr_range : 0 <= f /\ f + zlen l <= u64_max }.

Record queue_distinct (q : Queue V) : Prop := {
  qd_front_back : map_prefix (queue_front q) ≠ map_prefix (queue_back q);
  qd_front_items : map_prefix (queue_front q) ≠ map_prefix (queue_items q);
  qd_back_items : map_prefix (queue_back q) ≠ map_prefix (queue_items q) }.

Context (q : Queue V) (Hd : queue_distinct q) (env : EnvView) (Hwho : whoami env = a).

Definition queue_prefixes : list byte :=
  [map_prefix (queue_front q); map_prefix (queue_back q); map_prefix (queue_items q)].

Lemma queue_fresh st : fresh queue_prefixes st -> queue_rep q st 0 [].
Proof using Hkt.
  clear env Hwho. intros Hf. split; [by apply Hf | | | done | done].
  - exists None. split; [|done]. apply (holds_fresh _ queue_prefixes); [done | by left | by apply key_ok_unit].
  - exists None. split; [|done].
    apply (holds_fresh _ queue_prefixes); [done | right; by left | by apply key_ok_unit].
Qed.

Lemma exec_get_front st f l : queue_rep q st f l ->
  exec_local a (lift_query (Queue.get_front q env)) st = Some (Ok f, st).
Proof using Hwho Hst.
  intros [Hfit (o & Ho & Hf) _ _ _]. unfold Queue.get_front, Item.may_get. local_step. by rewrite Hf.
Qed.

Lemma exec_get_back st f l : queue_rep q st f l ->
  exec_local a (lift_query (Queue.get_back q env)) st = Some (Ok (f + zlen l), st).
Proof using Hwho Hst.
  intros [Hfit _ (o & Ho & Hf) _ _]. unfold Queue.get_back, Item.may_get. local_step. by rewrite Hf.
Qed.

Lemma push_back_spec st f l x :
  queue_rep q st f l -> fits x -> f + zlen l < u64_max ->
  exists st', exec_local a (Queue.push_back q x env) st = Some (Ok tt, st') /\
              queue_rep q st' f (l ++ [x]).
Proof using Hd Hwho Hst Hkt.
  intros Hr Hx Hlt. unfold Queue.push_back, Item.set. rewrite exec_local_try, (exec_get_back _ _ _ Hr).
  cbn [mbind option_bind]. destruct Hr as [Hfit (o1 & Hf & Hfv) (o2 & Hb & Hbv) Hi Hrange], Hd.
  pose proof (zlen_nonneg l).
  assert (is_u64 (f + zlen l)) by (unfold is_u64; lia).
  assert (is_u64 (f + zlen l + 1)) by (unfold is_u64; lia).
  rewrite u64_add_small by lia. do 2 local_step. eexists. split; [done|]. split.
  - eauto with local.
  - exists o1. split; [|done]. eauto 6 using apart_prefix with local.
  - eexists. split; [eauto with local|]. rewrite zlen_app. cbn. unfold zlen in *. cbn. lia.
  - intros i y Hy. apply holds_put_apart; [by apply apart_prefix|].
    apply lookup_app_Some in Hy as [Hy|[Hge Hy]].
    + apply holds_put_apart; [|by apply Hi]. apply apart_key.
      apply lookup_lt_Some in Hy. unfold zlen. lia.
    + apply list_lookup_singleton_Some in Hy as [Hi0 <-].
      replace (f + Z.of_nat i) with (f + zlen l) by (unfold zlen; lia). eauto with local.
  - rewrite zlen_app. change (zlen [x]) with 1. lia.
Qed.

Lemma pop_front_spec st f l :
  queue_rep q st f l ->
  match l with
  | [] => exec_local a (Queue.pop_front q env) st = Some (Err ERR_EMPTY, st)
  | x :: l => exists st', exec_local a (Queue.pop_front q env) st = Some (Ok x, st') /\
                          queue_rep q st' (f + 1) l
  end.
Proof using Hd Hwho Hst Hkt.
  intros Hr. unfold Queue.pop_front, Item.set.
  rewrite exec_local_try, (exec_get_front _ _ _ Hr). cbn [mbind option_bind].
  rewrite exec_local_try, (exec_get_back _ _ _ Hr). cbn [mbind option_bind].
  destruct Hr as [Hfit (o1 & Hf & Hfv) (o2 & Hb & Hbv) Hi Hrange], Hd. unfold u64_eqb.
  destruct l as [|x l].
  { change (zlen (@nil V)) with 0. by rewrite Z.add_0_r, Z.eqb_refl. }
  rewrite zlen_cons in *. pose proof (zlen_nonneg l).
  rewrite (proj2 (Z.eqb_neq _ _)) by lia.
  assert (is_u64 f) by (unfold is_u64; lia). assert (is_u64 (f + 1)) by (unfold is_u64; lia).
  pose proof (Hi 0%nat x eq_refl) as Hx. rewrite Z.add_0_r in Hx.
  rewrite exec_local_try, (exec_get _ _ _ _ _ Hwho Hfit Hx). cbn [mbind option_bind ok_or].
  rewrite u64_add_small by lia. do 2 local_step.
  eexists. split; [done|]. split; [eauto with local | | | | lia].
  - eexists. split; [eauto with local | done].
  - exists o2. split; [eauto 6 using apart_prefix with local | lia].
  - intros i y Hy. apply holds_put_apart; [by apply apart_prefix|].
    apply holds_erase_apart; [apply apart_key; lia|].
    replace (f + 1 + Z.of_nat i) with (f + Z.of_nat (S i)) by lia. by apply Hi.
Qed.

Lemma pop_back_spec st f l :
  queue_rep q st f l ->
  match last l with
  | None => exec_local a (Queue.pop_back q env) st = Some (Err ERR_EMPTY, st)
  | Some x => exists st', exec_local a (Queue.pop_back q env) st = Some (Ok x, st') /\
                          queue_rep q st' f (removelast l)
  end.
Proof using Hd Hwho Hst Hkt.
  intros Hr. unfold Queue.pop_back, Item.set.
  rewrite exec_local_try, (exec_get_front _ _ _ Hr). cbn [mbind option_bind].
  rewrite exec_local_try, (exec_get_back _ _ _ Hr). cbn [mbind option_bind].
  destruct Hr as [Hfit (o1 & Hf & Hfv) (o2 & Hb & Hbv) Hi Hrange], Hd. unfold u64_eqb.
  destruct l as [|x l _] using rev_ind.
  { change (zlen (@nil V)) with 0. by rewrite Z.add_0_r, Z.eqb_refl. }
  rewrite last_snoc, removelast_last. rewrite zlen_app in *. change (zlen [x]) with 1 in *.
  pose proof (zlen_nonneg l). rewrite (proj2 (Z.eqb_neq _ _)) by lia.
  rewrite u64_sub_small by lia. replace (f + (zlen l + 1) - 1) with (f + zlen l) by lia.
  assert (is_u64 (f + zlen l)) by (unfold is_u64; lia).
  assert (Hx : holds a (queue_items q) (f + zlen l) st (Some x)).
  { apply (Hi (length l)). by apply list_lookup_middle. }
  rewrite exec_local_try, (exec_get _ _ _ _ _ Hwho Hfit Hx). cbn [mbind option_bind ok_or].
  do 2 local_step. eexists. split; [done|]. split; [eauto with local | | | | lia].
  - exists o1. split; [eauto 6 using apart_prefix with local | done].
  - eexists. split; [eauto with local | done].
  - intros i y Hy. apply holds_put_apart; [by apply apart_prefix|].
    apply holds_erase_apart; [apply apart_key; apply lookup_lt_Some in Hy; unfold zlen; lia|].
    apply Hi. by apply lookup_app_l_Some.
Qed.

Lemma queue_is_empty_spec st f l :
  queue_rep q st f l ->
  exec_local a (lift_query (Queue.is_empty q env)) st = Some (Ok (bool_decide (l = [])), st).
Proof using Hwho Hst.
  intros Hr. unfold Queue.is_empty.
  rewrite exec_local_lift_try, (exec_get_front _ _ _ Hr). cbn [mbind option_bind].
  rewrite exec_local_lift_try, (exec_get_back _ _ _ Hr). cbn [mbind option_bind lift_query exec_local mret QueryProg_ret].
  do 3 f_equal. unfold u64_eqb, zlen. destruct l; cbn; [by rewrite Z.add_0_r, Z.eqb_refl|].
  apply Z.eqb_neq. lia.
Qed.

(** [for item in queue.iter(env)?] *)
Definition queue_collect (n : nat) : QueryProg (SdkResult (list (SdkResult V))) :=
  let? range := Queue.iter q env in
  items ← collect (fun index => Queue.iter_next q range.2 index env) n range.1;
  mret (Ok items).

Lemma queue_collect_spec st f l n :
  queue_rep q st f l -> f + zlen l < u64_max -> (length l < n)%nat ->
  exec_local a (lift_query (queue_collect n)) st = Some (Ok (Ok <$> l), st).
Proof using Hwho Hst.
  intros Hr Hlt Hn. unfold queue_collect, Queue.iter.
  rewrite exec_local_lift_try, exec_local_lift_try, (exec_get_front _ _ _ Hr). cbn [mbind option_bind].
  rewrite exec_local_lift_try, (exec_get_back _ _ _ Hr).
  cbn [mbind option_bind lift_query exec_local mret QueryProg_ret fst snd].
  rewrite exec_local_lift_bind.
  erewrite (collect_spec a _ st (Ok <$> l) f n); [done | by rewrite length_fmap|].
  intros i. rewrite list_lookup_fmap. destruct Hr as [Hfit _ _ Hi Hrange].
  unfold Queue.iter_next, u64_leb. destruct (l !! i) as [x|] eqn:Ei; cbn [fmap option_fmap option_map].
  - pose proof (lookup_lt_Some _ _ _ Ei). rewrite (proj2 (Z.leb_gt _ _)) by (unfold zlen; lia).
    rewrite u64_add_small by (unfold zlen in *; lia).
    rewrite exec_local_lift_bind, (exec_may_get a _ _ _ _ _ Hwho Hfit (Hi _ _ Ei)). done.
  - apply lookup_ge_None in Ei. rewrite (proj2 (Z.leb_le _ _)) by (unfold zlen; lia). done.
Qed.

Inductive QueueOp := PushBack (x : V) | PopFront | PopBack | IsEmpty | Collect (n : nat).

Inductive QueueObs :=
| ObsUnit (r : SdkResult unit)
| ObsItem (r : SdkResult V)
| ObsBool (r : SdkResult bool)
| ObsItems (r : SdkResult (list (SdkResult V))).

Definition queue_impl (op : QueueOp) : EnvProg QueueObs :=
  match op with
  | PushBack x => r ← Queue.push_back q x env; mret (ObsUnit r)
  | PopFront => r ← Queue.pop_front q env; mret (ObsItem r)
  | PopBack => r ← Queue.pop_back q env; mret (ObsItem r)
  | IsEmpty => r ← lift_query (Queue.is_empty q env); mret (ObsBool r)
  | Collect n => r ← lift_query (queue_collect n); mret (ObsItems r)
  end.

Definition queue_model (op : QueueOp) (l : list V) : QueueObs * list V :=
  match op with
  | PushBack x => (ObsUnit (Ok tt), l ++ [x])
  | PopFront => match l with [] => (ObsItem (Err ERR_EMPTY), []) | x :: l => (ObsItem (Ok x), l) end
  | PopBack => match last l with None => (ObsItem (Err ERR_EMPTY), l) | Some x => (ObsItem (Ok x), removelast l) end
  | IsEmpty => (ObsBool (Ok (bool_decide (l = []))), l)
  | Collect n => (ObsItems (Ok (Ok <$> l)), l)
  end.

(** What an operation needs: items that fit, loops that may go through all. *)
Definition queue_op_ok (bound : Z) (op : QueueOp) : Prop :=
  match op with PushBack x => fits x | Collect n => bound < Z.of_nat n | _ => True end.

Lemma queue_step st f l op bound :
  queue_rep q st f l -> queue_op_ok bound op -> zlen l <= bound -> f + zlen l < u64_max ->
  exists st' f', exec_local a (queue_impl op) st = Some ((queue_model op l).1, st') /\
    queue_rep q st' f' (queue_model op l).2 /\ f' + zlen (queue_model op l).2 <= f + zlen l + 1 /\
    zlen (queue_model op l).2 <= zlen l + 1.
Proof using Hd Hwho Hst Hkt.
  intros Hr Hop Hb Hlt. destruct op as [x| | | |n]; cbn [queue_impl queue_model fst snd]; rewrite exec_local_bind.
  - destruct (push_back_spec _ _ _ x Hr Hop Hlt) as (st' & He & Hr'). rewrite He. exists st', f.
    rewrite zlen_app. change (zlen [x]) with 1. cbn [fst snd]; split_and!; [reflexivity | done | lia | lia].
  - pose proof (pop_front_spec _ _ _ Hr) as Hp. destruct l as [|x l].
    + rewrite Hp. exists st, f. cbn [fst snd]; split_and!; [reflexivity | done | lia | lia].
    + destruct Hp as (st' & He & Hr'). rewrite He. exists st', (f + 1). rewrite zlen_cons.
      cbn [fst snd]; split_and!; [reflexivity | done | lia | lia].
  - pose proof (pop_back_spec _ _ _ Hr) as Hp. destruct l as [|x l _] using rev_ind.
    + cbn in Hp |- *. rewrite Hp. exists st, f. cbn [fst snd]; split_and!; [reflexivity | done | lia | lia].
    + rewrite last_snoc in *. destruct Hp as (st' & He & Hr'). rewrite He. exists st', f.
      rewrite removelast_last in *. rewrite zlen_app. change (zlen [x]) with 1.
      cbn [fst snd]; split_and!; [reflexivity | done | lia | lia].
  - rewrite (queue_is_empty_spec _ _ _ Hr). exists st, f. cbn [fst snd]; split_and!; [reflexivity | done | lia | lia].
  - cbn in Hop. rewrite (queue_collect_spec _ _ _ n Hr Hlt) by (unfold zlen in *; lia).
    exists st, f. cbn [fst snd]; split_and!; [reflexivity | done | lia | lia].
Qed.

Lemma queue_refines ops bound : forall st f l,
  queue_rep q st f l -> Forall (queue_op_ok bound) ops ->
  zlen l + zlen ops <= bound -> f + zlen l + zlen ops <= u64_max ->
  exists st', run_local_ops a queue_impl ops st = Some ((model_ops queue_model ops l).1, st').
Proof using Hd Hwho Hst Hkt.
  induction ops as [|op ops IH]; intros st f l Hr Hops Hb Hlt; [by exists st|].
  apply Forall_cons in Hops as [Hop Hops]. rewrite zlen_cons in *. pose proof (zlen_nonneg ops).
  destruct (queue_step st f l op bound) as (st' & f' & He & Hr' & Hf & Hl); [done.. | lia | lia|].
  cbn [run_local_ops model_ops]. rewrite He. cbn [mbind option_bind].
  destruct (queue_model op l) as [o l']. cbn [fst snd] in *.
  destruct (IH st' f' l' Hr' Hops) as [st'' He']; [lia | lia|]. rewrite He'.
  destruct (model_ops queue_model ops l') as [os l'']. by eexists.
Qed.

End Specs.
