(* ===== verification/VectorSpec.v ===== *)
(** * What the vector computes

    [Vector] refines a list with one end: the length is stored unless it is
    zero, the elements at their indices. Extending an empty vector by nothing
    and reading beyond the length leave this refinement. *)

From S2P Require Import Prelude Core Gas Collections ExecState ExecStateFacts Runtime Invoker InvokerFacts CallFacts.
From S2P Require Import Isolation CollectionFacts Local CollectionSpec.

Open Scope evolve_scope.

Section Vector.
Context `{RuntimeDeps} `{CollectionCodec} `{Hst : !StorageTotal} `{Hkt : !KeysTotal} (a : AccountId).
Context {V : Type} `{Borsh V}.

(** The length is stored unless it is zero, the elements at the indices. *)
Record vector_rep (v : Vector V) (st : gmap bytes bytes) (l : list V) : Prop := {
  vr_fit : values_fit st;
  vr_index : holds a (vec_index v) tt st (if decide (l = []) then None else Some (zlen l));
  vr_elems : forall i x, l !! i = Some x -> holds a (vec_elems v) (Z.of_nat i) st (Some x);
  vr_range : zlen l <= u64_max }.

Definition vector_prefixes (v : Vector V) : list byte := [map_prefix (vec_index v); map_prefix (vec_elems v)].

Context (v : Vector V) (Hd : map_prefix (vec_index v) ≠ map_prefix (vec_elems v)).
Context (env : EnvView) (Hwho : whoami env = a).

Lemma exec_index st l : vector_rep v st l ->
  exec_local a (lift_query (Item.may_get (vec_index v) env)) st =
  Some (Ok (if decide (l = []) then None else Some (zlen l)), st).
Proof using Hwho Hst. intros [Hfit Hi _ _]. unfold Item.may_get. by apply exec_may_get. Qed.

Lemma unwrap_index (l : list V) : unwrap_or_zero (if decide (l = []) then None else Some (zlen l)) = zlen l.
Proof. by destruct l. Qed.

Lemma vector_len_spec st l : vector_rep v st l ->
  exec_local a (lift_query (Vector.len v env)) st = Some (Ok (zlen l), st).
Proof using Hwho Hst.
  intros Hr. unfold Vector.len. rewrite exec_local_lift_try, (exec_index _ _ Hr).
  cbn [mbind option_bind]. rewrite unwrap_index. done.
Qed.

Lemma vector_get_spec st l i x : vector_rep v st l -> l !! i = Some x ->
  exec_local a (lift_query (Vector.get v (Z.of_nat i) env)) st = Some (Ok x, st).
Proof using Hwho Hst.
  intros [Hfit _ He _] Hx. unfold Vector.get. by rewrite (exec_get a _ _ _ _ _ Hwho Hfit (He _ _ Hx)).
Qed.

(** Writing behind the last element. *)
Lemma vector_elems_snoc st l x :
  (forall i y, l !! i = Some y -> holds a (vec_elems v) (Z.of_nat i) st (Some y)) ->
  fits x -> zlen l <= u64_max -> forall i y, (l ++ [x]) !! i = Some y ->
  holds a (vec_elems v) (Z.of_nat i) (put (vec_elems v) (zlen l) x st) (Some y).
Proof using Hkt.
  intros He Hx Hlt i y Hy. pose proof (zlen_nonneg l). assert (is_u64 (zlen l)) by by unfold is_u64.
  apply lookup_app_Some in Hy as [Hy|[Hge Hy]].
  - apply holds_put_apart; [|by apply He]. apply apart_key. apply lookup_lt_Some in Hy. unfold zlen. lia.
  - apply list_lookup_singleton_Some in Hy as [Hi0 <-].
    replace (Z.of_nat i) with (zlen l) by (unfold zlen; lia). eauto with local.
Qed.

Lemma vector_set_length st l n :
  values_fit st -> (forall i x, l !! i = Some x -> holds a (vec_elems v) (Z.of_nat i) st (Some x)) ->
  l ≠ [] -> n = zlen l -> n <= u64_max ->
  vector_rep v (put (vec_index v) tt n st) l.
Proof using Hd Hkt.
  intros Hfit He Hne -> Hn. assert (is_u64 (zlen l)) by (pose proof (zlen_nonneg l); by unfold is_u64).
  split; [by eauto with local | | | done].
  - rewrite decide_False by done. eauto with local.
  - intros i x Hx. apply holds_put_apart; [by apply apart_prefix | by apply He].
Qed.

Lemma vector_push_spec st l x :
  vector_rep v st l -> fits x -> zlen l < u64_max ->
  exists st', exec_local a (Vector.push v x env) st = Some (Ok tt, st') /\ vector_rep v st' (l ++ [x]) /\
              same_outside (vector_prefixes v) st st'.
Proof using Hd Hwho Hst Hkt.
  intros Hr Hx Hlt. unfold Vector.push, Item.set. rewrite exec_local_try, (exec_index _ _ Hr).
  cbn [mbind option_bind]. rewrite unwrap_index. pose proof (zlen_nonneg l).
  assert (is_u64 (zlen l)) by (unfold is_u64; lia). assert (is_u64 (zlen l + 1)) by (unfold is_u64; lia).
  rewrite u64_add_small by lia. do 2 local_step. eexists. split; [done|].
  split; [|outside_steps; unfold vector_prefixes; set_solver].
  apply vector_set_length.
  - destruct Hr. eauto with local.
  - destruct Hr. by apply vector_elems_snoc.
  - by destruct l.
  - by rewrite zlen_app.
  - lia.
Qed.

Lemma vector_pop_spec st l :
  vector_rep v st l ->
  match last l with
  | None => exec_local a (Vector.pop v env) st = Some (Ok None, st)
  | Some x => exists st', exec_local a (Vector.pop v env) st = Some (Ok (Some x), st') /\
                          vector_rep v st' (removelast l) /\ same_outside [map_prefix (vec_index v)] st st'
  end.
Proof using Hd Hwho Hst Hkt.
  intros Hr. unfold Vector.pop. rewrite exec_local_try, (exec_index _ _ Hr). cbn [mbind option_bind].
  destruct l as [|x l _] using rev_ind; [done|].
  rewrite last_snoc, removelast_last, decide_False by (by destruct l).
  destruct Hr as [Hfit Hi He Hrange]. rewrite zlen_app in *. change (zlen [x]) with 1 in *.
  pose proof (zlen_nonneg l). rewrite u64_sub_small by lia. replace (zlen l + 1 - 1) with (zlen l) by lia.
  assert (Hx : holds a (vec_elems v) (zlen l) st (Some x)) by (apply (He (length l)), list_lookup_middle; done).
  rewrite exec_local_try, (exec_get a _ _ _ _ _ Hwho Hfit Hx). cbn [mbind option_bind ok_or].
  assert (Hl : forall i y, l !! i = Some y -> holds a (vec_elems v) (Z.of_nat i) st (Some y))
    by (intros i y Hy; apply He; by apply lookup_app_l_Some).
  assert (is_u64 (zlen l)) by (unfold is_u64; lia).
  unfold u64_eqb, Item.set, Item.remove. destruct l as [|y l].
  - change (zlen (@nil V) + 1 =? 1) with true. cbn [negb]. local_step. eexists. split; [done|].
    split; [|outside_steps; by left].
    split; [by eauto with local | | done | done]. rewrite decide_True by done. eauto with local.
  - rewrite (proj2 (Z.eqb_neq _ _)) by (rewrite zlen_cons in *; pose proof (zlen_nonneg l); lia).
    local_step. eexists. split; [done|].
    split; [|outside_steps; by left]. by apply vector_set_length; try lia.
Qed.

Lemma extend_loop_spec items : forall st l,
  values_fit st -> (forall i x, l !! i = Some x -> holds a (vec_elems v) (Z.of_nat i) st (Some x)) ->
  Forall fits items -> zlen l + zlen items <= u64_max ->
  exists st', exec_local a (Vector.extend_loop v (zlen l) items) st = Some (Ok (zlen (l ++ items)), st') /\
    values_fit st' /\
    (forall i x, (l ++ items) !! i = Some x -> holds a (vec_elems v) (Z.of_nat i) st' (Some x)).
Proof using Hkt Hst.
  induction items as [|x items IH]; intros st l Hfit He Hf Hr; cbn [Vector.extend_loop].
  { exists st. by rewrite app_nil_r. }
  apply Forall_cons in Hf as [Hx Hf]. rewrite zlen_cons in Hr. pose proof (zlen_nonneg items).
  pose proof (zlen_nonneg l). assert (is_u64 (zlen l)) by (unfold is_u64; lia).
  local_step. rewrite u64_add_small by lia.
  destruct (IH (put (vec_elems v) (zlen l) x st) (l ++ [x])) as (st' & He' & Hfit' & Hl'); [by eauto with local | | done | |].
  - apply vector_elems_snoc; [done | done | lia].
  - rewrite zlen_app. change (zlen [x]) with 1. lia.
  - rewrite zlen_app in He'. change (zlen [x]) with 1 in He'. rewrite <-app_assoc in He', Hl'.
    by exists st'.
Qed.

Lemma vector_extend_spec st l items :
  vector_rep v st l -> Forall fits items -> zlen l + zlen items <= u64_max -> l ++ items ≠ [] ->
  exists st', exec_local a (Vector.extend v items env) st = Some (Ok tt, st') /\
              vector_rep v st' (l ++ items).
Proof using Hd Hwho Hst Hkt.
  intros Hr Hf Hrange Hne. unfold Vector.extend, Item.set.
  rewrite exec_local_try, (exec_index _ _ Hr). cbn [mbind option_bind]. rewrite unwrap_index.
  destruct Hr as [Hfit _ He _]. destruct (extend_loop_spec items st l) as (st' & Hx & Hfit' & Hl'); [done..|].
  rewrite exec_local_try, Hx. cbn [mbind option_bind].
  assert (is_u64 (zlen (l ++ items))) by (pose proof (zlen_nonneg (l ++ items)); rewrite zlen_app in *; by unfold is_u64).
  local_step. eexists. split; [done|]. apply vector_set_length; try done. by rewrite zlen_app.
Qed.

Lemma vector_set_spec st l i x :
  vector_rep v st l -> (i < length l)%nat -> fits x ->
  vector_rep v (put (vec_elems v) (Z.of_nat i) x st) (<[i := x]> l).
Proof using Hd Hkt.
  clear env Hwho. intros [Hfit Hi He Hr] Hlt Hx.
  assert (is_u64 (Z.of_nat i)) by (unfold is_u64, zlen in *; lia).
  assert (Hne : <[i := x]> l = [] <-> l = []) by (destruct l, i; cbn in *; (done || lia)).
  split; [by eauto with local | | | unfold zlen in *; by rewrite length_insert].
  - unfold zlen in *. rewrite length_insert.
    replace (if decide (<[i := x]> l = []) then None else Some (Z.of_nat (length l)))
      with (if decide (l = []) then None else Some (Z.of_nat (length l)))
      by (destruct (decide (l = [])), (decide (<[i := x]> l = [])); tauto).
    apply holds_put_apart; [by apply apart_prefix | done].
  - intros j y Hy. destruct (decide (i = j)) as [<-|Hij].
    + rewrite list_lookup_insert_eq in Hy by done. simplify_eq. eauto with local.
    + rewrite list_lookup_insert_ne in Hy by done. apply holds_put_apart; [|by apply He].
      apply apart_key. lia.
Qed.

(** Other cells do not matter. *)
Lemma vector_rep_put {K' V'} `{Borsh K'} `{Borsh V'} (m : Map K' V') key x st l :
  map_prefix m ≠ map_prefix (vec_index v) -> map_prefix m ≠ map_prefix (vec_elems v) -> fits x ->
  vector_rep v st l -> vector_rep v (put m key x st) l.
Proof.
  intros H1' H2' Hx [Hfit Hi He Hr]. split; [by apply values_fit_put | | | done].
  - by apply holds_put_apart; [apply apart_prefix|].
  - intros i y Hy. apply holds_put_apart; [by apply apart_prefix | by apply He].
Qed.

Lemma vector_rep_erase {K' V'} `{Borsh K'} (m : Map K' V') key st l :
  map_prefix m ≠ map_prefix (vec_index v) -> map_prefix m ≠ map_prefix (vec_elems v) ->
  vector_rep v st l -> vector_rep v (erase m key st) l.
Proof.
  intros H1' H2' [Hfit Hi He Hr]. split; [by apply values_fit_erase | | | done].
  - by apply holds_erase_apart; [apply apart_prefix|].
  - intros i y Hy. apply holds_erase_apart; [by apply apart_prefix | by apply He].
Qed.

Lemma vector_fresh st : fresh (vector_prefixes v) st -> vector_rep v st [].
Proof using Hkt.
  clear env Hwho. intros Hf. split; [by apply Hf | | done | done].
  apply (holds_fresh _ (vector_prefixes v)); [done | by left | by apply key_ok_unit].
Qed.

(** ** Two operations that leave the list *)

(** Extending by nothing stores the length 0, and [pop] then reads below it. *)
Lemma extend_nothing_spec st : fresh (vector_prefixes v) st ->
  exec_local a (Vector.extend v [] env) st = Some (Ok tt, put (vec_index v) tt 0 st).
Proof using Hwho Hst Hkt.
  intros Hf. unfold Vector.extend, Item.set. rewrite exec_local_try, (exec_index _ _ (vector_fresh _ Hf)).
  cbn [mbind option_bind Vector.extend_loop]. rewrite exec_local_try.
  cbn [exec_local mbind option_bind mret EnvProg_ret]. rewrite unwrap_index.
  assert (is_u64 (zlen (@nil V))) by done. by local_step.
Qed.

Lemma pop_zero_spec st : fresh (vector_prefixes v) st ->
  exec_local a (Vector.pop v env) (put (vec_index v) tt 0 st)
  = Some (Err ERR_NOT_FOUND, put (vec_index v) tt 0 st).
Proof using Hd Hwho Hst Hkt.
  intros Hf. assert (Hz : is_u64 0) by done. pose proof (fresh_fit _ _ Hf).
  assert (Hfit : values_fit (put (vec_index v) tt 0 st)) by eauto with local.
  assert (Hi : holds a (vec_index v) tt (put (vec_index v) tt 0 st) (Some 0)) by eauto with local.
  unfold Vector.pop, Item.may_get. rewrite exec_local_try, (exec_may_get a _ _ _ _ _ Hwho Hfit Hi).
  cbn [mbind option_bind]. change (u64_sub 0 1) with u64_max. rewrite exec_local_try.
  assert (Hn : holds a (vec_elems v) u64_max (put (vec_index v) tt 0 st) None).
  { apply holds_put_apart; [by apply apart_prefix|].
    apply (holds_fresh _ (vector_prefixes v)); [done | right; by left | by apply key_ok_u64]. }
  by rewrite (exec_get a _ _ _ _ _ Hwho Hfit Hn).
Qed.

(** The popped element stays in the storage. *)
Lemma get_after_pop st l x st' : vector_rep v st (l ++ [x]) ->
  exec_local a (Vector.pop v env) st = Some (Ok (Some x), st') ->
  exec_local a (lift_query (Vector.get v (zlen l) env)) st' = Some (Ok x, st').
Proof using Hd Hwho Hst Hkt.
  intros Hr He. pose proof (vector_pop_spec _ _ Hr) as Hp. rewrite last_snoc in Hp.
  destruct Hp as (st1 & He1 & Hr1 & Ho). rewrite He in He1. simplify_eq. destruct Hr as [_ _ Hel _].
  assert (Hx : holds a (vec_elems v) (zlen l) st1 (Some x)).
  { eapply holds_same_outside; [exact Ho | rewrite list_elem_of_singleton; by apply not_eq_sym|].
    apply (Hel (length l)). by apply list_lookup_middle. }
  unfold Vector.get. by rewrite (exec_get a _ _ _ _ _ Hwho (vr_fit _ _ _ Hr1) Hx).
Qed.

(** ** Iteration *)

(** [for item in vector.iter(env)?] *)
Definition vector_collect (n : nat) : QueryProg (SdkResult (list (SdkResult V))) :=
  let? range := Vector.iter v env in
  items ← collect (fun index => Vector.iter_next v range.2 index env) n range.1;
  mret (Ok items).

Lemma vector_collect_spec st l n :
  vector_rep v st l -> (length l < n)%nat ->
  exec_local a (lift_query (vector_collect n)) st = Some (Ok (Ok <$> l), st).
Proof using Hwho Hst.
  intros Hr Hn. unfold vector_collect, Vector.iter.
  rewrite !exec_local_lift_try, (vector_len_spec _ _ Hr).
  cbn [mbind option_bind lift_query exec_local mret QueryProg_ret fst snd]. rewrite exec_local_lift_bind.
  erewrite (collect_spec a _ st (Ok <$> l) 0 n); [done | by rewrite length_fmap|].
  intros i. rewrite list_lookup_fmap. unfold Vector.iter_next, u64_leb. pose proof (vr_range _ _ _ Hr).
  destruct (l !! i) as [x|] eqn:Ei; cbn [fmap option_fmap option_map].
  - pose proof (lookup_lt_Some _ _ _ Ei). rewrite (proj2 (Z.leb_gt _ _)) by (unfold zlen; lia).
    rewrite u64_add_small by (unfold zlen in *; lia).
    rewrite exec_local_lift_bind, Z.add_0_l, (vector_get_spec _ _ _ _ Hr Ei). done.
  - apply lookup_ge_None in Ei. rewrite (proj2 (Z.leb_le _ _)) by (unfold zlen; lia). done.
Qed.

(** ** Every sequence of operations *)

Inductive VectorOp := VPush (x : V) | VExtend (items : list V) | VPop | VLen | VGet (i : nat) | VCollect (n : nat).

Inductive VectorObs :=
| VObsUnit (r : SdkResult unit)
| VObsOption (r : SdkResult (option V))
| VObsLen (r : SdkResult U64)
| VObsItem (r : SdkResult V)
| VObsItems (r : SdkResult (list (SdkResult V))).

Definition vector_impl (op : VectorOp) : EnvProg VectorObs :=
  match op with
  | VPush x => r ← Vector.push v x env; mret (VObsUnit r)
  | VExtend items => r ← Vector.extend v items env; mret (VObsUnit r)
  | VPop => r ← Vector.pop v env; mret (VObsOption r)
  | VLen => r ← lift_query (Vector.len v env); mret (VObsLen r)
  | VGet i => r ← lift_query (Vector.get v (Z.of_nat i) env); mret (VObsItem r)
  | VCollect n => r ← lift_query (vector_collect n); mret (VObsItems r)
  end.

Definition vector_model (op : VectorOp) (l : list V) : VectorObs * list V :=
  match op with
  | VPush x => (VObsUnit (Ok tt), l ++ [x])
  | VExtend items => (VObsUnit (Ok tt), l ++ items)
  | VPop => (VObsOption (Ok (last l)), removelast l)
  | VLen => (VObsLen (Ok (zlen l)), l)
  | VGet i => (VObsItem (ok_or (l !! i) ERR_NOT_FOUND), l)
  | VCollect n => (VObsItems (Ok (Ok <$> l)), l)
  end.

(** Items fit and are not too many, indices are in range, and [extend] leaves
    the vector not empty. *)
Definition vector_op_ok (op : VectorOp) (l : list V) : Prop :=
  match op with
  | VPush x => fits x /\ zlen l < u64_max
  | VExtend items => Forall fits items /\ zlen l + zlen items <= u64_max /\ l ++ items ≠ []
  | VGet i => is_Some (l !! i)
  | VCollect n => (length l < n)%nat
  | _ => True
  end.

Lemma vector_step st l op :
  vector_rep v st l -> vector_op_ok op l ->
  exists st', exec_local a (vector_impl op) st = Some ((vector_model op l).1, st') /\
              vector_rep v st' (vector_model op l).2.
Proof using Hd Hwho Hst Hkt.
  intros Hr Hop. destruct op as [x|items| | |i|n]; cbn [vector_impl vector_model fst snd] in *; rewrite exec_local_bind.
  - destruct Hop as [Hx Hlt]. destruct (vector_push_spec _ _ _ Hr Hx Hlt) as (st' & He & Hr' & _).
    rewrite He. by exists st'.
  - destruct Hop as (Hx & Hlt & Hne). destruct (vector_extend_spec _ _ _ Hr Hx Hlt Hne) as (st' & He & Hr').
    rewrite He. by exists st'.
  - pose proof (vector_pop_spec _ _ Hr) as Hp. destruct (last l) as [x|] eqn:El.
    + destruct Hp as (st' & He & Hr' & _). rewrite He. by exists st'.
    + rewrite Hp. apply last_None in El as ->. by exists st.
  - rewrite (vector_len_spec _ _ Hr). by exists st.
  - destruct Hop as [x Hx]. rewrite (vector_get_spec _ _ _ _ Hr Hx), Hx. by exists st.
  - rewrite (vector_collect_spec _ _ _ Hr Hop). by exists st.
Qed.

End Vector.
