(* ===== verification/UnorderedMapSpec.v ===== *)
(** * What the unordered map computes

    [UnorderedMap] stores a finite map: the keys in a vector, the position of
    every key, and the values. Removal fills the hole with the last key. *)

From S2P Require Import Prelude Core Gas Collections ExecState ExecStateFacts Runtime Invoker InvokerFacts CallFacts.
From S2P Require Import Isolation CollectionFacts Local CollectionSpec VectorSpec.

Open Scope evolve_scope.

(** ** Removal by moving the last element *)

Definition swap_remove {A} (i : nat) (l : list A) : list A :=
  match last l with Some x => removelast (<[i := x]> l) | None => [] end.

Lemma removelast_lookup {A} (l : list A) j y :
  removelast l !! j = Some y -> l !! j = Some y /\ (S j < length l)%nat.
Proof.
  destruct l as [|x l _] using rev_ind; [done|]. rewrite removelast_last. intros Hj.
  split; [by apply lookup_app_l_Some|]. apply lookup_lt_Some in Hj. rewrite length_app. cbn. lia.
Qed.

Lemma swap_remove_lookup {A} (l : list A) i j y :
  swap_remove i l !! j = Some y ->
  (S j < length l)%nat /\ ((j = i /\ last l = Some y) \/ (j ≠ i /\ l !! j = Some y)).
Proof.
  unfold swap_remove. destruct (last l) as [x|] eqn:El; [|done].
  intros [Hj Hlt]%removelast_lookup. rewrite length_insert in Hlt. split; [done|].
  destruct (decide (i = j)) as [<-|Hne].
  - left. rewrite list_lookup_insert_eq in Hj by lia. by simplify_eq.
  - right. rewrite list_lookup_insert_ne in Hj by done. done.
Qed.

Lemma swap_remove_permutation {A} (l : list A) i x :
  l !! i = Some x -> l ≡ₚ x :: swap_remove i l.
Proof.
  intros (l1 & l2 & -> & ->)%list_elem_of_split_length. unfold swap_remove.
  destruct l2 as [|y l2 _] using rev_ind.
  - rewrite last_snoc, list_insert_id by (by apply list_lookup_middle).
    rewrite removelast_last. by rewrite Permutation_app_comm.
  - rewrite app_comm_cons, app_assoc, last_snoc, insert_app_l by (rewrite length_app; cbn; lia).
    rewrite removelast_last, insert_app_r_alt, Nat.sub_diag by lia. cbn.
    solve_Permutation.
Qed.

(** The entries of a map, in the order of a list of its keys. *)
Lemma entries_of_keys `{Countable K} {V} (m : gmap K V) (keys : list K) :
  NoDup keys -> (forall k, k ∈ keys <-> is_Some (m !! k)) ->
  exists l, l.*1 = keys /\ (forall k v, (k, v) ∈ l -> m !! k = Some v) /\ l ≡ₚ map_to_list m.
Proof.
  intros Hnd Hdom.
  assert (Hl : exists l, l.*1 = keys /\ forall k v, (k, v) ∈ l -> m !! k = Some v).
  { assert (Hsome : forall k, k ∈ keys -> is_Some (m !! k)) by (intros k; apply Hdom). clear Hnd Hdom.
    induction keys as [|k keys IH]; [exists []; split; [done | by intros ?? ?%elem_of_nil]|].
    destruct IH as (l & <- & Hl); [intros k' Hk'; apply Hsome; by right|].
    destruct (Hsome k) as [v Hv]; [by left|]. exists ((k, v) :: l). split; [done|].
    intros k' v' [[= -> ->]|Hin]%elem_of_cons; [done | by apply Hl]. }
  destruct Hl as (l & <- & Hl). exists l. split_and!; [done | done|].
  apply NoDup_Permutation; [by eapply NoDup_fmap_1 | apply NoDup_map_to_list|].
  intros [k v]. rewrite elem_of_map_to_list. split; [by apply Hl|]. intros Hv.
  destruct (proj1 (list_elem_of_fmap _ _ _) (proj2 (Hdom k) (mk_is_Some _ _ Hv))) as ([k' v'] & -> & Hin).
  cbn in Hv. rewrite (Hl _ _ Hin) in Hv. by simplify_eq.
Qed.

(** ** The representation *)

Section UnorderedMap.
Context `{RuntimeDeps} `{CollectionCodec} `{Hst : !StorageTotal} `{Hkt : !KeysTotal} (a : AccountId).
Context {K V : Type} `{Borsh K} `{Borsh V} `{Countable K}.

Record um_distinct (u : UnorderedMap K V) : Prop := {
  ud_keys : map_prefix (vec_index (um_keys_vec u)) ≠ map_prefix (vec_elems (um_keys_vec u));
  ud_index_values : map_prefix (um_index_map u) ≠ map_prefix (um_values_map u);
  ud_index_len : map_prefix (um_index_map u) ≠ map_prefix (vec_index (um_keys_vec u));
  ud_index_elems : map_prefix (um_index_map u) ≠ map_prefix (vec_elems (um_keys_vec u));
  ud_values_len : map_prefix (um_values_map u) ≠ map_prefix (vec_index (um_keys_vec u));
  ud_values_elems : map_prefix (um_values_map u) ≠ map_prefix (vec_elems (um_keys_vec u)) }.

(** The key can be encoded, short enough for a storage key. *)
Definition key_fits (k : K) : Prop :=
  exists b, encode_value k = Ok b /\ forall p : byte, short a (p :: b).

Lemma key_fits_ok {W} (m : Map K W) k : key_fits k -> key_ok a m k.
Proof. intros (b & Hb & Hs). exists (map_prefix m :: b). unfold Map.make_key. by rewrite Hb. Qed.

Lemma key_fits_fits k : key_fits k -> fits k.
Proof.
  intros (b & Hb & Hs). exists b. split; [done|]. specialize (Hs Byte.x00).
  apply short_key in Hs. rewrite zlen_cons in Hs. assert (MAX_KEY_SIZE <= MAX_VALUE_SIZE) by done. lia.
Qed.

(** The positions of the keys and the values. *)
Record um_cells (u : UnorderedMap K V) (st : gmap bytes bytes) (keys : list K) (m : gmap K V) : Prop := {
  uc_index : forall i k, keys !! i = Some k -> holds a (um_index_map u) k st (Some (Z.of_nat i));
  uc_no_index : forall k, key_fits k -> k ∉ keys -> holds a (um_index_map u) k st None;
  uc_values : forall k, key_fits k -> holds a (um_values_map u) k st (m !! k) }.

Record um_rep (u : UnorderedMap K V) (st : gmap bytes bytes) (keys : list K) (m : gmap K V) : Prop := {
  ur_keys : vector_rep a (um_keys_vec u) st keys;
  ur_nodup : NoDup keys;
  ur_dom : forall k, k ∈ keys <-> is_Some (m !! k);
  ur_fit : forall k, k ∈ keys -> key_fits k;
  ur_cells : um_cells u st keys m }.

Context (u : UnorderedMap K V) (Hd : um_distinct u) (env : EnvView) (Hwho : whoami env = a).

(** The index of a key, as [Map.may_get] finds it. *)
Lemma um_find st keys m k : um_rep u st keys m -> key_fits k ->
  exists o, holds a (um_index_map u) k st o /\
    match o with
    | None => m !! k = None
    | Some i => exists n v, i = Z.of_nat n /\ keys !! n = Some k /\ m !! k = Some v
    end.
Proof.
  clear env Hwho. intros [_ _ Hdom _ []] Hk. specialize (Hdom k). destruct (m !! k) as [v|].
  - destruct (proj1 (list_elem_of_lookup _ _) (proj2 Hdom (mk_is_Some _ _ eq_refl))) as [n Hn]. exists (Some (Z.of_nat n)).
    split; [eauto|]. by exists n, v.
  - exists None. split; [|done]. apply uc_no_index0; [done|]. intros [? [=]]%Hdom.
Qed.

Lemma um_get_spec st keys m k : um_rep u st keys m -> key_fits k ->
  exec_local a (lift_query (UnorderedMap.may_get u k env)) st = Some (Ok (m !! k), st).
Proof using Hwho Hst.
  intros [Hkeys _ _ _ []] Hk. apply exec_may_get; [done | done | by apply (vr_fit _ _ _ _ Hkeys) | by eauto].
Qed.

Lemma um_size st keys m : um_rep u st keys m -> length keys = size m.
Proof.
  clear env Hwho. intros [_ Hnd Hdom _ _]. rewrite <-(size_dom m).
  transitivity (size (list_to_set keys : gset K)); [by rewrite size_list_to_set|].
  f_equal. apply set_eq. intros k. by rewrite elem_of_list_to_set, elem_of_dom, Hdom.
Qed.

Lemma um_len_spec st keys m : um_rep u st keys m ->
  exec_local a (lift_query (UnorderedMap.len u env)) st = Some (Ok (Z.of_nat (size m)), st).
Proof using Hwho Hst.
  intros Hr. unfold UnorderedMap.len. rewrite (vector_len_spec a _ _ Hwho _ _ (ur_keys _ _ _ _ Hr)).
  by rewrite <-(um_size _ _ _ Hr).
Qed.

(** ** Operations *)

Lemma um_cells_outside st st' keys m :
  um_cells u st keys m -> same_outside (vector_prefixes (um_keys_vec u)) st st' -> um_cells u st' keys m.
Proof using Hd.
  clear env Hwho. destruct Hd. intros [] Hs. unfold vector_prefixes in Hs.
  split; intros; (eapply holds_same_outside; [exact Hs | | by eauto]);
    rewrite !not_elem_of_cons; split_and!; try done; apply not_elem_of_nil.
Qed.

Lemma um_values_put st (m : gmap K V) k v :
  (forall k', key_fits k' -> holds a (um_values_map u) k' st (m !! k')) -> key_fits k -> fits v ->
  forall k', key_fits k' -> holds a (um_values_map u) k' (put (um_values_map u) k v st) (<[k := v]> m !! k').
Proof.
  clear env Hwho. intros Hv Hk Hfit k' Hk'. destruct (decide (k = k')) as [<-|Hne].
  - rewrite lookup_insert_eq. apply holds_put; [by apply key_fits_ok | done].
  - rewrite lookup_insert_ne by done. apply holds_put_apart; [by apply apart_key | by apply Hv].
Qed.

Lemma um_cells_update st keys m k v :
  um_cells u st keys m -> key_fits k -> fits v ->
  um_cells u (put (um_values_map u) k v st) keys (<[k := v]> m).
Proof using Hd.
  clear env Hwho. destruct Hd. intros [] Hk Hv. split; [| |by apply um_values_put].
  all: intros; apply holds_put_apart; [by apply apart_prefix | by eauto].
Qed.

Lemma um_cells_append st keys m k :
  um_cells u st keys m -> key_fits k -> k ∉ keys -> zlen keys <= u64_max ->
  um_cells u (put (um_index_map u) k (zlen keys) st) (keys ++ [k]) m.
Proof using Hd Hkt.
  clear env Hwho. destruct Hd. intros [] Hk Hnew Hlen. pose proof (zlen_nonneg keys).
  assert (is_u64 (zlen keys)) by by unfold is_u64. split.
  - intros i k' Hi. apply lookup_app_Some in Hi as [Hi|[Hge Hi]].
    + apply holds_put_apart; [|by apply uc_index0]. apply apart_key. intros <-.
      by apply Hnew, (list_elem_of_lookup_2 _ i).
    + apply list_lookup_singleton_Some in Hi as [Hi0 <-].
      replace (Z.of_nat i) with (zlen keys) by (unfold zlen; lia).
      apply holds_put; [by apply key_fits_ok | by apply fits_u64].
  - intros k' Hk' [Hn Hne]%not_elem_of_app. rewrite list_elem_of_singleton in Hne.
    apply holds_put_apart; [by apply apart_key, not_eq_sym | by apply uc_no_index0].
  - intros k' Hk'. apply holds_put_apart; [by apply apart_prefix | by apply uc_values0].
Qed.

Lemma um_insert_spec st keys m k v :
  um_rep u st keys m -> key_fits k -> fits v -> Z.of_nat (size m) < u64_max ->
  exists st' keys', exec_local a (UnorderedMap.insert u k v env) st = Some (Ok (m !! k), st') /\
    um_rep u st' keys' (<[k := v]> m).
Proof using Hd Hwho Hst Hkt.
  intros Hr Hk Hv Hlt. unfold UnorderedMap.insert. rewrite <-(um_size _ _ _ Hr) in Hlt. change (zlen keys < u64_max) in Hlt.
  destruct (um_find _ _ _ _ Hr Hk) as (o & Ho & Hfind). destruct Hr as [Hkeys Hnd Hdom Hkf Hc].
  pose proof (vr_fit _ _ _ _ Hkeys) as Hfit. pose proof (key_fits_ok (um_values_map u) _ Hk).
  pose proof (key_fits_ok (um_index_map u) _ Hk). local_step. destruct o as [i|].
  - destruct Hfind as (n & w & -> & Hn & Hw). pose proof (uc_values _ _ _ _ Hc k Hk) as Hget. rewrite Hw in *.
    rewrite exec_local_try, (exec_get a _ _ _ _ _ Hwho Hfit Hget). cbn [mbind option_bind ok_or].
    local_step. eexists _, keys. split; [done|]. split; [|done| |done|by apply um_cells_update].
    + destruct Hd. by apply vector_rep_put.
    + intros k'. rewrite Hdom. destruct (decide (k = k')) as [<-|]; [|by rewrite lookup_insert_ne].
      by rewrite lookup_insert_eq, Hw.
  - assert (Hnew : k ∉ keys) by (rewrite Hdom, Hfind; by intros [? [=]]).
    rewrite exec_local_try, (vector_len_spec a _ _ Hwho _ _ Hkeys). cbn [mbind option_bind].
    destruct (vector_push_spec a _ (ud_keys _ Hd) env Hwho _ _ k Hkeys (key_fits_fits _ Hk) Hlt)
      as (st1 & He & Hkeys1 & Ho1).
    rewrite exec_local_try, He. cbn [mbind option_bind]. pose proof (zlen_nonneg keys).
    assert (is_u64 (zlen keys)) by (unfold is_u64; lia). do 2 local_step.
    eexists _, (keys ++ [k]). rewrite Hfind. split; [done|]. split.
    + destruct Hd. apply vector_rep_put; [done..|]. apply vector_rep_put; [done | done | by apply fits_u64 | done].
    + apply NoDup_app. split_and!; [done | by intros k' Hin ->%list_elem_of_singleton | apply NoDup_singleton].
    + intros k'. rewrite elem_of_app, list_elem_of_singleton, Hdom, lookup_insert_is_Some'.
      split; (intros [?|?]; [by right | by left]).
    + intros k' [Hin| ->%list_elem_of_singleton]%elem_of_app; [by apply Hkf | done].
    + apply um_cells_update; [|done..]. apply um_cells_append; [by eapply um_cells_outside | done | done | lia].
Qed.

(** Forgetting a key, with its position and its value. *)
Lemma um_cells_forget st keys m i k :
  um_cells u st keys m -> NoDup keys -> keys !! i = Some k -> key_fits k ->
  let st' := erase (um_values_map u) k (erase (um_index_map u) k st) in
  (forall j k', keys !! j = Some k' -> j ≠ i -> holds a (um_index_map u) k' st' (Some (Z.of_nat j))) /\
  (forall k', key_fits k' -> (k' ∉ keys \/ k' = k) -> holds a (um_index_map u) k' st' None) /\
  (forall k', key_fits k' -> holds a (um_values_map u) k' st' (delete k m !! k')).
Proof using Hd.
  clear env Hwho. destruct Hd. intros [] Hnd Hi Hk st'. split_and!.
  - intros j k' Hj Hne. apply holds_erase_apart; [by apply apart_prefix|].
    apply holds_erase_apart; [|by apply uc_index0]. apply apart_key. intros <-. by eapply Hne, NoDup_lookup.
  - intros k' Hk' Hn. apply holds_erase_apart; [by apply apart_prefix|]. destruct (decide (k = k')) as [<-|Hne].
    + apply holds_erase. by apply key_fits_ok.
    + destruct Hn as [Hn| ->]; [|done]. apply holds_erase_apart; [by apply apart_key | by apply uc_no_index0].
  - intros k' Hk'. destruct (decide (k = k')) as [<-|Hne].
    + rewrite lookup_delete_eq. apply holds_erase. by apply key_fits_ok.
    + rewrite lookup_delete_ne by done. apply holds_erase_apart; [by apply apart_key|].
      apply holds_erase_apart; [by apply apart_prefix | by apply uc_values0].
Qed.

(** The state before the last key is popped: the hole is filled. *)
Lemma um_cells_remove_last st keys m i k :
  um_cells u st keys m -> NoDup keys -> keys !! i = Some k -> key_fits k -> S i = length keys ->
  um_cells u (erase (um_values_map u) k (erase (um_index_map u) k st)) (swap_remove i keys) (delete k m).
Proof using Hd.
  clear env Hwho. intros Hc Hnd Hi Hk Hlast.
  destruct (um_cells_forget _ _ _ _ _ Hc Hnd Hi Hk) as (Hidx & Hno & Hval). split; [| |done].
  - intros j k' (Hlt & [[-> _]|[Hne Hj]])%swap_remove_lookup; [lia | by apply Hidx].
  - intros k' Hk' Hn. apply Hno; [done|]. destruct (decide (k' = k)); [by right | left].
    by rewrite (swap_remove_permutation _ _ _ Hi), not_elem_of_cons.
Qed.

Lemma um_cells_remove_swap st keys m i k y :
  um_cells u st keys m -> NoDup keys -> keys !! i = Some k -> key_fits k -> (S i < length keys)%nat ->
  last keys = Some y -> key_fits y -> zlen keys <= u64_max ->
  um_cells u (put (um_index_map u) y (Z.of_nat i) (put (vec_elems (um_keys_vec u)) (Z.of_nat i) y
                (erase (um_values_map u) k (erase (um_index_map u) k st)))) (swap_remove i keys) (delete k m).
Proof using Hd Hkt.
  clear env Hwho. intros Hc Hnd Hi Hk Hlt Hy Hyf Hlen. rewrite last_lookup in Hy.
  destruct (um_cells_forget _ _ _ _ _ Hc Hnd Hi Hk) as (Hidx & Hno & Hval). destruct Hd.
  pose proof (swap_remove_permutation _ _ _ Hi) as Hp.
  assert (Hu : is_u64 (Z.of_nat i)) by (unfold is_u64, zlen in *; lia). split.
  - intros j k' (Hj & [[-> Hk']|[Hne Hj']])%swap_remove_lookup.
    + rewrite last_lookup, Hy in Hk'. simplify_eq. apply holds_put; [by apply key_fits_ok | by apply fits_u64].
    + apply holds_put_apart; [|apply holds_put_apart; [by apply apart_prefix, not_eq_sym | by apply Hidx]].
      apply apart_key. intros ->. pose proof (NoDup_lookup _ _ _ _ Hnd Hy Hj'). lia.
  - intros k' Hk' Hn. assert (Hyk : y ≠ k) by (intros ->; pose proof (NoDup_lookup _ _ _ _ Hnd Hy Hi); lia).
    assert (y ∈ swap_remove i keys).
    { apply list_elem_of_lookup_2 in Hy. rewrite Hp in Hy. by apply elem_of_cons in Hy as [?|?]. }
    apply holds_put_apart; [apply apart_key; by intros ->|].
    apply holds_put_apart; [by apply apart_prefix, not_eq_sym|]. apply Hno; [done|].
    destruct (decide (k' = k)); [by right | left]. by rewrite Hp, not_elem_of_cons.
  - intros k' Hk'. apply holds_put_apart; [by apply apart_prefix|].
    apply holds_put_apart; [by apply apart_prefix, not_eq_sym | by apply Hval].
Qed.

(** Popping the last key, when the hole has been filled. *)
Lemma um_pop_spec st keys m i k y st2 :
  um_rep u st keys m -> keys !! i = Some k -> last keys = Some y ->
  vector_rep a (um_keys_vec u) st2 (<[i := y]> keys) -> um_cells u st2 (swap_remove i keys) (delete k m) ->
  exists x st', exec_local a (Vector.pop (um_keys_vec u) env) st2 = Some (Ok (Some x), st') /\
    um_rep u st' (swap_remove i keys) (delete k m).
Proof using Hd Hwho Hst Hkt.
  intros [_ Hnd Hdom Hkf _] Hi Hy Hrep Hc. pose proof (swap_remove_permutation _ _ _ Hi) as Hp.
  pose proof (vector_pop_spec a _ (ud_keys _ Hd) env Hwho _ _ Hrep) as Hpop.
  destruct (last (<[i := y]> keys)) as [x|] eqn:El;
    [|rewrite last_None in El; apply (f_equal length) in El; rewrite length_insert in El; by destruct keys].
  destruct Hpop as (st' & He & Hrep' & Ho). exists x, st'. split; [done|].
  replace (removelast (<[i := y]> keys)) with (swap_remove i keys) in Hrep' by (unfold swap_remove; by rewrite Hy).
  rewrite Hp in Hnd. apply NoDup_cons in Hnd as [Hk Hnd]. split; [done | done | | |].
  3: { eapply um_cells_outside; [done|]. eapply same_outside_mono; [|done].
       intros p ->%list_elem_of_singleton. by left. }
  - intros k'. specialize (Hdom k'). rewrite Hp, elem_of_cons in Hdom.
    rewrite lookup_delete_is_Some, <-Hdom. split; [|by intros [? [?|?]]].
    intros Hin. split; [by intros <- | by right].
  - intros k' Hin. apply Hkf. rewrite Hp, elem_of_cons. by right.
Qed.

Lemma um_remove_spec st keys m k :
  um_rep u st keys m -> key_fits k ->
  exists st' keys', exec_local a (UnorderedMap.remove u k env) st = Some (Ok (m !! k), st') /\
    um_rep u st' keys' (delete k m).
Proof using Hd Hwho Hst Hkt.
  intros Hr Hk. unfold UnorderedMap.remove.
  destruct (um_find _ _ _ _ Hr Hk) as (o & Ho & Hfind).
  pose proof (ur_keys _ _ _ _ Hr) as Hkeys. pose proof (ur_cells _ _ _ _ Hr) as Hc.
  pose proof (ur_nodup _ _ _ _ Hr) as Hnd. pose proof (vr_range _ _ _ _ Hkeys) as Hlen.
  pose proof (vr_fit _ _ _ _ Hkeys) as Hfit. pose proof (key_fits_ok (um_values_map u) _ Hk).
  pose proof (key_fits_ok (um_index_map u) _ Hk). local_step. destruct o as [i|]; cycle 1.
  { exists st, keys. rewrite Hfind, delete_id by done. done. }
  destruct Hfind as (n & w & -> & Hn & Hw). pose proof (uc_values _ _ _ _ Hc k Hk) as Hget. rewrite Hw in *.
  local_step. destruct Hd as [Hd1 Hd2 Hd3 Hd4 Hd5 Hd6].
  rewrite exec_local_try. erewrite exec_get; [|done | by apply values_fit_erase | by apply holds_erase_apart; [apply apart_prefix|]].
  cbn [mbind option_bind ok_or]. local_step.
  set (st2 := erase (um_values_map u) k (erase (um_index_map u) k st)).
  assert (Hkeys2 : vector_rep a (um_keys_vec u) st2 keys) by (unfold st2; by do 2 (apply vector_rep_erase; [done..|])).
  rewrite exec_local_try, (vector_len_spec a _ _ Hwho _ _ Hkeys2). cbn [mbind option_bind].
  pose proof (lookup_lt_Some _ _ _ Hn) as Hlt.
  assert (Hlk : is_Some (last keys)) by (apply last_is_Some; by intros ->). destruct Hlk as [y Hy].
  assert (Hyk : keys !! pred (length keys) = Some y) by (by rewrite <-last_lookup).
  rewrite u64_sub_small by (unfold zlen in *; lia). unfold u64_ltb.
  destruct (Z.ltb_spec (Z.of_nat n) (zlen keys - 1)) as [Hs|Hs].
  - assert (HS : (S n < length keys)%nat) by (unfold zlen in Hs; lia).
    replace (zlen keys - 1) with (Z.of_nat (pred (length keys))) by (unfold zlen; lia).
    rewrite exec_local_try, exec_local_try, (vector_get_spec a _ _ Hwho _ _ _ _ Hkeys2 Hyk). cbn [mbind option_bind].
    assert (Hyf : key_fits y) by (apply (ur_fit _ _ _ _ Hr); by eapply list_elem_of_lookup_2).
    pose proof (key_fits_ok (um_index_map u) _ Hyf). pose proof (key_fits_fits _ Hyf).
    assert (is_u64 (Z.of_nat n)) by (unfold is_u64, zlen in *; lia). do 2 local_step.
    destruct (um_pop_spec st keys m n k y (put (um_index_map u) y (Z.of_nat n)
      (put (vec_elems (um_keys_vec u)) (Z.of_nat n) y st2))) as (x & st' & He & Hr'); [done.. | | |].
    + apply vector_rep_put; [done | done | by apply fits_u64 | by apply vector_set_spec].
    + by apply um_cells_remove_swap.
    + rewrite exec_local_try, He. by exists st', (swap_remove n keys).
  - destruct (um_pop_spec st keys m n k y st2) as (x & st' & He & Hr'); [done.. | | |].
    + rewrite list_insert_id; [done|]. by replace n with (pred (length keys)) by (unfold zlen in Hs; lia).
    + apply um_cells_remove_last; try done. unfold zlen in Hs; lia.
    + rewrite !exec_local_try. cbn [exec_local mbind option_bind mret EnvProg_ret]. rewrite exec_local_try, He.
      by exists st', (swap_remove n keys).
Qed.

Definition um_prefixes : list byte :=
  map_prefix (um_index_map u) :: map_prefix (um_values_map u) :: vector_prefixes (um_keys_vec u).

Lemma um_fresh st : fresh um_prefixes st -> um_rep u st [] ∅.
Proof using Hkt.
  clear env Hwho. intros Hf. split; [|apply NoDup_nil_2 | | |split].
  - apply vector_fresh. destruct Hf as [Hfit Hn]. split; [done|].
    intros p k Hp. apply Hn. unfold um_prefixes. by do 2 right.
  - intros k. rewrite elem_of_nil, lookup_empty. split; [done | by intros []].
  - by intros k Hk%elem_of_nil.
  - done.
  - intros k Hk _. apply (holds_fresh _ um_prefixes); [done | by left | by apply key_fits_ok].
  - intros k Hk. rewrite lookup_empty.
    apply (holds_fresh _ um_prefixes); [done | right; by left | by apply key_fits_ok].
Qed.

(** [for entry in map.iter(env)?] *)
Definition um_collect (n : nat) : QueryProg (SdkResult (list (SdkResult (K * V)))) :=
  let? range := UnorderedMap.iter u env in
  items ← collect (fun index => UnorderedMap.iter_next u range.2 index env) n range.1;
  mret (Ok items).

(** Iteration visits every entry once. *)
Lemma um_collect_spec st keys m n :
  um_rep u st keys m -> (size m < n)%nat ->
  exists l, l ≡ₚ map_to_list m /\
    exec_local a (lift_query (um_collect n)) st = Some (Ok (Ok <$> l), st).
Proof using Hwho Hst.
  intros Hr Hn. pose proof (um_size _ _ _ Hr) as Hsize. pose proof (um_len_spec _ _ _ Hr) as Hlen.
  destruct Hr as [Hkeys Hnd Hdom Hkf [_ _ Hv]]. pose proof (vr_fit _ _ _ _ Hkeys) as Hfit.
  destruct (entries_of_keys m keys Hnd Hdom) as (l & <- & Hl & Hp). exists l. split; [done|].
  rewrite length_fmap in Hsize. pose proof (vr_range _ _ _ _ Hkeys) as Hrange.
  unfold zlen in Hrange. rewrite length_fmap in Hrange.
  unfold um_collect, UnorderedMap.iter. rewrite !exec_local_lift_try, Hlen.
  cbn [mbind option_bind lift_query exec_local mret QueryProg_ret fst snd]. rewrite exec_local_lift_bind.
  erewrite (collect_spec a _ st (Ok <$> l) 0 n); [done | rewrite length_fmap; lia|].
  intros i. rewrite list_lookup_fmap. unfold UnorderedMap.iter_next, u64_leb.
  destruct (l !! i) as [[k v]|] eqn:Ei; cbn [fmap option_fmap option_map].
  - pose proof (lookup_lt_Some _ _ _ Ei). rewrite (proj2 (Z.leb_gt _ _)), u64_add_small by lia.
    assert (Hk : l.*1 !! i = Some k) by (by rewrite list_lookup_fmap, Ei).
    pose proof (Hv k (Hkf k (list_elem_of_lookup_2 _ _ _ Hk))) as Hget.
    rewrite (Hl k v (list_elem_of_lookup_2 _ _ _ Ei)) in Hget.
    rewrite exec_local_lift_bind, Z.add_0_l. unfold Vector.may_get.
    rewrite (exec_may_get a _ _ _ _ _ Hwho Hfit (vr_elems _ _ _ _ Hkeys _ _ Hk)). cbn [mbind option_bind].
    by rewrite exec_local_lift_bind, (exec_may_get a _ _ _ _ _ Hwho Hfit Hget).
  - apply lookup_ge_None in Ei. rewrite (proj2 (Z.leb_le _ _)) by lia. done.
Qed.

(** ** Every sequence of operations *)

Inductive MapOp :=
| MInsert (k : K) (v : V) | MRemove (k : K) | MGet (k : K) | MLen | MIsEmpty
| MUpdate (k : K) (f : option V -> SdkResult V).

Inductive MapObs :=
| MObsOption (r : SdkResult (option V))
| MObsLen (r : SdkResult U64)
| MObsBool (r : SdkResult bool)
| MObsItem (r : SdkResult V).

Definition um_impl (op : MapOp) : EnvProg MapObs :=
  match op with
  | MInsert k v => r ← UnorderedMap.insert u k v env; mret (MObsOption r)
  | MRemove k => r ← UnorderedMap.remove u k env; mret (MObsOption r)
  | MGet k => r ← lift_query (UnorderedMap.get u k env); mret (MObsItem r)
  | MLen => r ← lift_query (UnorderedMap.len u env); mret (MObsLen r)
  | MIsEmpty => r ← lift_query (UnorderedMap.is_empty u env); mret (MObsBool r)
  | MUpdate k f => r ← UnorderedMap.update u k f env; mret (MObsItem r)
  end.

Definition um_model (op : MapOp) (m : gmap K V) : MapObs * gmap K V :=
  match op with
  | MInsert k v => (MObsOption (Ok (m !! k)), <[k := v]> m)
  | MRemove k => (MObsOption (Ok (m !! k)), delete k m)
  | MGet k => (MObsItem (ok_or (m !! k) ERR_NOT_FOUND), m)
  | MLen => (MObsLen (Ok (Z.of_nat (size m))), m)
  | MIsEmpty => (MObsBool (Ok (bool_decide (m = ∅))), m)
  | MUpdate k f => (MObsItem (f (m !! k)), match f (m !! k) with Ok v => <[k := v]> m | Err _ => m end)
  end.

(** Keys and values fit and the entries are not too many. *)
Definition um_op_ok (op : MapOp) (m : gmap K V) : Prop :=
  match op with
  | MInsert k v => key_fits k /\ fits v /\ Z.of_nat (size m) < u64_max
  | MRemove k | MGet k => key_fits k
  | MUpdate k f => key_fits k /\ (forall v, f (m !! k) = Ok v -> fits v) /\ Z.of_nat (size m) < u64_max
  | MLen | MIsEmpty => True
  end.

Lemma um_step st m op :
  (exists keys, um_rep u st keys m) -> um_op_ok op m ->
  exists st', exec_local a (um_impl op) st = Some ((um_model op m).1, st') /\
              exists keys, um_rep u st' keys (um_model op m).2.
Proof using Hd Hwho Hst Hkt.
  intros [keys Hr] Hop. destruct op as [k v|k|k| | |k f]; cbn [um_impl um_model fst snd] in *; rewrite exec_local_bind.
  - destruct Hop as (Hk & Hv & Hn). destruct (um_insert_spec _ _ _ _ _ Hr Hk Hv Hn) as (st' & keys' & He & Hr').
    rewrite He. eauto.
  - destruct (um_remove_spec _ _ _ _ Hr Hop) as (st' & keys' & He & Hr'). rewrite He. eauto.
  - pose proof Hr as [Hkeys _ _ _ [_ _ Hv]]. unfold UnorderedMap.get.
    rewrite (exec_get a _ _ _ _ _ Hwho (vr_fit _ _ _ _ Hkeys) (Hv _ Hop)). eauto.
  - rewrite (um_len_spec _ _ _ Hr). eauto.
  - unfold UnorderedMap.is_empty. rewrite exec_local_lift_try, (um_len_spec _ _ _ Hr). exists st. split; [|eauto].
    cbn [mbind option_bind lift_query exec_local mret QueryProg_ret EnvProg_ret]. do 4 f_equal.
    unfold u64_eqb. case_bool_decide as Hm; [by subst|]. apply Z.eqb_neq. apply map_size_non_empty_iff in Hm. lia.
  - destruct Hop as (Hk & Hv & Hn). unfold UnorderedMap.update.
    rewrite exec_local_try, (um_get_spec _ _ _ _ Hr Hk). cbn [mbind option_bind].
    destruct (f (m !! k)) as [v|e]; [|by eauto].
    rewrite exec_local_try. cbn [mbind option_bind exec_local mret EnvProg_ret].
    destruct (um_insert_spec _ _ _ _ v Hr Hk) as (st' & keys' & He & Hr'); [by apply Hv | done|].
    rewrite exec_local_try, He. eauto.
Qed.

End UnorderedMap.
