(* ===== verification/TokenFacts.v ===== *)
(** * Conservation of the token supply

    The balances of a token account add up to its recorded supply, modulo the
    width of the [u128] counters: [Token]'s code keeps this invariant in the
    logic of [Isolation], whoever calls it and however often it is re-entered. *)

From S2P Require Import Prelude Core Collections Runtime Invoker Token InvokerFacts Isolation CollectionFacts.

Open Scope evolve_scope.

(** The sum of all balances. *)
Definition total (bal : gmap AccountId Z) : Z := map_fold (fun _ v n => v + n) 0 bal.

Lemma total_insert bal x v : total (<[x := v]> bal) = total bal - default 0 (bal !! x) + v.
Proof.
  unfold total. destruct (bal !! x) as [o|] eqn:E; cbn.
  - rewrite <-insert_delete_eq, map_fold_insert_L by (apply lookup_delete_eq || (intros; lia)).
    rewrite (map_fold_delete_L _ _ x o bal) by (done || (intros; lia)). lia.
  - rewrite map_fold_insert_L by (done || (intros; lia)). lia.
Qed.

Lemma total_singleton x v : total {[x := v]} = v.
Proof. unfold total. rewrite map_fold_singleton. lia. Qed.

Lemma total_nonneg bal : map_Forall (fun _ v => 0 <= v) bal -> 0 <= total bal.
Proof.
  unfold total. apply (map_fold_weak_ind (fun r m => map_Forall (fun _ v => 0 <= v) m -> 0 <= r)); [done|].
  intros x v m r Hm IH Hall. apply map_Forall_insert in Hall as [? ?]; [|done]. specialize (IH ltac:(done)). lia.
Qed.

Lemma total_bound bal x : map_Forall (fun _ v => 0 <= v) bal -> 0 <= default 0 (bal !! x) <= total bal.
Proof.
  intros Hn. destruct (bal !! x) as [v|] eqn:E; cbn; [|pose proof (total_nonneg _ Hn); lia].
  pose proof (total_nonneg (delete x bal) (map_Forall_delete _ _ _ Hn)) as Hd.
  pose proof (total_insert (delete x bal) x v) as Hi.
  rewrite insert_delete_id, lookup_delete_eq in Hi by done. cbn in Hi. specialize (Hn _ _ E). cbn in Hn. lia.
Qed.

Section TokenFacts.
Context `{RuntimeDeps} `{CollectionCodec} `{!TokenCodec}.

(** The store holds the balances [bal] and the supply [supply]. *)
Record token_rep (st : Store) (bal : gmap AccountId Z) (supply : option Z) : Prop := {
  rep_balances : forall x k, Map.make_key Token.balances x = Ok k ->
                 read (V := U128) st k = Ok (bal !! x : option Z);
  rep_supply : forall k, Map.make_key Token.total_supply_item tt = Ok k ->
               read (V := U128) st k = Ok supply }.

Definition conserved (st : Store) : Prop := exists bal supply q,
  token_rep st bal supply /\ total bal = default 0 supply + q * 2 ^ 128.

Lemma token_rep_proper st st' bal supply : store_eq st st' -> token_rep st bal supply -> token_rep st' bal supply.
Proof. intros Hs [Hb1 Hs1]. split; intros; rewrite <-(read_proper st st') by done; auto. Qed.

Lemma conserved_proper st st' : store_eq st st' -> conserved st -> conserved st'.
Proof.
  intros Hs (bal & supply & q & Hr & Ht). exists bal, supply, q. split; [|done].
  by eapply token_rep_proper.
Qed.

Lemma rep_set_balance st bal supply x (v : Z) k b :
  token_rep st bal supply -> Map.make_key Token.balances x = Ok k -> encode_value (A := U128) v = Ok b ->
  token_rep (upd st k (Some b)) (<[x := v]> bal) supply.
Proof.
  intros [Hb1 Hs1] Hk Hb. split.
  - intros y k' Hk'. destruct (decide (y = x)) as [->|Hne].
    + assert (k' = k) as -> by congruence. rewrite lookup_insert_eq. by apply (read_upd (V := U128)).
    + rewrite lookup_insert_ne by done. rewrite read_upd_ne; [by apply Hb1|]. intros ->. by eapply Hne, make_key_inj.
  - intros k' Hk'. rewrite read_upd_ne; [by apply Hs1|]. intros ->.
    unfold Map.make_key in Hk, Hk'. repeat case_match; simplify_eq.
Qed.

Lemma rep_set_supply st bal supply (v : Z) k b :
  token_rep st bal supply -> Map.make_key Token.total_supply_item tt = Ok k ->
  encode_value (A := U128) v = Ok b -> token_rep (upd st k (Some b)) bal (Some v).
Proof.
  intros [Hb1 Hs1] Hk Hb. split.
  - intros y k' Hk'. rewrite read_upd_ne; [by apply Hb1|]. intros ->.
    unfold Map.make_key in Hk, Hk'. repeat case_match; simplify_eq.
  - intros k' Hk'. assert (k' = k) as -> by congruence. by apply (read_upd (V := U128)).
Qed.

Lemma token_rep_empty : token_rep (fun _ => Ok None) ∅ None.
Proof. by split. Qed.

Lemma rep_set_manager st bal supply k v :
  token_rep st bal supply -> Map.make_key Token.supply_manager tt = Ok k ->
  token_rep (upd st k v) bal supply.
Proof.
  intros [Hb1 Hs1] Hk. split; intros; rewrite read_upd_ne; auto; intros ->;
    unfold Map.make_key in *; repeat case_match; simplify_eq.
Qed.

Lemma wrap128_eq z : exists q, wrap128 z = z + q * 2 ^ 128.
Proof.
  exists (- (z / 2 ^ 128)). unfold wrap128, wrapping. pose proof (Z.div_mod z (2 ^ 128)). lia.
Qed.

Context (a : AccountId).

Abbreviation keeps p := (fun st => wp a conserved p (fun r st' => is_ok r = true -> conserved st') st).

Lemma transfer_conserved msg env st :
  whoami env = a -> conserved st -> keeps (Token.transfer msg env) st.
Proof.
  intros Hwho (bal & supply & q & Hrep & Htot). unfold Token.transfer.
  apply wp_try, wp_update; [done | done |]. intros k1 o1 x1 b1 Hk1 Ho1 Hx1 Hb1.
  rewrite (rep_balances _ _ _ Hrep _ _ Hk1) in Ho1. injection Ho1 as <-.
  pose proof (rep_set_balance _ _ _ _ _ _ _ Hrep Hk1 Hb1) as Hrep1.
  apply wp_try, wp_update; [done | done |]. intros k2 o2 x2 b2 Hk2 Ho2 Hx2 Hb2.
  rewrite (rep_balances _ _ _ Hrep1 _ _ Hk2) in Ho2. injection Ho2 as <-.
  pose proof (rep_set_balance _ _ _ _ _ _ _ Hrep1 Hk2 Hb2) as Hrep2.
  cbn. intros _. injection Hx2 as <-.
  destruct (wrap128_eq (default 0 (<[sender env := (x1 : Z)]> bal !! transfer_to msg) + transfer_amount msg))
    as [q2 Hq2].
  unfold u128_checked_sub, checked_sub in Hx1. destruct (_ <? _); cbn in Hx1; [done|].
  injection Hx1 as <-.
  eexists _, supply, (q + q2). split; [exact Hrep2|].
  rewrite !total_insert. unfold u128_add. rewrite Hq2. lia.
Qed.

Lemma mint_unchecked_conserved r amount env st :
  whoami env = a -> conserved st -> keeps (Token.mint_unchecked r amount env) st.
Proof.
  intros Hwho (bal & supply & q & Hrep & Htot). unfold Token.mint_unchecked.
  apply wp_try, wp_update; [done | done |]. intros k1 o1 x1 b1 Hk1 Ho1 Hx1 Hb1.
  rewrite (rep_balances _ _ _ Hrep _ _ Hk1) in Ho1. injection Ho1 as <-.
  pose proof (rep_set_balance _ _ _ _ _ _ _ Hrep Hk1 Hb1) as Hrep1.
  apply wp_try, wp_update; [done | done |]. intros k2 o2 x2 b2 Hk2 Ho2 Hx2 Hb2.
  rewrite (rep_supply _ _ _ Hrep1 _ Hk2) in Ho2. injection Ho2 as <-.
  pose proof (rep_set_supply _ _ _ _ _ _ Hrep1 Hk2 Hb2) as Hrep2.
  cbn. intros _. injection Hx1 as <-. injection Hx2 as <-. unfold u128_add in *.
  destruct (wrap128_eq (default 0 (bal !! r) + amount)) as [q1 Hq1].
  destruct (wrap128_eq (default 0 supply + amount)) as [q2 Hq2].
  eexists _, _, (q + q1 - q2). split; [exact Hrep2|].
  cbn. rewrite total_insert, Hq1, Hq2. lia.
Qed.

Lemma burn_unchecked_conserved r amount env st :
  whoami env = a -> conserved st -> keeps (Token.burn_unchecked r amount env) st.
Proof.
  intros Hwho (bal & supply & q & Hrep & Htot). unfold Token.burn_unchecked.
  apply wp_try, wp_update; [done | done |]. intros k1 o1 x1 b1 Hk1 Ho1 Hx1 Hb1.
  rewrite (rep_balances _ _ _ Hrep _ _ Hk1) in Ho1. injection Ho1 as <-.
  pose proof (rep_set_balance _ _ _ _ _ _ _ Hrep Hk1 Hb1) as Hrep1.
  apply wp_try, wp_update; [done | done |]. intros k2 o2 x2 b2 Hk2 Ho2 Hx2 Hb2.
  rewrite (rep_supply _ _ _ Hrep1 _ Hk2) in Ho2. injection Ho2 as <-.
  pose proof (rep_set_supply _ _ _ _ _ _ Hrep1 Hk2 Hb2) as Hrep2.
  cbn. intros _. unfold u128_checked_sub, checked_sub in Hx1, Hx2.
  destruct (_ <? _); cbn in Hx1; [done|]. destruct (_ <? _) in Hx2; cbn in Hx2; [done|].
  injection Hx1 as <-. injection Hx2 as <-.
  eexists _, _, q. split; [exact Hrep2|]. cbn. rewrite total_insert. lia.
Qed.

(** An arm keeps an invariant when its method does, on every message it can
    have decoded. *)
Lemma exec_arm_keeps {Msg} `{Borsh Msg} (I : Store -> Prop)
    (method : Msg -> EnvView -> EnvProg (SdkResult unit)) env req st :
  (forall msg, InvokeRequest.get req = Ok msg ->
     wp a I (method msg env) (fun r st' => is_ok r = true -> I st') st) ->
  wp a I (exec_arm false method env req) (fun r st' => is_ok r = true -> I st') st.
Proof.
  intros Hm. unfold exec_arm. destruct (InvokeRequest.get req) as [msg|e]; cbn; [|done].
  case_match; cbn; [done|]. apply wp_try. eapply wp_mono; [|by apply Hm].
  intros [[]|e] st'; cbn; auto.
Qed.

(** The manager check of [mint] and [burn] only reads. *)
Lemma wp_managed (I : Store -> Prop) (p : EnvProg (SdkResult unit)) env st :
  whoami env = a ->
  (forall k, Map.make_key Token.supply_manager tt = Ok k ->
     read st k = Ok (Some (Some (sender env))) ->
     wp a I p (fun r st' => is_ok r = true -> I st') st) ->
  wp a I (let? manager := lift_query (Item.get Token.supply_manager env) in
          if bool_decide (manager ≠ Some (sender env)) then mret (Err ERR_UNAUTHORIZED) else p)
    (fun r st' => is_ok r = true -> I st') st.
Proof.
  intros Hwho Hp. apply wp_try, wp_lift_try, wp_may_get; [done | done |].
  intros k o Hk Ho. destruct o as [manager|]; cbn; [|done].
  case_bool_decide as Hm; cbn; [done|]. subst manager. by eapply Hp.
Qed.

Lemma token_keeps_conserved : keeps_invariant a Token.code conserved.
Proof.
  intros env req st Hwho Hst. cbn [Token.code code_execute dispatch].
  repeat case_match; [..|done]; apply exec_arm_keeps; intros msg _.
  - apply wp_managed; [done|]. intros. by apply mint_unchecked_conserved.
  - apply wp_managed; [done|]. intros. by apply burn_unchecked_conserved.
  - by apply transfer_conserved.
Qed.

(** ** A token without a supply manager *)

(** Nobody manages the supply, which is [s0] and exactly the sum of the
    balances. *)
Record fixed_supply_rep (s0 : Z) (st : Store) (bal : gmap AccountId Z) : Prop := {
  fs_rep : token_rep st bal (Some s0);
  fs_manager : forall k, Map.make_key Token.supply_manager tt = Ok k ->
               read (V := option AccountId) st k = Ok (Some None);
  fs_total : total bal = s0;
  fs_range : is_u128 s0;
  fs_nonneg : map_Forall (fun _ v => 0 <= v) bal }.

Definition fixed_supply (s0 : Z) (st : Store) : Prop := exists bal, fixed_supply_rep s0 st bal.

Lemma fixed_supply_proper s0 st st' : store_eq st st' -> fixed_supply s0 st -> fixed_supply s0 st'.
Proof.
  intros Hs (bal & [Hrep Hm Ht Hr Hn]). exists bal. split; try done; [by eapply token_rep_proper|].
  intros. rewrite <-(read_proper st st') by done. auto.
Qed.

Lemma transfer_fixed_supply s0 msg env st :
  is_u128 (transfer_amount msg) -> whoami env = a -> fixed_supply s0 st ->
  wp a (fixed_supply s0) (Token.transfer msg env) (fun r st' => is_ok r = true -> fixed_supply s0 st') st.
Proof.
  intros Hamt Hwho (bal & [Hrep Hman Htot Hr Hn]). unfold Token.transfer.
  apply wp_try, wp_update; [done | done |]. intros k1 o1 x1 b1 Hk1 Ho1 Hx1 Hb1.
  rewrite (rep_balances _ _ _ Hrep _ _ Hk1) in Ho1. injection Ho1 as <-.
  pose proof (rep_set_balance _ _ _ _ _ _ _ Hrep Hk1 Hb1) as Hrep1.
  apply wp_try, wp_update; [done | done |]. intros k2 o2 x2 b2 Hk2 Ho2 Hx2 Hb2.
  rewrite (rep_balances _ _ _ Hrep1 _ _ Hk2) in Ho2. injection Ho2 as <-.
  pose proof (rep_set_balance _ _ _ _ _ _ _ Hrep1 Hk2 Hb2) as Hrep2.
  cbn. intros _. injection Hx2 as <-.
  unfold u128_checked_sub, checked_sub in Hx1. destruct (_ <? _) eqn:Hlt; cbn in Hx1; [done|].
  injection Hx1 as <-. apply Z.ltb_ge in Hlt. unfold is_u128 in *.
  pose proof (total_bound bal (sender env) Hn) as Hfrom.
  set (bal1 := <[sender env := _]> bal) in *.
  assert (map_Forall (fun _ v => 0 <= v) bal1) as Hn1 by (apply map_Forall_insert_2; [lia | done]).
  assert (total bal1 = s0 - transfer_amount msg) as Htot1 by (unfold bal1; rewrite total_insert; lia).
  pose proof (total_bound bal1 (transfer_to msg) Hn1) as Hto.
  unfold u128_add, wrap128, wrapping in Hb2, Hrep2.
  rewrite Z.mod_small in Hrep2 by (unfold u128_max in *; lia).
  eexists. split; [exact Hrep2 | | | done |].
  - intros k Hk. rewrite !read_upd_ne; [by apply Hman| |]; intros ->;
      unfold Map.make_key in Hk, Hk1, Hk2; repeat case_match; simplify_eq.
  - rewrite total_insert. lia.
  - apply map_Forall_insert_2; [lia | done].
Qed.

(** Without a manager the supply can never change and the balances always
    add up to it. *)
Lemma token_keeps_fixed_supply s0 : keeps_invariant a Token.code (fixed_supply s0).
Proof.
  intros env req st Hwho Hst. cbn [Token.code code_execute dispatch].
  repeat case_match; [..|done]; apply exec_arm_keeps; intros msg Hmsg.
  1, 2: apply wp_managed; [done|]; intros k Hk Hread; destruct Hst as (bal & [_ Hman _ _ _]);
    rewrite (Hman _ Hk) in Hread; discriminate.
  apply transfer_fixed_supply; [|done..].
  unfold InvokeRequest.get, Message.get, decode_value in Hmsg. destruct (inner _) as [b].
  destruct (from_slice b) as [m|] eqn:Hb; [|done]. injection Hmsg as <-. by eapply transfer_in_range.
Qed.

(** ** Initialisation *)

Definition amounts (bs : list (AccountId * Z)) : Z := foldr Z.add 0 bs.*2.

Lemma rep_set_metadata st bal supply k v :
  token_rep st bal supply -> Map.make_key Token.metadata_item tt = Ok k ->
  token_rep (upd st k v) bal supply.
Proof.
  intros [Hb1 Hs1] Hk. split; intros; rewrite read_upd_ne; auto; intros ->;
    unfold Map.make_key in *; repeat case_match; simplify_eq.
Qed.

Lemma wrap128_add_l x y : wrap128 (wrap128 x + y) = wrap128 (x + y).
Proof. unfold wrap128, wrapping. by rewrite Z.add_mod_idemp_l. Qed.

(** Adds the given balances, which belong to accounts without one so far. *)
Lemma initialize_loop_rep (I : Store -> Prop) supply bs : forall bal acc st,
  NoDup bs.*1 -> (forall x, x ∈ bs.*1 -> bal !! x = None) -> token_rep st bal supply ->
  wp a I (Token.initialize_loop bs (wrap128 acc)) (fun r st' => forall total_supply, r = Ok total_supply ->
    (exists bal', token_rep st' bal' supply /\ total bal' = total bal + amounts bs /\
       (Forall (fun v => 0 <= v) bs.*2 -> map_Forall (fun _ v => 0 <= v) bal ->
        map_Forall (fun _ v => 0 <= v) bal')) /\
    total_supply = wrap128 (acc + amounts bs)) st.
Proof.
  induction bs as [|[x v] bs IH]; intros bal acc st Hnd Hnew Hrep; cbn [Token.initialize_loop].
  { intros t [= <-]. unfold amounts. cbn. rewrite !Z.add_0_r. eauto. }
  cbn in Hnd. apply NoDup_cons in Hnd as [Hx Hnd].
  apply wp_try, wp_set; [done|]. intros k b Hk Hb. rewrite wrap128_add_l.
  eapply wp_mono; [|apply (IH (<[x := v]> bal)); [done | |by eapply rep_set_balance]].
  - intros r st' Hr t Ht. destruct (Hr t Ht) as [(bal' & Hrep' & Htot & Hn) ->].
    rewrite total_insert, (Hnew x) in Htot by (cbn; constructor). cbn in Htot.
    split; [|f_equal; unfold amounts; cbn; lia].
    exists bal'. split; [done|]. split; [unfold amounts in *; cbn; lia|].
    intros [? ?]%Forall_cons ?. by apply Hn; [|apply map_Forall_insert_2].
  - intros y Hy. rewrite lookup_insert_ne by (by intros <-). apply Hnew. cbn. by constructor.
Qed.

Lemma initialize_establishes (I : Store -> Prop) msg env st :
  NoDup (im_balances msg).*1 -> (forall k, st k = Ok None) ->
  wp a I (Token.initialize msg env) (fun r st' => is_ok r = true ->
    conserved st' /\
    (im_supply_manager msg = None -> Forall (fun v => 0 <= v) (im_balances msg).*2 ->
     amounts (im_balances msg) <= u128_max -> fixed_supply (amounts (im_balances msg)) st')) st.
Proof.
  intros Hnd Hst. unfold Token.initialize, Item.set.
  assert (token_rep st ∅ None) as Hrep by (apply (token_rep_proper _ _ _ _ (fun k => eq_sym (Hst k))), token_rep_empty).
  apply wp_try, wp_set; [done|]. intros km bm Hkm Hbm. apply wp_try.
  eapply wp_mono; [|apply (initialize_loop_rep _ None (im_balances msg) ∅ 0); [done | done | by apply rep_set_metadata]].
  intros [t|e] st1 Hr; [|done].
  destruct (Hr t eq_refl) as [(bal & Hrep1 & Htot & Hn) ->]. rewrite Z.add_0_l. clear Hr.
  apply wp_try, wp_set; [done|]. intros ks bs Hks Hbs.
  apply wp_try, wp_set; [done|]. intros kt bt Hkt Hbt. cbn. intros _.
  pose proof (rep_set_supply _ _ _ _ _ _ (rep_set_manager _ _ _ _ (Some bs) Hrep1 Hks) Hkt Hbt) as Hrep2.
  change (total ∅) with 0 in Htot. split.
  - destruct (wrap128_eq (amounts (im_balances msg))) as [q Hq].
    eexists _, _, (-q). split; [exact Hrep2|]. cbn. rewrite Htot, Hq. lia.
  - intros Hman Hpos Hmax. exists bal.
    assert (0 <= amounts (im_balances msg)) as H0a.
    { unfold amounts. clear -Hpos. induction Hpos; cbn; lia. }
    rewrite wrapping_small in Hrep2 by (unfold u128_max in Hmax; lia).
    split; [done | | lia | by split | by apply Hn].
    intros k Hk. assert (k = ks) as -> by congruence. rewrite read_upd_ne, Hman in *.
    + by apply read_upd.
    + intros ->. unfold Map.make_key in *. repeat case_match; simplify_eq.
Qed.

End TokenFacts.
