(* ===== verification/TokenExample.v ===== *)
(** * A concrete token chain

    Reference borsh instances for the collections and the token, and a chain
    with one token account, two holders and transfer transactions. The theorems
    on collections and on the token are evaluated on it. *)

From S2P Require Import Prelude Core Gas Collections ExecState ExecStateFacts Runtime Invoker Token Codec Stf Example.
From S2P Require Import InvokerFacts CallFacts Isolation CollectionFacts TokenFacts.

Import Reference.
Open Scope evolve_scope.

(** ** Reference instances *)

(** [Vec<T>]: a [u32] length and the elements. *)
Section List.
Context {A} `{BorshStream A}.

Fixpoint items_serialize (l : list A) : option bytes :=
  match l with
  | [] => Some []
  | a :: l => b ← serialize a; bs ← items_serialize l; Some (b ++ bs)
  end.

Fixpoint items_deserialize (n : nat) (reader : bytes) : option (list A * bytes) :=
  match n with
  | O => Some ([], reader)
  | S n => '(a, reader) ← deserialize_reader reader;
           '(l, reader) ← items_deserialize n reader; Some (a :: l, reader)
  end.

Lemma items_law l : forall b rest,
  items_serialize l = Some b -> items_deserialize (length l) (b ++ rest) = Some (l, rest).
Proof.
  induction l as [|a l IH]; intros b rest; cbn [items_serialize items_deserialize length].
  { intros Hb. by apply (inj Some) in Hb as <-. }
  destruct (serialize a) as [x|] eqn:Ex; [|done].
  destruct (items_serialize l) as [xs|] eqn:Exs; [|done]. cbn [mbind option_bind].
  intros Hb. apply (inj Some) in Hb as <-. rewrite <-app_assoc, (deserialize_serialize _ _ _ Ex).
  cbn [mbind option_bind]. by rewrite (IH _ _ eq_refl).
Qed.

Definition list_serialize (l : list A) : option bytes :=
  n ← uint_serialize 4 (zlen l); b ← items_serialize l; Some (n ++ b).

Definition list_deserialize (reader : bytes) : option (list A * bytes) :=
  '(n, reader) ← uint_deserialize 4 reader; items_deserialize (Z.to_nat n) reader.

Lemma list_law l b rest :
  list_serialize l = Some b -> list_deserialize (b ++ rest) = Some (l, rest).
Proof.
  unfold list_serialize, list_deserialize. destruct (uint_serialize 4 (zlen l)) as [n|] eqn:En; [|done].
  destruct (items_serialize l) as [x|] eqn:Ex; [|done]. cbn [mbind option_bind].
  intros Hb. apply (inj Some) in Hb as <-.
  rewrite <-app_assoc, (uint_law 4 _ _ _ En). cbn [mbind option_bind].
  unfold zlen. by rewrite Nat2Z.id, (items_law _ _ _ Ex).
Qed.

Definition list_stream : BorshStream (list A) :=
  {| serialize := list_serialize; deserialize_reader := list_deserialize;
     deserialize_serialize := list_law |}.
End List.

(** A decoded integer fits its width. *)
Lemma uint_range n b z r : uint_deserialize n b = Some (z, r) -> 0 <= z < 256 ^ Z.of_nat n.
Proof.
  unfold uint_deserialize, read_exact. destruct (_ <=? _)%nat eqn:E; [|done]. cbn [mbind option_bind].
  intros [= <- _]. pose proof (le_value_range (take n b)) as Hr. apply Nat.leb_le in E.
  unfold zlen in Hr. by rewrite length_take_le in Hr.
Qed.

#[export] Instance u64_stream : BorshStream U64 := uint 8.
#[export] Instance u128_stream : BorshStream U128 := uint 16.

#[export] Instance collection_codec : CollectionCodec.
Proof.
  refine {| coll_u64 := @stream_borsh _ u64_stream;
            coll_unit := @stream_borsh _ (unit_stream tt (fun a => ltac:(by destruct a))) |}.
  intros b n. cbn. unfold stream_from_slice. cbn [deserialize_reader u64_stream uint].
  destruct (uint_deserialize 8 b) as [[z [|]]|] eqn:E; try done. intros [= <-].
  apply uint_range in E. change (256 ^ Z.of_nat 8) with (2 ^ 64) in E. unfold is_u64, u64_max. lia.
Defined.

#[export] Instance metadata_stream : BorshStream FungibleAssetMetadata.
Proof.
  refine (iso (H := pair_stream (H := pair_stream (H := pair_stream (H0 := pair_stream (H0 := uint 1)))))
            (fun m => (fa_name m, (fa_symbol m, fa_decimals m), fa_icon_url m, fa_description m))
            (fun p => Some (mkFungibleAssetMetadata p.1.1.1 p.1.1.2.1 p.1.1.2.2 p.1.2 p.2))
            (fun _ => true) _). by_iso.
Defined.

#[export] Instance initialize_stream : BorshStream InitializeMsg.
Proof.
  refine (iso (H := pair_stream (H := pair_stream (H0 := list_stream (H := pair_stream (H0 := uint 16)))))
            (fun m => (im_metadata m, im_balances m, im_supply_manager m))
            (fun p => Some (mkInitializeMsg p.1.1 p.1.2 p.2)) (fun _ => true) _). by_iso.
Defined.

#[export] Instance mint_stream : BorshStream MintMsg.
Proof.
  refine (iso (H := pair_stream (H0 := uint 16)) (fun m => (mint_recipient m, mint_amount m))
            (fun p => Some (mkMintMsg p.1 p.2)) (fun _ => true) _). by_iso.
Defined.

#[export] Instance burn_stream : BorshStream BurnMsg.
Proof.
  refine (iso (H := pair_stream (H0 := uint 16)) (fun m => (burn_from_account m, burn_amount m))
            (fun p => Some (mkBurnMsg p.1 p.2)) (fun _ => true) _). by_iso.
Defined.

#[export] Instance get_balance_stream : BorshStream GetBalanceMsg.
Proof. refine (iso gb_account (fun a => Some (mkGetBalanceMsg a)) (fun _ => true) _). by_iso. Defined.

#[export] Instance token_codec : TokenCodec.
Proof.
  refine {| tok_u128 := @stream_borsh _ u128_stream;
            tok_metadata := stream_borsh; tok_manager := stream_borsh;
            tok_balance_response := @stream_borsh _ (option_stream (A := U128));
            tok_initialize := stream_borsh; tok_mint := stream_borsh; tok_burn := stream_borsh;
            tok_metadata_msg := @stream_borsh _ (unit_stream mkMetadataMsg (fun a => ltac:(by destruct a)));
            tok_get_balance := stream_borsh;
            tok_total_supply := @stream_borsh _ (unit_stream mkTotalSupplyMsg (fun a => ltac:(by destruct a))) |}.
  - intros b n. cbn. unfold stream_from_slice. cbn [deserialize_reader u128_stream uint].
    destruct (uint_deserialize 16 b) as [[z [|]]|] eqn:E; try done. intros [= <-].
    apply uint_range in E. change (256 ^ Z.of_nat 16) with (2 ^ 128) in E. unfold is_u128, u128_max. lia.
  - intros b m. cbn. unfold stream_from_slice.
    cbn [deserialize_reader transfer_stream iso pair_stream uint].
    unfold iso_deserialize. cbn [deserialize_reader pair_stream uint]. unfold pair_deserialize.
    destruct (deserialize_reader b) as [[to r1]|]; [|done]. cbn [mbind option_bind deserialize_reader uint].
    destruct (uint_deserialize 16 r1) as [[z [|]]|] eqn:E; try done. intros [= <-]. cbn.
    apply uint_range in E. change (256 ^ Z.of_nat 16) with (2 ^ 128) in E. unfold is_u128, u128_max. lia.
Defined.

(** ** The chain *)

Definition token_codes : AccountsCodeStorage := {|
  lookup_code id := Ok (if bool_decide (id = "Token") then Some Token.code else None) |}.

Definition token_account : AccountId := AccountId.from_u64 65540.
Definition alice : AccountId := AccountId.from_u64 65541.
Definition bob : AccountId := AccountId.from_u64 65542.

Definition key_of (r : SdkResult bytes) : bytes := match r with Ok k => k | Err _ => [] end.
Definition balance_key : bytes := key_of (Map.make_key Token.balances alice).
Definition supply_key : bytes := key_of (Map.make_key Token.total_supply_item tt).
Definition manager_key : bytes := key_of (Map.make_key Token.supply_manager tt).

(** The store of a token whose 100 units belong to [alice], managed by [manager]. *)
Definition token_entries (manager : option AccountId) : list (bytes * option bytes) :=
  [ (get_account_code_identifier_for_account_key token_account, to_vec "Token");
    (account_number_key, to_vec (AccountId.from_u64 65543));
    (account_storage_key token_account balance_key, to_vec (100 : U128));
    (account_storage_key token_account supply_key, to_vec (100 : U128));
    (account_storage_key token_account manager_key, to_vec manager) ].

Definition token_base (manager : option AccountId) (key : bytes) : SdkResult (option bytes) :=
  Ok (match list_find (fun e => e.1 = key) (token_entries manager) with
      | Some (_, e) => e.2
      | None => None
      end).

(** A transaction of [alice] calling the token. *)
Record TokenTx := mkTokenTx { tt_request : InvokeRequest }.

#[export] Instance TokenTx_transaction : Transaction TokenTx := {|
  tx_sender _ := alice;
  tx_recipient _ := token_account;
  tx_request := tt_request;
  tx_gas_limit _ := 100000;
  tx_funds _ := [];
  compute_identifier _ := vreplicate 32 x00;
  resolve_sender_account := default_resolve_sender_account (fun _ => alice);
  resolve_recipient_account := default_resolve_recipient_account (fun _ => token_account);
  sender_bootstrap := default_sender_bootstrap;
  after_sender_bootstrap := default_after_sender_bootstrap |}.

#[export] Instance TokenBlock_block : Block (list TokenTx) TokenTx := {|
  block_context _ := mkBlockContext 1 1;
  block_txs txs := txs;
  block_gas_limit _ := u64_max |}.

Definition token_stf : Stf TokenTx (list TokenTx) := {|
  begin_blocker _ _ := PRet tt;
  end_blocker _ := PRet tt;
  tx_validator _ _ := PRet (Ok tt);
  post_tx_handler _ _ _ _ := PRet (Ok tt);
  storage_gas_config := StorageGasConfig_default |}.

Definition request {A} `{Borsh A} (name : string) (a : A) : InvokeRequest :=
  InvokeRequest.new_from_message name (compute_function_id name)
    (Message.from_bytes (default [] (to_vec a))).

Definition transfer_tx (to : AccountId) (amount : Z) : TokenTx :=
  mkTokenTx (request "transfer" (mkTransferMsg to amount)).
Definition mint_tx (to : AccountId) (amount : Z) : TokenTx :=
  mkTokenTx (request "mint" (mkMintMsg to amount)).

(** ** Facts on the concrete token chain

    The state of [TokenExample] satisfies the invariants of [TokenFacts], and
    its transactions are never sent as the token account. *)

Import Reference.
Definition token_state (manager : option AccountId) : ExecutionState :=
  ExecutionState.new (token_base manager).

Lemma token_base_find manager key :
  token_base manager key =
  Ok (foldr (fun e o => if decide (e.1 = key) then e.2 else o) None (token_entries manager)).
Proof.
  unfold token_base. f_equal. induction (token_entries manager) as [|e es IH]; [done|].
  cbn [list_find foldr]. destruct (decide (e.1 = key)); [done|]. rewrite <-IH.
  by destruct (list_find _ es) as [[]|].
Qed.

Lemma token_own manager :
  store_eq (own token_account (token_state manager))
    (upd (upd (upd (fun _ => Ok None) manager_key (to_vec manager))
      supply_key (to_vec (100 : U128))) balance_key (to_vec (100 : U128))).
Proof.
  intros k. unfold own, view. cbn [overlay base_storage ExecutionState.new token_state].
  rewrite lookup_empty, token_base_find. cbn [foldr token_entries fst snd]. unfold upd.
  assert (Hk : forall k', account_storage_key token_account k' = account_storage_key token_account k
                          <-> k = k').
  { intros k'. split; [by intros [_ ->]%account_storage_key_inj | by intros ->]. }
  rewrite !(decide_ext _ _ _ _ (Hk _)).
  rewrite !decide_False by done. by repeat case_decide.
Qed.

Lemma token_rep_base manager :
  token_rep (own token_account (token_state manager)) {[alice := 100]} (Some 100).
Proof.
  apply (token_rep_proper _ _ _ _ (symmetry (token_own manager))).
  apply (rep_set_balance _ ∅ _ alice 100); [|done|done].
  apply (rep_set_supply _ _ None 100); [|done|done].
  apply rep_set_manager; [|done]. apply token_rep_empty.
Qed.

Lemma token_conserved manager : conserved (own token_account (token_state manager)).
Proof. exists {[alice := 100]}, (Some 100), 0. split; [apply token_rep_base | by rewrite total_singleton]. Qed.

Lemma token_fixed_supply : fixed_supply 100 (own token_account (token_state None)).
Proof.
  exists {[alice := 100]}. split; [apply token_rep_base | | apply total_singleton | done |].
  - intros k Hk. apply (inj Ok) in Hk as <-. by vm_compute.
  - by apply map_Forall_singleton.
Qed.

Lemma token_good manager (I : Store -> Prop) :
  I (own token_account (token_state manager)) ->
  good token_account "Token" 65543 (2 ^ 256) I (token_state manager).
Proof.
  intros HI. split; [split | | done].
  - by vm_compute.
  - intros last. assert (next_id (token_state manager) = Ok (AccountId.from_u64 65543)) as -> by by vm_compute.
    intros Hl. apply (inj Ok) in Hl as <-. split; [by left | by vm_compute].
  - done.
Qed.
