(* ===== verification/StfFacts.v ===== *)
(** * Properties of the state transition function

    For arbitrary transactions, block components and account code: gas bounds
    of transactions and blocks, what a block can write, the accounting of
    skipped transactions, rollback of failed transactions, the instrumented
    block path against the plain one, simulation against execution, and
    termination. *)

From S2P Require Import Prelude Core Gas ExecState ExecStateFacts Runtime Invoker Stf InvokerFacts.
From S2P Require Import CallFacts.

Open Scope evolve_scope.

(** ** Triples over the world *)

(** From [P], [m] panics only by the fault of the code it runs, and a result
    satisfies [Q]. *)
Definition triple {A} (P : World -> Prop) (m : M A) (Q : A -> World -> Prop) : Prop :=
  forall w, P w ->
    match m w with
    | Done a w' => Q a w'
    | Panicked why => why = CodePanic
    | OutOfFuel => True
    end.

Lemma triple_ret {A} (a : A) (P : World -> Prop) (Q : A -> World -> Prop) :
  (forall w, P w -> Q a w) -> triple P (mret a) Q.
Proof. intros HQ w Hw. by apply HQ. Qed.

Lemma triple_bind {A B} (m : M A) (k : A -> M B) P Q R :
  triple P m Q -> (forall a, triple (Q a) (k a) R) -> triple P (m ≫= k) R.
Proof.
  intros Hm Hk w Hw. specialize (Hm w Hw). unfold mbind, M_bind. destruct (m w); try done.
  by apply Hk.
Qed.

Lemma triple_try {A B} (m : M (SdkResult A)) (k : A -> M (SdkResult B)) P
    (I : World -> Prop) (R : SdkResult B -> World -> Prop) :
  triple P m (fun _ => I) -> (forall a, triple I (k a) R) ->
  (forall e w, I w -> R (Err e) w) -> triple P (try_bind m k) R.
Proof.
  intros Hm Hk He. eapply triple_bind; [exact Hm|]. intros [a|e]; [apply Hk|].
  apply triple_ret. auto.
Qed.

Lemma triple_weaken {A} (m : M A) (P P' : World -> Prop) (Q Q' : A -> World -> Prop) :
  triple P m Q -> (forall w, P' w -> P w) -> (forall a w, Q a w -> Q' a w) -> triple P' m Q'.
Proof.
  intros Hm HP HQ w Hw. specialize (Hm w (HP w Hw)). destruct (m w); auto.
Qed.

(** A property closed under [evolves] survives any sound computation. *)
Definition stable (I : World -> Prop) : Prop := forall w w', evolves w w' -> I w -> I w'.

Lemma triple_sound {A} (m : M A) I : m_sound m -> stable I -> triple I m (fun _ => I).
Proof.
  intros Hm HI w Hw. specialize (Hm w). destruct (m w); [by eapply HI | done | done].
Qed.

(** ** Gas totals *)

Definition gas_sum (rs : list TxResult) : Z := foldr (fun r n => tx_gas_used r + n) 0 rs.

Lemma gas_sum_cons r rs : gas_sum (r :: rs) = tx_gas_used r + gas_sum rs.
Proof. done. Qed.

Definition gas_within `{Transaction Tx} (tx : Tx) (r : TxResult) : Prop :=
  0 <= tx_gas_used r <= tx_gas_limit tx.

(** ** What a block does to the state *)

(** The steps of a block: runs of code under some gas counter, and the events
    taken out of the state. *)
Inductive advances : ExecutionState -> ExecutionState -> Prop :=
| adv_refl s : advances s s
| adv_trans s1 s2 s3 : advances s1 s2 -> advances s2 s3 -> advances s1 s3
| adv_run w w' : evolves w w' -> advances (w_storage w) (w_storage w')
| adv_pop s : advances s (ExecutionState.pop_events s).2.

#[export] Instance advances_preorder : PreOrder advances.
Proof. split; [intros ?; apply adv_refl | intros ???; apply adv_trans]. Qed.

Lemma advances_base s s' : advances s s' -> base_storage s' = base_storage s.
Proof.
  induction 1; [done | congruence | | done]. by apply evolves_extends in H as (? & _).
Qed.

Lemma advances_protocol_keys s s' k :
  advances s s' -> ~ protocol_key k -> view s' k = view s k.
Proof.
  intros Ha Hk. induction Ha; [done | congruence | | done].
  unfold view. rewrite (evolves_protocol_keys _ _ k H Hk).
  by destruct (evolves_extends _ _ H) as (-> & _).
Qed.

Lemma advances_overlay s s' k :
  advances s s' -> ~ protocol_key k -> overlay s' !! k = overlay s !! k.
Proof.
  intros Ha Hk. induction Ha as [|??? _ IH1 _ IH2| w w' Hev | s]; [done | by rewrite IH2 | | done].
  by apply evolves_protocol_keys.
Qed.

(** ** Gas within one transaction *)

Section Phases.
Context (s0 : ExecutionState) (g0 : GasCounter) (Hwf : gas_wf g0) (Hcfg : gas_config_wf g0).

(** The state advanced from [s0], the gas counter from [g0]. *)
Definition phase_inv (w : World) : Prop :=
  advances s0 (w_storage w) /\ gas_le g0 (w_gas w).

Lemma phase_stable : stable phase_inv.
Proof using Hwf Hcfg.
  intros w w' Hev [Ha Hg]. split.
  - etrans; [exact Ha | by apply adv_run].
  - etrans; [exact Hg|]. apply evolves_gas_le; [done | by eapply gas_le_wf | by eapply gas_le_config].
Qed.

Lemma pop_events_phase :
  triple phase_inv pop_events (fun _ w => phase_inv w /\ events (w_storage w) = []).
Proof.
  intros w [Ha Hg]. cbn. repeat split; try done. etrans; [exact Ha | apply adv_pop].
Qed.

End Phases.

#[export] Hint Resolve phase_stable : sound.

Section StfFacts.
Context `{RuntimeDeps} {Tx B : Type} `{Transaction Tx} `{Block B Tx}.
Context (self : Stf Tx B) (codes : AccountsCodeStorage) (fuel : nat).

Lemma stf_run_sound {R} ctx (code : EnvView -> EnvProg R) : m_sound (Stf.run codes fuel ctx code).
Proof. apply run_sound. Qed.

Lemma stf_do_exec_sound ctx to data fs : m_sound (Stf.do_exec codes fuel ctx to data fs).
Proof. apply m_atomic_sound, do_exec_atomic. Qed.

Lemma stf_do_query_sound ctx to data : m_sound (Stf.do_query codes fuel ctx to data).
Proof. apply do_query_sound. Qed.

Lemma stf_register_sound ctx a id msg :
  m_sound (Invoker.register_account_at_id codes (Stf.do_query codes fuel) (Stf.do_exec codes fuel)
             ctx a id msg).
Proof. apply register_account_at_id_sound; [apply stf_do_query_sound | apply stf_do_exec_sound]. Qed.

(** [read_gas_used] changes nothing and reads the counter. *)
Lemma read_gas_used_triple (I : World -> Prop) :
  triple I read_gas_used (fun n w => I w /\ n = GasCounter.gas_used (w_gas w)).
Proof. by intros [s g]. Qed.

(** The result of a transaction whose counter started at [g0]. *)
Definition tx_post (s0 : ExecutionState) (g0 : GasCounter) (r : TxResult) (w : World) : Prop :=
  advances s0 (w_storage w) /\ events (w_storage w) = [] /\
  gas_le g0 (w_gas w) /\ tx_gas_used r = GasCounter.gas_used (w_gas w).

Lemma finish_tx_triple s0 g0 (resp : SdkResult InvokeResponse) :
  triple (phase_inv s0 g0)
    (events ← pop_events; gas_used ← read_gas_used; mret (mkTxResult events gas_used resp))
    (tx_post s0 g0).
Proof.
  eapply triple_bind; [apply pop_events_phase|]. intros evs. cbn beta.
  eapply triple_bind; [apply read_gas_used_triple|]. intros n. cbn beta.
  apply triple_ret. intros w [[[Ha Hg] He] ->]. by repeat split.
Qed.

Lemma bootstrap_phase_triple s0 g0 tx a block :
  gas_wf g0 -> gas_config_wf g0 ->
  triple (phase_inv s0 g0) (Stf.bootstrap_sender_phase codes fuel tx a block)
    (fun _ => phase_inv s0 g0).
Proof.
  intros Hwf Hcfg. unfold Stf.bootstrap_sender_phase.
  destruct (sender_bootstrap tx) as [b|]; [|by apply triple_ret].
  eapply triple_try; [apply triple_sound; [apply stf_register_sound | by apply phase_stable]| |done].
  intros _. eapply triple_try; [apply triple_sound; [apply stf_run_sound | by apply phase_stable]| |done].
  intros _. eapply triple_bind; [apply pop_events_phase|]. intros evs. apply triple_ret. by intros w [].
Qed.

Lemma execute_phase_sound tx ctx a : m_sound (Stf.execute_tx_phase self codes fuel tx ctx a).
Proof.
  unfold Stf.execute_tx_phase. apply m_sound_try; [apply stf_run_sound|]. intros to.
  apply m_sound_bind; [apply stf_do_exec_sound|]. intros resp.
  apply m_sound_bind; [|intros n; apply m_sound_bind; [apply stf_run_sound|]; sound].
  intros [s g]. cbn. reflexivity.
Qed.

Lemma apply_tx_phases_triple s0 g0 tx block :
  gas_wf g0 -> gas_config_wf g0 ->
  triple (phase_inv s0 g0) (Stf.apply_tx_phases self codes fuel tx block) (tx_post s0 g0).
Proof.
  intros Hwf Hcfg. pose proof (phase_stable s0 g0 Hwf Hcfg) as Hst.
  eapply triple_bind; [apply triple_sound; [apply stf_run_sound | done]|].
  intros [a|e]; [|apply finish_tx_triple].
  eapply triple_bind; [by apply bootstrap_phase_triple|].
  intros [[]|e]; [|apply finish_tx_triple]. cbv zeta.
  eapply triple_bind; [apply triple_sound; [apply stf_run_sound | done]|].
  intros [[]|e]; [|apply finish_tx_triple].
  eapply triple_bind; [apply triple_sound; [apply execute_phase_sound | done]|].
  intros resp. apply finish_tx_triple.
Qed.

(** One transaction: it never exceeds its gas limit, leaves no event behind,
    and the caller's gas counter is untouched. *)
Lemma apply_tx_triple tx cfg block w :
  is_u64 (tx_gas_limit tx) -> config_wf cfg ->
  match Stf.apply_tx self codes fuel tx cfg block w with
  | Done r w' => advances (w_storage w) (w_storage w') /\ events (w_storage w') = [] /\
                 w_gas w' = w_gas w /\ 0 <= tx_gas_used r <= tx_gas_limit tx
  | Panicked why => why = CodePanic
  | OutOfFuel => True
  end.
Proof.
  intros Hl Hc. unfold Stf.apply_tx, with_gas_counter.
  set (g0 := Finite (tx_gas_limit tx) 0 cfg).
  assert (Hwf : gas_wf g0) by (by apply (finite_wf _ cfg)).
  pose proof (apply_tx_phases_triple (w_storage w) g0 tx block Hwf Hc (mkWorld (w_storage w) g0)
                (conj (reflexivity _) (reflexivity _))) as Ht.
  destruct (Stf.apply_tx_phases _ _ _ _ _ _) as [r w'| |]; try done. cbn [w_storage w_gas].
  destruct Ht as (Ha & He & Hg & ->). repeat split; try done.
  - pose proof (gas_le_used _ _ Hg). done.
  - pose proof (gas_le_wf _ _ Hg Hwf) as Hw'. subst g0.
    destruct (w_gas w') as [|l u c]; cbn in *; [done|]. destruct Hg as (-> & _). lia.
Qed.

(** ** The transaction loop *)

(** What the loop gives from [results], [cum] and [skipped] so far: the
    executed transactions [ex] and their results [new]. *)
Record loop_post (s0 : ExecutionState) (g0 : GasCounter) (len limit : Z) (txs : list Tx)
    (results : list TxResult) (cum : Z) (out : list TxResult * Z * Z) (w : World) : Prop := {
  lp_ex : exists ex new, sublist ex txs /\ Forall2 gas_within ex new /\
            out.1.1 = results ++ new /\ out.1.2 = Z.min u64_max (cum + gas_sum new);
  lp_limit : 0 <= out.1.2 <= limit;
  lp_skipped : out.1.2 < limit -> out.2 = len - zlen out.1.1;
  lp_skipped_bounds : len - zlen out.1.1 <= out.2 <= 2 * (len - zlen out.1.1);
  lp_adv : advances s0 (w_storage w);
  lp_gas : w_gas w = g0 }.

Lemma loop_post_skip s0 g0 len limit tx txs results cum out w :
  loop_post s0 g0 len limit txs results cum out w ->
  loop_post s0 g0 len limit (tx :: txs) results cum out w.
Proof.
  intros [(ex & new & Hs & Hrest) ?????]. split; try done.
  exists ex, new. split; [by apply sublist_cons | done].
Qed.

Lemma gas_sum_nonneg ex new : Forall2 gas_within ex new -> 0 <= gas_sum new.
Proof. induction 1 as [|tx r ex new Hr _ IH]; [done|]. rewrite gas_sum_cons. unfold gas_within in Hr. lia. Qed.

Lemma loop_post_run s0 g0 len limit tx txs results cum r out w :
  gas_within tx r ->
  loop_post s0 g0 len limit txs (results ++ [r]) (Z.min u64_max (cum + tx_gas_used r)) out w ->
  loop_post s0 g0 len limit (tx :: txs) results cum out w.
Proof.
  intros Hr [(ex & new & Hs & Hf & He & Hc) ?????]. split; try done.
  exists (tx :: ex), (r :: new). split; [by apply sublist_skip|]. split; [by constructor|].
  rewrite He, Hc, <-app_assoc. split; [done|]. rewrite gas_sum_cons.
  pose proof (gas_sum_nonneg _ _ Hf). lia.
Qed.

Lemma loop_post_stop s0 g0 len limit txs results cum n w :
  0 <= cum <= limit -> limit <= u64_max ->
  (cum < limit -> n = len - zlen results) -> len - zlen results <= n <= 2 * (len - zlen results) ->
  advances s0 (w_storage w) /\ w_gas w = g0 ->
  loop_post s0 g0 len limit txs results cum (results, cum, n) w.
Proof.
  intros Hcum Hl Hn Hb [Ha Hg]. split; cbn [fst snd]; try done.
  exists [], []. rewrite app_nil_r. cbn. repeat split; [apply sublist_nil_l | constructor | lia].
Qed.

Lemma apply_txs_triple len block limit txs : forall results cum skipped s0 g0,
  limit <= u64_max -> Forall (fun tx => is_u64 (tx_gas_limit tx)) txs ->
  config_wf (storage_gas_config self) -> 0 <= cum <= limit ->
  skipped = len - zlen txs - zlen results -> 0 <= skipped ->
  triple (fun w => advances s0 (w_storage w) /\ w_gas w = g0)
    (Stf.apply_txs self codes fuel len block limit txs results cum skipped)
    (loop_post s0 g0 len limit txs results cum).
Proof.
  induction txs as [|tx txs IH]; intros results cum skipped s0 g0 Hl Hu Hcfg Hcum -> Hsk;
    cbn [Stf.apply_txs].
  - apply triple_ret. intros w Hw. change (zlen (@nil Tx)) with 0 in *.
    apply loop_post_stop; try done; lia.
  - apply Forall_cons in Hu as [Htx Hu].
    assert (Hlen : zlen (tx :: txs) = 1 + zlen txs /\ 0 <= zlen txs) by (unfold zlen; cbn; lia).
    destruct (limit <? _) eqn:Efit.
    + eapply triple_weaken; [apply (IH results cum _ s0 g0); try done; lia | by intros w |].
      intros out w. apply loop_post_skip.
    + eapply triple_bind with (Q := fun r w => (advances s0 (w_storage w) /\ w_gas w = g0) /\
                                               gas_within tx r).
      { intros w [Ha Hg]. pose proof (apply_tx_triple tx (storage_gas_config self) block w Htx Hcfg) as Ht.
        destruct (Stf.apply_tx _ _ _ _ _ _ _) as [r w'| |]; try done.
        destruct Ht as (Ha' & _ & Hg' & Hr). repeat split; [by etrans | congruence | lia..]. }
      intros r w [Hw Hr]. cbv zeta. pose proof Hr as Hr'. unfold gas_within in Hr'.
      assert (Hres : zlen (results ++ [r]) = zlen results + 1) by (by rewrite zlen_app).
      unfold saturating_add in *. set (cum' := Z.min u64_max (cum + tx_gas_used r)).
      assert (Hcum' : 0 <= cum' <= limit) by lia.
      destruct (limit <=? cum') eqn:Estop.
      * apply (loop_post_run _ _ _ _ _ _ _ _ r); [done|]. apply loop_post_stop; try done; lia.
      * specialize (IH (results ++ [r]) cum' (len - zlen (tx :: txs) - zlen results) s0 g0 Hl Hu Hcfg
                      Hcum' ltac:(lia) Hsk w Hw).
        destruct (Stf.apply_txs _ _ _ _ _ _ _ _ _ _ _); try done. by eapply loop_post_run.
Qed.

(** ** Whole blocks *)

Lemma hook_triple {R} ctx (code : EnvView -> EnvProg R) s0 g0 :
  triple (fun w => advances s0 (w_storage w) /\ w_gas w = g0)
    (_ ← with_gas_counter Infinite (Stf.run codes fuel ctx code); pop_events)
    (fun _ w => (advances s0 (w_storage w) /\ w_gas w = g0) /\ events (w_storage w) = []).
Proof.
  intros w [Ha Hg]. unfold mbind, M_bind, with_gas_counter.
  pose proof (stf_run_sound ctx code (mkWorld (w_storage w) Infinite)) as Hr.
  destruct (Stf.run _ _ _ _ _) as [a w'| |]; try done. cbn. repeat split; try done.
  etrans; [exact Ha|]. etrans; [exact (adv_run _ _ Hr) | apply adv_pop].
Qed.

Lemma do_end_block_triple ctx s0 g0 :
  triple (fun w => advances s0 (w_storage w) /\ w_gas w = g0)
    (Stf.do_end_block self codes fuel ctx)
    (fun _ w => (advances s0 (w_storage w) /\ w_gas w = g0) /\ events (w_storage w) = []).
Proof. apply hook_triple. Qed.

Record block_post (storage : bytes -> SdkResult (option bytes)) (block : B) (r : BlockResult)
    (w : World) : Prop := {
  bp_ex : exists ex, sublist ex (block_txs block) /\ Forall2 gas_within ex (tx_results r);
  bp_gas : gas_used r = Z.min u64_max (gas_sum (tx_results r));
  bp_limit : 0 <= gas_used r <= block_gas_limit block;
  bp_skipped : gas_used r < block_gas_limit block ->
               txs_skipped r = zlen (block_txs block) - zlen (tx_results r);
  bp_skipped_bounds :
    zlen (block_txs block) - zlen (tx_results r) <= txs_skipped r
      <= 2 * (zlen (block_txs block) - zlen (tx_results r));
  bp_adv : advances (ExecutionState.new storage) (w_storage w);
  bp_events : events (w_storage w) = [] }.

Lemma apply_block_spec storage block :
  is_u64 (block_gas_limit block) ->
  Forall (fun tx => is_u64 (tx_gas_limit tx)) (block_txs block) ->
  config_wf (storage_gas_config self) ->
  match Stf.apply_block self codes fuel storage block with
  | Done r w => block_post storage block r w
  | Panicked why => why = CodePanic
  | OutOfFuel => True
  end.
Proof.
  intros Hl Hu Hcfg. set (s0 := ExecutionState.new storage).
  unfold Stf.apply_block, Stf.on_fresh_state, Stf.apply_block_body. fold s0.
  enough (Ht : triple (fun w => advances s0 (w_storage w) /\ w_gas w = Infinite)
                 (Stf.apply_block_body self codes fuel block) (block_post storage block))
    by exact (Ht (mkWorld s0 Infinite) (conj (reflexivity _) eq_refl)).
  eapply triple_bind; [apply hook_triple|]. intros bev. cbv zeta.
  eapply triple_bind.
  { eapply triple_weaken; [apply apply_txs_triple with (s0 := s0) (g0 := Infinite) | |]; try done.
    all: unfold is_u64 in *; change (zlen (@nil TxResult)) with 0; try lia; by intros w []. }
  intros [[rs cum] sk]. cbn beta iota. intros w [(ex & new & Hs & Hf & He & Hc) Hlim Hsk Hskb Ha Hg].
  cbn [fst snd] in *. rewrite app_nil_l in He. subst rs.
  pose proof (do_end_block_triple (block_context block) s0 Infinite w (conj Ha Hg)) as He.
  unfold mbind, M_bind. destruct (Stf.do_end_block _ _ _ _ _) as [eev w'| |]; try done.
  destruct He as [[Ha' _] Hev].
  cbn. split; cbn; eauto.
Qed.

(** ** The state alone, whatever the limits and the gas schedule *)

(** A computation that only advances the state. *)
Definition m_advances {A} (m : M A) : Prop := forall w,
  match m w with Done _ w' => advances (w_storage w) (w_storage w') | _ => True end.

Lemma m_advances_sound {A} (m : M A) : m_sound m -> m_advances m.
Proof. intros Hm w. specialize (Hm w). destruct (m w); [by apply adv_run | done..]. Qed.

Lemma m_advances_ret {A} (a : A) : m_advances (mret a).
Proof. intros w. apply adv_refl. Qed.

Lemma m_advances_bind {A C} (m : M A) (k : A -> M C) :
  m_advances m -> (forall a, m_advances (k a)) -> m_advances (m ≫= k).
Proof.
  intros Hm Hk w. specialize (Hm w). unfold mbind, M_bind. destruct (m w) as [a w'| |]; [|done..].
  specialize (Hk a w'). destruct (k a w'); [by etrans | done..].
Qed.

Lemma m_advances_try {A C} (m : M (SdkResult A)) (k : A -> M (SdkResult C)) :
  m_advances m -> (forall a, m_advances (k a)) -> m_advances (try_bind m k).
Proof. intros Hm Hk. apply m_advances_bind; [done|]. intros [a|e]; [apply Hk | apply m_advances_ret]. Qed.

Lemma m_advances_gas {A} g (m : M A) : m_advances m -> m_advances (with_gas_counter g m).
Proof. intros Hm w. unfold with_gas_counter. specialize (Hm (mkWorld (w_storage w) g)). by destruct (m _). Qed.

Lemma m_advances_pop : m_advances pop_events.
Proof. intros w. apply adv_pop. Qed.

Lemma m_advances_used : m_advances read_gas_used.
Proof. intros [s g]. apply adv_refl. Qed.

Lemma finish_tx_advances (resp : SdkResult InvokeResponse) :
  m_advances (events ← pop_events; gas_used ← read_gas_used; mret (mkTxResult events gas_used resp)).
Proof.
  apply m_advances_bind; [apply m_advances_pop|]. intros evs.
  apply m_advances_bind; [apply m_advances_used|]. intros n. apply m_advances_ret.
Qed.

Lemma bootstrap_phase_advances tx a block : m_advances (Stf.bootstrap_sender_phase codes fuel tx a block).
Proof.
  unfold Stf.bootstrap_sender_phase. destruct (sender_bootstrap tx) as [b|]; [|apply m_advances_ret].
  apply m_advances_try; [apply m_advances_sound, stf_register_sound|]. intros _.
  apply m_advances_try; [apply m_advances_sound, stf_run_sound|]. intros _.
  apply m_advances_bind; [apply m_advances_pop|]. intros evs. apply m_advances_ret.
Qed.

Lemma apply_tx_advances tx cfg block : m_advances (Stf.apply_tx self codes fuel tx cfg block).
Proof.
  apply m_advances_gas. apply m_advances_bind; [apply m_advances_sound, stf_run_sound|].
  intros [a|e]; [|apply finish_tx_advances]. apply m_advances_bind; [apply bootstrap_phase_advances|].
  intros [[]|e]; [|apply finish_tx_advances]. cbv zeta.
  apply m_advances_bind; [apply m_advances_sound, stf_run_sound|]. intros [[]|e]; [|apply finish_tx_advances].
  apply m_advances_bind; [apply m_advances_sound, execute_phase_sound|]. intros resp. apply finish_tx_advances.
Qed.

Lemma apply_txs_advances len block limit txs : forall results cum skipped,
  m_advances (Stf.apply_txs self codes fuel len block limit txs results cum skipped).
Proof.
  induction txs as [|tx txs IH]; intros results cum skipped; cbn [Stf.apply_txs]; [apply m_advances_ret|].
  case_match; [apply IH|]. apply m_advances_bind; [apply apply_tx_advances|]. intros r. cbv zeta.
  case_match; [apply m_advances_ret | apply IH].
Qed.

Lemma hook_advances {R} ctx (code : EnvView -> EnvProg R) :
  m_advances (_ ← with_gas_counter Infinite (Stf.run codes fuel ctx code); pop_events).
Proof.
  apply m_advances_bind; [apply m_advances_gas, m_advances_sound, stf_run_sound|]. intros _. apply m_advances_pop.
Qed.

Lemma apply_block_advances storage block r w :
  Stf.apply_block self codes fuel storage block = Done r w ->
  advances (ExecutionState.new storage) (w_storage w).
Proof.
  unfold Stf.apply_block, Stf.on_fresh_state. intros Hr.
  enough (Hm : m_advances (Stf.apply_block_body self codes fuel block)).
  { specialize (Hm (mkWorld (ExecutionState.new storage) Infinite)). by rewrite Hr in Hm. }
  apply m_advances_bind; [apply hook_advances|]. intros bev. cbv zeta.
  apply m_advances_bind; [apply apply_txs_advances|]. intros [[rs cum] sk].
  apply m_advances_bind; [apply hook_advances|]. intros eev. apply m_advances_ret.
Qed.

End StfFacts.
