(* ===== verification/Chain.v ===== *)
(** * Isolation over blocks and chains

    An account whose code keeps its invariant satisfies it after every block,
    and along a chain of blocks. *)

From S2P Require Import Prelude Core Gas ExecState ExecStateFacts Commit Runtime Invoker Stf InvokerFacts CallFacts.
From S2P Require Import Isolation StfFacts.

Open Scope evolve_scope.

(** ** Isolation across blocks

    The isolation of one account ([Isolation]) lifted to transactions and
    whole blocks: an account whose code keeps its invariant still satisfies it
    after every block, as long as the transactions sent as that account do not
    write its storage directly or replace its code. *)

Section GuardedBlocks.
Context `{RuntimeDeps} {Tx B : Type} `{Transaction Tx} `{Block B Tx}.
Context (self : Stf Tx B) (codes : AccountsCodeStorage) (fuel : nat).
Context (a : AccountId) (cid : string) (c : AccountCode) (kappa reach : Z) (I : Store -> Prop).

Abbreviation good := (good a cid kappa reach I).
Abbreviation m_keeps := (m_keeps a cid kappa reach I).

(** The base stays, the longest log never gets shorter, and the guard is kept. *)
Definition b_keeps {A} (m : M A) : Prop := forall w r w', m w = Done r w' ->
  base_storage (w_storage w') = base_storage (w_storage w) /\
  log_max (w_storage w) <= log_max (w_storage w') /\
  (good (w_storage w) -> bounded w' -> good (w_storage w')).

Lemma m_keeps_b {A} (m : M A) : m_keeps m -> b_keeps m.
Proof.
  intros [Hs Hk] w r w' Hr. pose proof (sound_evolves _ _ _ _ Hs Hr) as Hev.
  split; [by apply evolves_extends in Hev as (? & _)|]. split; [by apply evolves_log_max | intros; by eapply Hk].
Qed.

Lemma b_keeps_ret {A} (x : A) : b_keeps (mret x).
Proof. by intros w r w' [= <- <-]. Qed.

Lemma b_keeps_bind_of {A A'} (m : M A) (k : A -> M A') (P : A -> Prop) :
  b_keeps m -> (forall w r w', m w = Done r w' -> P r) -> (forall x, P x -> b_keeps (k x)) ->
  b_keeps (m ≫= k).
Proof.
  intros Hm HP Hk w r w'. unfold mbind, M_bind. destruct (m w) as [x w1| |] eqn:Em; try done.
  intros Hr. destruct (Hm _ _ _ Em) as (Hmb & Hm1 & Hm2).
  destruct (Hk x (HP _ _ _ Em) _ _ _ Hr) as (Hkb & Hk1 & Hk2). split; [congruence|]. split; [lia|]. intros Hw Hb.
  apply Hk2; [|done]. apply Hm2; [done|]. unfold bounded in *. lia.
Qed.

Lemma b_keeps_bind {A A'} (m : M A) (k : A -> M A') :
  b_keeps m -> (forall x, b_keeps (k x)) -> b_keeps (m ≫= k).
Proof. intros Hm Hk. by apply (b_keeps_bind_of _ _ (fun _ => True)). Qed.

Lemma b_keeps_try {A A'} (m : M (SdkResult A)) (k : A -> M (SdkResult A')) :
  b_keeps m -> (forall x, b_keeps (k x)) -> b_keeps (try_bind m k).
Proof. intros Hm Hk. apply b_keeps_bind; [done|]. intros [x|e]; [apply Hk | apply b_keeps_ret]. Qed.

Lemma with_gas_counter_keeps {A} g (m : M A) : b_keeps m -> b_keeps (with_gas_counter g m).
Proof.
  intros Hm w r w'. unfold with_gas_counter. destruct (m _) as [x w1| |] eqn:Em; try done.
  intros [= <- <-]. by apply Hm in Em.
Qed.

Context (HI : forall f g, store_eq f g -> I f -> I g).

Lemma pop_events_keeps : b_keeps pop_events.
Proof using HI. intros w r w' [= <- <-]. do 2 (split; [done|]). intros Hw _. by apply (good_same a cid kappa reach I HI (w_storage w)). Qed.

Lemma read_gas_used_keeps : b_keeps read_gas_used.
Proof. by intros w r w' [= <- <-]. Qed.

Context (Hkappa : kappa + u64_max + 1 < reach <= 2 ^ 256).
Context (Hrt : a ≠ RUNTIME_ACCOUNT_ID) (Hst : a ≠ STORAGE_ACCOUNT_ID) (Hinv : a ≠ AccountId.invalid).
Context (Hcode : lookup_code codes cid = Ok (Some c)) (Hsafe : keeps_invariant a c I).

Lemma run_keeps {R} ctx (code : EnvView -> EnvProg R) :
  inv_whoami ctx ≠ a -> b_keeps (Stf.run codes fuel ctx code).
Proof using HI Hkappa Hrt Hst Hcode Hsafe. intros Hw. by eapply m_keeps_b, run_guarded. Qed.

Lemma do_exec_keeps ctx to data fs :
  inv_whoami ctx ≠ a -> b_keeps (Stf.do_exec codes fuel ctx to data fs).
Proof using HI Hkappa Hrt Hst Hcode Hsafe.
  intros Hw. eapply m_keeps_b, do_exec_guarded; try done. by left.
Qed.

(** The sender of a transaction is never [a]. *)
Definition not_sent_as (tx : Tx) (block : BlockContext) : Prop := forall w x w',
  Stf.resolve_sender_phase codes fuel tx block w = Done (Ok x) w' -> x ≠ a.

(** A call outside the account's own storage, or one that the storage account
    does not know. *)
Definition harmless (to : AccountId) (data : InvokeRequest) (fs : list FungibleAsset) : Prop :=
  outside to data fs \/
  to = STORAGE_ACCOUNT_ID /\ (function data ≠ FUNCTION_IDENTIFIER StorageSetRequest) /\
  (function data ≠ FUNCTION_IDENTIFIER StorageRemoveRequest).

(** A request without funds that is neither a write to storage nor a migration
    is harmless wherever it goes. *)
Definition plain_request (data : InvokeRequest) : Prop :=
  (function data ≠ FUNCTION_IDENTIFIER StorageSetRequest) /\
  (function data ≠ FUNCTION_IDENTIFIER StorageRemoveRequest) /\
  (function data ≠ FUNCTION_IDENTIFIER MigrateRequest).

Lemma plain_harmless to data : plain_request data -> harmless to data [].
Proof.
  intros (Hs & Hr & Hm). destruct (decide (to = STORAGE_ACCOUNT_ID)) as [->|Hto]; [by right|].
  left. split; [done|]. split; [done | by constructor].
Qed.

(** What runs as the account when it sends [tx]: the resolution of the recipient
    and the post-transaction handler keep its invariant, and the request itself
    is harmless. *)
Record own_tx_safe (tx : Tx) : Prop := {
  own_recipient : forall env st, whoami env = a -> I st ->
    wp a I (resolve_recipient_account tx env) (fun _ st' => I st') st;
  own_post_tx : forall gas_used response env st, whoami env = a -> I st ->
    wp a I (post_tx_handler self tx gas_used response env) (fun _ st' => I st') st;
  own_request : forall ctx w to w', inv_whoami ctx = a ->
    Stf.run codes fuel ctx (resolve_recipient_account tx) w = Done (Ok to) w' ->
    harmless to (tx_request tx) (tx_funds tx) }.

Definition sent_safely (tx : Tx) (block : BlockContext) : Prop := forall w x w',
  Stf.resolve_sender_phase codes fuel tx block w = Done (Ok x) w' -> x ≠ a \/ own_tx_safe tx.

Lemma not_sent_as_safely tx block : not_sent_as tx block -> sent_safely tx block.
Proof. intros Hn w x w' Hr. left. by eapply Hn. Qed.

Lemma run_own_keeps {R} ctx (code : EnvView -> EnvProg R) :
  inv_whoami ctx = a ->
  (forall env st, whoami env = a -> I st -> wp a I (code env) (fun _ st' => I st') st) ->
  b_keeps (Stf.run codes fuel ctx code).
Proof using HI Hkappa Hrt Hst Hcode Hsafe.
  intros Hw Hc. eapply m_keeps_b, run_own; try done. intros st. by apply Hc.
Qed.

Lemma bootstrap_keeps tx x block : b_keeps (Stf.bootstrap_sender_phase codes fuel tx x block).
Proof using HI Hkappa Hrt Hst Hcode Hsafe.
  unfold Stf.bootstrap_sender_phase. destruct (sender_bootstrap tx) as [b|]; [|apply b_keeps_ret].
  apply b_keeps_try; [by eapply m_keeps_b, register_guarded|]. intros _.
  apply b_keeps_try; [by apply run_keeps|]. intros _.
  apply b_keeps_bind; [apply pop_events_keeps | intros; apply b_keeps_ret].
Qed.

(** The storage account refuses requests it does not know. *)
Lemma do_exec_unknown_keeps ctx data fs :
  (function data ≠ FUNCTION_IDENTIFIER StorageSetRequest) ->
  (function data ≠ FUNCTION_IDENTIFIER StorageRemoveRequest) ->
  b_keeps (Stf.do_exec codes fuel ctx STORAGE_ACCOUNT_ID data fs).
Proof using HI.
  intros Hs Hr. apply m_keeps_b.
  pose proof (do_exec_atomic codes fuel ctx STORAGE_ACCOUNT_ID data fs) as Hat.
  split; [by apply m_atomic_sound|]. intros w r w' Hw Hx Hb. specialize (Hat w).
  unfold Stf.do_exec in Hx. rewrite Hx in Hat. destruct Hat as [Hev Herr]. destruct r as [resp|e].
  - destruct fuel as [|f]; [done|]. cbn [Invoker.do_exec] in Hx.
    apply do_exec_body_ok in Hx as (w1 & w2 & _ & _ & Hx). unfold Invoker.exec_without_transfers in Hx.
    rewrite bool_decide_false, bool_decide_true in Hx by done. unfold Invoker.handle_storage_exec in Hx.
    by rewrite (proj2 (Z.eqb_neq _ _) Hs), (proj2 (Z.eqb_neq _ _) Hr) in Hx.
  - apply (good_equiv a cid kappa reach I HI (w_storage w)); [by apply Herr | by apply evolves_log_max | done].
Qed.

(** Code that runs as the sender of a transaction. *)
Lemma run_as_keeps {R} ctx (code : EnvView -> EnvProg R) :
  (inv_whoami ctx ≠ a \/
   forall env st, whoami env = a -> I st -> wp a I (code env) (fun _ st' => I st') st) ->
  b_keeps (Stf.run codes fuel ctx code).
Proof using HI Hkappa Hrt Hst Hcode Hsafe.
  intros Hc. destruct (decide (inv_whoami ctx = a)) as [Hw|Hw]; [|by apply run_keeps].
  apply run_own_keeps; [done|]. by destruct Hc.
Qed.

Lemma execute_keeps tx ctx x :
  (x ≠ a \/ own_tx_safe tx) -> b_keeps (Stf.execute_tx_phase self codes fuel tx ctx x).
Proof using HI Hkappa Hrt Hst Hcode Hsafe.
  intros Hx. unfold Stf.execute_tx_phase. cbv zeta. set (exec_ctx := Invoker.into_new_exec ctx x).
  assert (Hw : inv_whoami exec_ctx ≠ a \/ inv_whoami exec_ctx = a /\ own_tx_safe tx).
  { destruct (decide (x = a)); [right; split; [done | by destruct Hx] | by left]. }
  apply (b_keeps_bind_of _ _ (fun r => forall to, r = Ok to ->
           inv_whoami exec_ctx ≠ a \/ harmless to (tx_request tx) (tx_funds tx))).
  - apply run_as_keeps. destruct Hw as [?|[_ []]]; [by left | by right].
  - intros w r w' Hr to ->. destruct Hw as [?|[Ha []]]; [by left | right; eauto].
  - intros [to|e] Hto; [|apply b_keeps_ret]. specialize (Hto to eq_refl).
    apply b_keeps_bind.
    { destruct Hto as [?|[?|(-> & ? & ?)]]; [by apply do_exec_keeps | | by apply do_exec_unknown_keeps].
      eapply m_keeps_b, do_exec_guarded; try done. by right. }
    intros resp.
    apply b_keeps_bind; [apply read_gas_used_keeps|]. intros n.
    apply b_keeps_bind; [|intros []; apply b_keeps_ret].
    apply run_as_keeps. destruct Hw as [?|[_ []]]; [by left | right; eauto].
Qed.

Lemma finish_keeps (resp : SdkResult InvokeResponse) :
  b_keeps (events ← pop_events; gas_used ← read_gas_used; mret (mkTxResult events gas_used resp)).
Proof using HI.
  apply b_keeps_bind; [apply pop_events_keeps|]. intros evs.
  apply b_keeps_bind; [apply read_gas_used_keeps|]. intros n. apply b_keeps_ret.
Qed.

Lemma apply_tx_keeps tx cfg block :
  sent_safely tx block -> b_keeps (Stf.apply_tx self codes fuel tx cfg block).
Proof using HI Hkappa Hrt Hst Hinv Hcode Hsafe.
  intros Hs. apply with_gas_counter_keeps. unfold Stf.apply_tx_phases, Stf.tx_error_result.
  apply (b_keeps_bind_of _ _ (fun r => forall x, r = Ok x -> x ≠ a \/ own_tx_safe tx)).
  - by apply run_keeps.
  - intros w r w' Hr x ->. by eapply Hs.
  - intros [x|e] Hx; [|apply finish_keeps]. specialize (Hx x eq_refl).
    apply b_keeps_bind; [apply bootstrap_keeps|]. intros [[]|e]; [|apply finish_keeps]. cbv zeta.
    apply b_keeps_bind; [by apply run_keeps|]. intros [[]|e]; [|apply finish_keeps].
    apply b_keeps_bind; [by apply execute_keeps|]. intros resp. apply finish_keeps.
Qed.

Lemma apply_txs_keeps len ctx limit txs : forall results cum sk,
  Forall (fun tx => sent_safely tx ctx) txs ->
  b_keeps (Stf.apply_txs self codes fuel len ctx limit txs results cum sk).
Proof using HI Hkappa Hrt Hst Hinv Hcode Hsafe.
  induction txs as [|tx txs IH]; intros results cum sk Hs; cbn [Stf.apply_txs]; [apply b_keeps_ret|].
  apply Forall_cons in Hs as [Htx Hs]. case_match; [by apply IH|].
  apply b_keeps_bind; [by apply apply_tx_keeps|]. intros r. cbv zeta.
  case_match; [apply b_keeps_ret | by apply IH].
Qed.

Lemma apply_block_keeps storage block r w :
  Forall (fun tx => sent_safely tx (block_context block)) (block_txs block) ->
  good (ExecutionState.new storage) ->
  Stf.apply_block self codes fuel storage block = Done r w ->
  bounded w -> base_storage (w_storage w) = storage /\ good (w_storage w).
Proof using HI Hkappa Hrt Hst Hinv Hcode Hsafe.
  intros Hs Hg Hr. enough (Hb : b_keeps (Stf.apply_block_body self codes fuel block)).
  { apply Hb in Hr as (Hbase & _ & Hr). intros. split; [done | by apply Hr]. }
  unfold Stf.apply_block_body, Stf.do_begin_block, Stf.do_end_block.
  apply b_keeps_bind.
  { apply b_keeps_bind; [by apply with_gas_counter_keeps, run_keeps | intros; apply pop_events_keeps]. }
  intros bev. cbv zeta. apply b_keeps_bind; [by apply apply_txs_keeps|]. intros [[rs cum] sk].
  apply b_keeps_bind; [|intros; apply b_keeps_ret].
  apply b_keeps_bind; [by apply with_gas_counter_keeps, run_keeps | intros; apply pop_events_keeps].
Qed.

End GuardedBlocks.

(** ** Chains of blocks

    The state part of block production ([produce_block_with_txs] of
    [crates/app/server/src/dev.rs]) over the in-memory storage: execute a block
    on the committed storage, turn the resulting state into operations and apply
    them. Isolation carries over from block to block. *)

Section Chain.
Context `{RuntimeDeps} {Tx B : Type} `{Transaction Tx} `{Block B Tx}.
Context (self : Stf Tx B) (codes : AccountsCodeStorage) (fuel : nat).

(** [None] when the code panics or the changes cannot be built. *)
Definition produce_block (storage : gmap bytes bytes) (block : B)
    : option (BlockResult * ExecutionState * gmap bytes bytes) :=
  match Stf.apply_block self codes fuel (MockStorage.get storage) block with
  | Done result w =>
      let exec_state := w_storage w in
      match ExecutionState.into_changes exec_state with
      | Ok changes =>
          let operations := state_changes_to_operations changes in
          match MockStorage.batch storage operations with
          | (Ok _, storage) => Some (result, exec_state, storage)
          | (Err _, _) => None
          end
      | Err _ => None
      end
  | _ => None
  end.

Fixpoint produce_blocks (storage : gmap bytes bytes) (blocks : list B) : option (gmap bytes bytes) :=
  match blocks with
  | [] => Some storage
  | block :: blocks => '(_, _, storage) ← produce_block storage block; produce_blocks storage blocks
  end.

(** Every block of the run fits the length of a [Vec]. *)
Fixpoint blocks_bounded (storage : gmap bytes bytes) (blocks : list B) : Prop :=
  match blocks with
  | [] => True
  | block :: blocks =>
      match produce_block storage block with
      | Some (_, s, storage) => log_max s <= u64_max /\ blocks_bounded storage blocks
      | None => True
      end
  end.

(** Runs the chain and checks the lengths of the undo logs on the way. *)
Fixpoint chain_bounded (storage : gmap bytes bytes) (blocks : list B) : bool :=
  match blocks with
  | [] => true
  | block :: blocks =>
      match produce_block storage block with
      | Some (_, s, storage) => (log_max s <=? u64_max) && chain_bounded storage blocks
      | None => false
      end
  end.

Lemma chain_bounded_ok storage blocks : chain_bounded storage blocks = true -> blocks_bounded storage blocks.
Proof.
  revert storage. induction blocks as [|block blocks IH]; intros storage; cbn; [done|].
  destruct (produce_block _ _) as [[[? s] storage']|]; [|done].
  intros [Hm Hb]%andb_true_iff. split; [by apply Z.leb_le | by apply IH].
Qed.

(** ** Committing *)

(** The next block reads what the last one left. *)
Lemma commit_view storage s changes :
  base_storage s = MockStorage.get storage -> ExecutionState.into_changes s = Ok changes ->
  forall k, view (ExecutionState.new (MockStorage.get
              (foldl MockStorage.batch_one storage (state_changes_to_operations changes)))) k = view s k.
Proof.
  intros Hb Hc k. rewrite <-(commit_lookup s storage changes k Hc Hb).
  unfold view. cbn [overlay ExecutionState.new base_storage]. by rewrite lookup_empty.
Qed.

Lemma code_identifier_view s t a :
  (forall k, view s k = view t k) ->
  (get_account_code_identifier_for_account s a).1 = (get_account_code_identifier_for_account t a).1.
Proof.
  intros Hv. unfold get_account_code_identifier_for_account.
  set (k := get_account_code_identifier_for_account_key a).
  pose proof (get_view s k) as Hs. pose proof (get_view t k) as Ht. rewrite (Hv k), <-Ht in Hs.
  do 2 destruct (ExecutionState.get _ k). cbn in *. by subst.
Qed.

Lemma next_id_view s t : (forall k, view s k = view t k) -> next_id s = next_id t.
Proof. intros Hv. unfold next_id. by rewrite !get_view, Hv. Qed.

Context (a : AccountId) (cid : string) (c : AccountCode) (I : Store -> Prop).
Context (HI : forall f g, store_eq f g -> I f -> I g).

(** A state without pending changes that reads like a good one is good. *)
Lemma good_view kappa reach s storage :
  (forall k, view (ExecutionState.new storage) k = view s k) ->
  log_max s <= u64_max -> good a cid kappa reach I s ->
  good a cid (kappa + u64_max) reach I (ExecutionState.new storage).
Proof using HI.
  intros Hv Hm [[Hcode Hnext] Hlog Hi]. set (t := ExecutionState.new _) in *.
  split; [split | done |].
  - by rewrite (code_identifier_view t s a Hv).
  - intros last. rewrite (next_id_view t s Hv). intros Hl. apply Hnext in Hl.
    unfold log_ok in Hlog. change (zlen (undo_log t)) with 0. lia.
  - eapply HI; [|exact Hi]. intros k. symmetry. apply Hv.
Qed.

Context (Hrt : a ≠ RUNTIME_ACCOUNT_ID) (Hst : a ≠ STORAGE_ACCOUNT_ID) (Hinv : a ≠ AccountId.invalid).
Context (Hcode : lookup_code codes cid = Ok (Some c)) (Hsafe : keeps_invariant a c I).

Definition none_sent_as (block : B) : Prop :=
  Forall (fun tx => not_sent_as codes fuel a tx (block_context block)) (block_txs block).

(** Every transaction sent as [a] leaves the account's invariant alone. *)
Definition all_sent_safely (block : B) : Prop :=
  Forall (fun tx => sent_safely self codes fuel a I tx (block_context block)) (block_txs block).

Lemma none_sent_as_safely block : none_sent_as block -> all_sent_safely block.
Proof. intros Hn. eapply Forall_impl; [exact Hn|]. intros tx. apply not_sent_as_safely. Qed.

Lemma produce_blocks_good blocks : forall kappa reach storage storage',
  kappa + (zlen blocks + 1) * u64_max + 1 < reach <= 2 ^ 256 ->
  good a cid kappa reach I (ExecutionState.new (MockStorage.get storage)) ->
  Forall all_sent_safely blocks -> blocks_bounded storage blocks ->
  produce_blocks storage blocks = Some storage' ->
  I (own a (ExecutionState.new (MockStorage.get storage'))).
Proof using HI Hrt Hst Hinv Hcode Hsafe.
  induction blocks as [|block blocks IH]; intros kappa reach storage storage' Hk Hg Hs Hb Hp.
  { injection Hp as <-. by destruct Hg. }
  apply Forall_cons in Hs as [Hs1 Hs]. cbn [produce_blocks blocks_bounded] in Hp, Hb.
  unfold produce_block in Hp, Hb.
  destruct (Stf.apply_block _ _ _ _ block) as [r w| |] eqn:Ea; [|done..].
  destruct (ExecutionState.into_changes (w_storage w)) as [changes|] eqn:Ec; [|done].
  cbn [MockStorage.batch mbind option_bind] in Hp, Hb. destruct Hb as [Hb1 Hb].
  rewrite zlen_cons in Hk. assert (0 <= zlen blocks) by (unfold zlen; lia).
  assert (kappa + u64_max + 1 < reach <= 2 ^ 256) as Hk1 by (unfold u64_max in *; lia).
  destruct (apply_block_keeps self codes fuel a cid c kappa reach I HI Hk1 Hrt Hst Hinv Hcode Hsafe
              _ _ _ _ Hs1 Hg Ea Hb1) as [Hbase Hgood].
  eapply IH; [|eapply good_view; [by eapply commit_view | done | done] |done|done|done]. lia.
Qed.

End Chain.

(** ** Ordinary accounts on a chain *)
Section AccountChain.
Context `{RuntimeDeps} {Tx B : Type} `{Transaction Tx} `{Block B Tx}.
Context (self : Stf Tx B) (codes : AccountsCodeStorage) (fuel : nat).
Context (a : AccountId) (c : AccountCode).

(** The chain's setting: [a] is an ordinary account running the code [c], no
    transaction is sent as [a], every undo log fits a [Vec], and the counter of
    account numbers cannot reach the end of its range. *)
Record account_chain (kappa : Z) (I : Store -> Prop) (storage : gmap bytes bytes) (blocks : list B)
    : Prop := {
  ac_ordinary : a ≠ RUNTIME_ACCOUNT_ID /\ a ≠ STORAGE_ACCOUNT_ID /\ a ≠ AccountId.invalid;
  ac_code : lookup_code codes (identifier c) = Ok (Some c);
  ac_start : good a (identifier c) kappa (2 ^ 256) I (ExecutionState.new (MockStorage.get storage));
  ac_senders : Forall (none_sent_as codes fuel a) blocks;
  ac_bounded : blocks_bounded self codes fuel storage blocks;
  ac_numbers : kappa + (zlen blocks + 1) * u64_max + 1 < 2 ^ 256 }.

Lemma account_chain_keeps kappa I storage blocks storage' :
  (forall f g, store_eq f g -> I f -> I g) -> keeps_invariant a c I ->
  account_chain kappa I storage blocks ->
  produce_blocks self codes fuel storage blocks = Some storage' ->
  I (own a (ExecutionState.new (MockStorage.get storage'))).
Proof.
  intros HI Hk [(? & ? & ?) Hc Hg Hs Hb Hn] Hp.
  eapply (produce_blocks_good self codes fuel a (identifier c) c I HI); try done.
  eapply Forall_impl; [exact Hs|]. intros block. apply none_sent_as_safely.
Qed.

End AccountChain.
