(* ===== verification/CallTheorems.v ===== *)
(** * Theorems on calls between accounts

    The properties of [invoker.rs], [handlers.rs] and [runtime_api_impl.rs]:
    rollback, queries, termination, fuel, gas, storage regions, identifiers
    and the isolation of an account's storage. *)

From S2P Require Import Prelude Core Gas ExecState ExecStateFacts Runtime Invoker Token Codec Stf Example InvokerFacts.
From S2P Require Import CallFacts Isolation TokenFacts TokenExample.

Open Scope evolve_scope.

(** ** Helpers *)

Lemma wrote_view_ne k v s s' k' : wrote k v s s' -> k' ≠ k -> view s' k' = view s k'.
Proof. intros [Hb Ho _ _] Hk. unfold view. by rewrite Hb, Ho, lookup_insert_ne. Qed.

Lemma wrote_view_set k m s s' :
  wrote k (Some m) s s' -> (ExecutionState.get s' k).1 = Ok (Some m).
Proof.
  intros [Hb Ho _ _]. rewrite get_view. unfold view. rewrite Ho, lookup_insert_eq. by destruct m as [[b]].
Qed.

Section Helpers.
Context `{RuntimeDeps}.

(** A storage request writes at most one key, of the caller's region. *)
Lemma handle_storage_exec_cases inv req w r w' :
  Invoker.handle_storage_exec inv req w = Done r w' ->
  w_storage w' = w_storage w \/
  exists k v, wrote (account_storage_key (inv_whoami inv) k) v (w_storage w) (w_storage w').
Proof.
  unfold Invoker.handle_storage_exec, try_bind, mbind, M_bind, mret, M_ret, on_gas, on_storage.
  intros Hr. repeat (case_match; simplify_eq/=; try by left).
  all: match goal with
    | E : ExecutionState.set ?s ?k ?v = _ |- _ =>
        destruct (set_cases s k v) as [[? Hc]|(? & Hc & ?)]; rewrite Hc in E; simplify_eq; eauto
    | E : ExecutionState.remove ?s ?k = _ |- _ =>
        destruct (remove_cases s k) as [[? Hc]|(? & Hc & ?)]; rewrite Hc in E; simplify_eq; eauto
    end.
Qed.

(** A successful write request, through [do_exec]. *)
Lemma do_exec_set_wrote codes fuel inv key v req w resp w' :
  InvokeRequest.new (mkStorageSetRequest key v) = Ok req ->
  Invoker.do_exec codes fuel inv STORAGE_ACCOUNT_ID req [] w = Done (Ok resp) w' ->
  wrote (account_storage_key (inv_whoami inv) key) (Some v)
    (ExecutionState.checkpoint (w_storage w)).2 (w_storage w').
Proof.
  intros [Hreq Hfn]%InvokeRequest_get_new. destruct fuel as [|fuel]; [done|].
  cbn [Invoker.do_exec]. unfold Invoker.do_exec_body. case_match; [done|].
  unfold mbind, M_bind, on_storage at 1. destruct (ExecutionState.checkpoint _) as [c s1].
  cbn [Invoker.handle_transfers]. unfold mret, M_ret, Invoker.exec_without_transfers.
  rewrite bool_decide_false, bool_decide_true by done.
  unfold Invoker.handle_storage_exec. rewrite Hfn, Z.eqb_refl, Hreq.
  unfold try_bind, mbind, M_bind, mret, M_ret, on_gas, on_storage. cbn [set_key set_value w_gas w_storage snd].
  destruct (GasCounter.consume_set_gas _ _ _) as [[] g]; cbn [w_storage];
    [|by intros; repeat (case_match; simplify_eq/=)].
  destruct (set_cases s1 (account_storage_key (inv_whoami inv) key) v) as [[e ->]|(s' & -> & Hw)];
    [by intros; repeat (case_match; simplify_eq/=)|].
  destruct (InvokeResponse.new _); cbn [is_err]; [|by intros; repeat (case_match; simplify_eq/=)].
  by intros [= <- <-].
Qed.

End Helpers.

(** ** Rollback and queries *)
Section Calls.
Context `{RuntimeDeps} (codes : AccountsCodeStorage).

(** C1: a failed call leaves no trace in the state. Whatever the called code
    and every code it calls do, when [do_exec] returns an error the state is
    the one before the call (overlay, undo log, events and object counter; only
    metrics and consumed gas remain), and restoring the checkpoint never
    panics. *)
Theorem do_exec_rolls_back fuel inv to data fs w :
  match Invoker.do_exec codes fuel inv to data fs w with
  | Done r w' => is_err r = true -> w_storage w' ≈ w_storage w
  | Panicked why => why ≠ RestoreFailed
  | OutOfFuel => True
  end.
Proof.
  pose proof (do_exec_atomic codes fuel inv to data fs w) as Ha.
  destruct (Invoker.do_exec _ _ _ _ _ _ _); [apply Ha | by subst | done].
Qed.

(** C32: a query changes nothing. Whatever codes answer it, [do_query] leaves
    the state as it found it (metrics and consumed gas aside), also when it
    fails. *)
Theorem do_query_reads_only fuel inv to data w :
  match Invoker.do_query codes fuel inv to data w with
  | Done _ w' => w_storage w' ≈ w_storage w
  | Panicked why => why = CodePanic
  | OutOfFuel => True
  end.
Proof. apply do_query_readonly. Qed.

(** Calls never overcharge. Under any call the gas counter only grows and
    never passes its limit, and the limit and the prices stay as they were. *)
Theorem do_exec_gas fuel inv to data fs w :
  gas_wf (w_gas w) -> gas_config_wf (w_gas w) ->
  match Invoker.do_exec codes fuel inv to data fs w with
  | Done _ w' => gas_le (w_gas w) (w_gas w') /\ gas_wf (w_gas w')
  | _ => True
  end.
Proof.
  intros Hg Hc. pose proof (do_exec_atomic codes fuel inv to data fs w) as Ha.
  destruct (Invoker.do_exec _ _ _ _ _ _ _) as [r w'| |]; [|done..].
  destruct Ha as [Hev _]. pose proof (evolves_gas_le _ _ Hev Hg Hc) as Hle. split; [done|].
  by eapply gas_le_wf.
Qed.

(** The resource limits are invariant. No call makes the state exceed the
    limits on overlay entries, events, key sizes or value sizes. *)
Theorem do_exec_within_limits fuel inv to data fs w :
  within_limits (w_storage w) ->
  match Invoker.do_exec codes fuel inv to data fs w with
  | Done _ w' => within_limits (w_storage w')
  | _ => True
  end.
Proof.
  intros Hl. pose proof (do_exec_atomic codes fuel inv to data fs w) as Ha.
  destruct (Invoker.do_exec _ _ _ _ _ _ _) as [r w'| |]; [|done..].
  destruct Ha as [Hev _]. by eapply evolves_limits.
Qed.

(** Account code cannot write outside the accounts' region of the key
    space. Calls write only account storage, code identifiers and the account
    counter: every other key (the consensus parameters among them) keeps its
    value. *)
Theorem do_exec_protocol_keys fuel inv to data fs w k :
  ~ protocol_key k ->
  match Invoker.do_exec codes fuel inv to data fs w with
  | Done _ w' => overlay (w_storage w') !! k = overlay (w_storage w) !! k
  | _ => True
  end.
Proof.
  intros Hk. pose proof (do_exec_atomic codes fuel inv to data fs w) as Ha.
  destruct (Invoker.do_exec _ _ _ _ _ _ _) as [r w'| |]; [|done..].
  destruct Ha as [Hev _]. by apply evolves_protocol_keys.
Qed.

(** ** Termination *)

(** C36: calls terminate. If the codes' queries are stratified (each queries
    accounts of smaller rank, all ranks below [q]), [do_exec] returns for every
    request whatever the codes do: the call-depth limit bounds the recursion,
    so that 65 + [q] nested calls are enough. *)
Theorem do_exec_terminates rank q inv to data fs w :
  ranked_codes codes rank -> (forall a, (rank a < q)%nat) -> 0 <= inv_call_depth inv ->
  Invoker.do_exec codes (65 + q) inv to data fs w ≠ OutOfFuel.
Proof.
  intros Hc Hq Hd. apply (do_exec_returns codes q 64); [by eapply ranked_queries_return|].
  unfold MAX_CALL_DEPTH. lia.
Qed.

(** The result of a call does not depend on the fuel. Once [do_exec]
    returns with some fuel, it returns the same with any larger fuel. *)
Theorem do_exec_fuel n m inv to data fs w :
  (n <= m)%nat -> Invoker.do_exec codes n inv to data fs w ≠ OutOfFuel ->
  Invoker.do_exec codes m inv to data fs w = Invoker.do_exec codes n inv to data fs w.
Proof. intros Hnm. by apply do_exec_below. Qed.

(** Queries have no depth limit. An account whose code answers a request by
    asking itself the same question recurses without bound: no amount of
    nested calls is enough, and no error stops it. *)
Theorem self_query_unbounded a id c data inv w :
  a ≠ RUNTIME_ACCOUNT_ID -> a ≠ STORAGE_ACCOUNT_ID ->
  lookup_code codes id = Ok (Some c) -> self_querying c data ->
  (get_account_code_identifier_for_account (w_storage w) a).1 = Ok (Some id) ->
  forall fuel, Invoker.do_query codes fuel inv a data w = OutOfFuel.
Proof. intros. by eapply self_query_diverges. Qed.

(** ** Storage requests *)

(** A storage request touches only its caller's storage. Other accounts'
    storage, every code identifier and the account counter read the same
    after it. *)
Theorem storage_exec_own_region inv req w r w' :
  Invoker.handle_storage_exec inv req w = Done r w' ->
  (forall b, b ≠ inv_whoami inv -> store_eq (own b (w_storage w')) (own b (w_storage w))) /\
  (forall b, let k := get_account_code_identifier_for_account_key b in
             view (w_storage w') k = view (w_storage w) k) /\
  view (w_storage w') account_number_key = view (w_storage w) account_number_key.
Proof.
  intros [->|(k & v & Hw)]%handle_storage_exec_cases; [done|].
  split_and!; intros; [intros k'|..]; try by eapply wrote_view_ne.
  eapply wrote_view_ne; [done|]. by intros [-> _]%account_storage_key_inj.
Qed.

(** What an account stores is what anybody reads back. After a successful
    write request of an account, a successful read request for that account and
    key, of any caller, answers the value written. *)
Theorem storage_set_get fuel fuel' inv inv' key v set_req get_req w r w' resp w'' :
  InvokeRequest.new (mkStorageSetRequest key v) = Ok set_req ->
  InvokeRequest.new (mkStorageGetRequest (inv_whoami inv) key) = Ok get_req ->
  Invoker.do_exec codes fuel inv STORAGE_ACCOUNT_ID set_req [] w = Done (Ok r) w' ->
  Invoker.do_query codes fuel' inv' STORAGE_ACCOUNT_ID get_req w' = Done (Ok resp) w'' ->
  InvokeResponse.get resp = Ok (mkStorageGetResponse (Some v)).
Proof.
  intros Hs [Hg _]%InvokeRequest_get_new He Hq.
  pose proof (do_query_answer codes (inv_whoami inv) fuel' inv' _ _ _ _ _ Hq) as Ha.
  destruct (Ha eq_refl _ Hg eq_refl) as (o & Ho & Hr). apply InvokeResponse_get_new in Hr. rewrite Hr.
  pose proof (wrote_view_set _ _ _ _ (do_exec_set_wrote _ _ _ _ _ _ _ _ _ Hs He)) as Hv.
  rewrite get_view in Hv. unfold own in Ho. cbn [get_key] in Ho. rewrite Ho in Hv.
  destruct o as [b|]; cbn in Hv |- *; simplify_eq; done.
Qed.

(** C5: an account's storage is its own. Let the code of account [a] keep an
    invariant of [a]'s storage, assuming it only at the points where other code
    may run. Then whatever calls any other account makes, with arbitrary other
    codes, re-entrancy, rollbacks, migrations and new accounts in between, the
    invariant holds again after them. *)
Theorem do_exec_isolated a cid c kappa reach (I : Store -> Prop) fuel inv to data fs w r w' :
  (forall f g, store_eq f g -> I f -> I g) ->
  kappa + u64_max + 1 < reach <= 2 ^ 256 ->
  a ≠ RUNTIME_ACCOUNT_ID -> a ≠ STORAGE_ACCOUNT_ID ->
  lookup_code codes cid = Ok (Some c) -> keeps_invariant a c I ->
  good a cid kappa reach I (w_storage w) -> inv_whoami inv ≠ a ->
  Invoker.do_exec codes fuel inv to data fs w = Done r w' -> bounded w' ->
  I (own a (w_storage w')).
Proof.
  intros HI Hk Hrt Hst Hc Hkeep Hg Hinv Hr Hb.
  destruct (do_exec_guarded codes a cid c kappa reach I HI Hk Hrt Hst Hc Hkeep fuel inv to data fs) as [_ Hm];
    [by left|]. by destruct (Hm _ _ _ Hg Hr Hb).
Qed.

End Calls.

(** ** Identifiers *)

(** Object identifiers are unique. Within one scope (a block hook or a
    transaction) two different counter values never give the same identifier,
    and an identifier always has 32 bytes. *)
Theorem object_ids_unique scope n m id :
  is_u64 n -> is_u64 m -> scope_unique_id scope n = Ok id ->
  length id = 32%nat /\ (scope_unique_id scope m = Ok id -> n = m).
Proof. intros Hn Hm Hid. split; [by eapply scope_unique_id_length | by eapply scope_unique_id_inj]. Qed.

(** Account numbers count up. Two account numbers drawn one after the other
    are consecutive 256-bit numbers, up to the end of the range. *)
Theorem account_numbers_count `{SystemCodec} s a s1 b s2 :
  next_account_number s = (Ok a, s1) -> next_account_number s1 = (Ok b, s2) ->
  value b = (value a + 1) mod 2 ^ 256.
Proof.
  unfold next_account_number. intros H1 H2.
  destruct (ExecutionState.get s account_number_key) as [[o|] s0]; [|done].
  destruct (from_option _ _ o) as [last|]; [|done].
  destruct (Message.new (AccountId.increase last)) as [m|] eqn:Em; [|done].
  destruct (set_cases s0 account_number_key m) as [[e Hs]|(s' & Hs & Hw)]; rewrite Hs in H1;
    simplify_eq.
  pose proof (wrote_view_set _ _ _ _ Hw) as Hv.
  destruct (ExecutionState.get s1 account_number_key) as [[o'|] s3]; cbn in Hv; simplify_eq.
  cbn [from_option] in H2. rewrite (Message_get_new _ _ Em) in H2.
  destruct (Message.new (AccountId.increase (AccountId.increase a))); [|done].
  destruct (ExecutionState.set s3 _ _) as [[] ?]; simplify_eq. apply AccountId_increase_value.
Qed.

(** ** The theorems at work *)
Import Reference.

(** One account per code, the storage account below them. *)
Definition cell_rank (a : AccountId) : nat := if decide (a = STORAGE_ACCOUNT_ID) then 0 else 1.

Definition cell_codes : AccountsCodeStorage := {|
  lookup_code id := Ok (if bool_decide (id = "cell") then Some cell else None) |}.

Definition is_done_ok {A} (o : Outcome (SdkResult A)) : bool :=
  match o with Done (Ok _) _ => true | _ => false end.

Lemma cell_codes_ranked : ranked_codes cell_codes cell_rank.
Proof.
  intros id c env req Hc _ Hs. cbn in Hc. case_bool_decide; simplify_eq.
  cbn [cell code_query]. unfold cell_query. case_match; [|done].
  split; [|by intros]. unfold cell_rank. do 2 (case_decide; try done). lia.
Qed.

Lemma do_exec_gas_witness :
  match Invoker.do_exec codes 10 ctx cell_account (call 1) [] world with
  | Done (Ok _) w' => gas_le (w_gas world) (w_gas w') /\ gas_wf (w_gas w')
  | _ => False
  end.
Proof.
  pose proof (do_exec_gas codes 10 ctx cell_account (call 1) [] world) as H.
  assert (Hc : is_done_ok (Invoker.do_exec codes 10 ctx cell_account (call 1) [] world) = true)
    by (vm_compute; reflexivity).
  destruct (Invoker.do_exec _ _ _ _ _ _ _) as [[r|] w'| |]; [|discriminate Hc..].
  apply H; by_decision.
Defined.

Lemma do_exec_within_limits_witness :
  match Invoker.do_exec codes 10 ctx cell_account (call 1) [] world with
  | Done (Ok _) w' => within_limits (w_storage w')
  | _ => False
  end.
Proof.
  pose proof (do_exec_within_limits codes 10 ctx cell_account (call 1) [] world
                (within_limits_new _)) as H.
  assert (Hc : is_done_ok (Invoker.do_exec codes 10 ctx cell_account (call 1) [] world) = true)
    by (vm_compute; reflexivity).
  by destruct (Invoker.do_exec _ _ _ _ _ _ _) as [[r|] w'| |].
Defined.

Lemma CONSENSUS_not_protocol : ~ protocol_key CONSENSUS_PARAMS_KEY.
Proof. by intros Hk; inversion Hk. Qed.

Lemma do_exec_protocol_keys_witness :
  match Invoker.do_exec codes 10 ctx cell_account (call 1) [] world with
  | Done (Ok _) w' => overlay (w_storage w') !! CONSENSUS_PARAMS_KEY = None
  | _ => False
  end.
Proof.
  pose proof (do_exec_protocol_keys codes 10 ctx cell_account (call 1) [] world _ CONSENSUS_not_protocol) as H.
  assert (Hc : is_done_ok (Invoker.do_exec codes 10 ctx cell_account (call 1) [] world) = true)
    by (vm_compute; reflexivity).
  by destruct (Invoker.do_exec _ _ _ _ _ _ _) as [[r|] w'| |].
Defined.

Lemma do_exec_terminates_witness :
  Invoker.do_exec cell_codes 67 ctx cell_account (call 2) [] world ≠ OutOfFuel.
Proof.
  apply (do_exec_terminates cell_codes cell_rank 2); [apply cell_codes_ranked | | by_decision].
  intros a. unfold cell_rank. case_decide; lia.
Defined.

Lemma do_exec_fuel_witness :
  Invoker.do_exec codes 100 ctx cell_account (call 2) [] world =
  Invoker.do_exec codes 2 ctx cell_account (call 2) [] world.
Proof.
  apply (do_exec_fuel codes 2 100); [lia|].
  assert (Hc : match Invoker.do_exec codes 2 ctx cell_account (call 2) [] world with
               | OutOfFuel => false | _ => true end = true) by (vm_compute; reflexivity).
  by destruct (Invoker.do_exec _ 2 _ _ _ _ _).
Defined.

Lemma self_query_unbounded_witness :
  Invoker.do_query codes 1000 ctx loop_account (call 0) world = OutOfFuel.
Proof.
  apply (self_query_unbounded codes loop_account "loop" looping); [by_decision | by_decision | reflexivity | | ].
  - intros env. by eexists.
  - vm_compute. reflexivity.
Defined.

Definition set_request : SdkResult InvokeRequest :=
  InvokeRequest.new (mkStorageSetRequest cell_key (Message.from_bytes [x2a])).
Definition get_request : SdkResult InvokeRequest :=
  InvokeRequest.new (mkStorageGetRequest cell_account cell_key).

(** The environment of the code of [cell_account]. *)
Definition cell_env : Invoker := Invoker.branch_exec ctx cell_account [].

Lemma storage_exec_own_region_witness :
  match set_request with
  | Ok req =>
      match Invoker.handle_storage_exec cell_env req world with
      | Done (Ok _) w' => store_eq (own loop_account (w_storage w')) (own loop_account (w_storage world))
      | _ => False
      end
  | Err _ => False
  end.
Proof.
  assert (Hc : match set_request with
               | Ok req => match Invoker.handle_storage_exec cell_env req world with
                           | Done (Ok _) _ => true | _ => false end
               | Err _ => false end = true) by (vm_compute; reflexivity).
  destruct set_request as [req|]; [|discriminate].
  destruct (Invoker.handle_storage_exec cell_env req world) as [[r|] w'| |] eqn:E; [|discriminate Hc..].
  apply (storage_exec_own_region cell_env req world (Ok r) w' E). by_decision.
Defined.

Lemma storage_set_get_witness :
  match set_request, get_request with
  | Ok set_req, Ok get_req =>
      match Invoker.do_exec codes 5 cell_env STORAGE_ACCOUNT_ID set_req [] world with
      | Done (Ok r) w' =>
          match Invoker.do_query codes 5 ctx STORAGE_ACCOUNT_ID get_req w' with
          | Done (Ok resp) _ =>
              InvokeResponse.get resp = Ok (mkStorageGetResponse (Some (Message.from_bytes [x2a])))
          | _ => False
          end
      | _ => False
      end
  | _, _ => False
  end.
Proof.
  assert (Hc : match set_request, get_request with
               | Ok set_req, Ok get_req =>
                   match Invoker.do_exec codes 5 cell_env STORAGE_ACCOUNT_ID set_req [] world with
                   | Done (Ok r) w' => is_done_ok (Invoker.do_query codes 5 ctx STORAGE_ACCOUNT_ID get_req w')
                   | _ => false
                   end
               | _, _ => false
               end = true) by (vm_compute; reflexivity).
  destruct set_request as [sr|] eqn:Es; [|discriminate].
  destruct get_request as [gr|] eqn:Eg; [|discriminate].
  destruct (Invoker.do_exec _ _ _ _ sr _ _) as [[r|] w'| |] eqn:Ee; [|discriminate Hc..].
  destruct (Invoker.do_query _ _ _ _ gr _) as [[resp|] w''| |] eqn:Eq; [|discriminate Hc..].
  exact (storage_set_get codes 5 5 cell_env ctx cell_key _ sr gr world r w' resp w'' Es Eg Ee Eq).
Defined.

(** [alice] transfers 40 units to [bob]. *)
Definition token_call : Outcome (SdkResult InvokeResponse) :=
  Invoker.do_exec token_codes 10 (Invoker.branch_exec ctx alice []) token_account
    (tt_request (transfer_tx bob 40)) []
    (mkWorld (token_state None) (GasCounter.finite 5000 StorageGasConfig_default)).

Lemma do_exec_isolated_witness :
  match token_call with
  | Done (Ok _) w' => conserved (own token_account (w_storage w'))
  | _ => False
  end.
Proof.
  assert (Hc : match token_call with
               | Done (Ok _) w' => log_max (w_storage w') <=? u64_max
               | _ => false end = true) by (vm_compute; reflexivity).
  destruct token_call as [[r|] w'| |] eqn:E; [|discriminate Hc..].
  eapply (do_exec_isolated token_codes token_account "Token" Token.code 65543 (2 ^ 256) conserved);
    [apply conserved_proper | by_decision | by_decision | by_decision | reflexivity
    | apply token_keeps_conserved | | | exact E | by apply Z.leb_le].
  - apply token_good, token_conserved.
  - by_decision.
Defined.

Lemma object_ids_unique_witness :
  exists id, scope_unique_id (BeginBlock 7) 1 = Ok id /\ length id = 32%nat /\
             scope_unique_id (BeginBlock 7) 2 ≠ Ok id.
Proof.
  destruct (scope_unique_id (BeginBlock 7) 1) as [id|] eqn:E; [|discriminate].
  destruct (object_ids_unique (BeginBlock 7) 1 2 id) as [Hl Hu]; [by vm_compute..|done|].
  exists id. split; [done|]. split; [done|]. intros H. by apply Hu in H.
Defined.

Lemma account_numbers_count_witness :
  match next_account_number (ExecutionState.new base) with
  | (Ok a, s1) =>
      match next_account_number s1 with
      | (Ok b, _) => value b = (value a + 1) mod 2 ^ 256
      | _ => False
      end
  | _ => False
  end.
Proof.
  assert (Hc : match next_account_number (ExecutionState.new base) with
               | (Ok a, s1) => is_ok (next_account_number s1).1 | _ => false end = true)
    by (vm_compute; reflexivity).
  destruct (next_account_number (ExecutionState.new base)) as [[a|] s1] eqn:E1; [|discriminate].
  destruct (next_account_number s1) as [[b|] s2] eqn:E2; [|discriminate].
  exact (account_numbers_count _ _ _ _ _ E1 E2).
Defined.
