(* ===== verification/BlockTheorems.v ===== *)
(** * Blocks, verified

    Facts about the block paths of the state transition function, then the
    theorems on transactions, blocks and chains. *)

From S2P Require Import Prelude Core Gas ExecState ExecStateFacts Commit Runtime Invoker Codec Stf Example InvokerFacts.
From S2P Require Import CallFacts StfFacts CallTheorems.

Open Scope evolve_scope.

(** ** Blocks: instrumented path, rollback, simulation and termination

    The instrumented block path computes what the plain one does; a
    transaction that fails leaves no write; a simulated transaction gives the
    result it would have at the head of a block; and every block returns when
    queries do. *)

Definition outcome_map {A B} (f : A -> B) (o : Outcome A) : Outcome B :=
  match o with
  | Done a w => Done (f a) w
  | Panicked why => Panicked why
  | OutOfFuel => OutOfFuel
  end.

Lemma outcome_map_bind {A B C D} (f : B -> D) (m : M A) (k : A -> M B) (m' : M C) (k' : C -> M D)
    (g : A -> C) w :
  outcome_map g (m w) = m' w ->
  (forall a w', m w = Done a w' -> outcome_map f (k a w') = k' (g a) w') ->
  outcome_map f ((m ≫= k) w) = (m' ≫= k') w.
Proof.
  intros Hm Hk. unfold mbind, M_bind. rewrite <-Hm. destruct (m w) eqn:E; cbn; [by apply Hk | done | done].
Qed.

Section Metrics.
Context `{RuntimeDeps} {Tx B : Type} `{Transaction Tx} `{Block B Tx}.
Context (self : Stf Tx B) (codes : AccountsCodeStorage) (fuel : nat) (clock : Timings).

Lemma apply_txs_with_metrics_fst len ctx limit txs : forall index results tm cum sk w,
  outcome_map fst
    (Stf.apply_txs_with_metrics self codes fuel clock len ctx limit index txs results tm cum sk w)
  = Stf.apply_txs self codes fuel len ctx limit txs results cum sk w.
Proof.
  induction txs as [|tx txs IH]; intros; cbn [Stf.apply_txs Stf.apply_txs_with_metrics]; [done|].
  case_match; [apply IH|]. unfold Stf.metrics_snapshot, on_storage.
  unfold mbind, M_bind. cbn. replace (mkWorld (w_storage w) (w_gas w)) with w by by destruct w.
  destruct (Stf.apply_tx _ _ _ _ _ _ w) as [r [s g]| |]; cbn; [|done|done].
  case_match; [done | apply IH].
Qed.

Lemma apply_txs_with_metrics_gas len ctx limit txs : forall index results tm cum sk w out w',
  txm_gas_used <$> tm = tx_gas_used <$> results ->
  Stf.apply_txs_with_metrics self codes fuel clock len ctx limit index txs results tm cum sk w
    = Done out w' ->
  txm_gas_used <$> out.2 = tx_gas_used <$> out.1.1.1.
Proof.
  induction txs as [|tx txs IH]; intros index results tm cum sk w out w' Htm;
    cbn [Stf.apply_txs_with_metrics]; [by intros [= <- <-]|].
  case_match; [by apply IH|]. unfold Stf.metrics_snapshot, on_storage.
  unfold mbind, M_bind. cbn. destruct (Stf.apply_tx _ _ _ _ _ _ _) as [r [s g]| |]; cbn; [|done|done].
  case_match; [intros [= <- <-] | apply IH]; cbn; by rewrite !fmap_app, Htm.
Qed.

Lemma apply_block_with_metrics_fst storage block :
  outcome_map fst (Stf.apply_block_with_metrics self codes fuel clock storage block)
  = Stf.apply_block self codes fuel storage block.
Proof.
  unfold Stf.apply_block_with_metrics, Stf.apply_block, Stf.on_fresh_state, Stf.apply_block_body.
  set (w0 := mkWorld _ _). unfold mbind at 1, M_bind at 1. cbn [Stf.metrics_snapshot on_storage].
  change (mkWorld (w_storage w0) (w_gas w0)) with w0.
  apply (outcome_map_bind _ _ _ _ _ id); [by destruct (Stf.do_begin_block _ _ _ _ _)|].
  intros bev w1 _. apply (outcome_map_bind _ _ _ _ _ fst); [apply apply_txs_with_metrics_fst|].
  intros [[[rs cum] sk] tm] w2 _. apply (outcome_map_bind _ _ _ _ _ id);
    [by destruct (Stf.do_end_block _ _ _ _ _)|]. by intros eev [s g] _.
Qed.

Lemma apply_block_with_metrics_gas storage block r m w :
  Stf.apply_block_with_metrics self codes fuel clock storage block = Done (r, m) w ->
  txm_gas_used <$> bm_txs m = tx_gas_used <$> tx_results r.
Proof.
  unfold Stf.apply_block_with_metrics, Stf.on_fresh_state. set (w0 := mkWorld _ _).
  unfold mbind, M_bind. cbn [Stf.metrics_snapshot on_storage].
  destruct (Stf.do_begin_block _ _ _ _ _) as [bev w1| |]; try done.
  destruct (Stf.apply_txs_with_metrics _ _ _ _ _ _ _ _ _ _ _ _ _ _) as [out w2| |] eqn:El; try done.
  apply apply_txs_with_metrics_gas in El; [|done]. destruct out as [[[rs cum] sk] tm].
  destruct (Stf.do_end_block _ _ _ _ _) as [eev w3| |]; try done.
  by intros [= <- <- _].
Qed.

End Metrics.

(** ** Failed transactions *)

(** Code that only queries: a [QueryProg] used as an environment program. *)
Definition reads_only {R} (code : EnvView -> EnvProg R) : Prop :=
  forall env, exists q, code env = lift_query q.

Lemma run_prog_lift_query dq de ee ui {R} (q : QueryProg R) w :
  run_prog dq de ee ui (lift_query q) w = run_query_prog dq q w.
Proof.
  revert w. induction q as [r| |to data k IH]; intros w; cbn [lift_query run_prog run_query_prog]; try done.
  unfold mbind, M_bind. destruct (dq to data w); [apply IH | done | done].
Qed.

Section Failed.
Context `{RuntimeDeps} {Tx B : Type} `{Transaction Tx} `{Block B Tx}.
Context (self : Stf Tx B) (codes : AccountsCodeStorage) (fuel : nat).

Lemma reads_only_readonly {R} ctx (code : EnvView -> EnvProg R) :
  reads_only code -> m_readonly (Stf.run codes fuel ctx code).
Proof.
  intros Hq w. unfold Stf.run, Invoker.run, Invoker.run_env.
  destruct (Hq (Invoker.env_view ctx)) as [q ->]. rewrite run_prog_lift_query.
  apply run_query_prog_readonly. intros. apply do_query_readonly.
Qed.

(** The pieces of a transaction outside its [do_exec] read only, and the
    post-transaction handler accepts. *)
Record plain_tx (tx : Tx) : Prop := {
  plain_sender : reads_only (resolve_sender_account tx);
  plain_recipient : reads_only (resolve_recipient_account tx);
  plain_bootstrap : sender_bootstrap tx = None;
  plain_validator : reads_only (tx_validator self tx);
  plain_post : forall gas resp env, post_tx_handler self tx gas resp env = PRet (Ok tt) }.

Section From.
Context (s0 : ExecutionState).

Lemma triple_readonly {A} (m : M A) :
  m_readonly m -> triple (fun w => w_storage w ≈ s0) m (fun _ w => w_storage w ≈ s0).
Proof. intros Hm w Hw. specialize (Hm w). destruct (m w); [by etrans | done | done]. Qed.

Lemma triple_do_exec ctx to data fs :
  triple (fun w => w_storage w ≈ s0) (Stf.do_exec codes fuel ctx to data fs)
    (fun r w => is_err r = true -> w_storage w ≈ s0).
Proof.
  intros w Hw. pose proof (do_exec_atomic codes fuel ctx to data fs w) as Ha.
  unfold Stf.do_exec. destruct (Invoker.do_exec _ _ _ _ _ _ _); [|done|done].
  destruct Ha as [_ Ha]. intros Hr. etrans; [by apply Ha | done].
Qed.

Lemma finish_failed (resp : SdkResult InvokeResponse) :
  triple (fun w => is_err resp = true -> w_storage w ≈ s0)
    (events ← pop_events; gas_used ← read_gas_used; mret (mkTxResult events gas_used resp))
    (fun r w => is_err (tx_response r) = true ->
                w_storage w ≈ (ExecutionState.pop_events s0).2).
Proof.
  intros w Hw. cbn. intros Hr. specialize (Hw Hr). apply st_equiv_intro; cbn; by st_rewrite Hw.
Qed.

Lemma execute_phase_failed tx ctx a :
  plain_tx tx ->
  triple (fun w => w_storage w ≈ s0) (Stf.execute_tx_phase self codes fuel tx ctx a)
    (fun r w => is_err r = true -> w_storage w ≈ s0).
Proof.
  intros Hp. unfold Stf.execute_tx_phase.
  eapply triple_try; [apply triple_readonly, reads_only_readonly, Hp| |by auto].
  intros to. eapply triple_bind; [apply triple_do_exec|]. intros resp.
  eapply triple_bind with (Q := fun _ w => is_err resp = true -> w_storage w ≈ s0);
    [by intros [s g]|].
  intros n w Hw. unfold Stf.run, Invoker.run, Invoker.run_env. by rewrite (plain_post _ Hp).
Qed.

Lemma apply_tx_phases_failed tx block :
  plain_tx tx ->
  triple (fun w => w_storage w ≈ s0) (Stf.apply_tx_phases self codes fuel tx block)
    (fun r w => is_err (tx_response r) = true -> w_storage w ≈ (ExecutionState.pop_events s0).2).
Proof.
  intros Hp. unfold Stf.apply_tx_phases, Stf.tx_error_result.
  assert (Hfin : forall e, triple (fun w => w_storage w ≈ s0)
    (events ← pop_events; gas_used ← read_gas_used; mret (mkTxResult events gas_used (Err e)))
    (fun r w => is_err (tx_response r) = true -> w_storage w ≈ (ExecutionState.pop_events s0).2)).
  { intros e. eapply triple_weaken; [apply finish_failed | by intros w Hw _ | done]. }
  eapply triple_bind; [apply triple_readonly, reads_only_readonly, Hp|].
  intros [a|e]; [|apply Hfin]. unfold Stf.bootstrap_sender_phase. rewrite (plain_bootstrap _ Hp).
  eapply triple_bind; [apply triple_readonly, m_readonly_ret|].
  intros [[]|e]; [|apply Hfin]. cbv zeta.
  eapply triple_bind; [apply triple_readonly, reads_only_readonly, Hp|].
  intros [[]|e]; [|apply Hfin].
  eapply triple_bind; [by apply execute_phase_failed|]. intros resp. apply finish_failed.
Qed.

End From.

Lemma apply_tx_failed tx cfg block w r w' :
  plain_tx tx ->
  Stf.apply_tx self codes fuel tx cfg block w = Done r w' ->
  is_err (tx_response r) = true ->
  w_storage w' ≈ (ExecutionState.pop_events (w_storage w)).2.
Proof.
  intros Hp. unfold Stf.apply_tx, with_gas_counter. set (g := Finite _ _ _).
  pose proof (apply_tx_phases_failed (w_storage w) tx block Hp (mkWorld (w_storage w) g)
                (reflexivity _)) as Ht.
  destruct (Stf.apply_tx_phases _ _ _ _ _ _) as [r1 w1| |]; try done. intros [= -> <-]. exact Ht.
Qed.

(** ** Simulation *)

Lemma apply_txs_prefix len ctx limit txs : forall results cum sk w out w',
  Stf.apply_txs self codes fuel len ctx limit txs results cum sk w = Done out w' ->
  results `prefix_of` out.1.1.
Proof.
  induction txs as [|tx txs IH]; intros results cum sk w out w'; cbn [Stf.apply_txs];
    [by intros [= <- <-]|].
  case_match; [apply IH|]. unfold mbind, M_bind.
  destruct (Stf.apply_tx _ _ _ _ _ _ _) as [r w1| |]; [|done|done]. case_match.
  - intros [= <- <-]. by eexists.
  - intros Hrest. apply IH in Hrest. etrans; [by eexists | done].
Qed.

Lemma apply_txs_head len ctx limit tx rest w r w1 out w' :
  tx_gas_limit tx <= limit ->
  Stf.apply_tx self codes fuel tx (storage_gas_config self) ctx w = Done r w1 ->
  Stf.apply_txs self codes fuel len ctx limit (tx :: rest) [] 0 0 w = Done out w' ->
  [r] `prefix_of` out.1.1.
Proof.
  intros Hfit Htx. cbn [Stf.apply_txs].
  replace (limit <? _) with false by (unfold saturating_add; lia).
  unfold mbind, M_bind. rewrite Htx. cbv zeta. case_match; [by intros [= <- <-]|].
  apply apply_txs_prefix.
Qed.

Lemma noop_begin_block storage block :
  (forall env, begin_blocker self block env = PRet tt) ->
  Stf.do_begin_block self codes fuel block (mkWorld (ExecutionState.new storage) Infinite)
  = Done [] (mkWorld (ExecutionState.new storage) Infinite).
Proof.
  intros Hb. unfold Stf.do_begin_block, Stf.run, Invoker.run, Invoker.run_env. by rewrite Hb.
Qed.

Lemma apply_block_head storage block tx rest r w br w' :
  (forall env, begin_blocker self block env = PRet tt) ->
  block_txs block = tx :: rest -> tx_gas_limit tx <= block_gas_limit block ->
  Stf.simulate_transaction self codes fuel storage tx (block_context block) = Done r w ->
  Stf.apply_block self codes fuel storage block = Done br w' ->
  head (tx_results br) = Some r.
Proof.
  intros Hb Htxs Hfit Hsim. unfold Stf.apply_block, Stf.on_fresh_state, Stf.apply_block_body.
  unfold mbind, M_bind. rewrite (noop_begin_block storage block Hb), Htxs. cbv zeta.
  destruct (Stf.apply_txs _ _ _ _ _ _ _ _ _ _ _) as [[[rs cum] sk] w1| |] eqn:El; try done.
  eapply apply_txs_head in El as [more Hrs]; [|done|exact Hsim]. cbn in Hrs.
  destruct (Stf.do_end_block _ _ _ _ _); try done. intros [= <- _]. cbn. by rewrite Hrs.
Qed.

End Failed.

(** ** Termination and fuel *)

Lemma with_gas_counter_returns {A} g (m : M A) : m_returns m -> m_returns (with_gas_counter g m).
Proof. intros Hm w. unfold with_gas_counter. specialize (Hm (mkWorld (w_storage w) g)). by destruct (m _). Qed.

Lemma with_gas_counter_below {A} g (m m' : M A) :
  m ⊑ₘ m' -> with_gas_counter g m ⊑ₘ with_gas_counter g m'.
Proof.
  intros Hm w. unfold with_gas_counter. specialize (Hm (mkWorld (w_storage w) g)). intros Hne.
  rewrite Hm; [done|]. intros E. by rewrite E in Hne.
Qed.

Lemma read_gas_used_returns : m_returns read_gas_used.
Proof. apply on_gas_returns. Qed.

Lemma pop_events_returns : m_returns pop_events.
Proof. apply on_storage_returns. Qed.

#[export] Hint Resolve with_gas_counter_returns with_gas_counter_below read_gas_used_returns
  pop_events_returns : sound.

Section Terminates.
Context `{RuntimeDeps} {Tx B : Type} `{Transaction Tx} `{Block B Tx}.
Context (self : Stf Tx B) (codes : AccountsCodeStorage).

Section Returns.
Context (q : nat) (Hq : queries_return codes q).

(** Enough nested calls: the call depth limit, the calls of the block's own
    contexts, and those of a query. *)
Abbreviation enough := (65 + q)%nat.

Lemma stf_run_returns {R} ctx (code : EnvView -> EnvProg R) :
  0 <= inv_call_depth ctx -> m_returns (Stf.run codes enough ctx code).
Proof using Hq. intros Hd. apply (run_returns codes q 64); [done|]. unfold MAX_CALL_DEPTH. lia. Qed.

Lemma stf_do_exec_returns ctx to data fs :
  0 <= inv_call_depth ctx -> m_returns (Stf.do_exec codes enough ctx to data fs).
Proof using Hq. intros Hd. apply (do_exec_returns codes q 64); [done|]. unfold MAX_CALL_DEPTH. lia. Qed.

#[local] Hint Resolve stf_run_returns stf_do_exec_returns : sound.
#[local] Hint Extern 1 (0 <= inv_call_depth _) => (cbn; lia) : sound.

Lemma stf_register_returns ctx a id msg :
  0 <= inv_call_depth ctx ->
  m_returns (Invoker.register_account_at_id codes (Stf.do_query codes enough)
               (Stf.do_exec codes enough) ctx a id msg).
Proof using Hq.
  intros Hd. unfold Invoker.register_account_at_id.
  assert (Hrun : forall c req, m_returns (Stf.run codes enough (Invoker.branch_exec ctx a [])
                                   (fun env => code_init c env req))).
  { intros. apply stf_run_returns. cbn. u_lia. }
  returns.
Qed.

#[local] Hint Resolve stf_register_returns : sound.

Lemma execute_tx_phase_returns tx ctx a :
  0 <= inv_call_depth ctx -> m_returns (Stf.execute_tx_phase self codes enough tx ctx a).
Proof using Hq.
  intros Hd. unfold Stf.execute_tx_phase. apply m_returns_try; [auto with sound|]. intros to.
  apply m_returns_bind; [auto with sound|]. intros resp.
  apply m_returns_bind; [auto with sound|]. intros n.
  apply m_returns_bind; [auto with sound|]. intros []; returns.
Qed.

#[local] Hint Resolve execute_tx_phase_returns : sound.

Lemma apply_tx_returns tx cfg block : m_returns (Stf.apply_tx self codes enough tx cfg block).
Proof using Hq.
  apply with_gas_counter_returns. unfold Stf.apply_tx_phases, Stf.resolve_sender_phase,
    Stf.bootstrap_sender_phase, Stf.validate_tx_phase, Stf.tx_error_result.
  returns.
Qed.

Lemma apply_txs_returns len ctx limit txs : forall results cum sk,
  m_returns (Stf.apply_txs self codes enough len ctx limit txs results cum sk).
Proof using Hq.
  induction txs as [|tx txs IH]; intros; cbn [Stf.apply_txs]; [returns|].
  case_match; [apply IH|]. apply m_returns_bind; [apply apply_tx_returns|]. intros r. cbv zeta.
  case_match; [returns | apply IH].
Qed.

Lemma apply_block_returns storage block :
  Stf.apply_block self codes enough storage block ≠ OutOfFuel.
Proof using Hq.
  unfold Stf.apply_block, Stf.on_fresh_state. generalize (mkWorld (ExecutionState.new storage) Infinite).
  change (m_returns (Stf.apply_block_body self codes enough block)).
  unfold Stf.apply_block_body, Stf.do_begin_block, Stf.do_end_block.
  apply m_returns_bind; [returns|]. intros bev. cbv zeta.
  apply m_returns_bind; [apply apply_txs_returns|]. intros [[rs cum] sk]. returns.
Qed.

End Returns.
End Terminates.

(** ** Theorems on blocks

    The properties of the state transition function ([crates/app/stf/src/lib.rs])
    on transactions, blocks and chains of blocks. *)

(** ** Signatures *)

Lemma filter_signatures_from {Tx} (verify : Tx -> SdkResult unit) txs n :
  let p := filter_valid_signatures txs
    (imap (fun i tx => mkSignatureVerificationResult (Z.of_nat (n + i)) (verify tx)) txs) in
  p.1 = filter (fun tx => is_ok (verify tx) = true) txs /\
  Forall2 (fun tx i => Z.of_nat n <= i /\ txs !! (Z.to_nat i - n)%nat = Some tx) p.1 p.2 /\
  StronglySorted Z.lt p.2.
Proof.
  revert n. induction txs as [|tx txs IH]; intros n; cbn [imap filter_valid_signatures]; [by split_and!; constructor|].
  specialize (IH (S n)). cbn zeta in IH |- *.
  rewrite (imap_ext _ (fun i tx => mkSignatureVerificationResult (Z.of_nat (S n + i)) (verify tx)) txs)
    by (intros; cbn; do 2 f_equal; lia).
  destruct (filter_valid_signatures txs _) as [valid idx]. cbn [fst snd] in *.
  destruct IH as (Hv & Hf & Hs). cbn [sig_result sig_index]. rewrite filter_cons.
  assert (Forall2 (fun tx0 i => Z.of_nat n <= i /\ (tx :: txs) !! (Z.to_nat i - n)%nat = Some tx0) valid idx) as Hf'.
  { eapply Forall2_impl; [exact Hf|]. intros tx0 i [Hi Hl]. split; [lia|].
    replace (Z.to_nat i - n)%nat with (S (Z.to_nat i - S n)) by lia. done. }
  destruct (is_ok (verify tx)) eqn:Eok; cbn [fst snd].
  - rewrite decide_True by done. split_and!; [by f_equal | | ].
    + constructor; [|done]. split; [lia|]. by replace (Z.to_nat (Z.of_nat (n + 0)) - n)%nat with 0%nat by lia.
    + constructor; [done|]. apply Forall_forall. intros i Hi.
      apply list_elem_of_lookup in Hi as [j Hj]. destruct (Forall2_lookup_r _ _ _ _ _ Hf Hj) as (? & _ & ? & _). lia.
  - rewrite decide_False by congruence. by split_and!.
Qed.

(** Parallel signature verification loses and reorders nothing. Filtering
    the transactions by the verification results keeps exactly the ones whose
    signature verifies, in their order, with their positions in the block. *)
Theorem signatures_filtered {Tx} (verify : Tx -> SdkResult unit) txs :
  let p := filter_valid_signatures txs (verify_signatures_parallel txs verify) in
  p.1 = filter (fun tx => is_ok (verify tx) = true) txs /\
  Forall2 (fun tx i => 0 <= i /\ txs !! Z.to_nat i = Some tx) p.1 p.2 /\ StronglySorted Z.lt p.2.
Proof.
  destruct (filter_signatures_from verify txs 0) as (Hv & Hf & Hs). split; [done|]. split; [|done].
  eapply Forall2_impl; [exact Hf|]. intros tx i [Hi Hl]. rewrite Nat.sub_0_r in Hl. by split.
Qed.

(** ** Blocks *)

Section Blocks.
Context `{RuntimeDeps} {Tx B : Type} `{Transaction Tx} `{Block B Tx}.
Context (self : Stf Tx B) (codes : AccountsCodeStorage) (fuel : nat).

(** C4: a block respects its gas limits. The executed transactions are a
    subsequence of the block's, each uses at most its own limit, and the gas
    the block reports is the sum of what they used and at most the block's
    limit, whatever the accounts' code does. The runtime itself never
    panics. *)
Theorem apply_block_gas storage block :
  is_u64 (block_gas_limit block) ->
  Forall (fun tx => is_u64 (tx_gas_limit tx)) (block_txs block) ->
  config_wf (storage_gas_config self) ->
  match Stf.apply_block self codes fuel storage block with
  | Done r w =>
      (exists executed, sublist executed (block_txs block) /\
         Forall2 (fun tx tr => 0 <= tx_gas_used tr <= tx_gas_limit tx) executed (tx_results r)) /\
      gas_used r = Z.min u64_max (gas_sum (tx_results r)) /\
      0 <= gas_used r <= block_gas_limit block
  | Panicked why => why ≠ RestoreFailed
  | OutOfFuel => True
  end.
Proof.
  intros Hl Ht Hc. pose proof (apply_block_spec self codes fuel storage block Hl Ht Hc) as Hs.
  destruct (Stf.apply_block _ _ _ _ _) as [r w| |]; [|by subst|done]. by destruct Hs.
Qed.

(** A block accounts for every transaction. When the block's gas is not
    used up, each transaction has a result or is counted as skipped. *)
Theorem apply_block_skipped storage block r w :
  is_u64 (block_gas_limit block) ->
  Forall (fun tx => is_u64 (tx_gas_limit tx)) (block_txs block) ->
  config_wf (storage_gas_config self) ->
  Stf.apply_block self codes fuel storage block = Done r w ->
  gas_used r < block_gas_limit block ->
  zlen (tx_results r) + txs_skipped r = zlen (block_txs block).
Proof.
  intros Hl Ht Hc Hr Hg. pose proof (apply_block_spec self codes fuel storage block Hl Ht Hc) as Hs.
  rewrite Hr in Hs. pose proof (bp_skipped _ _ _ _ Hs Hg). lia.
Qed.

(** A block writes only the accounts' region of the key space: any other
    key reads the same in the state after the block as in storage. *)
Theorem apply_block_protocol_keys storage block r w k :
  is_u64 (block_gas_limit block) ->
  Forall (fun tx => is_u64 (tx_gas_limit tx)) (block_txs block) ->
  config_wf (storage_gas_config self) ->
  Stf.apply_block self codes fuel storage block = Done r w ->
  ~ protocol_key k -> view (w_storage w) k = storage k.
Proof.
  intros Hl Ht Hc Hr Hk. pose proof (apply_block_spec self codes fuel storage block Hl Ht Hc) as Hs.
  rewrite Hr in Hs. by rewrite (advances_protocol_keys _ _ _ (bp_adv _ _ _ _ Hs) Hk).
Qed.

(** C33: a failed transaction leaves no trace. For a transaction whose
    resolution and validation only read, which bootstraps no sender and whose
    post-transaction handler does nothing, an error response means that the
    state is the one before it, without its events. *)
Theorem apply_tx_failure tx cfg block w r w' :
  plain_tx self tx ->
  Stf.apply_tx self codes fuel tx cfg block w = Done r w' ->
  is_err (tx_response r) = true ->
  w_storage w' ≈ (ExecutionState.pop_events (w_storage w)).2.
Proof. apply apply_tx_failed. Qed.

(** Measuring does not change the outcome. Block execution with metrics
    gives the result and the state of block execution without them. *)
Theorem apply_block_metrics clock storage block :
  outcome_map fst (Stf.apply_block_with_metrics self codes fuel clock storage block) =
  Stf.apply_block self codes fuel storage block.
Proof. apply apply_block_with_metrics_fst. Qed.

(** Simulation predicts execution. Without a begin-block hook, simulating
    a transaction gives the result it has as the first one of a block. *)
Theorem simulate_predicts storage block tx rest r w br w' :
  (forall env, begin_blocker self block env = PRet tt) ->
  block_txs block = tx :: rest -> tx_gas_limit tx <= block_gas_limit block ->
  Stf.simulate_transaction self codes fuel storage tx (block_context block) = Done r w ->
  Stf.apply_block self codes fuel storage block = Done br w' ->
  head (tx_results br) = Some r.
Proof. apply apply_block_head. Qed.

(** Blocks terminate. With stratified queries (ranks below [q]) every block
    is executed, whatever the hooks, transactions and account codes do: 65 +
    [q] nested calls are enough. *)
Theorem apply_block_terminates rank q storage block :
  ranked_codes codes rank -> (forall a, (rank a < q)%nat) ->
  Stf.apply_block self codes (65 + q) storage block ≠ OutOfFuel.
Proof. intros Hc Hq. apply apply_block_returns. by eapply ranked_queries_return. Qed.

End Blocks.

(** ** The theorems at work *)
Import Reference.

Definition three_txs : CellBlock := mkCellBlock 3000 [cell_tx 1 4000; cell_tx 1 2000; cell_tx 2 1000].

(** A block limit that the second transaction uses up: 370 gas. *)
Definition full_block : CellBlock := mkCellBlock 370 [cell_tx 1 4000; cell_tx 1 370; cell_tx 1 370].

(** Skipped transactions are counted twice when the block fills up. A block
    of three transactions, the first of which does not fit and the second of
    which uses the block's gas up, executes one and reports three skipped. *)
Theorem txs_skipped_overcount :
  option_map (fun r => (zlen (tx_results r), txs_skipped r))
    (value_of (Stf.apply_block stf codes 5 base full_block)) = Some (1, 3).
Proof. vm_compute. reflexivity. Qed.

Lemma stf_config : config_wf (storage_gas_config stf).
Proof. by_decision. Qed.

Lemma three_txs_limits : Forall (fun tx => is_u64 (tx_gas_limit tx)) (block_txs three_txs).
Proof. by_decision. Qed.

Lemma apply_block_gas_witness :
  match Stf.apply_block stf codes 5 base three_txs with
  | Done r _ => zlen (tx_results r) = 2 /\ gas_used r <= 3000
  | _ => False
  end.
Proof.
  pose proof (apply_block_gas stf codes 5 base three_txs ltac:(by_decision) three_txs_limits stf_config) as H.
  assert (Hc : match Stf.apply_block stf codes 5 base three_txs with
               | Done r _ => zlen (tx_results r) =? 2 | _ => false end = true) by (vm_compute; reflexivity).
  destruct (Stf.apply_block _ _ _ _ _) as [r w| |]; [|discriminate Hc..].
  destruct H as (_ & _ & _ & H). apply Z.eqb_eq in Hc. by split.
Defined.

Lemma apply_block_skipped_witness :
  match Stf.apply_block stf codes 5 base three_txs with
  | Done r _ => zlen (tx_results r) + txs_skipped r = 3
  | _ => False
  end.
Proof.
  assert (Hc : match Stf.apply_block stf codes 5 base three_txs with
               | Done r _ => gas_used r <? 3000 | _ => false end = true) by (vm_compute; reflexivity).
  destruct (Stf.apply_block stf codes 5 base three_txs) as [r w| |] eqn:E; [|discriminate Hc..].
  apply Z.ltb_lt in Hc.
  exact (apply_block_skipped stf codes 5 base three_txs r w ltac:(by_decision) three_txs_limits
           stf_config E Hc).
Defined.

Lemma apply_block_protocol_keys_witness :
  match Stf.apply_block stf codes 5 base three_txs with
  | Done _ w => view (w_storage w) CONSENSUS_PARAMS_KEY = base CONSENSUS_PARAMS_KEY
  | _ => False
  end.
Proof.
  assert (Hc : match Stf.apply_block stf codes 5 base three_txs with
               | Done _ _ => true | _ => false end = true) by (vm_compute; reflexivity).
  destruct (Stf.apply_block stf codes 5 base three_txs) as [r w| |] eqn:E; [|discriminate Hc..].
  exact (apply_block_protocol_keys stf codes 5 base three_txs r w CONSENSUS_PARAMS_KEY ltac:(by_decision)
           three_txs_limits stf_config E CONSENSUS_not_protocol).
Defined.

Lemma cell_tx_plain fn limit : plain_tx stf (cell_tx fn limit).
Proof. split; try reflexivity; intros env; eexists (QRet _); reflexivity. Qed.

Lemma apply_tx_failure_witness :
  match Stf.apply_tx stf codes 5 (cell_tx 2 1000) StorageGasConfig_default (mkBlockContext 1 1) world with
  | Done r w' => is_err (tx_response r) = true /\ w_storage w' ≈ ExecutionState.new base
  | _ => False
  end.
Proof.
  assert (Hc : match Stf.apply_tx stf codes 5 (cell_tx 2 1000) StorageGasConfig_default (mkBlockContext 1 1) world with
               | Done r _ => is_err (tx_response r) | _ => false end = true) by (vm_compute; reflexivity).
  destruct (Stf.apply_tx _ _ _ _ _ _ _) as [r w'| |] eqn:E; [|discriminate Hc..].
  split; [done|].
  exact (apply_tx_failure stf codes 5 _ _ _ world r w' (cell_tx_plain 2 1000) E Hc).
Defined.

Definition two_txs : CellBlock := mkCellBlock 3000 [cell_tx 1 2000; cell_tx 2 1000].

Lemma simulate_predicts_witness :
  match Stf.simulate_transaction stf codes 5 base (cell_tx 1 2000) (mkBlockContext 1 1),
        Stf.apply_block stf codes 5 base two_txs with
  | Done r _, Done br _ => head (tx_results br) = Some r /\ is_ok (tx_response r) = true
  | _, _ => False
  end.
Proof.
  assert (Hc : match Stf.simulate_transaction stf codes 5 base (cell_tx 1 2000) (mkBlockContext 1 1),
                     Stf.apply_block stf codes 5 base two_txs with
               | Done r _, Done _ _ => is_ok (tx_response r) | _, _ => false end = true)
    by (vm_compute; reflexivity).
  destruct (Stf.simulate_transaction _ _ _ _ _ _) as [r w| |] eqn:Es; [|discriminate Hc..].
  destruct (Stf.apply_block _ _ _ _ _) as [br w'| |] eqn:Ea; [|discriminate Hc..].
  split; [|done].
  exact (simulate_predicts stf codes 5 base two_txs _ _ r w br w' (fun _ => eq_refl) eq_refl
           ltac:(by_decision) Es Ea).
Defined.

Lemma apply_block_terminates_witness :
  Stf.apply_block stf cell_codes 67 base three_txs ≠ OutOfFuel.
Proof.
  apply (apply_block_terminates stf cell_codes cell_rank 2); [apply cell_codes_ranked|].
  intros a. unfold cell_rank. case_decide; lia.
Defined.
