(* ===== verification/TokenTheorems.v ===== *)
(** * Theorems on the token

    Conservation of the token supply: from initialisation, through every chain
    of blocks with arbitrary other accounts and codes. *)

From S2P Require Import Prelude Core Gas Collections ExecState ExecStateFacts Commit Runtime Invoker Token Codec Stf.
From S2P Require Import Example InvokerFacts CallFacts Isolation CollectionFacts TokenFacts TokenExample StfFacts Chain.
From S2P Require Import CallTheorems.

Open Scope evolve_scope.

Section Token.
Context `{RuntimeDeps} `{CollectionCodec} `{!TokenCodec}.
Context {Tx B : Type} `{Transaction Tx} `{Block B Tx}.
Context (self : Stf Tx B) (codes : AccountsCodeStorage) (fuel : nat).
Context (a : AccountId).

(** The chain's setting: [a] is an ordinary account with the token's code. *)
Abbreviation token_chain := (account_chain self codes fuel a Token.code).

(** C3: the token conserves its supply on every chain. If the balances add up to
    the recorded supply (modulo the width of the counters) when a chain starts,
    they do after any number of blocks, with arbitrary other accounts, codes and
    hooks, and with arbitrary transactions none of which is sent as the token
    account itself; the token is an ordinary account, and the counter of new
    accounts cannot run out. (The sum has to hold at the start: the
    initialisation of a token that lists a holder twice does not establish it.)
    *)
Theorem token_supply_conserved kappa storage blocks storage' :
  token_chain kappa conserved storage blocks ->
  produce_blocks self codes fuel storage blocks = Some storage' ->
  conserved (own a (ExecutionState.new (MockStorage.get storage'))).
Proof.
  apply account_chain_keeps; [intros f g; apply conserved_proper | apply token_keeps_conserved].
Qed.

(** C6: a token without a supply manager has a fixed supply. If at the start of
    a chain its recorded supply is the sum of the balances, none of which is
    negative or overflows, then after any number of blocks in which no
    transaction is sent as the token account itself the recorded supply is the
    same and still exactly that sum. *)
Theorem token_supply_fixed kappa s0 storage blocks storage' :
  token_chain kappa (fixed_supply s0) storage blocks ->
  produce_blocks self codes fuel storage blocks = Some storage' ->
  fixed_supply s0 (own a (ExecutionState.new (MockStorage.get storage'))).
Proof.
  apply account_chain_keeps; [intros f g; apply fixed_supply_proper | apply token_keeps_fixed_supply].
Qed.

(** Initialisation establishes conservation. On an account without
    storage, a successful [initialize] with distinct holders records a supply
    equal to the sum of the balances modulo the counters' width; without a
    supply manager and overflow, exactly that sum, fixed for good. *)
Theorem token_initialize_conserves I msg env st :
  NoDup (im_balances msg).*1 -> (forall k, st k = Ok None) ->
  wp a I (Token.initialize msg env) (fun r st' => is_ok r = true ->
    conserved st' /\
    (im_supply_manager msg = None -> Forall (fun v => 0 <= v) (im_balances msg).*2 ->
     amounts (im_balances msg) <= u128_max -> fixed_supply (amounts (im_balances msg)) st')) st.
Proof. apply initialize_establishes. Qed.

End Token.

(** ** The theorems at work *)
Import Reference.

(** The storage of [TokenExample] as a map. *)
Definition token_map (manager : option AccountId) : gmap bytes bytes :=
  list_to_map (omap (fun e => pair e.1 <$> e.2) (token_entries manager)).

Lemma entries_lookup (es : list (bytes * option bytes)) k :
  Forall (fun e => is_Some e.2) es ->
  (list_to_map (omap (fun e => pair e.1 <$> e.2) es) : gmap bytes bytes) !! k =
  foldr (fun e o => if decide (e.1 = k) then e.2 else o) None es.
Proof.
  induction 1 as [|[k' v] es [b Hb] _ IH]; [done|]. cbn in Hb. subst v. cbn.
  destruct (decide (k' = k)) as [->|Hk]; [apply lookup_insert_eq|].
  rewrite lookup_insert_ne by done. apply IH.
Qed.

Lemma token_map_view k :
  view (ExecutionState.new (MockStorage.get (token_map None))) k = view (token_state None) k.
Proof.
  unfold view. cbn [overlay base_storage ExecutionState.new token_state].
  rewrite lookup_empty, token_base_find. unfold MockStorage.get, token_map.
  rewrite entries_lookup; [done|]. by_decision.
Qed.

(** Two blocks: [alice] sends 40 units to [bob] and tries to send 70 more; then
    they send 25 and try to mint. *)
Definition token_blocks : list (list TokenTx) :=
  [[transfer_tx bob 40; transfer_tx bob 70]; [transfer_tx bob 25; mint_tx bob 5]].

Lemma alice_sends block : none_sent_as token_codes 10 token_account block.
Proof.
  apply Forall_true. intros tx w x w'. intros [= <- _]. by_decision.
Qed.

Lemma token_chain_example I :
  (forall f g, store_eq f g -> I f -> I g) -> I (own token_account (token_state None)) ->
  account_chain token_stf token_codes 10 token_account Token.code (65543 + u64_max) I (token_map None) token_blocks.
Proof.
  intros HI Hi. split.
  - split_and!; by_decision.
  - reflexivity.
  - eapply good_view; [done | apply token_map_view | by_decision | by apply token_good].
  - apply Forall_true. intros. apply alice_sends.
  - apply chain_bounded_ok. vm_compute. reflexivity.
  - by_decision.
Qed.

Lemma token_supply_conserved_witness :
  match produce_blocks token_stf token_codes 10 (token_map None) token_blocks with
  | Some storage => conserved (own token_account (ExecutionState.new (MockStorage.get storage)))
  | None => False
  end.
Proof.
  assert (Hc : bool_decide (is_Some (produce_blocks token_stf token_codes 10 (token_map None) token_blocks)) = true)
    by (vm_compute; reflexivity).
  apply bool_decide_eq_true in Hc as [storage Hc]. rewrite Hc.
  apply (token_supply_conserved token_stf token_codes 10 token_account (65543 + u64_max) (token_map None) token_blocks);
    [|exact Hc].
  apply token_chain_example; [intros f g; apply conserved_proper | apply token_conserved].
Defined.

Lemma token_supply_fixed_witness :
  match produce_blocks token_stf token_codes 10 (token_map None) token_blocks with
  | Some storage => fixed_supply 100 (own token_account (ExecutionState.new (MockStorage.get storage)))
  | None => False
  end.
Proof.
  assert (Hc : bool_decide (is_Some (produce_blocks token_stf token_codes 10 (token_map None) token_blocks)) = true)
    by (vm_compute; reflexivity).
  apply bool_decide_eq_true in Hc as [storage Hc]. rewrite Hc.
  apply (token_supply_fixed token_stf token_codes 10 token_account (65543 + u64_max) 100 (token_map None) token_blocks);
    [|exact Hc].
  apply token_chain_example; [intros f g; apply fixed_supply_proper | apply token_fixed_supply].
Defined.

Definition init_msg : InitializeMsg :=
  mkInitializeMsg (mkFungibleAssetMetadata "Atom" "ATOM" 6 "" "") [(alice, 60); (bob, 40)] None.

Lemma token_initialize_conserves_witness :
  wp token_account (fun _ => True)
    (Token.initialize init_msg (Invoker.env_view (Invoker.branch_exec ctx token_account [])))
    (fun r st' => is_ok r = true -> fixed_supply 100 st') (fun _ => Ok None).
Proof.
  eapply wp_mono; [|apply (token_initialize_conserves token_account (fun _ => True) init_msg);
                    [by_decision | done]].
  intros r st' Hr Hok. destruct (Hr Hok) as [_ Hf]. apply Hf; [done | by_decision | by_decision].
Defined.
