(* ===== verification/CollectionTheorems.v ===== *)
(** * Theorems on the storage collections

    The queue, the vector and the unordered map of the SDK implement a list
    with two ends, a list with one end and a finite map, as programs run by
    the runtime on the storage of their account; and two operations of the
    vector that do not. *)

From S2P Require Import Prelude Core Gas Collections ExecState ExecStateFacts Runtime Invoker Codec Stf Example.
From S2P Require Import InvokerFacts CallFacts Isolation CollectionFacts Local CollectionSpec VectorSpec.
From S2P Require Import UnorderedMapSpec TokenExample CallTheorems.

Open Scope evolve_scope.

Section Collections.
Context `{RuntimeDeps} `{CollectionCodec} `{!StorageTotal} `{!KeysTotal}.
Context (codes : AccountsCodeStorage) (fuel : nat) (inv : Invoker).

Abbreviation a := (inv_whoami inv).
Abbreviation env := (Invoker.env_view inv).

(** The account runs [p] on the storage [st] of its own: gas is not metered,
    calls are possible and the overlay has room for the writes. *)
Record account_runs {R} (p : EnvProg R) (st : gmap bytes bytes) (w : World) : Prop := {
  ar_depth : inv_call_depth inv < MAX_CALL_DEPTH;
  ar_world : local_world a st (local_writes a p st) w }.

Lemma account_runs_local {R} (p : EnvProg R) st w r st' :
  account_runs p st w -> exec_local a p st = Some (r, st') ->
  exists w', Invoker.run codes (S fuel) inv p w = Done r w' /\ local_world a st' 0 w'.
Proof. intros [Hd Hw] He. by eapply run_local. Qed.

(** C35: the queue is a list with two ends. On an account that has nothing under
    the queue's prefixes, every sequence of pushes, pops at both ends, emptiness
    tests and iterations returns under the runtime exactly what the same
    sequence returns on a list. *)
Theorem queue_implements_list {V} `{Borsh V} (q : Queue V) ops st w bound :
  queue_distinct q -> fresh (queue_prefixes q) st ->
  Forall (queue_op_ok bound) ops -> zlen ops <= bound -> zlen ops <= u64_max ->
  account_runs (ops_prog (queue_impl q env) ops) st w ->
  exists w', Invoker.run codes (S fuel) inv (ops_prog (queue_impl q env) ops) w
             = Done (model_ops queue_model ops []).1 w'.
Proof.
  intros Hd Hf Hops Hb Hn Hw.
  destruct (queue_refines a q Hd env eq_refl ops bound st 0 []) as [st' He]; [by apply queue_fresh | done..|].
  rewrite <-exec_ops_prog in He. destruct (account_runs_local _ _ _ _ _ Hw He) as (w' & Hr & _). eauto.
Qed.

(** The vector is a list with one end. On an account that has nothing under
    the vector's prefixes, every sequence of pushes, pops, non-empty extensions,
    reads in range, lengths and iterations returns under the runtime exactly
    what it returns on a list. *)
Theorem vector_implements_list {V} `{Borsh V} (v : Vector V) ops st w :
  map_prefix (vec_index v) ≠ map_prefix (vec_elems v) -> fresh (vector_prefixes v) st ->
  ops_ok vector_model vector_op_ok ops [] ->
  account_runs (ops_prog (vector_impl v env) ops) st w ->
  exists w', Invoker.run codes (S fuel) inv (ops_prog (vector_impl v env) ops) w
             = Done (model_ops vector_model ops []).1 w'.
Proof.
  intros Hd Hf Hops Hw.
  destruct (local_ops_refine a (vector_impl v env) vector_model vector_op_ok (vector_rep a v)
    (fun st l op => vector_step a v Hd env eq_refl st l op) ops st []) as (st' & He & _); [by apply vector_fresh | done|].
  rewrite <-exec_ops_prog in He. destruct (account_runs_local _ _ _ _ _ Hw He) as (w' & Hr & _). eauto.
Qed.

(** C34: the unordered map is a finite map. On an account that has nothing under
    the map's prefixes, every sequence of insertions, removals, updates, reads
    and sizes returns under the runtime exactly what it returns on a finite
    map; iterating afterwards visits each entry of that map exactly once. *)
Theorem unordered_map_implements_map {K V} `{Borsh K} `{Borsh V} `{Countable K}
    (u : UnorderedMap K V) ops st w :
  um_distinct u -> fresh (um_prefixes u) st -> ops_ok um_model (um_op_ok a) ops ∅ ->
  account_runs (ops_prog (um_impl u env) ops) st w ->
  exists w' st', Invoker.run codes (S fuel) inv (ops_prog (um_impl u env) ops) w
                 = Done (model_ops um_model ops ∅).1 w' /\ local_world a st' 0 w' /\
    forall n, (size (model_ops um_model ops ∅).2 < n)%nat ->
    exists l w'', l ≡ₚ map_to_list (model_ops um_model ops ∅).2 /\
      Invoker.run codes (S fuel) inv (lift_query (um_collect u env n)) w' = Done (Ok (Ok <$> l)) w''.
Proof.
  intros Hd Hf Hops Hw.
  destruct (local_ops_refine a (um_impl u env) um_model (um_op_ok a) (fun st m => exists keys, um_rep a u st keys m)
    (fun st m op => um_step a u Hd env eq_refl st m op) ops st ∅) as (st' & He & keys & Hr);
    [by exists []; apply um_fresh | done|].
  rewrite <-exec_ops_prog in He. destruct (account_runs_local _ _ _ _ _ Hw He) as (w' & Hrun & Hw').
  exists w', st'. split_and!; [done | done|]. intros n Hn.
  destruct (um_collect_spec a u env eq_refl _ _ _ _ Hr Hn) as (l & Hp & Hc).
  destruct (account_runs_local (lift_query (um_collect u env n)) st' w' (Ok (Ok <$> l)) st') as (w'' & Hq & _);
    [split; [apply Hw | by rewrite local_writes_lift] | done|].
  by exists l, w''.
Qed.

(** Extending an empty vector by nothing breaks it. The call succeeds, but
    it stores the length 0, which [pop] takes for a vector with an element: the
    next [pop] fails with [ERR_NOT_FOUND], where a list has nothing to pop. *)
Theorem vector_extend_by_nothing {V} `{Borsh V} (v : Vector V) st w :
  map_prefix (vec_index v) ≠ map_prefix (vec_elems v) -> fresh (vector_prefixes v) st ->
  account_runs (ops_prog (vector_impl v env) [VExtend []; VPop]) st w ->
  (exists w', Invoker.run codes (S fuel) inv (ops_prog (vector_impl v env) [VExtend []; VPop]) w
              = Done [VObsUnit (Ok tt); VObsOption (Err ERR_NOT_FOUND)] w') /\
  (model_ops vector_model [VExtend []; VPop] (@nil V)).1 = [VObsUnit (Ok tt); VObsOption (Ok None)].
Proof.
  intros Hd Hf Hw. split; [|done].
  assert (He : exists st', exec_local a (ops_prog (vector_impl v env) [VExtend []; VPop]) st
    = Some ([VObsUnit (Ok tt); VObsOption (Err ERR_NOT_FOUND)], st')).
  { rewrite exec_ops_prog. cbn [run_local_ops vector_impl].
    rewrite exec_local_bind, extend_nothing_spec by done. cbn [mbind option_bind exec_local mret EnvProg_ret].
    rewrite exec_local_bind, pop_zero_spec by done. by eexists. }
  destruct He as [st' He]. destruct (account_runs_local _ _ _ _ _ Hw He) as (w' & Hr & _). eauto.
Qed.

(** A popped element can still be read. After a push and a pop the vector
    is empty, but reading index 0 gives the element instead of
    [ERR_NOT_FOUND]. *)
Theorem vector_get_popped {V} `{Borsh V} (v : Vector V) (x : V) st w :
  map_prefix (vec_index v) ≠ map_prefix (vec_elems v) -> fresh (vector_prefixes v) st -> fits x ->
  account_runs (ops_prog (vector_impl v env) [VPush x; VPop; VLen; VGet 0]) st w ->
  exists w', Invoker.run codes (S fuel) inv (ops_prog (vector_impl v env) [VPush x; VPop; VLen; VGet 0]) w
    = Done [VObsUnit (Ok tt); VObsOption (Ok (Some x)); VObsLen (Ok 0); VObsItem (Ok x)] w'.
Proof.
  intros Hd Hf Hx Hw.
  assert (He : exists st', exec_local a (ops_prog (vector_impl v env) [VPush x; VPop; VLen; VGet 0]) st
    = Some ([VObsUnit (Ok tt); VObsOption (Ok (Some x)); VObsLen (Ok 0); VObsItem (Ok x)], st')).
  { rewrite exec_ops_prog. cbn [run_local_ops vector_impl]. rewrite exec_local_bind.
    destruct (vector_push_spec a v Hd env eq_refl st [] x (vector_fresh a v _ Hf) Hx) as (s1 & -> & Hr1 & _); [done|].
    cbn [mbind option_bind exec_local mret EnvProg_ret]. rewrite exec_local_bind.
    pose proof (vector_pop_spec a v Hd env eq_refl s1 ([] ++ [x]) Hr1) as (s2 & Hp & Hr2 & _). rewrite Hp.
    cbn [mbind option_bind exec_local mret EnvProg_ret].
    rewrite exec_local_bind, (vector_len_spec a v env eq_refl _ _ Hr2).
    cbn [mbind option_bind exec_local mret EnvProg_ret]. change (Z.of_nat 0) with (zlen (@nil V)).
    rewrite exec_local_bind, (get_after_pop a v Hd env eq_refl _ _ _ _ Hr1 Hp). by eexists. }
  destruct He as [st' He]. destruct (account_runs_local _ _ _ _ _ Hw He) as (w' & Hr & _). eauto.
Qed.

End Collections.

(** ** The theorems at work

    On the reference codec, for an account with an empty storage. *)
Import Reference.

Lemma vec_serialize_total b : zlen b <= MAX_VALUE_SIZE -> is_Some (vec_serialize b).
Proof.
  intros Hb. unfold vec_serialize, uint_serialize. pose proof (zlen_nonneg b).
  unfold MAX_VALUE_SIZE in Hb. replace (_ && _) with true; [by eexists|].
  symmetry. apply andb_true_iff. split; [by apply Z.leb_le | apply Z.ltb_lt; cbn; lia].
Qed.

Lemma key_within_value (k : bytes) : zlen k <= MAX_KEY_SIZE -> zlen k <= MAX_VALUE_SIZE.
Proof. unfold MAX_KEY_SIZE, MAX_STORAGE_KEY_SIZE, MAX_VALUE_SIZE. lia. Qed.

#[export] Instance reference_storage_total : StorageTotal.
Proof.
  split; unfold to_vec; cbn.
  - intros a k Hk%key_within_value. unfold iso_serialize, pair_serialize. cbn.
    destruct (vec_serialize_total k Hk) as [b Hb]. by rewrite Hb.
  - intros [m|] Hm; [|done]. unfold iso_serialize. cbn. destruct m as [[b]].
    destruct (vec_serialize_total b (Hm _ eq_refl)) as [c Hc]. unfold Message_serialize. cbn. by rewrite Hc.
  - intros k [[v]] Hk%key_within_value Hv. unfold iso_serialize, pair_serialize, Message_serialize. cbn.
    destruct (vec_serialize_total k Hk) as [b Hb], (vec_serialize_total v Hv) as [c Hc]. by rewrite Hb, Hc.
  - done.
  - intros k Hk%key_within_value. unfold iso_serialize. cbn. by apply vec_serialize_total.
  - done.
Qed.

#[export] Instance reference_keys_total : KeysTotal.
Proof.
  split; [|done]. intros n [H0 H1]. exists (le_bytes 8 n). split; [|unfold zlen; by rewrite length_le_bytes].
  change (uint_serialize 8 n = Some (le_bytes 8 n)). unfold uint_serialize.
  change (256 ^ Z.of_nat 8) with (Z.succ u64_max).
  by rewrite (proj2 (Z.leb_le _ _) H0), (proj2 (Z.ltb_lt _ _) (proj2 (Z.lt_succ_r _ _) H1)).
Qed.

Lemma u64_key_fits (k : U64) : is_u64 k -> key_fits cell_account k.
Proof.
  intros (b & Hb & Hl)%u64_encodes. exists b. unfold encode_value. rewrite Hb. split; [done|].
  intros p. unfold short, account_storage_key. rewrite !zlen_app, !zlen_cons, Hl. unfold zlen.
  by rewrite AccountId_as_bytes_length.
Qed.

(** The conditions on operations with small numbers. *)
Ltac in_range :=
  repeat match goal with
  | |- _ /\ _ => split
  | |- True => exact I
  | |- Forall _ _ => constructor
  | |- fits _ => apply fits_u64; split; discriminate
  | |- key_fits _ _ => apply u64_key_fits; split; discriminate
  | |- is_Some _ => by eexists
  | |- _ ≠ _ => discriminate
  | |- _ < _ => vm_compute; reflexivity
  | |- _ <= _ => vm_compute; discriminate
  | |- (_ < _)%nat => cbn; lia
  end.

Definition coll_inv : Invoker := Invoker.new_for_query cell_account.
Definition coll_world : World := mkWorld (ExecutionState.new base) Infinite.

(** The account of [coll_inv] starts without storage. *)
Lemma coll_runs {R} (p : EnvProg R) :
  local_writes cell_account p ∅ <= 1000 -> account_runs coll_inv p ∅ coll_world.
Proof.
  intros Hn. split; [done|]. split; [done | |].
  2: { change (0 + local_writes cell_account p ∅ <= 100000). lia. }
  intros k. unfold own, view. cbn -[base]. unfold base.
  rewrite !bool_decide_false; [done | by intros [=]..].
Qed.

Lemma fresh_empty ps : fresh ps ∅.
Proof. split; [done|]. intros. apply lookup_empty. Qed.

Definition example_queue : Queue U64 := Queue.new x00 x01 x02.
Definition example_queue_ops : list (QueueOp (V := U64)) :=
  [PushBack 5; PushBack 6; PushBack 7; Collect 20; PopFront; PopBack; IsEmpty; PopBack; PopFront; IsEmpty].

Lemma queue_implements_list_witness :
  exists w', Invoker.run codes 1 coll_inv
    (ops_prog (queue_impl example_queue (Invoker.env_view coll_inv)) example_queue_ops) coll_world
  = Done [ObsUnit (Ok tt); ObsUnit (Ok tt); ObsUnit (Ok tt); ObsItems (Ok [Ok 5; Ok 6; Ok 7]);
          ObsItem (Ok 5); ObsItem (Ok 7); ObsBool (Ok false); ObsItem (Ok 6); ObsItem (Err ERR_EMPTY);
          ObsBool (Ok true)] w'.
Proof.
  apply (queue_implements_list codes 0 coll_inv example_queue example_queue_ops ∅ coll_world 15).
  - by split.
  - apply fresh_empty.
  - repeat constructor; apply fits_u64; done.
  - done.
  - done.
  - apply coll_runs. vm_compute. discriminate.
Defined.

Definition example_vector : Vector U64 := Vector.new x00 x01.
Definition example_vector_ops : list (VectorOp (V := U64)) :=
  [VPush 5; VExtend [6; 7]; VLen; VGet 1; VCollect 9; VPop; VPop; VPop; VPop; VLen].

Lemma vector_implements_list_witness :
  exists w', Invoker.run codes 1 coll_inv
    (ops_prog (vector_impl example_vector (Invoker.env_view coll_inv)) example_vector_ops) coll_world
  = Done [VObsUnit (Ok tt); VObsUnit (Ok tt); VObsLen (Ok 3); VObsItem (Ok 6);
          VObsItems (Ok [Ok 5; Ok 6; Ok 7]); VObsOption (Ok (Some 7)); VObsOption (Ok (Some 6));
          VObsOption (Ok (Some 5)); VObsOption (Ok None); VObsLen (Ok 0)] w'.
Proof.
  apply (vector_implements_list codes 0 coll_inv example_vector example_vector_ops ∅ coll_world).
  - done.
  - apply fresh_empty.
  - cbn [ops_ok example_vector_ops vector_op_ok vector_model fst snd]. in_range.
  - apply coll_runs. vm_compute. discriminate.
Defined.

Lemma vector_extend_by_nothing_witness :
  exists w', Invoker.run codes 1 coll_inv
    (ops_prog (vector_impl example_vector (Invoker.env_view coll_inv)) [VExtend []; VPop]) coll_world
  = Done [VObsUnit (Ok tt); VObsOption (Err ERR_NOT_FOUND)] w'.
Proof.
  apply (vector_extend_by_nothing codes 0 coll_inv example_vector ∅ coll_world).
  - done.
  - apply fresh_empty.
  - apply coll_runs. vm_compute. discriminate.
Defined.

Lemma vector_get_popped_witness :
  exists w', Invoker.run codes 1 coll_inv
    (ops_prog (vector_impl example_vector (Invoker.env_view coll_inv)) [VPush 5; VPop; VLen; VGet 0]) coll_world
  = Done [VObsUnit (Ok tt); VObsOption (Ok (Some 5)); VObsLen (Ok 0); VObsItem (Ok 5)] w'.
Proof.
  apply (vector_get_popped codes 0 coll_inv example_vector 5 ∅ coll_world).
  - done.
  - apply fresh_empty.
  - apply fits_u64. done.
  - apply coll_runs. vm_compute. discriminate.
Defined.

#[export] Instance U64_eq_dec : EqDecision U64 := Z.eq_dec.
#[export] Instance U64_countable : Countable U64 := Z_countable.

Definition example_map : UnorderedMap U64 U64 := UnorderedMap.new x00 x01 x02 x03.
Definition example_map_ops : list (MapOp (K := U64) (V := U64)) :=
  [MInsert 1 10; MInsert 2 20; MInsert 3 30; MInsert 2 21; MRemove 1; MRemove 9; MGet 3; MGet 1;
   MUpdate 2 (fun o => Ok (u64_add (unwrap_or_zero o) 1)); MLen; MIsEmpty].

Lemma unordered_map_implements_map_witness :
  exists w', Invoker.run codes 1 coll_inv
    (ops_prog (um_impl example_map (Invoker.env_view coll_inv)) example_map_ops) coll_world
  = Done [MObsOption (Ok None); MObsOption (Ok None); MObsOption (Ok None); MObsOption (Ok (Some 20));
          MObsOption (Ok (Some 10)); MObsOption (Ok None); MObsItem (Ok 30); MObsItem (Err ERR_NOT_FOUND);
          MObsItem (Ok 22); MObsLen (Ok 2); MObsBool (Ok false)] w' /\
  exists l w'', l ≡ₚ [(2, 22); (3, 30)] /\
    Invoker.run codes 1 coll_inv (lift_query (um_collect example_map (Invoker.env_view coll_inv) 5)) w'
    = Done (Ok (Ok <$> l)) w''.
Proof.
  destruct (unordered_map_implements_map codes 0 coll_inv example_map example_map_ops ∅ coll_world)
    as (w' & st' & Hr & _ & Hc).
  - by split.
  - apply fresh_empty.
  - cbn [ops_ok example_map_ops um_op_ok fst snd]. in_range.
    intros v Hv. apply (inj Ok) in Hv as <-. apply fits_u64. split; vm_compute; discriminate.
  - apply coll_runs. vm_compute. discriminate.
  - exists w'. split; [exact Hr|]. destruct (Hc 5%nat) as (l & w'' & Hl & Hq); [vm_compute; lia|].
    exists l, w''. split; [|exact Hq]. etrans; [exact Hl|].
    vm_compute. apply perm_swap.
Defined.
