(* ===== verification/Heap.v ===== *)
(** * The binary heap of the standard library

    [std::collections::BinaryHeap] as the mempool uses it: a max-heap in a
    [Vec], with [push] (sift up) and [pop] (move the last element to the root,
    sift it to the bottom, then up). Elements are compared by a total preorder;
    elements that compare equal leave in an order the algorithm decides. *)

From S2P Require Import Prelude.

(** ** The algorithm *)
Section Algorithm.
Context {E : Type} (leb : E -> E -> bool).

Definition parent (i : nat) : nat := (i - 1) / 2.

(** The elements at [i] and [j] are in order. *)
Definition at_most (l : list E) (i j : nat) : bool :=
  match l !! i, l !! j with Some a, Some b => leb a b | _, _ => true end.

Definition swap (i j : nat) (l : list E) : list E :=
  match l !! i, l !! j with Some a, Some b => <[i := b]> (<[j := a]> l) | _, _ => l end.

(** [sift_up(0, pos)]; [fuel] bounds the way to the root. *)
Fixpoint sift_up (fuel pos : nat) (l : list E) : list E :=
  match fuel with
  | O => l
  | S fuel =>
      if (pos =? 0)%nat then l
      else if at_most l pos (parent pos) then l
      else sift_up fuel (parent pos) (swap pos (parent pos) l)
  end.

(** [sift_down_to_bottom(pos)]. *)
Fixpoint sift_down (fuel pos : nat) (l : list E) : list E :=
  match fuel with
  | O => l
  | S fuel =>
      let end_ := length l in
      let child := (2 * pos + 1)%nat in
      if (child <=? end_ - 2)%nat then
        let child := (if at_most l child (child + 1) then child + 1 else child)%nat in
        sift_down fuel child (swap pos child l)
      else if (child =? end_ - 1)%nat then
        sift_up (S child) child (swap pos child l)
      else sift_up (S pos) pos l
  end.

Definition push (x : E) (l : list E) : list E := sift_up (S (length l)) (length l) (l ++ [x]).

Definition pop (l : list E) : option (E * list E) :=
  match last l with
  | None => None
  | Some item =>
      let data := removelast l in
      match data with
      | [] => Some (item, [])
      | root :: rest => Some (root, sift_down (length data) 0 (item :: rest))
      end
  end.

Definition peek (l : list E) : option E := head l.

End Algorithm.

(** ** The multiset of the elements *)
Section Elements.
Context {E : Type} (leb : E -> E -> bool).

Lemma swap_length i j (l : list E) : length (swap i j l) = length l.
Proof. unfold swap. repeat case_match; by rewrite ?length_insert. Qed.

Lemma swap_lookup i j (l : list E) k :
  (i < length l)%nat -> (j < length l)%nat ->
  swap i j l !! k = if decide (k = i) then l !! j else if decide (k = j) then l !! i else l !! k.
Proof.
  intros [a Ha]%lookup_lt_is_Some [b Hb]%lookup_lt_is_Some. unfold swap. rewrite Ha, Hb.
  pose proof (lookup_lt_Some _ _ _ Ha). pose proof (lookup_lt_Some _ _ _ Hb).
  destruct (decide (k = i)) as [->|Hi]; [by rewrite list_lookup_insert_eq by by rewrite length_insert|].
  rewrite list_lookup_insert_ne by done.
  destruct (decide (k = j)) as [->|Hj]; [by rewrite list_lookup_insert_eq|].
  by rewrite list_lookup_insert_ne.
Qed.

Lemma swap_permutation i j (l : list E) : swap i j l ≡ₚ l.
Proof.
  unfold swap. destruct (l !! i) as [a|] eqn:Ha; [|done]. destruct (l !! j) as [b|] eqn:Hb; [|done].
  pose proof (lookup_lt_Some _ _ _ Ha). pose proof (lookup_lt_Some _ _ _ Hb).
  apply Permutation_inj. rewrite !length_insert. split; [done|].
  exists (fun k => if decide (k = i) then j else if decide (k = j) then i else k). split.
  - intros x y. repeat case_decide; congruence.
  - intros k. destruct (decide (k = i)) as [->|Hi].
    { rewrite list_lookup_insert_eq by by rewrite length_insert. done. }
    rewrite list_lookup_insert_ne by done.
    destruct (decide (k = j)) as [->|Hj]; [by rewrite list_lookup_insert_eq|].
    by rewrite list_lookup_insert_ne.
Qed.

Lemma sift_up_permutation fuel : forall pos (l : list E), sift_up leb fuel pos l ≡ₚ l.
Proof.
  induction fuel as [|fuel IH]; intros pos l; cbn [sift_up]; [done|].
  repeat case_match; try done. by rewrite IH, swap_permutation.
Qed.

Lemma sift_down_permutation fuel : forall pos (l : list E), sift_down leb fuel pos l ≡ₚ l.
Proof.
  induction fuel as [|fuel IH]; intros pos l; cbn [sift_down]; [done|].
  repeat case_match; by rewrite ?IH, ?sift_up_permutation, ?swap_permutation.
Qed.

Lemma push_permutation x (l : list E) : push leb x l ≡ₚ x :: l.
Proof. unfold push. rewrite sift_up_permutation. by rewrite Permutation_app_comm. Qed.

Lemma pop_permutation (l : list E) x l' : pop leb l = Some (x, l') -> l ≡ₚ x :: l'.
Proof.
  unfold pop. destruct l as [|y l _] using rev_ind; [done|]. rewrite last_snoc, removelast_last.
  destruct l as [|r l]; intros Hp; apply (inj Some), pair_equal_spec in Hp as [<- <-]; [done|].
  etrans; [|apply Permutation_cons; [done | symmetry; apply sift_down_permutation]].
  cbn. apply Permutation_cons; [done|]. by rewrite Permutation_app_comm.
Qed.

Lemma pop_None (l : list E) : pop leb l = None <-> l = [].
Proof.
  unfold pop. destruct l as [|y l _] using rev_ind; [done|]. rewrite last_snoc, removelast_last.
  split; [by destruct l | by destruct l].
Qed.

End Elements.

(** ** The heap order *)
Section Order.
Context {E : Type} (leb : E -> E -> bool).
Context (leb_total : forall a b, leb a b = true \/ leb b a = true).
Context (leb_trans : forall a b c, leb a b = true -> leb b c = true -> leb a c = true).

(** The element at [i] is at most the one at [j]. *)
Definition below (l : list E) (i j : nat) : Prop :=
  forall a b, l !! i = Some a -> l !! j = Some b -> leb a b = true.

Definition is_heap (l : list E) : Prop := forall i, (0 < i)%nat -> below l i (parent i).

(** A heap but for the element at [pos], whose children fit its place. *)
Definition heap_but_up (pos : nat) (l : list E) : Prop :=
  (forall i, (0 < i)%nat -> i ≠ pos -> below l i (parent i)) /\
  (forall i, (0 < i)%nat -> parent i = pos -> (0 < pos)%nat -> below l i (parent pos)).

Lemma parent_lt i : (0 < i)%nat -> (parent i < i)%nat.
Proof. intros. unfold parent. apply Nat.Div0.div_lt_upper_bound. lia. Qed.

Lemma at_most_below l i j : at_most leb l i j = true -> below l i j.
Proof. unfold at_most, below. intros Hm a b Ha Hb. by rewrite Ha, Hb in Hm. Qed.

Lemma at_most_above l i j : at_most leb l i j = false -> below l j i.
Proof using leb_total.
  unfold at_most, below. intros Hm a b Ha Hb. rewrite Ha, Hb in Hm. destruct (leb_total a b); congruence.
Qed.

Lemma below_trans l i j k : (j < length l)%nat -> below l i j -> below l j k -> below l i k.
Proof using leb_trans. intros [b Hb]%lookup_lt_is_Some Hij Hjk a c Ha Hc. eauto. Qed.

Lemma below_refl l i : below l i i.
Proof using leb_total. intros a b Ha Hb. replace b with a by congruence. by destruct (leb_total a a). Qed.

Lemma below_out l i j : (length l <= i)%nat -> below l i j.
Proof. intros Hi%lookup_ge_None a b Ha. congruence. Qed.

(** Where an element comes from when two are swapped. *)
Definition swapped (i j k : nat) : nat := if decide (k = i) then j else if decide (k = j) then i else k.

Lemma below_swap l i j x y :
  (i < length l)%nat -> (j < length l)%nat ->
  below l (swapped i j x) (swapped i j y) -> below (swap i j l) x y.
Proof.
  intros Hi Hj Hb a b. rewrite !swap_lookup by done. unfold swapped in Hb. repeat case_decide; apply Hb.
Qed.

Lemma sift_up_heap fuel : forall pos l,
  (pos < fuel)%nat -> (pos < length l)%nat -> heap_but_up pos l -> is_heap (sift_up leb fuel pos l).
Proof using leb_total leb_trans.
  induction fuel as [|fuel IH]; intros pos l Hf Hl [H1 H2]; [lia|]. cbn [sift_up].
  destruct (Nat.eqb_spec pos 0) as [->|Hp]; [intros i Hi; apply H1; lia|].
  pose proof (parent_lt pos ltac:(lia)) as Hpp.
  destruct (at_most _ _ _ _) eqn:Em.
  { apply at_most_below in Em. intros i Hi. destruct (decide (i = pos)) as [->|]; [done | by apply H1]. }
  apply at_most_above in Em. apply IH; [lia | rewrite swap_length; lia|]. split.
  - intros i Hi Hne. apply below_swap; [done | lia|]. unfold swapped.
    destruct (decide (i = pos)) as [->|Hip].
    + rewrite decide_False by lia. rewrite decide_True by done. done.
    + rewrite (decide_False (P := i = parent pos)) by done.
      destruct (decide (parent i = pos)) as [Hc|Hc]; [apply H2; (done || lia)|].
      destruct (decide (parent i = parent pos)) as [Hc'|Hc'].
      * apply (below_trans _ _ (parent pos)); [lia | rewrite <-Hc'; by apply H1 | done].
      * by apply H1.
  - intros i Hi Hpi Hpos. pose proof (parent_lt _ Hpos). apply below_swap; [done | lia|]. unfold swapped.
    rewrite (decide_False (P := parent (parent pos) = pos)) by lia.
    rewrite (decide_False (P := parent (parent pos) = parent pos)) by lia.
    destruct (decide (i = pos)) as [->|Hip]; [apply H1; lia|].
    pose proof (parent_lt _ Hi). rewrite decide_False by lia.
    apply (below_trans _ _ (parent pos)); [lia | rewrite <-Hpi; by apply H1 | apply H1; lia].
Qed.

(** A heap but for the hole at [pos], while an element is sifted down. *)
Definition heap_but_down (pos : nat) (l : list E) : Prop :=
  (forall i, (0 < i)%nat -> i ≠ pos -> parent i ≠ pos -> below l i (parent i)) /\
  (forall i, (0 < i)%nat -> parent i = pos -> (0 < pos)%nat -> below l i (parent pos)).

Lemma children i pos : (0 < i)%nat -> parent i = pos -> i = (2 * pos + 1)%nat \/ i = (2 * pos + 2)%nat.
Proof.
  unfold parent. intros Hi <-. pose proof (Nat.div_mod_eq (i - 1) 2).
  pose proof (Nat.mod_upper_bound (i - 1) 2 ltac:(lia)). lia.
Qed.

Lemma parent_child pos : parent (2 * pos + 1) = pos /\ parent (2 * pos + 2) = pos.
Proof.
  unfold parent. split.
  - replace (2 * pos + 1 - 1)%nat with (pos * 2)%nat by lia. by apply Nat.div_mul.
  - replace (2 * pos + 2 - 1)%nat with (1 + pos * 2)%nat by lia. rewrite Nat.div_add by lia. done.
Qed.

(** The greater child [c] of [pos] takes its place. *)
Lemma heap_but_down_swap pos c l :
  (0 < c)%nat -> parent c = pos -> (c < length l)%nat ->
  (forall d, (0 < d)%nat -> parent d = pos -> below l d c) ->
  heap_but_down pos l -> heap_but_down c (swap pos c l).
Proof using leb_total leb_trans.
  intros Hc Hpc Hlc Hmax [H1 H2]. pose proof (parent_lt c Hc) as Hlt. rewrite Hpc in Hlt. split.
  - intros i Hi Hic Hpic. pose proof (parent_lt i Hi). apply below_swap; [lia | done|]. unfold swapped.
    rewrite (decide_False (P := i = c)), (decide_False (P := parent i = c)) by done.
    destruct (decide (i = pos)) as [->|Hip].
    + rewrite decide_False by lia. by apply H2.
    + destruct (decide (parent i = pos)); [by apply Hmax | by apply H1].
  - intros i Hi Hpi _. pose proof (parent_lt i Hi). apply below_swap; [lia | done|]. unfold swapped.
    rewrite Hpc. rewrite (decide_True (P := pos = pos)) by done.
    rewrite (decide_False (P := i = pos)), (decide_False (P := i = c)) by lia.
    rewrite <-Hpi. apply H1; lia.
Qed.

Lemma heap_but_down_leaf pos l :
  (length l <= 2 * pos + 1)%nat -> heap_but_down pos l -> heap_but_up pos l.
Proof.
  intros Hl [H1 H2]. split; intros i Hi Hx.
  - destruct (decide (parent i = pos)) as [Hp|Hp]; [|by apply H1].
    apply below_out. destruct (children _ _ Hi Hp); lia.
  - intros _. apply below_out. destruct (children _ _ Hi Hx); lia.
Qed.

Lemma sift_down_heap fuel : forall pos l,
  (length l <= pos + fuel)%nat -> (pos < length l)%nat -> heap_but_down pos l ->
  is_heap (sift_down leb fuel pos l).
Proof using leb_total leb_trans.
  induction fuel as [|fuel IH]; intros pos l Hf Hl Hh; [lia|]. cbn [sift_down].
  destruct (parent_child pos) as [Hp1 Hp2].
  replace (2 * pos + 1 + 1)%nat with (2 * pos + 2)%nat by lia.
  destruct (Nat.leb_spec (2 * pos + 1) (length l - 2)).
  - destruct (at_most _ _ _ _) eqn:Em.
    + apply at_most_below in Em. apply IH; rewrite ?swap_length; [lia | lia|].
      apply heap_but_down_swap; [lia | done | lia | | done].
      intros d Hd Hpd. destruct (children _ _ Hd Hpd) as [-> | ->]; [done | apply below_refl].
    + apply at_most_above in Em. apply IH; rewrite ?swap_length; [lia | lia|].
      apply heap_but_down_swap; [lia | done | lia | | done].
      intros d Hd Hpd. destruct (children _ _ Hd Hpd) as [-> | ->]; [apply below_refl | done].
  - destruct (Nat.eqb_spec (2 * pos + 1) (length l - 1)).
    + apply sift_up_heap; rewrite ?swap_length; [lia | lia|].
      apply heap_but_down_leaf; [rewrite swap_length; lia|].
      apply heap_but_down_swap; [lia | done | lia | | done].
      intros d Hd Hpd. destruct (children _ _ Hd Hpd) as [-> | ->]; [apply below_refl | apply below_out; lia].
    + apply sift_up_heap; [lia | lia|]. apply heap_but_down_leaf; [lia | done].
Qed.

(** *** [push] and [pop] *)

Lemma empty_heap : is_heap [].
Proof. intros i Hi a b Ha. by rewrite lookup_nil in Ha. Qed.

Lemma push_heap x l : is_heap l -> is_heap (push leb x l).
Proof using leb_total leb_trans.
  intros Hh. apply sift_up_heap; [lia | rewrite length_app; cbn; lia|]. split.
  - intros i Hi Hne a b Ha Hb. pose proof (parent_lt i Hi). apply (Hh i Hi).
    + destruct (decide (i < length l)%nat); [by rewrite lookup_app_l in Ha|].
      apply lookup_lt_Some in Ha. rewrite length_app in Ha. cbn in Ha. lia.
    + apply lookup_lt_Some in Ha. rewrite length_app in Ha. cbn in Ha. rewrite lookup_app_l in Hb by lia. done.
  - intros i Hi Hp _. apply below_out. rewrite length_app. cbn. pose proof (parent_lt i Hi). lia.
Qed.

Lemma pop_heap l x l' : is_heap l -> pop leb l = Some (x, l') -> is_heap l'.
Proof using leb_total leb_trans.
  unfold pop. destruct l as [|y l _] using rev_ind; [done|]. rewrite last_snoc, removelast_last. intros Hh.
  destruct l as [|r l]; intros Hp; apply (inj Some), pair_equal_spec in Hp as [<- <-]; [apply empty_heap|].
  apply sift_down_heap; [cbn; lia | cbn; lia|]. split; [|lia].
  intros i Hi _ Hpi a b Ha Hb. destruct i as [|i]; [lia|]. destruct (parent (S i)) as [|j] eqn:Ej; [done|].
  apply (Hh (S i) Hi); rewrite ?Ej; cbn in *; by apply lookup_app_l_Some.
Qed.

(** The root is a greatest element. *)
Lemma heap_root l r : is_heap l -> head l = Some r -> Forall (fun a => leb a r = true) l.
Proof using leb_total leb_trans.
  intros Hh Hr. apply Forall_lookup. intros i. induction (lt_wf i) as [i _ IH]. intros a Ha.
  destruct (decide (i = 0)%nat) as [->|Hi].
  - rewrite head_lookup in Hr. replace r with a by congruence. by destruct (leb_total a a).
  - pose proof (parent_lt i ltac:(lia)). destruct (lookup_lt_is_Some_2 l (parent i)) as [b Hb].
    { apply lookup_lt_Some in Ha. lia. }
    apply (leb_trans _ b); [by apply (Hh i ltac:(lia)) | by apply (IH (parent i))].
Qed.

(** [pop] takes a greatest element. *)
Lemma pop_max l x l' : is_heap l -> pop leb l = Some (x, l') -> Forall (fun a => leb a x = true) l.
Proof using leb_total leb_trans.
  intros Hh Hp. apply heap_root; [done|]. revert Hp. clear Hh.
  unfold pop. destruct l as [|y l _] using rev_ind; [done|]. rewrite last_snoc, removelast_last.
  destruct l as [|r l]; intros Hp; by apply (inj Some), pair_equal_spec in Hp as [<- _].
Qed.

End Order.

#[global] Arguments push {E} leb x l : simpl never.
#[global] Arguments pop {E} leb l : simpl never.
