(* ===== verification/Mempool.v ===== *)
(** * The transaction mempool

    Models [crates/app/mempool/src/pool.rs] and [traits.rs]: transactions by
    hash, a binary heap of ordering keys whose entries may be stale, per-sender
    indices, and the set of transactions in flight. A [HashMap] and a
    [BTreeMap] are finite maps, a [HashSet] a finite set; what is drained from
    the set comes in an arbitrary order, given as an argument. *)

From S2P Require Import Prelude Heap.

Abbreviation Hash := (vec byte 32).

(** Keys of maps by hash, as their lists of bytes. *)
Definition array_of_list (n : nat) (l : bytes) : option (vec byte n) :=
  match decide (length l = n) with
  | left e => Some (eq_rect _ (vec byte) (list_to_vec l) _ e)
  | right _ => None
  end.

Lemma vec_to_list_cast {n m} (v : vec byte n) (e : n = m) : vec_to_list (eq_rect _ (vec byte) v _ e) = vec_to_list v.
Proof. by destruct e. Qed.

Lemma array_of_vec {n} (v : vec byte n) : array_of_list n (vec_to_list v) = Some v.
Proof.
  unfold array_of_list. destruct (decide _) as [e|Hn]; [|by rewrite length_vec_to_list in Hn].
  f_equal. apply vec_to_list_inj2. by rewrite vec_to_list_cast, vec_to_list_to_vec.
Qed.

#[export] Program Instance array_countable (n : nat) : Countable (vec byte n) | 0 := {|
  encode v := encode (vec_to_list v);
  decode p := l ← decode p; array_of_list n l |}.
Next Obligation. intros n v. cbn -[encode decode]. rewrite decode_encode. apply array_of_vec. Qed.

(** ** Errors ([error.rs]) *)
Inductive MempoolError :=
| DecodeFailed (why : string)
| MpInvalidChainId (expected actual : Z)
| MissingChainId
| AlreadyExists
| MpContractCreationNotSupported
| Internal (why : string).

(** ** Sender keys *)
Definition MAX_SENDER_KEY_LEN : Z := 64.

Record SenderKey := mkSenderKey { sk_len : Z; sk_bytes : bytes }.

#[export] Instance SenderKey_eq_dec : EqDecision SenderKey.
Proof. solve_decision. Defined.

#[export] Program Instance SenderKey_countable : Countable SenderKey :=
  {| encode k := encode (sk_len k, sk_bytes k);
     decode p := '(n, b) ← decode p; Some (mkSenderKey n b) |}.
Next Obligation. intros [n b]. cbn -[encode decode]. by rewrite decode_encode. Qed.

Module SenderKey.

Definition new (b : bytes) : option SenderKey :=
  if MAX_SENDER_KEY_LEN <? zlen b then None
  else Some (mkSenderKey (zlen b) (b ++ replicate (Z.to_nat MAX_SENDER_KEY_LEN - length b) x00)).

Definition as_slice (self : SenderKey) : bytes := take (Z.to_nat (sk_len self)) (sk_bytes self).

End SenderKey.

(** ** Ordering keys *)

(** [Ord]: [cmp] gives a total order up to [Eq]. *)
Class Ord (K : Type) := {
  cmp : K -> K -> comparison;
  cmp_antisym : forall a b, cmp b a = CompOpp (cmp a b);
  cmp_trans : forall a b c, cmp a b ≠ Gt -> cmp b c ≠ Gt -> cmp a c ≠ Gt
}.

Record GasPriceOrdering := mkGasPriceOrdering { gpo_gas_price : Z; gpo_nonce : Z }.

(** [then_with] *)
Definition then_with (c d : comparison) : comparison := match c with Eq => d | _ => c end.

Definition GasPriceOrdering_cmp (a b : GasPriceOrdering) : comparison :=
  then_with (gpo_gas_price a ?= gpo_gas_price b) (gpo_nonce b ?= gpo_nonce a).

Record FifoOrdering := mkFifoOrdering { fifo_timestamp : Z }.

Definition FifoOrdering_cmp (a b : FifoOrdering) : comparison := fifo_timestamp b ?= fifo_timestamp a.

#[export] Program Instance GasPriceOrdering_ord : Ord GasPriceOrdering := {| cmp := GasPriceOrdering_cmp |}.
Next Obligation.
  intros [p n] [q k]. unfold GasPriceOrdering_cmp. cbn. rewrite (Z.compare_antisym p q).
  destruct (p ?= q); cbn; try done. apply Z.compare_antisym.
Qed.
Next Obligation.
  intros [p n] [q k] [r l]. unfold GasPriceOrdering_cmp. cbn.
  destruct (Z.compare_spec p q), (Z.compare_spec q r), (Z.compare_spec p r); cbn; try done; try lia;
    destruct (Z.compare_spec k n), (Z.compare_spec l k), (Z.compare_spec l n); try done; lia.
Qed.

#[export] Program Instance FifoOrdering_ord : Ord FifoOrdering := {| cmp := FifoOrdering_cmp |}.
Next Obligation. intros [p] [q]. unfold FifoOrdering_cmp. cbn. apply Z.compare_antisym. Qed.
Next Obligation.
  intros [p] [q] [r]. unfold FifoOrdering_cmp. cbn.
  destruct (Z.compare_spec q p), (Z.compare_spec r q), (Z.compare_spec r p); try done; lia.
Qed.

(** ** Transactions *)
Class MempoolTx (T : Type) := {
  OrderingKey : Type;
  key_ord :: Ord OrderingKey;
  tx_id : T -> Hash;
  ordering_key : T -> OrderingKey;
  sender_key : T -> option SenderKey;
  mp_gas_limit : T -> Z
}.

(** ** The pool *)
Record OrderedEntry (K : Type) := mkOrderedEntry { entry_hash : Hash; entry_key : K }.
Arguments mkOrderedEntry {K} _ _.
Arguments entry_hash {K} _.
Arguments entry_key {K} _.

(** Entries compare by their keys ([Ord for OrderedEntry]): [a <= b]. *)
Definition entry_leb {K} `{Ord K} (a b : OrderedEntry K) : bool :=
  match cmp (entry_key a) (entry_key b) with Gt => false | _ => true end.

Record Mempool (T : Type) `{MempoolTx T} := mkMempool {
  by_hash : gmap Hash T;
  by_priority : list (OrderedEntry OrderingKey);
  by_sender : gmap SenderKey (gmap Z Hash);
  by_sender_seq : gmap SenderKey Z;
  in_flight : gset Hash }.
Arguments mkMempool {T _} _ _ _ _ _.
Arguments by_hash {T _} _.
Arguments by_priority {T _} _.
Arguments by_sender {T _} _.
Arguments by_sender_seq {T _} _.
Arguments in_flight {T _} _.

(** The order of a [BTreeMap]'s entries by their [u64] keys. *)
Definition seq_le (a b : Z * Hash) : Prop := a.1 <= b.1.

#[export] Instance seq_le_dec : RelDecision seq_le.
Proof. intros a b. unfold seq_le. apply _. Defined.

Module Mempool.
Section Methods.
Context {T : Type} `{MempoolTx T}.

Definition new : Mempool T := mkMempool ∅ [] ∅ ∅ ∅.

Definition len (self : Mempool T) : Z := Z.of_nat (size (by_hash self)).

Definition is_empty (self : Mempool T) : bool := bool_decide (by_hash self = ∅).

(** [checked_add(1).expect(..)]: [None] is the panic. *)
Definition next_sender_sequence (self : Mempool T) (sender : SenderKey) : option (Z * Mempool T) :=
  let current := default 0 (by_sender_seq self !! sender) in
  next ← checked_add u64_max current 1;
  Some (current, mkMempool (by_hash self) (by_priority self) (by_sender self)
                   (<[sender := next]> (by_sender_seq self)) (in_flight self)).

Definition add (self : Mempool T) (tx : T) : option (Result MempoolError Hash * Mempool T) :=
  let id := tx_id tx in
  if bool_decide (is_Some (by_hash self !! id)) then Some (Err AlreadyExists, self)
  else
    let entry := mkOrderedEntry id (ordering_key tx) in
    let self := mkMempool (<[id := tx]> (by_hash self)) (push entry_leb entry (by_priority self))
                  (by_sender self) (by_sender_seq self) (in_flight self) in
    match sender_key tx with
    | None => Some (Ok id, self)
    | Some sender =>
        '(secondary_key, self) ← next_sender_sequence self sender;
        let nonces := default ∅ (by_sender self !! sender) in
        Some (Ok id, mkMempool (by_hash self) (by_priority self)
                (<[sender := <[secondary_key := id]> nonces]> (by_sender self))
                (by_sender_seq self) (in_flight self))
    end.

Definition get (self : Mempool T) (hash : Hash) : option T := by_hash self !! hash.

Definition contains (self : Mempool T) (hash : Hash) : bool := bool_decide (is_Some (by_hash self !! hash)).

Definition remove (self : Mempool T) (hash : Hash) : option T * Mempool T :=
  match by_hash self !! hash with
  | None => (None, self)
  | Some tx =>
      let self := mkMempool (delete hash (by_hash self)) (by_priority self) (by_sender self)
                    (by_sender_seq self) (in_flight self) in
      (Some tx,
       match sender_key tx with
       | None => self
       | Some sender =>
           match by_sender self !! sender with
           | None => self
           | Some nonces =>
               let nonces := filter (fun e => e.2 ≠ hash) nonces in
               if bool_decide (nonces = ∅)
               then mkMempool (by_hash self) (by_priority self) (delete sender (by_sender self))
                      (delete sender (by_sender_seq self)) (in_flight self)
               else mkMempool (by_hash self) (by_priority self) (<[sender := nonces]> (by_sender self))
                      (by_sender_seq self) (in_flight self)
           end
       end)
  end.

Definition remove_many (self : Mempool T) (hashes : list Hash) : Mempool T :=
  foldl (fun self hash => (remove self hash).2) self hashes.

Definition with_priority (self : Mempool T) (heap : list (OrderedEntry OrderingKey)) : Mempool T :=
  mkMempool (by_hash self) heap (by_sender self) (by_sender_seq self) (in_flight self).

(** The loop of [select]: [fuel] bounds the entries left in the heap. *)
Fixpoint select_loop (fuel : nat) (txs : gmap Hash T) (limit : Z) (selected : list T)
    (heap : list (OrderedEntry OrderingKey)) : list T * list (OrderedEntry OrderingKey) :=
  match fuel with
  | O => (selected, heap)
  | S fuel =>
      if zlen selected <? limit then
        match pop entry_leb heap with
        | Some (entry, heap) =>
            select_loop fuel txs limit
              (match txs !! entry_hash entry with Some tx => selected ++ [tx] | None => selected end) heap
        | None => (selected, heap)
        end
      else (selected, heap)
  end.

Definition select (self : Mempool T) (limit : Z) : list T * Mempool T :=
  let '(selected, heap) :=
    select_loop (S (length (by_priority self))) (by_hash self) limit [] (by_priority self) in
  (selected, with_priority self heap).

(** The loop of [select_with_gas_budget]. *)
Fixpoint budget_loop (fuel : nat) (txs : gmap Hash T) (max_gas max_txs : Z) (selected : list T)
    (total_gas : Z) (skipped heap : list (OrderedEntry OrderingKey))
    : list T * Z * list (OrderedEntry OrderingKey) * list (OrderedEntry OrderingKey) :=
  match fuel with
  | O => (selected, total_gas, skipped, heap)
  | S fuel =>
      if (max_txs =? 0) || (zlen selected <? max_txs) then
        match pop entry_leb heap with
        | Some (entry, heap) =>
            match txs !! entry_hash entry with
            | Some tx =>
                let tx_gas := mp_gas_limit tx in
                if (max_gas =? 0) || (saturating_add u64_max total_gas tx_gas <=? max_gas)
                then budget_loop fuel txs max_gas max_txs (selected ++ [tx])
                       (saturating_add u64_max total_gas tx_gas) skipped heap
                else budget_loop fuel txs max_gas max_txs selected total_gas (skipped ++ [entry]) heap
            | None => budget_loop fuel txs max_gas max_txs selected total_gas skipped heap
            end
        | None => (selected, total_gas, skipped, heap)
        end
      else (selected, total_gas, skipped, heap)
  end.

Definition push_all (entries heap : list (OrderedEntry OrderingKey)) : list (OrderedEntry OrderingKey) :=
  foldl (fun heap e => push entry_leb e heap) heap entries.

Definition select_with_gas_budget (self : Mempool T) (max_gas max_txs : Z) : list T * Z * Mempool T :=
  let '(selected, total_gas, skipped, heap) :=
    budget_loop (S (length (by_priority self))) (by_hash self) max_gas max_txs [] 0 [] (by_priority self) in
  (selected, total_gas, with_priority self (push_all skipped heap)).

Definition propose (self : Mempool T) (max_gas max_txs : Z) : list T * Z * Mempool T :=
  let '(selected, total_gas, self) := select_with_gas_budget self max_gas max_txs in
  (selected, total_gas,
   mkMempool (by_hash self) (by_priority self) (by_sender self) (by_sender_seq self)
     (list_to_set (tx_id <$> selected) ∪ in_flight self)).

(** [finalize], with the order in which [in_flight] is drained. *)
Definition requeue (txs : gmap Hash T) (drained : list Hash) (heap : list (OrderedEntry OrderingKey))
    : list (OrderedEntry OrderingKey) :=
  foldl (fun heap hash =>
    match txs !! hash with
    | Some tx => push entry_leb (mkOrderedEntry hash (ordering_key tx)) heap
    | None => heap
    end) heap drained.

Definition finalize_draining (drained : gset Hash -> list Hash) (self : Mempool T)
    (executed : list Hash) : Mempool T :=
  let self := remove_many self executed in
  let flying := in_flight self ∖ list_to_set executed in
  mkMempool (by_hash self) (requeue (by_hash self) (drained flying) (by_priority self))
    (by_sender self) (by_sender_seq self) ∅.

Definition finalize : Mempool T -> list Hash -> Mempool T := finalize_draining elements.

Definition peek (self : Mempool T) : option T :=
  entry ← Heap.peek (by_priority self); by_hash self !! entry_hash entry.

(** [nonces.values()]: in the order of the [BTreeMap]'s keys. *)
Definition get_sender_txs (self : Mempool T) (sender : SenderKey) : list Hash :=
  match by_sender self !! sender with
  | Some nonces => (merge_sort seq_le (map_to_list nonces)).*2
  | None => []
  end.

Definition clear (self : Mempool T) : Mempool T := mkMempool ∅ [] ∅ ∅ ∅.

End Methods.
End Mempool.
