(* ===== verification/MempoolFacts.v ===== *)
(** * Facts about the mempool

    What the selection loops do (which entries they take, in which order, and
    what they leave), the invariant of the pool and its preservation. *)

From S2P Require Import Prelude Heap Mempool.

Lemma sender_key_round_trip b k : SenderKey.new b = Some k -> SenderKey.as_slice k = b.
Proof.
  unfold SenderKey.new, SenderKey.as_slice. case_match; [done|]. intros [= <-]. cbn.
  unfold zlen. by rewrite Nat2Z.id, take_app_length.
Qed.

(** ** The order of entries *)
Section EntryOrder.
Context {K : Type} `{Ord K}.

Lemma entry_leb_total (a b : OrderedEntry K) : entry_leb a b = true \/ entry_leb b a = true.
Proof.
  unfold entry_leb. rewrite (cmp_antisym (entry_key a) (entry_key b)).
  destruct (cmp (entry_key a) (entry_key b)); cbn; auto.
Qed.

Lemma entry_leb_cmp (a b : OrderedEntry K) : entry_leb a b = true <-> cmp (entry_key a) (entry_key b) ≠ Gt.
Proof. unfold entry_leb. by destruct (cmp _ _). Qed.

Lemma entry_leb_trans (a b c : OrderedEntry K) :
  entry_leb a b = true -> entry_leb b c = true -> entry_leb a c = true.
Proof. rewrite !entry_leb_cmp. apply cmp_trans. Qed.

End EntryOrder.

Section Facts.
Context {T : Type} `{MempoolTx T}.

Abbreviation Entry := (OrderedEntry OrderingKey).
Abbreviation heap_ok := (is_heap (@entry_leb OrderingKey key_ord)).

Lemma pop_entry_heap (h : list Entry) e h' : heap_ok h -> pop entry_leb h = Some (e, h') -> heap_ok h'.
Proof. apply pop_heap; [apply entry_leb_total | apply entry_leb_trans]. Qed.

Lemma push_entry_heap (e : Entry) h : heap_ok h -> heap_ok (push entry_leb e h).
Proof. apply push_heap; [apply entry_leb_total | apply entry_leb_trans]. Qed.

Lemma pop_entry_max (h : list Entry) e h' :
  heap_ok h -> pop entry_leb h = Some (e, h') -> forall x, x ∈ h -> entry_leb x e = true.
Proof.
  intros Hh Hp. apply Forall_forall. revert Hh Hp. apply pop_max; [apply entry_leb_total | apply entry_leb_trans].
Qed.

Lemma pop_entry_length (h : list Entry) e h' : pop entry_leb h = Some (e, h') -> length h = S (length h').
Proof. intros Hp%pop_permutation. by rewrite Hp. Qed.

Lemma push_all_permutation es (h : list Entry) : Mempool.push_all es h ≡ₚ es ++ h.
Proof.
  revert h. unfold Mempool.push_all. induction es as [|e es IH]; intros h; cbn; [done|].
  rewrite IH, push_permutation. by rewrite Permutation_middle.
Qed.

Lemma push_all_heap es (h : list Entry) : heap_ok h -> heap_ok (Mempool.push_all es h).
Proof.
  revert h. unfold Mempool.push_all. induction es as [|e es IH]; intros h Hh; cbn; [done|].
  by apply IH, push_entry_heap.
Qed.

(** ** Selection *)

(** Priorities do not increase along a list of entries. *)
Abbreviation descending := (StronglySorted (fun a b : Entry => entry_leb b a = true)).

(** An entry stands for a transaction of the pool. *)
Definition stands_for (txs : gmap Hash T) (e : Entry) (tx : T) : Prop := txs !! entry_hash e = Some tx.

(** The transactions that entries stand for. *)
Definition live (txs : gmap Hash T) (es : list Entry) : list T := omap (fun e => txs !! entry_hash e) es.

(** The greedy choice from a list of transactions: each one that fits in what
    is left of the gas budget, until there are [max_txs]. *)
Fixpoint greedy (max_gas max_txs count gas : Z) (txs : list T) : list T :=
  match txs with
  | [] => []
  | tx :: txs =>
      if (max_txs =? 0) || (count <? max_txs) then
        if (max_gas =? 0) || (saturating_add u64_max gas (mp_gas_limit tx) <=? max_gas)
        then tx :: greedy max_gas max_txs (count + 1) (saturating_add u64_max gas (mp_gas_limit tx)) txs
        else greedy max_gas max_txs count gas txs
      else []
  end.

(** Gas of a list of transactions, with the saturation of the loop. *)
Definition gas_from (start : Z) (txs : list T) : Z :=
  foldl (fun g tx => saturating_add u64_max g (mp_gas_limit tx)) start txs.

(** What a run of the loop from [heap] gives: it pops the entries [popped],
    highest priority first; those in [taken] stand for the selected
    transactions [new], those in [skipped] did not fit, the others are stale;
    [new] is the greedy choice from what was popped, and from any
    continuation of it unless the heap was exhausted. *)
Record budget_run (txs : gmap Hash T) (max_gas max_txs : Z) (count gas : Z) (heap : list Entry)
    (new : list T) (popped taken skipped stale rest : list Entry) (gas' : Z) : Prop := {
  br_taken : Forall2 (stands_for txs) taken new;
  br_popped : popped ≡ₚ taken ++ skipped ++ stale;
  br_perm : heap ≡ₚ popped ++ rest;
  br_stale : Forall (fun e => txs !! entry_hash e = None) stale;
  br_heap : heap_ok rest;
  br_order : descending popped;
  br_first : forall e x, e ∈ popped -> x ∈ rest -> entry_leb x e = true;
  br_gas : gas' = gas_from gas new;
  br_greedy : forall more, (rest = [] -> more = []) ->
                greedy max_gas max_txs count gas (live txs popped ++ more) = new }.

(** One entry popped: taken, skipped or stale. *)
Section Step.
Context (txs : gmap Hash T) (max_gas max_txs count gas : Z) (heap h : list Entry) (e : Entry).
Context (Hperm : heap ≡ₚ e :: h) (Hmax : forall x, x ∈ heap -> entry_leb x e = true).
Context (Hcount : (max_txs =? 0) || (count <? max_txs) = true).

Lemma popped_order popped rest : h ≡ₚ popped ++ rest -> descending popped ->
  (forall e x, e ∈ popped -> x ∈ rest -> entry_leb x e = true) ->
  descending (e :: popped) /\ (forall e' x, e' ∈ e :: popped -> x ∈ rest -> entry_leb x e' = true).
Proof using Hperm Hmax.
  intros Hh Hd Hf.
  assert (Hin : forall x, x ∈ popped \/ x ∈ rest -> entry_leb x e = true).
  { intros x Hx. apply Hmax. rewrite Hperm, Hh, elem_of_cons, elem_of_app. tauto. }
  split.
  - constructor; [done|]. apply Forall_forall. intros x Hx. apply Hin. by left.
  - intros e' x [-> | He']%elem_of_cons Hx; [apply Hin; by right | by apply Hf].
Qed.

Lemma budget_run_take tx new popped taken skips stale rest gas' :
  txs !! entry_hash e = Some tx ->
  (max_gas =? 0) || (saturating_add u64_max gas (mp_gas_limit tx) <=? max_gas) = true ->
  budget_run txs max_gas max_txs (count + 1) (saturating_add u64_max gas (mp_gas_limit tx)) h
    new popped taken skips stale rest gas' ->
  budget_run txs max_gas max_txs count gas heap (tx :: new) (e :: popped) (e :: taken) skips stale rest gas'.
Proof using Hperm Hmax Hcount.
  intros Htx Hg []. destruct (popped_order _ _ br_perm0 br_order0 br_first0). split; try done.
  - by constructor.
  - by rewrite br_popped0.
  - by rewrite Hperm, br_perm0.
  - intros more Hm. unfold live. cbn. rewrite Htx. cbn. rewrite Hcount, Hg. f_equal. by apply br_greedy0.
Qed.

Lemma budget_run_skip tx new popped taken skips stale rest gas' :
  txs !! entry_hash e = Some tx ->
  (max_gas =? 0) || (saturating_add u64_max gas (mp_gas_limit tx) <=? max_gas) = false ->
  budget_run txs max_gas max_txs count gas h new popped taken skips stale rest gas' ->
  budget_run txs max_gas max_txs count gas heap new (e :: popped) taken (e :: skips) stale rest gas'.
Proof using Hperm Hmax Hcount.
  intros Htx Hg []. destruct (popped_order _ _ br_perm0 br_order0 br_first0). split; try done.
  - rewrite br_popped0. solve_Permutation.
  - by rewrite Hperm, br_perm0.
  - intros more Hm. unfold live. cbn. rewrite Htx. cbn. rewrite Hcount, Hg. by apply br_greedy0.
Qed.

Lemma budget_run_stale new popped taken skips stale rest gas' :
  txs !! entry_hash e = None ->
  budget_run txs max_gas max_txs count gas h new popped taken skips stale rest gas' ->
  budget_run txs max_gas max_txs count gas heap new (e :: popped) taken skips (e :: stale) rest gas'.
Proof using Hperm Hmax Hcount.
  intros Htx []. destruct (popped_order _ _ br_perm0 br_order0 br_first0). split; try done.
  - rewrite br_popped0. solve_Permutation.
  - by rewrite Hperm, br_perm0.
  - by constructor.
  - intros more Hm. unfold live. cbn. rewrite Htx. by apply br_greedy0.
Qed.

End Step.

Lemma budget_run_stop txs max_gas max_txs count gas heap :
  heap_ok heap -> heap = [] \/ (max_txs =? 0) || (count <? max_txs) = false ->
  budget_run txs max_gas max_txs count gas heap [] [] [] [] [] heap gas.
Proof.
  intros Hh Hs. split; try done; [constructor | by intros ? ? ?%not_elem_of_nil|].
  intros more Hm. cbn. destruct Hs as [->|Hs]; [by rewrite Hm|]. destruct more; cbn; by rewrite ?Hs.
Qed.

Lemma budget_loop_run txs max_gas max_txs fuel : forall selected gas skipped heap r,
  (length heap < fuel)%nat -> heap_ok heap ->
  Mempool.budget_loop fuel txs max_gas max_txs selected gas skipped heap = r ->
  exists new popped taken skips stale rest gas', r = (selected ++ new, gas', skipped ++ skips, rest) /\
    budget_run txs max_gas max_txs (zlen selected) gas heap new popped taken skips stale rest gas'.
Proof.
  induction fuel as [|fuel IH]; intros selected gas skipped heap r Hf Hh Hr; [lia|].
  cbn [Mempool.budget_loop] in Hr.
  destruct ((max_txs =? 0) || _) eqn:Econt; cycle 1.
  { exists [], [], [], [], [], heap, gas. rewrite !app_nil_r. split; [done|]. apply budget_run_stop; auto. }
  destruct (pop entry_leb heap) as [[e h]|] eqn:Ep; cycle 1.
  { apply pop_None in Ep as ->. exists [], [], [], [], [], [], gas. rewrite !app_nil_r. split; [done|].
    apply budget_run_stop; auto. }
  pose proof (pop_entry_heap _ _ _ Hh Ep) as Hh'. pose proof (pop_entry_max _ _ _ Hh Ep) as Hmax.
  pose proof (pop_entry_length _ _ _ Ep) as Hlen. pose proof (pop_permutation _ _ _ _ Ep) as Hperm.
  assert (Hf' : (length h < fuel)%nat) by lia.
  destruct (txs !! entry_hash e) as [tx|] eqn:Etx; [destruct ((max_gas =? 0) || _) eqn:Efit|];
    destruct (IH _ _ _ _ _ Hf' Hh' Hr) as (new & popped & taken & skips & stale & rest & gas' & -> & Hrun).
  - exists (tx :: new), (e :: popped), (e :: taken), skips, stale, rest, gas'. rewrite <-app_assoc. split; [done|].
    rewrite zlen_app in Hrun. by eapply budget_run_take.
  - exists new, (e :: popped), taken, (e :: skips), stale, rest, gas'. rewrite <-app_assoc. split; [done|].
    by eapply budget_run_skip.
  - exists new, (e :: popped), taken, skips, (e :: stale), rest, gas'. split; [done|]. by eapply budget_run_stale.
Qed.

(** *** The greedy choice *)

Definition within_gas (max_gas gas : Z) : Prop := max_gas = 0 \/ gas <= max_gas.

Lemma greedy_sublist max_gas max_txs txs : forall count gas, greedy max_gas max_txs count gas txs `sublist_of` txs.
Proof.
  induction txs as [|tx txs IH]; intros count gas; cbn; [done|].
  repeat case_match; [by apply sublist_skip | by apply sublist_cons | apply sublist_nil_l].
Qed.

Lemma greedy_within max_gas max_txs txs : forall count gas, within_gas max_gas gas ->
  within_gas max_gas (gas_from gas (greedy max_gas max_txs count gas txs)).
Proof.
  induction txs as [|tx txs IH]; intros count gas Hg; cbn; [done|].
  destruct (_ || (count <? max_txs)); [|done]. destruct (_ || _) eqn:E; [|by apply IH].
  apply IH. apply orb_true_iff in E as [E%Z.eqb_eq | E%Z.leb_le]; [by left | by right].
Qed.

Lemma greedy_count max_gas max_txs txs : forall count gas, max_txs ≠ 0 -> count <= max_txs ->
  count + zlen (greedy max_gas max_txs count gas txs) <= max_txs.
Proof.
  induction txs as [|tx txs IH]; intros count gas Hn Hc; cbn [greedy]; [unfold zlen; cbn; lia|].
  destruct (_ || (count <? max_txs)) eqn:E; [|change (zlen (@nil T)) with 0; lia].
  assert (count < max_txs) by (apply orb_true_iff in E as [E%Z.eqb_eq | E%Z.ltb_lt]; lia).
  destruct ((max_gas =? 0) || _); [|by apply IH].
  rewrite zlen_cons. specialize (IH (count + 1) (saturating_add u64_max gas (mp_gas_limit tx)) Hn). lia.
Qed.

(** Without limits everything is chosen. *)
Lemma greedy_all txs : forall count gas, greedy 0 0 count gas txs = txs.
Proof. induction txs as [|tx txs IH]; intros count gas; cbn; [done|]. by rewrite IH. Qed.

(** *** Selection from the pool *)

Lemma heap_sorts (h : list Entry) : heap_ok h -> exists order, order ≡ₚ h /\ descending order.
Proof.
  remember (length h) as n eqn:En. revert h En. induction n as [|n IH]; intros h En Hh.
  { destruct h; [|done]. exists []. split; [done | constructor]. }
  destruct (pop entry_leb h) as [[e h']|] eqn:Ep; [|by apply pop_None in Ep as ->].
  pose proof (pop_entry_length _ _ _ Ep). pose proof (pop_permutation _ _ _ _ Ep) as Hperm.
  destruct (IH h') as (order & Ho & Hd); [lia | by eapply pop_entry_heap|].
  exists (e :: order). split; [by rewrite Ho|]. constructor; [done|]. apply Forall_forall. intros x Hx.
  eapply pop_entry_max; [done..|]. rewrite Hperm, elem_of_cons. right. by rewrite <-Ho.
Qed.

Lemma descending_app es fs : descending es -> descending fs ->
  (forall e x, e ∈ es -> x ∈ fs -> entry_leb x e = true) -> descending (es ++ fs).
Proof.
  intros He Hf Hef. induction He as [|e es He IH Hall]; cbn; [done|]. constructor.
  - apply IH. intros. apply Hef; [by right | done].
  - apply Forall_app. split; [done|]. apply Forall_forall. intros x Hx. apply Hef; [left | done].
Qed.

Lemma live_app txs es fs : live txs (es ++ fs) = live txs es ++ live txs fs.
Proof. apply omap_app. Qed.

(** [select_with_gas_budget]: the greedy choice from the entries in some order
    of descending priority; entries of other transactions stay. *)
Record budget_select (self : Mempool T) (max_gas max_txs : Z) (selected : list T) (gas : Z)
    (self' : Mempool T) (order taken stale : list Entry) : Prop := {
  bs_order : order ≡ₚ by_priority self;
  bs_descending : descending order;
  bs_greedy : selected = greedy max_gas max_txs 0 0 (live (by_hash self) order);
  bs_gas : gas = gas_from 0 selected;
  bs_taken : Forall2 (stands_for (by_hash self)) taken selected;
  bs_rest : by_priority self ≡ₚ taken ++ stale ++ by_priority self';
  bs_stale : Forall (fun e => by_hash self !! entry_hash e = None) stale;
  bs_heap : heap_ok (by_priority self');
  bs_others : self' = Mempool.with_priority self (by_priority self') }.

Lemma select_with_gas_budget_spec self max_gas max_txs selected gas self' :
  heap_ok (by_priority self) ->
  Mempool.select_with_gas_budget self max_gas max_txs = (selected, gas, self') ->
  exists order taken stale, budget_select self max_gas max_txs selected gas self' order taken stale.
Proof.
  unfold Mempool.select_with_gas_budget. intros Hh.
  destruct (budget_loop_run (by_hash self) max_gas max_txs (S (length (by_priority self))) [] 0 []
    (by_priority self) _ ltac:(lia) Hh eq_refl)
    as (new & popped & taken & skips & stale & rest & gas' & -> & Hrun).
  intros Hp. apply pair_equal_spec in Hp as [Hp <-]. apply pair_equal_spec in Hp as [<- <-].
  destruct Hrun. destruct (heap_sorts rest br_heap0) as (sorted & Hs & Hd).
  exists (popped ++ sorted), taken, stale. split; try done.
  - by rewrite Hs, br_perm0.
  - apply descending_app; [done..|]. intros e x He Hx. apply br_first0; [done|]. by rewrite <-Hs.
  - rewrite live_app. symmetry. apply br_greedy0. intros ->. by apply Permutation_nil_r in Hs as ->.
  - cbn [Mempool.with_priority by_priority]. rewrite push_all_permutation, br_perm0, br_popped0. solve_Permutation.
  - by apply push_all_heap.
Qed.

End Facts.
