(* ===== verification/MempoolSpec.v ===== *)
(** * The mempool as a list of pending transactions

    The specification of the pool is the list of its pending transactions in
    the order of their arrival. The operations of [Mempool] refine it: what
    is read from the pool, also by sender, is what is read from the list, and
    what is selected or proposed is pending and keeps the limits. *)

From S2P Require Import Prelude Heap Mempool MempoolFacts.

Section Spec.
Context {T : Type} `{MempoolTx T}.

(** ** Operations *)
Inductive PoolOp :=
| OpAdd (tx : T)
| OpRemove (hash : Hash)
| OpRemoveMany (hashes : list Hash)
| OpSelect (limit : Z)
| OpSelectBudget (max_gas max_txs : Z)
| OpPropose (max_gas max_txs : Z)
| OpPeek
| OpFinalize (executed : list Hash)
| OpClear
| OpGet (hash : Hash)
| OpContains (hash : Hash)
| OpLen
| OpIsEmpty
| OpSenderTxs (sender : SenderKey).

Inductive PoolOut :=
| OutAdd (r : Result MempoolError Hash)
| OutTx (tx : option T)
| OutBool (b : bool)
| OutLen (n : Z)
| OutHashes (hashes : list Hash)
| OutSelected (txs : list T)
| OutBudget (txs : list T) (gas : Z)
| OutUnit.

(** An operation on the pool; [None] is the panic of [add]. *)
Definition pool_step (drained : gset Hash -> list Hash) (op : PoolOp) (p : Mempool T)
    : option (PoolOut * Mempool T) :=
  match op with
  | OpAdd tx => '(r, p) ← Mempool.add p tx; Some (OutAdd r, p)
  | OpRemove hash => let '(r, p) := Mempool.remove p hash in Some (OutTx r, p)
  | OpRemoveMany hashes => Some (OutUnit, Mempool.remove_many p hashes)
  | OpSelect limit => let '(txs, p) := Mempool.select p limit in Some (OutSelected txs, p)
  | OpSelectBudget max_gas max_txs =>
      let '(txs, gas, p) := Mempool.select_with_gas_budget p max_gas max_txs in Some (OutBudget txs gas, p)
  | OpPropose max_gas max_txs =>
      let '(txs, gas, p) := Mempool.propose p max_gas max_txs in Some (OutBudget txs gas, p)
  | OpPeek => Some (OutTx (Mempool.peek p), p)
  | OpFinalize executed => Some (OutUnit, Mempool.finalize_draining drained p executed)
  | OpClear => Some (OutUnit, Mempool.clear p)
  | OpGet hash => Some (OutTx (Mempool.get p hash), p)
  | OpContains hash => Some (OutBool (Mempool.contains p hash), p)
  | OpLen => Some (OutLen (Mempool.len p), p)
  | OpIsEmpty => Some (OutBool (Mempool.is_empty p), p)
  | OpSenderTxs sender => Some (OutHashes (Mempool.get_sender_txs p sender), p)
  end.

(** ** The specification *)
Definition pending_tx (hash : Hash) (l : list T) : option T := head (filter (fun tx => tx_id tx = hash) l).

Definition without (hashes : list Hash) (l : list T) : list T := filter (fun tx => tx_id tx ∉ hashes) l.

Definition of_sender (sender : SenderKey) (l : list T) : list T :=
  filter (fun tx => sender_key tx = Some sender) l.

(** The answer of an operation, where the list determines it, and the list
    after it. *)
Definition list_step (op : PoolOp) (l : list T) : option PoolOut * list T :=
  match op with
  | OpAdd tx =>
      match pending_tx (tx_id tx) l with
      | Some _ => (Some (OutAdd (Err AlreadyExists)), l)
      | None => (Some (OutAdd (Ok (tx_id tx))), l ++ [tx])
      end
  | OpRemove hash => (Some (OutTx (pending_tx hash l)), without [hash] l)
  | OpRemoveMany hashes | OpFinalize hashes => (Some OutUnit, without hashes l)
  | OpSelect _ | OpSelectBudget _ _ | OpPropose _ _ | OpPeek => (None, l)
  | OpClear => (Some OutUnit, [])
  | OpGet hash => (Some (OutTx (pending_tx hash l)), l)
  | OpContains hash => (Some (OutBool (bool_decide (is_Some (pending_tx hash l)))), l)
  | OpLen => (Some (OutLen (zlen l)), l)
  | OpIsEmpty => (Some (OutBool (bool_decide (l = []))), l)
  | OpSenderTxs sender => (Some (OutHashes (tx_id <$> of_sender sender l)), l)
  end.

(** What may be chosen from the list: pending transactions, within the limits. *)
Definition may_choose (op : PoolOp) (l : list T) (out : PoolOut) : Prop :=
  match op, out with
  | OpSelect limit, OutSelected txs => txs ⊆ l /\ (0 <= limit -> zlen txs <= limit)
  | OpSelectBudget max_gas max_txs, OutBudget txs gas | OpPropose max_gas max_txs, OutBudget txs gas =>
      txs ⊆ l /\ gas = gas_from 0 txs /\ (0 <= max_gas -> within_gas max_gas gas) /\
      (0 < max_txs -> zlen txs <= max_txs)
  | OpPeek, OutTx o => from_option (fun tx => tx ∈ l) True o
  | _, _ => False
  end.

Definition list_answers (op : PoolOp) (l : list T) (out : PoolOut) : Prop :=
  match (list_step op l).1 with Some answer => out = answer | None => may_choose op l out end.

Fixpoint pool_run (drained : gset Hash -> list Hash) (ops : list PoolOp) (p : Mempool T)
    : option (list PoolOut * Mempool T) :=
  match ops with
  | [] => Some ([], p)
  | op :: ops =>
      '(out, p) ← pool_step drained op p;
      '(outs, p) ← pool_run drained ops p;
      Some (out :: outs, p)
  end.

Inductive list_run : list PoolOp -> list T -> list PoolOut -> list T -> Prop :=
| run_nil l : list_run [] l [] l
| run_cons op ops l out outs l' : list_answers op l out -> list_run ops (list_step op l).2 outs l' ->
    list_run (op :: ops) l (out :: outs) l'.

(** ** The relation *)

(** What is kept of a sender whose pending transactions are [hs]. *)
Definition sender_rep (nonces : option (gmap Z Hash)) (next : option Z) (hs : list Hash) : Prop :=
  exists entries : list (Z * Hash), entries.*2 = hs /\ StronglySorted (fun a b => a.1 < b.1) entries /\
    match entries with
    | [] => nonces = None /\ next = None
    | _ => nonces = Some (list_to_map entries) /\
           exists n, next = Some n /\ Forall (fun e => e.1 < n) entries
    end.

Record represents (p : Mempool T) (l : list T) (bound : Z) : Prop := {
  rep_nodup : NoDup (tx_id <$> l);
  rep_hash : forall hash, by_hash p !! hash = pending_tx hash l;
  rep_sender : forall s, sender_rep (by_sender p !! s) (by_sender_seq p !! s) (tx_id <$> of_sender s l);
  rep_bound : forall s n, by_sender_seq p !! s = Some n -> 0 <= n <= bound }.

(** ** The list *)

Lemma pending_tx_Some hash l tx : pending_tx hash l = Some tx -> tx ∈ l /\ tx_id tx = hash.
Proof.
  unfold pending_tx. intros Hh. assert (Hin : tx ∈ filter (fun tx => tx_id tx = hash) l).
  { destruct (filter _ l); [done|]. injection Hh as ->. left. }
  by apply list_elem_of_filter in Hin as [? ?].
Qed.

Lemma pending_tx_None hash l : pending_tx hash l = None <-> hash ∉ tx_id <$> l.
Proof.
  rewrite list_elem_of_fmap. split.
  - unfold pending_tx. intros Hf (tx & -> & Hin).
    assert (Hin' : tx ∈ filter (fun tx' => tx_id tx' = tx_id tx) l) by (by apply list_elem_of_filter).
    destruct (filter _ l); [by apply not_elem_of_nil in Hin' | done].
  - intros Hn. destruct (pending_tx hash l) as [tx|] eqn:E; [|done].
    apply pending_tx_Some in E as [? <-]. destruct Hn. eauto.
Qed.

Lemma pending_tx_in l tx : NoDup (tx_id <$> l) -> tx ∈ l -> pending_tx (tx_id tx) l = Some tx.
Proof.
  intros Hnd Hin. destruct (pending_tx (tx_id tx) l) as [tx'|] eqn:E.
  - apply pending_tx_Some in E as [Hin' Hid]. f_equal.
    apply list_elem_of_lookup in Hin as [i Hi], Hin' as [j Hj].
    assert (i = j) as ->; [|congruence]. eapply NoDup_lookup; [done|..]; rewrite list_lookup_fmap.
    + by rewrite Hi.
    + rewrite Hj. cbn. by rewrite Hid.
  - apply pending_tx_None in E. destruct E. apply list_elem_of_fmap. eauto.
Qed.

Lemma pending_tx_snoc hash l tx : tx_id tx ∉ tx_id <$> l ->
  pending_tx hash (l ++ [tx]) = if decide (tx_id tx = hash) then Some tx else pending_tx hash l.
Proof.
  intros Hn. unfold pending_tx. rewrite filter_app, filter_cons, filter_nil. case_decide as E.
  - subst hash. rewrite (filter_none _ l); [done|]. intros tx' Hin Hid. destruct Hn.
    apply list_elem_of_fmap. eauto.
  - by rewrite app_nil_r.
Qed.

Lemma pending_tx_without hash hashes l :
  pending_tx hash (without hashes l) = if decide (hash ∈ hashes) then None else pending_tx hash l.
Proof.
  unfold pending_tx, without. case_decide as Hin.
  - rewrite filter_none; [done|]. intros tx [Hn _]%list_elem_of_filter. congruence.
  - rewrite list_filter_filter_l; [done|]. intros tx ->. done.
Qed.

Lemma without_cons hash hashes l : without (hash :: hashes) l = without hashes (without [hash] l).
Proof.
  unfold without. rewrite list_filter_filter. apply list_filter_iff. intros tx.
  rewrite elem_of_cons, list_elem_of_singleton. tauto.
Qed.

Lemma without_nodup hashes l : NoDup (tx_id <$> l) -> NoDup (tx_id <$> without hashes l).
Proof. intros Hnd. eapply sublist_NoDup; [done|]. apply fmap_sublist, sublist_filter. Qed.

Lemma without_sender s hash l :
  tx_id <$> of_sender s (without [hash] l) = filter (.≠ hash) (tx_id <$> of_sender s l).
Proof.
  unfold of_sender, without. rewrite filter_fmap, !list_filter_filter. f_equal. apply list_filter_iff.
  intros tx. cbn. rewrite list_elem_of_singleton. tauto.
Qed.

(** ** The sender index *)

Lemma sorted_keys_nodup (entries : list (Z * Hash)) :
  StronglySorted (fun a b => a.1 < b.1) entries -> NoDup entries.*1.
Proof.
  induction 1 as [|e entries Hs IH Hall]; cbn; constructor; [|done].
  rewrite list_elem_of_fmap. intros (x & He & Hx). eapply Forall_forall in Hall; [|done]. lia.
Qed.

Lemma sorted_le (entries : list (Z * Hash)) :
  StronglySorted (fun a b => a.1 < b.1) entries -> StronglySorted seq_le entries.
Proof.
  induction 1 as [|e entries Hs IH Hall]; constructor; [done|].
  eapply Forall_impl; [done|]. unfold seq_le. cbn. lia.
Qed.

Lemma list_to_map_empty (entries : list (Z * Hash)) :
  (list_to_map entries : gmap Z Hash) = ∅ <-> entries = [].
Proof.
  split; [|by intros ->]. destruct entries as [|[i h] entries]; [done|]. cbn. intros E.
  by apply insert_non_empty in E.
Qed.

Lemma list_to_map_filter (P : Z * Hash -> Prop) `{forall e, Decision (P e)} (entries : list (Z * Hash)) :
  NoDup entries.*1 -> filter P (list_to_map entries : gmap Z Hash) = list_to_map (filter P entries).
Proof.
  intros Hnd. rewrite map_filter_alt. apply list_to_map_proper.
  - eapply sublist_NoDup; [|apply fmap_sublist, sublist_filter]. by rewrite map_to_list_to_map.
  - apply filter_Permutation. by apply map_to_list_to_map.
Qed.

Lemma sender_rep_remove nonces next hs hash : sender_rep (Some nonces) next hs ->
  let nonces' := filter (fun e => e.2 ≠ hash) nonces in
  if bool_decide (nonces' = ∅) then sender_rep None None (filter (.≠ hash) hs)
  else sender_rep (Some nonces') next (filter (.≠ hash) hs).
Proof.
  intros (entries & <- & Hs & Hm). cbn zeta. destruct entries as [|e0 entries0]; [by destruct Hm|].
  set (entries := e0 :: entries0) in *. destruct Hm as (Hm & n & -> & Hn). apply (inj Some) in Hm as ->.
  rewrite list_to_map_filter by (by apply sorted_keys_nodup). rewrite filter_fmap.
  set (kept := filter _ entries). case_bool_decide as E.
  - exists []. apply list_to_map_empty in E. rewrite E. split_and!; [done | constructor | done..].
  - exists kept. split; [done|]. split; [by apply StronglySorted_filter|].
    destruct kept as [|k ks] eqn:Ek; [done|]. split; [done|]. exists n. split; [done|]. rewrite <-Ek.
    apply Forall_forall. intros x [_ Hx]%list_elem_of_filter. by eapply Forall_forall in Hn.
Qed.

Lemma sender_rep_nil nonces next : sender_rep nonces next [] -> nonces = None /\ next = None.
Proof. intros (entries & He & _ & Hm). by destruct entries. Qed.

Lemma sender_rep_add nonces next hs hash : sender_rep nonces next hs ->
  sender_rep (Some (<[default 0 next := hash]> (default ∅ nonces))) (Some (default 0 next + 1)) (hs ++ [hash]).
Proof.
  intros (entries & <- & Hs & Hm). exists (entries ++ [(default 0 next, hash)]).
  rewrite fmap_app. split; [done|].
  assert (Hlt : Forall (fun e => e.1 < default 0 next) entries).
  { destruct entries as [|e es]; [constructor|]. by destruct Hm as (_ & n & -> & Hn). }
  assert (Hmap : default ∅ nonces = list_to_map entries).
  { destruct entries as [|e es]; [by destruct Hm as [-> _] | by destruct Hm as [-> _]]. }
  split.
  { clear Hm Hmap. induction Hs as [|e es Hs IH Hall]; cbn; [repeat constructor|].
    apply Forall_cons in Hlt as [? ?]. constructor; [by apply IH|]. apply Forall_app. split; [done|].
    by repeat constructor. }
  destruct (entries ++ _) eqn:E; [by destruct entries|]. rewrite <-E. clear E. split.
  - f_equal. rewrite Hmap. symmetry. rewrite list_to_map_snoc; [done|].
    rewrite list_elem_of_fmap. intros (x & Hx & Hin). eapply Forall_forall in Hlt; [|done]. lia.
  - eexists. split; [done|]. apply Forall_app. split; [|repeat constructor; cbn; lia].
    eapply Forall_impl; [done|]. cbn. lia.
Qed.

Lemma sender_rep_values nonces next hs : sender_rep nonces next hs ->
  match nonces with Some m => (merge_sort seq_le (map_to_list m)).*2 | None => [] end = hs.
Proof.
  intros (entries & <- & Hs & Hm). destruct entries as [|e0 entries0]; [by destruct Hm as [-> _]|].
  set (entries := e0 :: entries0) in *. destruct Hm as [-> _]. f_equal.
  pose proof (sorted_keys_nodup _ Hs) as Hnd.
  assert (Hp : merge_sort seq_le (map_to_list (list_to_map entries : gmap Z Hash)) ≡ₚ entries).
  { by rewrite merge_sort_Permutation, map_to_list_to_map. }
  apply (StronglySorted_unique_strong seq_le); [| |by apply sorted_le|done].
  - intros x y Hx Hy Hxy Hyx. rewrite Hp in Hx. destruct x as [i a], y as [j b]. unfold seq_le in Hxy, Hyx.
    cbn in Hxy, Hyx. assert (i = j) as <- by lia. f_equal.
    apply (elem_of_list_to_map_1 (M := gmap Z) entries _ _ Hnd) in Hx, Hy. congruence.
  - apply StronglySorted_merge_sort; [intros x y z | intros x y]; unfold seq_le; lia.
Qed.

(** ** The operations refine the list *)

Lemma represents_new : represents Mempool.new [] 0.
Proof.
  split; [constructor | done | | done].
  intros s. exists []. cbn. split_and!; [done | constructor | done..].
Qed.

Lemma represents_clear p l bound : represents p l bound -> represents (Mempool.clear p) [] bound.
Proof.
  intros _. split; [constructor | done | | done].
  intros s. exists []. cbn. split_and!; [done | constructor | done..].
Qed.

(** Only the maps matter. *)
Lemma represents_same p q l bound bound' : represents p l bound -> bound <= bound' ->
  by_hash q = by_hash p -> by_sender q = by_sender p -> by_sender_seq q = by_sender_seq p ->
  represents q l bound'.
Proof.
  intros [] Hb E1 E2 E3. split; rewrite ?E1, ?E2, ?E3; try done. intros s n Hn.
  specialize (rep_bound0 _ _ Hn). lia.
Qed.

Lemma represents_mem p l bound tx : represents p l bound ->
  bool_decide (is_Some (by_hash p !! tx_id tx)) = bool_decide (is_Some (pending_tx (tx_id tx) l)).
Proof. intros []. by rewrite rep_hash0. Qed.

(** What [add] does with a new transaction. *)
Lemma add_new p tx r p' : by_hash p !! tx_id tx = None -> Mempool.add p tx = Some (r, p') ->
  r = Ok (tx_id tx) /\ by_hash p' = <[tx_id tx := tx]> (by_hash p) /\
  by_priority p' = push entry_leb (mkOrderedEntry (tx_id tx) (ordering_key tx)) (by_priority p) /\
  in_flight p' = in_flight p.
Proof.
  intros Hn. unfold Mempool.add. rewrite Hn, bool_decide_eq_false_2 by (by intros []).
  destruct (sender_key tx) as [sender|]; [|by intros [= <- <-]].
  unfold Mempool.next_sender_sequence. destruct (checked_add _ _ _); [|done]. by intros [= <- <-].
Qed.

Lemma add_total p l bound tx : represents p l bound -> bound < u64_max -> 0 <= bound ->
  is_Some (Mempool.add p tx).
Proof.
  intros [] Hb Hb0. unfold Mempool.add. case_bool_decide; [done|]. destruct (sender_key tx) as [sender|]; [|done].
  unfold Mempool.next_sender_sequence, checked_add. cbn.
  destruct (by_sender_seq p !! sender) as [n|] eqn:E; cbn; [|done].
  apply rep_bound0 in E. destruct (Z.ltb_spec u64_max (n + 1)); [lia | done].
Qed.

Lemma represents_add p l bound tx r p' : represents p l bound -> 0 <= bound ->
  pending_tx (tx_id tx) l = None -> Mempool.add p tx = Some (r, p') ->
  r = Ok (tx_id tx) /\ represents p' (l ++ [tx]) (bound + 1).
Proof.
  intros [] Hb Hnew Hadd. rewrite <-rep_hash0 in Hnew. pose proof (add_new _ _ _ _ Hnew Hadd) as (-> & Eh & _ & _).
  split; [done|]. unfold Mempool.add in Hadd. rewrite Hnew, bool_decide_eq_false_2 in Hadd by (by intros []).
  rewrite rep_hash0 in Hnew. apply pending_tx_None in Hnew.
  assert (Hsend : forall s, of_sender s (l ++ [tx]) = of_sender s l ++ (if decide (sender_key tx = Some s) then [tx] else [])).
  { intros s. unfold of_sender. by rewrite filter_app, filter_cons, filter_nil. }
  split.
  - rewrite fmap_app. apply NoDup_app. split_and!; [done | | apply NoDup_singleton].
    intros x Hx. cbn. rewrite list_elem_of_singleton. by intros ->.
  - intros hash. rewrite Eh, pending_tx_snoc by done. case_decide as E; [subst; by rewrite lookup_insert_eq|].
    by rewrite lookup_insert_ne.
  - intros s. rewrite Hsend. destruct (sender_key tx) as [sender|].
    + unfold Mempool.next_sender_sequence, checked_add in Hadd. case_match; [done|].
      injection Hadd as <-. cbn. case_decide as E.
      * injection E as <-. rewrite !lookup_insert_eq, fmap_app. apply sender_rep_add, rep_sender0.
      * rewrite app_nil_r, !lookup_insert_ne by congruence. apply rep_sender0.
    + injection Hadd as <-. cbn. rewrite decide_False, app_nil_r by done. apply rep_sender0.
  - intros s n. destruct (sender_key tx) as [sender|].
    + unfold Mempool.next_sender_sequence, checked_add in Hadd. case_match; [done|].
      injection Hadd as <-. cbn. destruct (decide (s = sender)) as [->|].
      * rewrite lookup_insert_eq. intros [= <-].
        destruct (by_sender_seq p !! sender) as [m|] eqn:E; cbn; [apply rep_bound0 in E; lia | lia].
      * rewrite lookup_insert_ne by done. intros Hn. specialize (rep_bound0 _ _ Hn). lia.
    + injection Hadd as <-. cbn. intros Hn. specialize (rep_bound0 _ _ Hn). lia.
Qed.

(** Removing a transaction leaves senders other than its own as they are. *)
Lemma without_other_sender l tx s : NoDup (tx_id <$> l) -> tx ∈ l -> sender_key tx ≠ Some s ->
  of_sender s (without [tx_id tx] l) = of_sender s l.
Proof.
  intros Hnd Hin Hs. transitivity (without [tx_id tx] (of_sender s l)).
  - unfold of_sender, without. rewrite !list_filter_filter. apply list_filter_iff. tauto.
  - apply filter_every. intros tx' [Hs' Hin']%list_elem_of_filter. rewrite list_elem_of_singleton. intros Hid.
    pose proof (pending_tx_in l tx Hnd Hin) as E. rewrite <-Hid, pending_tx_in in E by done. congruence.
Qed.

Lemma represents_remove p l bound hash : represents p l bound ->
  exists p', Mempool.remove p hash = (pending_tx hash l, p') /\ represents p' (without [hash] l) bound /\
    by_priority p' = by_priority p /\ in_flight p' = in_flight p.
Proof.
  intros Hrep. pose proof Hrep as []. unfold Mempool.remove. rewrite rep_hash0.
  destruct (pending_tx hash l) as [tx|] eqn:Etx; cycle 1.
  { exists p. split; [done|]. split; [|done]. apply pending_tx_None in Etx. unfold without.
    rewrite filter_every; [done|]. intros tx Hin Hid%list_elem_of_singleton. destruct Etx.
    rewrite <-Hid. apply list_elem_of_fmap. eauto. }
  apply pending_tx_Some in Etx as [Hin <-].
  assert (Hhash : forall h, delete (tx_id tx) (by_hash p) !! h = pending_tx h (without [tx_id tx] l)).
  { intros h. rewrite pending_tx_without. case_decide as E.
    - apply list_elem_of_singleton in E as ->. by rewrite lookup_delete_eq.
    - rewrite list_elem_of_singleton in E. by rewrite lookup_delete_ne. }
  pose proof (without_nodup [tx_id tx] l rep_nodup0) as Hnd.
  assert (Hother : forall s, sender_key tx ≠ Some s ->
    sender_rep (by_sender p !! s) (by_sender_seq p !! s) (tx_id <$> of_sender s (without [tx_id tx] l))).
  { intros s Hs. rewrite without_other_sender by done. apply rep_sender0. }
  destruct (sender_key tx) as [sender|] eqn:Es; cycle 1.
  { eexists. split; [done|]. split; [|done]. split; cbn; [done..| |done]. intros s. by apply Hother. }
  pose proof (rep_sender0 sender) as Hs. cbn.
  destruct (by_sender p !! sender) as [nonces|] eqn:En; cycle 1.
  { exfalso. destruct Hs as (entries & He & _ & Hm). destruct entries; [|by destruct Hm].
    assert (Hi : tx ∈ of_sender sender l) by (by apply list_elem_of_filter).
    apply (list_elem_of_fmap_2 tx_id) in Hi. rewrite <-He in Hi. by apply not_elem_of_nil in Hi. }
  apply sender_rep_remove with (hash := tx_id tx) in Hs. cbn zeta in Hs. rewrite <-without_sender in Hs.
  case_bool_decide; (eexists; split; [done|]; split; [|done]; split; cbn; [done..| |]).
  - intros s. destruct (decide (s = sender)) as [->|]; [by rewrite !lookup_delete_eq|].
    rewrite !lookup_delete_ne by done. apply Hother. congruence.
  - intros s n [_ Hn]%lookup_delete_Some. by apply rep_bound0 in Hn.
  - intros s. destruct (decide (s = sender)) as [->|]; [by rewrite !lookup_insert_eq|].
    rewrite !lookup_insert_ne by done. apply Hother. congruence.
  - done.
Qed.

Lemma represents_remove_many hashes : forall p l bound, represents p l bound ->
  let p' := Mempool.remove_many p hashes in
  represents p' (without hashes l) bound /\ by_priority p' = by_priority p /\ in_flight p' = in_flight p.
Proof.
  induction hashes as [|hash hashes IH]; intros p l bound Hrep; cbn.
  - split; [|done]. unfold without. rewrite filter_every; [done|]. intros tx _. apply not_elem_of_nil.
  - destruct (represents_remove p l bound hash Hrep) as (p' & -> & Hrep' & Hp & Hf). cbn.
    destruct (IH _ _ _ Hrep') as (Hrep'' & Hp' & Hf'). rewrite without_cons. unfold Mempool.remove_many in *.
    split; [done|]. split; congruence.
Qed.

Lemma represents_dom p l bound : represents p l bound -> dom (by_hash p) = list_to_set (tx_id <$> l).
Proof.
  intros []. apply set_eq. intros h. rewrite elem_of_dom, rep_hash0, elem_of_list_to_set.
  rewrite <-not_eq_None_Some, pending_tx_None. split; [|tauto]. apply dec_stable.
Qed.

Lemma represents_len p l bound : represents p l bound -> Mempool.len p = zlen l.
Proof.
  intros Hrep. unfold Mempool.len. rewrite <-size_dom, (represents_dom _ _ _ Hrep), size_list_to_set by apply Hrep.
  by rewrite length_fmap.
Qed.

Lemma represents_is_empty p l bound : represents p l bound -> Mempool.is_empty p = bool_decide (l = []).
Proof.
  intros Hrep. apply bool_decide_ext. rewrite <-(dom_empty_iff_L (by_hash p)), (represents_dom _ _ _ Hrep).
  destruct l as [|tx l]; [done|]. cbn. split; [|done]. intros E.
  apply (f_equal (elem_of (tx_id tx))) in E. exfalso. apply (not_elem_of_empty (C := gset Hash) (tx_id tx)).
  rewrite <-E. apply elem_of_union_l, elem_of_singleton. done.
Qed.

Lemma propose_same (p : Mempool T) max_gas max_txs : let p' := (Mempool.propose p max_gas max_txs).2 in
  by_hash p' = by_hash p /\ by_sender p' = by_sender p /\ by_sender_seq p' = by_sender_seq p.
Proof.
  unfold Mempool.propose, Mempool.select_with_gas_budget.
  by destruct (Mempool.budget_loop _ _ _ _ _ _ _ _) as [[[selected gas] skipped] heap].
Qed.

Lemma select_same (p : Mempool T) limit : let p' := (Mempool.select p limit).2 in
  by_hash p' = by_hash p /\ by_sender p' = by_sender p /\ by_sender_seq p' = by_sender_seq p.
Proof. unfold Mempool.select. by destruct (Mempool.select_loop _ _ _ _ _). Qed.

(** Transactions of the map of the pool. *)
Definition known (txs : gmap Hash T) (l : list T) : Prop := forall tx, tx ∈ l -> exists h, txs !! h = Some tx.

Lemma known_pending p l bound sel : represents p l bound -> known (by_hash p) sel -> sel ⊆ l.
Proof.
  intros Hrep Hk tx [h Hh]%Hk. rewrite (rep_hash _ _ _ Hrep) in Hh. by apply pending_tx_Some in Hh as [? _].
Qed.

Lemma known_snoc txs sel h tx : known txs sel -> txs !! h = Some tx -> known txs (sel ++ [tx]).
Proof. intros Hk Hh x [Hx|Hx]%elem_of_app; [by apply Hk|]. apply list_elem_of_singleton in Hx as ->. by exists h. Qed.

Lemma select_loop_known fuel txs limit : forall sel heap, known txs sel -> zlen sel <= limit ->
  let sel' := (Mempool.select_loop fuel txs limit sel heap).1 in known txs sel' /\ zlen sel' <= limit.
Proof.
  induction fuel as [|fuel IH]; intros sel heap Hk Hl; [done|]. cbn.
  destruct (Z.ltb_spec (zlen sel) limit); [|done]. destruct (pop entry_leb heap) as [[e h]|]; [|done].
  destruct (txs !! entry_hash e) as [tx|] eqn:He; [|by apply IH]. apply IH; [by eapply known_snoc|].
  rewrite zlen_app. change (zlen [tx]) with 1. lia.
Qed.

Lemma budget_loop_known fuel txs max_gas max_txs : forall sel gas skipped heap,
  known txs sel -> gas = gas_from 0 sel -> (0 <= max_gas -> within_gas max_gas gas) -> (0 < max_txs -> zlen sel <= max_txs) ->
  let '(sel', gas', _, _) := Mempool.budget_loop fuel txs max_gas max_txs sel gas skipped heap in
  known txs sel' /\ gas' = gas_from 0 sel' /\ (0 <= max_gas -> within_gas max_gas gas') /\
  (0 < max_txs -> zlen sel' <= max_txs).
Proof.
  induction fuel as [|fuel IH]; intros sel gas skipped heap Hk Hg Hw Hl; [done|]. cbn [Mempool.budget_loop].
  destruct (_ || (zlen sel <? max_txs)) eqn:Ecount; [|done]. destruct (pop entry_leb heap) as [[e h]|]; [|done].
  destruct (txs !! entry_hash e) as [tx|] eqn:He; [|by apply IH].
  cbv zeta. destruct ((max_gas =? 0) || _) eqn:Egas; [|by apply IH].
  apply IH.
  - by eapply known_snoc.
  - unfold gas_from. rewrite foldl_snoc. by subst gas.
  - intros _. apply orb_true_iff in Egas as [E%Z.eqb_eq | E%Z.leb_le]; [by left | by right].
  - intros Hm. rewrite zlen_app. change (zlen [tx]) with 1. apply orb_true_iff in Ecount as [E%Z.eqb_eq | E%Z.ltb_lt]; lia.
Qed.

Lemma select_chooses p l bound limit : represents p l bound -> may_choose (OpSelect limit) l (OutSelected (Mempool.select p limit).1).
Proof.
  intros Hrep. unfold Mempool.select. destruct (Mempool.select_loop _ _ _ _ _) as [sel heap] eqn:E. cbn [fst may_choose].
  destruct (decide (0 <= limit)) as [Hl|Hl].
  - pose proof (select_loop_known (S (length (by_priority p))) (by_hash p) limit [] (by_priority p)) as Hs. rewrite E in Hs.
    destruct Hs as [Hk Hz]; [by intros tx ?%not_elem_of_nil | done |]. split; [by eapply known_pending | done].
  - cbn in E. destruct (Z.ltb_spec (zlen (@nil T)) limit) as [H0|_]; [change (zlen (@nil T)) with 0 in H0; lia|].
    injection E as <- _. split; [apply list_subseteq_nil | lia].
Qed.

Lemma budget_chooses p l bound max_gas max_txs : represents p l bound ->
  let '(txs, gas, _) := Mempool.select_with_gas_budget p max_gas max_txs in may_choose (OpSelectBudget max_gas max_txs) l (OutBudget txs gas).
Proof.
  intros Hrep. unfold Mempool.select_with_gas_budget.
  pose proof (budget_loop_known (S (length (by_priority p))) (by_hash p) max_gas max_txs [] 0 [] (by_priority p)) as Hs.
  destruct (Mempool.budget_loop _ _ _ _ _ _ _ _) as [[[sel gas] skipped] heap].
  destruct Hs as (Hk & Hrest); [by intros tx ?%not_elem_of_nil | done | by right | change (zlen (@nil T)) with 0; lia |].
  split; [by eapply known_pending | done].
Qed.

Lemma peek_chooses p l bound : represents p l bound -> may_choose OpPeek l (OutTx (Mempool.peek p)).
Proof.
  intros Hrep. unfold Mempool.peek. cbn [may_choose]. destruct (Heap.peek (by_priority p)) as [e|]; [|done].
  cbn [mbind option_bind]. rewrite (rep_hash _ _ _ Hrep). destruct (pending_tx _ l) as [tx|] eqn:E; [|done].
  by apply pending_tx_Some in E as [? _].
Qed.

Lemma pool_step_refines drained op p l bound : represents p l bound -> 0 <= bound < u64_max ->
  exists out p', pool_step drained op p = Some (out, p') /\ list_answers op l out /\
             represents p' (list_step op l).2 (bound + 1).
Proof.
  intros Hrep Hb. assert (Hkeep : represents p l (bound + 1)) by (eapply represents_same; [done | lia | done..]).
  destruct op; unfold list_answers; cbn [pool_step list_step fst snd].
  - destruct (pending_tx (tx_id tx) l) as [tx'|] eqn:E.
    + unfold Mempool.add. rewrite (represents_mem _ _ _ _ Hrep), E. cbn. by eexists _, _.
    + destruct (add_total _ _ _ tx Hrep) as [[r p'] Hadd]; [lia..|].
      destruct (represents_add _ _ _ _ _ _ Hrep (proj1 Hb) E Hadd) as (-> & Hrep'). rewrite Hadd. by eexists _, _.
  - destruct (represents_remove _ _ _ hash Hrep) as (p' & -> & Hrep' & _). eexists _, _. split; [done|]. split; [done|].
    eapply represents_same; [done | lia | done..].
  - eexists _, _. split; [done|]. split; [done|]. eapply represents_same; [by apply represents_remove_many | lia | done..].
  - pose proof (select_chooses p l bound limit Hrep) as Hc. pose proof (select_same p limit) as (E1 & E2 & E3).
    destruct (Mempool.select p limit) as [txs p']. eexists _, _. split; [done|]. split; [exact Hc|].
    eapply represents_same; [done | lia | done..].
  - pose proof (budget_chooses p l bound max_gas max_txs Hrep) as Hc. pose proof (propose_same p max_gas max_txs) as Hs.
    unfold Mempool.propose in Hs. destruct (Mempool.select_with_gas_budget p max_gas max_txs) as [[txs gas] p'].
    destruct Hs as (E1 & E2 & E3). eexists _, _. split; [done|]. split; [exact Hc|]. eapply represents_same; [done | lia | done..].
  - pose proof (budget_chooses p l bound max_gas max_txs Hrep) as Hc. pose proof (propose_same p max_gas max_txs) as Hs.
    unfold Mempool.propose in *. destruct (Mempool.select_with_gas_budget p max_gas max_txs) as [[txs gas] p'].
    destruct Hs as (E1 & E2 & E3). eexists _, _. split; [done|]. split; [exact Hc|]. eapply represents_same; [done | lia | done..].
  - eexists _, _. split; [done|]. split; [by eapply peek_chooses | done].
  - eexists _, _. split; [done|]. split; [done|]. eapply represents_same; [by apply represents_remove_many | lia | done..].
  - eexists _, _. split; [done|]. split; [done|]. eapply represents_same; [by eapply represents_clear | lia | done..].
  - eexists _, _. unfold Mempool.get. by rewrite (rep_hash _ _ _ Hrep).
  - eexists _, _. unfold Mempool.contains. by rewrite (rep_hash _ _ _ Hrep).
  - eexists _, _. by rewrite (represents_len _ _ _ Hrep).
  - eexists _, _. by rewrite (represents_is_empty _ _ _ Hrep).
  - eexists _, _. unfold Mempool.get_sender_txs. by rewrite (sender_rep_values _ _ _ (rep_sender _ _ _ Hrep sender)).
Qed.

Lemma pool_run_refines drained ops : forall p l bound, represents p l bound -> 0 <= bound ->
  bound + zlen ops <= u64_max ->
  exists outs p' l', pool_run drained ops p = Some (outs, p') /\ list_run ops l outs l' /\
             represents p' l' (bound + zlen ops).
Proof.
  induction ops as [|op ops IH]; intros p l bound Hrep Hb Hlen.
  { exists [], p, l. split; [done|]. split; [constructor|]. by rewrite Z.add_0_r. }
  rewrite zlen_cons in Hlen |- *. pose proof (zlen_nonneg ops).
  destruct (pool_step_refines drained op p l bound Hrep) as (out & p1 & Hstep & Hans & Hrep1); [lia|].
  destruct (IH p1 (list_step op l).2 (bound + 1) Hrep1) as (outs & p2 & l2 & Hrun & Hlist & Hrep2); [lia..|].
  exists (out :: outs), p2, l2. cbn. rewrite Hstep. cbn. rewrite Hrun. split; [done|]. split; [by econstructor|].
  by rewrite Z.add_assoc.
Qed.

End Spec.

(** ** The cycle of proposing and finalising

    A block producer adds transactions, proposes some of them and finalises
    those that were executed. In these cycles the heap holds one entry for
    each pending transaction that is not in flight and no others. *)

Section Cycle.
Context {T : Type} `{MempoolTx T}.
Context (drained : gset Hash -> list Hash) (Hdrained : forall s, drained s ≡ₚ elements s).

Abbreviation descending := (StronglySorted (fun a b : OrderedEntry OrderingKey => entry_leb b a = true)).

(** The pools a producer reaches, with the pending transactions: [finalize] is
    called with transactions that are in flight. *)
Inductive producing : Mempool T -> list T -> Prop :=
| producing_new : producing Mempool.new []
| producing_add p l tx r p' : producing p l -> Mempool.add p tx = Some (r, p') ->
    producing p' (list_step (OpAdd tx) l).2
| producing_propose p l max_gas max_txs : producing p l ->
    producing (Mempool.propose p max_gas max_txs).2 l
| producing_finalize p l executed : producing p l -> list_to_set executed ⊆ in_flight p ->
    producing (Mempool.finalize_draining drained p executed) (without executed l).

Record clean (p : Mempool T) (l : list T) : Prop := {
  cl_heap : is_heap entry_leb (by_priority p);
  cl_once : NoDup (entry_hash <$> by_priority p);
  cl_queued : forall h, h ∈ entry_hash <$> by_priority p <-> h ∈ tx_id <$> l /\ h ∉ in_flight p;
  cl_flying : forall h, h ∈ in_flight p -> h ∈ tx_id <$> l;
  cl_keys : forall e tx, e ∈ by_priority p -> tx ∈ l -> tx_id tx = entry_hash e -> entry_key e = ordering_key tx }.

Lemma clean_add p l bound tx r p' : represents p l bound -> clean p l ->
  pending_tx (tx_id tx) l = None -> Mempool.add p tx = Some (r, p') -> clean p' (l ++ [tx]).
Proof.
  intros Hrep [] Hnew Hadd. rewrite <-(rep_hash _ _ _ Hrep) in Hnew.
  destruct (add_new _ _ _ _ Hnew Hadd) as (_ & _ & Ep & Ef).
  rewrite (rep_hash _ _ _ Hrep) in Hnew. apply pending_tx_None in Hnew.
  assert (Hheap : by_priority p' ≡ₚ mkOrderedEntry (tx_id tx) (ordering_key tx) :: by_priority p).
  { rewrite Ep. apply push_permutation. }
  split.
  - rewrite Ep. by apply push_entry_heap.
  - rewrite Hheap. cbn. constructor; [|done]. rewrite cl_queued0. tauto.
  - intros h. rewrite Hheap, Ef, fmap_cons, fmap_app, elem_of_cons, cl_queued0, elem_of_app. cbn.
    rewrite list_elem_of_singleton. split; [|tauto]. intros [-> | [? ?]]; [|tauto].
    split; [tauto|]. intros Hf. by apply Hnew, cl_flying0.
  - intros h Hh. rewrite Ef in Hh. rewrite fmap_app. apply elem_of_app. left. by apply cl_flying0.
  - intros e tx' He Htx' Hid. rewrite Hheap in He. apply elem_of_cons in He as [->|He].
    + apply elem_of_app in Htx' as [Hin|Hin%list_elem_of_singleton]; [|by subst].
      destruct Hnew. cbn in Hid. rewrite <-Hid. apply list_elem_of_fmap. eauto.
    + apply elem_of_app in Htx' as [Hin|Hin%list_elem_of_singleton]; [by apply cl_keys0|]. subst tx'.
      destruct Hnew. rewrite Hid. apply cl_queued0, list_elem_of_fmap. eauto.
Qed.

(** Entries of a clean pool stand for pending transactions. *)
Lemma clean_live p l bound e : represents p l bound -> clean p l -> e ∈ by_priority p ->
  exists tx, by_hash p !! entry_hash e = Some tx /\ tx ∈ l /\ tx_id tx = entry_hash e.
Proof.
  intros Hrep [] He. assert (Hin : entry_hash e ∈ entry_hash <$> by_priority p) by (apply list_elem_of_fmap; eauto).
  apply cl_queued0 in Hin as [(tx & Hid & Hin)%list_elem_of_fmap _]. exists tx. rewrite (rep_hash _ _ _ Hrep), Hid.
  split; [|done]. apply pending_tx_in; [apply Hrep | done].
Qed.

Lemma stands_for_ids p l bound es txs : represents p l bound ->
  Forall2 (stands_for (by_hash p)) es txs -> entry_hash <$> es = tx_id <$> txs.
Proof.
  intros Hrep. induction 1 as [|e tx es txs Hs _ IH]; [done|]. cbn. rewrite IH. f_equal.
  unfold stands_for in Hs. rewrite (rep_hash _ _ _ Hrep) in Hs. by apply pending_tx_Some in Hs as [_ ->].
Qed.

(** Proposing moves entries from the heap to the transactions in flight. *)
Lemma propose_moves p l bound max_gas max_txs selected gas p' : represents p l bound -> clean p l ->
  Mempool.propose p max_gas max_txs = (selected, gas, p') ->
  exists order taken, order ≡ₚ by_priority p /\ descending order /\
    selected = greedy max_gas max_txs 0 0 (live (by_hash p) order) /\ gas = gas_from 0 selected /\
    entry_hash <$> taken = tx_id <$> selected /\ by_priority p ≡ₚ taken ++ by_priority p' /\
    is_heap entry_leb (by_priority p') /\ in_flight p' = list_to_set (tx_id <$> selected) ∪ in_flight p.
Proof.
  intros Hrep Hcl. unfold Mempool.propose.
  destruct (Mempool.select_with_gas_budget p max_gas max_txs) as [[sel g] q] eqn:Es.
  destruct (select_with_gas_budget_spec _ _ _ _ _ _ (cl_heap _ _ Hcl) Es) as (order & taken & stale & []).
  intros Hp. apply pair_equal_spec in Hp as [Hp <-]. apply pair_equal_spec in Hp as [<- <-].
  assert (stale = []) as ->.
  { destruct stale as [|e stale]; [done|]. apply Forall_cons in bs_stale as [Hdead _].
    destruct (clean_live p l bound e Hrep Hcl) as (tx & Htx & _); [|congruence].
    rewrite bs_rest. apply elem_of_app. right. left. }
  exists order, taken. split_and!; try done; [by eapply stands_for_ids|]. cbn. by rewrite bs_others.
Qed.

Lemma clean_propose p l bound max_gas max_txs : represents p l bound -> clean p l ->
  clean (Mempool.propose p max_gas max_txs).2 l.
Proof.
  intros Hrep Hcl. destruct (Mempool.propose p max_gas max_txs) as [[selected gas] p'] eqn:Ep. cbn.
  destruct (propose_moves _ _ _ _ _ _ _ _ Hrep Hcl Ep) as (order & taken & _ & _ & _ & _ & Hids & Hperm & Hheap & Hfly).
  destruct Hcl.
  assert (Hh : entry_hash <$> by_priority p ≡ₚ (tx_id <$> selected) ++ (entry_hash <$> by_priority p')).
  { by rewrite Hperm, fmap_app, Hids. }
  rewrite Hh in cl_once0. apply NoDup_app in cl_once0 as (Hn1 & Hdisj & Hn2).
  assert (Hq : forall h, h ∈ tx_id <$> selected \/ h ∈ entry_hash <$> by_priority p' <->
                         h ∈ tx_id <$> l /\ h ∉ in_flight p).
  { intros h. by rewrite <-cl_queued0, Hh, elem_of_app. }
  split; [done..| | |].
  - intros h. rewrite Hfly, elem_of_union, elem_of_list_to_set. specialize (Hq h). specialize (Hdisj h). tauto.
  - intros h. rewrite Hfly, elem_of_union, elem_of_list_to_set. specialize (Hq h). intros [? | ?]; [tauto|].
    by apply cl_flying0.
  - intros e tx He. apply cl_keys0. rewrite Hperm. apply elem_of_app. by right.
Qed.

(** Entries put back by [finalize]. *)
Lemma requeue_permutation (txs : gmap Hash T) hashes : forall heap,
  Mempool.requeue txs hashes heap ≡ₚ
  omap (fun h => tx ← txs !! h; Some (mkOrderedEntry h (ordering_key tx))) hashes ++ heap.
Proof.
  unfold Mempool.requeue. induction hashes as [|h hashes IH]; intros heap; cbn; [done|].
  rewrite IH. destruct (txs !! h) as [tx|]; cbn; [|done].
  rewrite push_permutation. by rewrite Permutation_middle.
Qed.

Lemma requeue_heap (txs : gmap Hash T) hashes : forall heap, is_heap entry_leb heap ->
  is_heap entry_leb (Mempool.requeue txs hashes heap).
Proof.
  unfold Mempool.requeue. induction hashes as [|h hashes IH]; intros heap Hh; cbn; [done|].
  apply IH. destruct (txs !! h); [by apply push_entry_heap | done].
Qed.

Lemma requeue_hashes (txs : gmap Hash T) (hashes : list Hash) : (forall h, h ∈ hashes -> is_Some (txs !! h)) ->
  entry_hash <$> omap (fun h => tx ← txs !! h; Some (mkOrderedEntry h (ordering_key tx))) hashes = hashes.
Proof.
  induction hashes as [|h hashes IH]; intros Hs; cbn; [done|].
  destruct (Hs h) as [tx ->]; [left|]. cbn. rewrite IH; [done|]. intros h' Hh'. apply Hs. by right.
Qed.

Lemma without_ids h (hashes : list Hash) (l : list T) : h ∈ tx_id <$> without hashes l <-> h ∈ tx_id <$> l /\ h ∉ hashes.
Proof.
  rewrite !list_elem_of_fmap. unfold without. split.
  - intros (tx & -> & [? ?]%list_elem_of_filter). eauto.
  - intros ((tx & -> & ?) & ?). exists tx. by rewrite list_elem_of_filter.
Qed.

Lemma clean_finalize p l bound executed : represents p l bound -> clean p l ->
  list_to_set executed ⊆ in_flight p ->
  clean (Mempool.finalize_draining drained p executed) (without executed l).
Proof using Hdrained.
  intros Hrep [] Hsub. destruct (represents_remove_many executed _ _ _ Hrep) as (Hrep' & Ep & Ef).
  unfold Mempool.finalize_draining. set (q := Mempool.remove_many p executed) in *.
  set (fly := in_flight q ∖ list_to_set executed).
  assert (Hfly : forall h, h ∈ drained fly <-> h ∈ in_flight p /\ h ∉ executed).
  { intros h. rewrite Hdrained, elem_of_elements. unfold fly. rewrite elem_of_difference, elem_of_list_to_set. by rewrite Ef. }
  assert (Hsome : forall h, h ∈ drained fly -> is_Some (by_hash q !! h)).
  { intros h [? ?]%Hfly. rewrite <-elem_of_dom, (represents_dom _ _ _ Hrep'), elem_of_list_to_set, without_ids.
    split; [by apply cl_flying0 | done]. }
  assert (Hexec : forall h, h ∈ executed -> h ∈ in_flight p).
  { intros h Hh. apply Hsub. by apply elem_of_list_to_set. }
  set (heap' := Mempool.requeue _ _ _).
  assert (Hheap : entry_hash <$> heap' ≡ₚ drained fly ++ (entry_hash <$> by_priority p)).
  { unfold heap'. by rewrite requeue_permutation, fmap_app, requeue_hashes, Ep by done. }
  split; cbn.
  - unfold heap'. apply requeue_heap. by rewrite Ep.
  - rewrite Hheap. apply NoDup_app. split_and!; [rewrite Hdrained; apply NoDup_elements | | done].
    intros h Hh. rewrite cl_queued0. apply Hfly in Hh. tauto.
  - intros h. rewrite Hheap, elem_of_app, Hfly, cl_queued0, without_ids. specialize (cl_flying0 h). specialize (Hexec h).
    pose proof (not_elem_of_empty (C := gset Hash) h).
    destruct (decide (h ∈ in_flight p)), (decide (h ∈ executed)); tauto.
  - intros h Hh. by apply not_elem_of_empty in Hh.
  - intros e tx He Htx Hid. unfold without in Htx. apply list_elem_of_filter in Htx as [Hne Htx].
    unfold heap' in He. rewrite requeue_permutation, Ep in He. apply elem_of_app in He as [He|He]; [|by apply cl_keys0].
    apply list_elem_of_omap in He as (h & Hh & Hx). destruct (by_hash q !! h) as [tx'|] eqn:Eh; [|done].
    cbn in Hx. injection Hx as <-. cbn in *. subst h. rewrite (rep_hash _ _ _ Hrep') in Eh.
    rewrite pending_tx_in in Eh; [by injection Eh as -> | apply Hrep' | by apply list_elem_of_filter].
Qed.

Lemma producing_clean p l : producing p l ->
  exists bound, 0 <= bound /\ represents p l bound /\ clean p l.
Proof using Hdrained.
  induction 1 as [|p l tx r p' _ (bound & Hb & Hrep & Hcl) Hadd|p l max_gas max_txs _ (bound & Hb & Hrep & Hcl)
                 |p l executed _ (bound & Hb & Hrep & Hcl) Hsub].
  - exists 0. split_and!; [done | apply represents_new|]. split; cbn.
    + apply empty_heap.
    + constructor.
    + intros h. rewrite !elem_of_nil. tauto.
    + intros h Hh. by apply not_elem_of_empty in Hh.
    + intros e tx He. by apply not_elem_of_nil in He.
  - cbn. destruct (pending_tx (tx_id tx) l) as [tx'|] eqn:E.
    + unfold Mempool.add in Hadd. rewrite (represents_mem _ _ _ _ Hrep), E in Hadd. injection Hadd as <- <-. eauto.
    + destruct (represents_add _ _ _ _ _ _ Hrep Hb E Hadd) as [_ Hrep']. exists (bound + 1).
      split_and!; [lia | done | by eapply clean_add].
  - exists bound. destruct (propose_same p max_gas max_txs) as (E1 & E2 & E3).
    split_and!; [done | by eapply represents_same | by eapply clean_propose].
  - exists bound. split_and!; [done | | by eapply clean_finalize].
    eapply represents_same; [by apply represents_remove_many | lia | done..].
Qed.

(** ** What is proposed *)

Definition by_priority_order : relation T := fun a b => cmp (ordering_key b) (ordering_key a) ≠ Gt.

(** Pending transactions that are not in flight. *)
Definition queued (p : Mempool T) (l : list T) : list T := filter (fun tx => tx_id tx ∉ in_flight p) l.

Lemma live_ids p l bound es : represents p l bound -> clean p l -> es ⊆ by_priority p ->
  tx_id <$> live (by_hash p) es = entry_hash <$> es /\ live (by_hash p) es ⊆ l.
Proof.
  intros Hrep Hcl. induction es as [|e es IH]; intros Hsub; [split; [done | apply list_subseteq_nil]|].
  destruct (clean_live p l bound e Hrep Hcl) as (tx & Htx & Hin & Hid); [apply Hsub; left|].
  destruct IH as [E Hl]; [intros x Hx; apply Hsub; by right|].
  unfold live in *. cbn. rewrite Htx. cbn. split; [by rewrite E, Hid|].
  intros x [->|Hx]%elem_of_cons; [done | by apply Hl].
Qed.

Lemma live_order p l bound es : represents p l bound -> clean p l -> es ⊆ by_priority p ->
  descending es -> StronglySorted by_priority_order (live (by_hash p) es).
Proof.
  intros Hrep Hcl Hsub Hd. induction Hd as [|e es Hd IH Hall]; [constructor|].
  destruct (clean_live p l bound e Hrep Hcl) as (tx & Htx & Hin & Hid); [apply Hsub; left|].
  assert (Hsub' : es ⊆ by_priority p) by (intros x Hx; apply Hsub; by right).
  unfold live in *. cbn. rewrite Htx. cbn. constructor; [by apply IH|]. apply Forall_forall. intros tx' Htx'.
  apply list_elem_of_omap in Htx' as (e' & He' & Htx').
  destruct (clean_live p l bound e' Hrep Hcl) as (tx'' & Htx'' & Hin' & Hid'); [by apply Hsub'|].
  assert (tx'' = tx') as -> by congruence.
  unfold by_priority_order. rewrite <-(cl_keys _ _ Hcl e tx), <-(cl_keys _ _ Hcl e' tx') by (auto; apply Hsub; left || by right).
  apply entry_leb_cmp. by eapply Forall_forall in Hall.
Qed.

Lemma live_queued p l bound es : represents p l bound -> clean p l -> es ≡ₚ by_priority p ->
  live (by_hash p) es ≡ₚ queued p l.
Proof.
  intros Hrep Hcl Hp. destruct (live_ids p l bound es Hrep Hcl) as [Hids Hl].
  { intros x Hx. by rewrite <-Hp. }
  apply NoDup_Permutation.
  - apply (NoDup_fmap_1 tx_id). rewrite Hids, Hp. apply Hcl.
  - apply NoDup_filter. apply (NoDup_fmap_1 tx_id), Hrep.
  - intros tx. unfold queued. rewrite list_elem_of_filter. split.
    + intros Hin. split; [|by apply Hl]. apply (list_elem_of_fmap_2 tx_id) in Hin.
      rewrite Hids, Hp in Hin. by apply (cl_queued _ _ Hcl) in Hin as [_ ?].
    + intros [Hnf Hin]. assert (Hq : tx_id tx ∈ entry_hash <$> by_priority p).
      { apply (cl_queued _ _ Hcl). split; [by apply list_elem_of_fmap_2 | done]. }
      rewrite <-Hp, list_elem_of_fmap in Hq. destruct Hq as (e & He & Hine).
      apply list_elem_of_omap. exists e. split; [done|]. rewrite <-He, (rep_hash _ _ _ Hrep).
      apply pending_tx_in; [apply Hrep | done].
Qed.

(** The proposal is the greedy choice from the queued transactions in an order
    of priority. *)
Lemma propose_spec p l max_gas max_txs selected gas p' : producing p l ->
  Mempool.propose p max_gas max_txs = (selected, gas, p') ->
  exists order, order ≡ₚ queued p l /\ StronglySorted by_priority_order order /\
    selected = greedy max_gas max_txs 0 0 order /\ gas = gas_from 0 selected /\
    in_flight p' = list_to_set (tx_id <$> selected) ∪ in_flight p.
Proof using Hdrained.
  intros Hpr Hprop. destruct (producing_clean p l Hpr) as (bound & _ & Hrep & Hcl).
  destruct (propose_moves _ _ _ _ _ _ _ _ Hrep Hcl Hprop) as (order & taken & Hp & Hd & Hsel & Hgas & _ & _ & _ & Hfly).
  exists (live (by_hash p) order). split_and!; [by eapply live_queued | | done..].
  eapply live_order; [done..| |done]. intros x Hx. by rewrite <-Hp.
Qed.

End Cycle.
