(* ===== verification/StorageBackend.v ===== *)
(** * Storage backends

    Models [crates/storage/src]: the limits and fixed-size keys of [types.rs],
    the [Storage] trait of [lib.rs], the read caches of [cache.rs], cache
    warming ([warming.rs]) and the database-backed storage of [qmdb_impl.rs].
    The database itself (commonware's QMDB) is a parameter. A [HashMap] is a
    finite map; what depends on its iteration order takes the order as an
    argument. *)

From S2P Require Import Prelude Core ExecState ExecStateFacts Commit.

(** ** [types.rs] *)
Module StorageTypes.

Definition ERR_STORAGE_IO : ErrorCode := define_error 0x1.
Definition ERR_ADB_ERROR : ErrorCode := define_error 0x2.
Definition ERR_CONCURRENCY_ERROR : ErrorCode := define_error 0x3.
Definition ERR_RUNTIME_ERROR : ErrorCode := define_error 0x4.
Definition ERR_KEY_TOO_LARGE : ErrorCode := define_error 0x5.
Definition ERR_VALUE_TOO_LARGE : ErrorCode := define_error 0x6.
Definition ERR_BATCH_TOO_LARGE : ErrorCode := define_error 0x7.

Definition KEY_LENGTH_PREFIX_SIZE : Z := 2.
Definition STORAGE_KEY_SIZE : Z := 256.
Definition MAX_KEY_SIZE : Z := MAX_STORAGE_KEY_SIZE.
Definition MAX_BATCH_SIZE : Z := 10000.
Definition MAX_VALUE_SIZE : Z := 4092.

(** [FixedBytes<256>]: the length prefix, the key, and zeros. *)
Definition create_storage_key (key : bytes) : SdkResult bytes :=
  if MAX_KEY_SIZE <? zlen key then Err ERR_KEY_TOO_LARGE
  else
    let len_bytes := le_bytes 2 (wrap16 (zlen key)) in
    Ok (len_bytes ++ key ++ replicate (Z.to_nat (STORAGE_KEY_SIZE - KEY_LENGTH_PREFIX_SIZE) - length key) x00).

End StorageTypes.

(** ** The traits of [lib.rs] *)

Record CommitHash := mkCommitHash { commit_bytes : vec byte 32 }.

(** [ReadonlyKV] and [Storage]. *)
Class Storage (S : Type) := {
  storage_get : S -> bytes -> SdkResult (option bytes);
  storage_commit : S -> SdkResult CommitHash * S;
  storage_batch : S -> list Operation -> SdkResult unit * S
}.

(** [ReadonlyKVExt] *)
Definition exists_key {S} `{Storage S} (self : S) (key : bytes) : SdkResult bool :=
  v ← storage_get self key; Ok (bool_decide (is_Some v)).

Definition get_or_default {S} `{Storage S} (self : S) (key default_value : bytes) : SdkResult bytes :=
  v ← storage_get self key; Ok (default default_value v).

Definition mock_commit (self : gmap bytes bytes) : SdkResult CommitHash * gmap bytes bytes :=
  (Ok (mkCommitHash (vreplicate 32 x00)), self).

#[export] Instance mock_storage : Storage (gmap bytes bytes) := {|
  storage_get := MockStorage.get;
  storage_commit := mock_commit;
  storage_batch := MockStorage.batch
|}.

(** ** The caches of [cache.rs] *)

Definition DEFAULT_MAX_ENTRIES : Z := 16384.
Definition NUM_SHARDS : Z := 256.

Inductive CachedValue := Present (data : bytes) | Absent.

#[export] Instance CachedValue_eq_dec : EqDecision CachedValue.
Proof. solve_decision. Defined.

(** What a cached value says a read gives. *)
Definition cached_result (v : CachedValue) : option bytes :=
  match v with Present data => Some data | Absent => None end.

Definition cached_of (result : option bytes) : CachedValue :=
  match result with Some data => Present data | None => Absent end.

(** [DbCache], and [CacheShard] which has the same fields and methods; [keys]
    gives the iteration order of the hash map. *)
Record DbCache := mkDbCache { entries : gmap bytes CachedValue; max_entries : Z }.

Module DbCache.
Section Methods.
Context (keys : gmap bytes CachedValue -> list bytes).

Definition new (max_entries : Z) : DbCache := mkDbCache ∅ max_entries.

Definition with_defaults : DbCache := new DEFAULT_MAX_ENTRIES.

Definition get (self : DbCache) (key : bytes) : option CachedValue := entries self !! key.

Definition evict (self : DbCache) : gmap bytes CachedValue :=
  if max_entries self <=? Z.of_nat (size (entries self)) then
    let to_remove := take (Z.to_nat (max_entries self / 2)) (keys (entries self)) in
    foldl (fun es k => delete k es) (entries self) to_remove
  else entries self.

Definition insert (self : DbCache) (key : bytes) (value : CachedValue) : DbCache :=
  mkDbCache (<[key := value]> (evict self)) (max_entries self).

Definition insert_present (self : DbCache) (key value : bytes) : DbCache := insert self key (Present value).
Definition insert_absent (self : DbCache) (key : bytes) : DbCache := insert self key Absent.

Definition invalidate (self : DbCache) (key : bytes) : DbCache :=
  mkDbCache (delete key (entries self)) (max_entries self).

Definition clear (self : DbCache) : DbCache := mkDbCache ∅ (max_entries self).

Definition len (self : DbCache) : Z := Z.of_nat (size (entries self)).

Definition is_empty (self : DbCache) : bool := bool_decide (entries self = ∅).

End Methods.
End DbCache.

(** An array of 256 shards; the index is the first byte of the key. *)
Record ShardedDbCache := mkShardedDbCache { shards : list DbCache }.

#[export] Instance DbCache_inhabited : Inhabited DbCache := populate (DbCache.new 0).

Module ShardedDbCache.
Section Methods.
Context (keys : gmap bytes CachedValue -> list bytes).

Definition new (max_entries_per_shard : Z) : ShardedDbCache :=
  mkShardedDbCache (replicate (Z.to_nat NUM_SHARDS) (DbCache.new max_entries_per_shard)).

Definition with_defaults : ShardedDbCache := new (DEFAULT_MAX_ENTRIES / NUM_SHARDS).

Definition shard_index (key : bytes) : Z :=
  match key with [] => 0 | b :: _ => Z_of_byte b end.

Definition get (self : ShardedDbCache) (key : bytes) : option CachedValue :=
  DbCache.get (shards self !!! Z.to_nat (shard_index key)) key.

Definition on_shard (f : DbCache -> DbCache) (index : Z) (self : ShardedDbCache) : ShardedDbCache :=
  mkShardedDbCache (alter f (Z.to_nat index) (shards self)).

Definition insert (self : ShardedDbCache) (key : bytes) (value : CachedValue) : ShardedDbCache :=
  on_shard (fun shard => DbCache.insert keys shard key value) (shard_index key) self.

Definition insert_present (self : ShardedDbCache) (key value : bytes) : ShardedDbCache :=
  insert self key (Present value).
Definition insert_absent (self : ShardedDbCache) (key : bytes) : ShardedDbCache := insert self key Absent.

Definition invalidate (self : ShardedDbCache) (key : bytes) : ShardedDbCache :=
  on_shard (fun shard => DbCache.invalidate shard key) (shard_index key) self.

Definition clear (self : ShardedDbCache) : ShardedDbCache := mkShardedDbCache (DbCache.clear <$> shards self).

Definition len (self : ShardedDbCache) : Z := foldr (fun s n => DbCache.len s + n) 0 (shards self).

Definition is_empty (self : ShardedDbCache) : bool := forallb (fun s => DbCache.len s =? 0) (shards self).

(** The body of the inner loop of [prefetch_keys]. *)
Definition prefetch_one {E} (fetch_fn : bytes -> Result E (option bytes)) (shard_idx : Z)
    (self : ShardedDbCache) (key : bytes) : ShardedDbCache :=
  match DbCache.get (shards self !!! Z.to_nat shard_idx) key with
  | Some _ => self
  | None =>
      match fetch_fn key with
      | Ok (Some value) => on_shard (fun shard => DbCache.insert keys shard key (Present value)) shard_idx self
      | Ok None => on_shard (fun shard => DbCache.insert keys shard key Absent) shard_idx self
      | Err _ => self
      end
  end.

Definition prefetch_keys {E} (self : ShardedDbCache) (ks : list bytes)
    (fetch_fn : bytes -> Result E (option bytes)) : ShardedDbCache :=
  let shard_keys idx := filter (fun key => shard_index key = idx) ks in
  foldl (fun self idx => foldl (prefetch_one fetch_fn idx) self (shard_keys idx)) self
    (seqZ 0 NUM_SHARDS).

End Methods.
End ShardedDbCache.

(** ** Cache warming ([warming.rs]) *)

(** Lexicographic order of byte strings, as [Vec<u8>] compares. *)
Definition bytes_le (a b : bytes) : Prop := bytes_leb a b = true.
#[export] Instance bytes_le_dec : RelDecision bytes_le.
Proof. intros a b. unfold bytes_le. apply _. Defined.

(** [Vec::dedup]: consecutive repetitions. *)
Fixpoint dedup (l : list bytes) : list bytes :=
  match l with
  | a :: (b :: _) as r => if bool_decide (a = b) then dedup r else a :: dedup r
  | _ => l
  end.

Definition warm_cache {Tx : Type} (keys : gmap bytes CachedValue -> list bytes) (cache : ShardedDbCache)
    (get : bytes -> SdkResult (option bytes)) (txs : list Tx) (predict_keys : Tx -> list bytes)
    : ShardedDbCache :=
  let all_keys := dedup (merge_sort bytes_le (txs ≫= predict_keys)) in
  if bool_decide (all_keys = []) then cache
  else ShardedDbCache.prefetch_keys keys cache all_keys get.

(** The key patterns offered to predictors. *)
Module patterns.

Definition balance_key (token_account holder : AccountId) : bytes :=
  AccountId.as_bytes token_account ++ String.list_byte_of_string "balances" ++ AccountId.as_bytes holder.

Definition nonce_key (account : AccountId) : bytes :=
  AccountId.as_bytes account ++ String.list_byte_of_string "nonce".

Definition code_id_key (account : AccountId) : bytes :=
  AccountId.as_bytes account ++ String.list_byte_of_string "code_id".

Definition token_transfer_keys (token sender recipient : AccountId) : list bytes :=
  [balance_key token sender; balance_key token recipient; nonce_key sender].

End patterns.

(** ** [CachedStorage]

    Reads fill the cache: a read gives its result and the wrapper after it. *)
Record CachedStorage (S : Type) := mkCachedStorage { cs_storage : S; cs_cache : DbCache }.
Arguments mkCachedStorage {S} _ _.
Arguments cs_storage {S} _.
Arguments cs_cache {S} _.

Module CachedStorage.
Section Methods.
Context {S : Type} (kv_get : S -> bytes -> SdkResult (option bytes)).
Context (keys : gmap bytes CachedValue -> list bytes).

Definition new (storage : S) : CachedStorage S := mkCachedStorage storage DbCache.with_defaults.
Definition with_cache (storage : S) (cache : DbCache) : CachedStorage S := mkCachedStorage storage cache.
Definition inner (self : CachedStorage S) : S := cs_storage self.
Definition cache (self : CachedStorage S) : DbCache := cs_cache self.

Definition invalidate_keys (self : CachedStorage S) (ks : list bytes) : CachedStorage S :=
  mkCachedStorage (cs_storage self) (foldl DbCache.invalidate (cs_cache self) ks).

Definition get (self : CachedStorage S) (key : bytes) : SdkResult (option bytes) * CachedStorage S :=
  match DbCache.get (cs_cache self) key with
  | Some cached => (Ok (cached_result cached), self)
  | None =>
      match kv_get (cs_storage self) key with
      | Err e => (Err e, self)
      | Ok result =>
          (Ok result, mkCachedStorage (cs_storage self) (DbCache.insert keys (cs_cache self) key (cached_of result)))
      end
  end.

End Methods.
End CachedStorage.

(** ** The database ([commonware_storage::qmdb])

    A speculative batch is merkleized and then applied. The laws are the
    documented behaviour: a read after a batch gives the last write to the key,
    or what was there; the root of the database is then the root of the batch;
    pruning removes history only. *)
Definition last_write (updates : list (bytes * option bytes)) (k : bytes) : option (option bytes) :=
  last (filter (fun u => u.1 = k) updates).*2.

Class Qmdb (DB : Type) := {
  Merkleized : Type;
  db_get : DB -> bytes -> Result string (option bytes);
  db_root : DB -> bytes;
  db_sync : DB -> Result string unit;
  db_merkleize : DB -> list (bytes * option bytes) -> Result string Merkleized;
  merkleized_root : Merkleized -> bytes;
  db_apply_batch : DB -> Merkleized -> Result string unit * DB;
  db_prune : DB -> Result string unit * DB;
  db_get_apply : forall db updates m db' k,
    db_merkleize db updates = Ok m -> db_apply_batch db m = (Ok tt, db') ->
    db_get db' k = match last_write updates k with Some v => Ok v | None => db_get db k end;
  db_root_apply : forall db updates m db',
    db_merkleize db updates = Ok m -> db_apply_batch db m = (Ok tt, db') -> db_root db' = merkleized_root m;
  db_get_prune : forall db r db' k, db_prune db = (r, db') -> db_get db' k = db_get db k
}.

(** ** [qmdb_impl.rs] *)
Inductive StorageError :=
| QmdbError (why : string)
| KeyError (code : ErrorCode)
| ValueTooLarge (size max : Z)
| IoError (why : string)
| InvalidState (why : string)
| InvalidConfig (why : string).

Definition map_storage_error (err : StorageError) : ErrorCode :=
  match err with
  | KeyError code => code
  | ValueTooLarge _ _ => StorageTypes.ERR_VALUE_TOO_LARGE
  | InvalidState _ => StorageTypes.ERR_CONCURRENCY_ERROR
  | QmdbError _ => StorageTypes.ERR_ADB_ERROR
  | IoError _ => StorageTypes.ERR_STORAGE_IO
  | InvalidConfig _ => StorageTypes.ERR_STORAGE_IO
  end.

Definition map_err {E F A} (f : E -> F) (r : Result E A) : Result F A :=
  match r with Ok a => Ok a | Err e => Err (f e) end.

(** [try_into] on a slice of a length other than 32 fails. *)
Definition root_to_commit_hash (root : bytes) : Result StorageError CommitHash :=
  match decide (length root = 32%nat) with
  | left e => Ok (mkCommitHash (eq_rect _ (vec byte) (list_to_vec root) _ e))
  | right _ => Err (QmdbError "invalid root hash size")
  end.

Record PreparedBatch := mkPreparedBatch {
  updates : list (bytes * option bytes);
  keys_to_invalidate : list bytes;
  ops_count : Z; sets : Z; deletes : Z }.

Definition page_size : Z := 4096.

(** The configuration checks of [with_metrics]: cache pages and write buffer. *)
Definition check_config (cache_size write_buffer_size : Z) : Result StorageError (Z * Z) :=
  let cache_pages := cache_size / page_size in
  if cache_pages =? 0 then Err (InvalidConfig "cache_size must be at least one page")
  else if write_buffer_size =? 0 then Err (InvalidConfig "write_buffer_size must be non-zero")
  else Ok (cache_pages, write_buffer_size).

(** The runtime a synchronous read is called from. *)
Inductive RuntimeFlavor := MultiThread | CurrentThread | OtherFlavor.

(** [prune_signals] counts the signals the prune worker has not received. *)
Record QmdbStorage (DB : Type) := mkQmdbStorage {
  q_db : DB; q_cache : ShardedDbCache; prune_signals : Z }.
Arguments mkQmdbStorage {DB} _ _ _.
Arguments q_db {DB} _.
Arguments q_cache {DB} _.
Arguments prune_signals {DB} _.

Module QmdbStorage.
Section Methods.
Context {DB : Type} `{Qmdb DB}.
Context (keys : gmap bytes CachedValue -> list bytes).

(** The loop of [prepare_batch] from what was prepared so far. *)
Fixpoint prepare_loop (operations : list Operation) (b : PreparedBatch) : Result StorageError PreparedBatch :=
  match operations with
  | [] => Ok b
  | OperationSet key value :: operations =>
      if StorageTypes.MAX_VALUE_SIZE <? zlen value
      then Err (ValueTooLarge (zlen value) StorageTypes.MAX_VALUE_SIZE)
      else
        storage_key ← map_err KeyError (StorageTypes.create_storage_key key);
        prepare_loop operations
          (mkPreparedBatch (updates b ++ [(storage_key, Some value)]) (keys_to_invalidate b ++ [key])
             (ops_count b) (sets b + 1) (deletes b))
  | OperationRemove key :: operations =>
      storage_key ← map_err KeyError (StorageTypes.create_storage_key key);
      prepare_loop operations
        (mkPreparedBatch (updates b ++ [(storage_key, None)]) (keys_to_invalidate b ++ [key])
           (ops_count b) (sets b) (deletes b + 1))
  end.

Definition prepare_batch (operations : list Operation) : Result StorageError PreparedBatch :=
  if StorageTypes.MAX_BATCH_SIZE <? zlen operations then Err (KeyError StorageTypes.ERR_BATCH_TOO_LARGE)
  else prepare_loop operations (mkPreparedBatch [] [] (zlen operations) 0 0).

Definition commit_state (self : QmdbStorage DB) : Result StorageError CommitHash * QmdbStorage DB :=
  match db_sync (q_db self) with
  | Err e => (Err (QmdbError e), self)
  | Ok _ =>
      match root_to_commit_hash (db_root (q_db self)) with
      | Err e => (Err e, self)
      | Ok hash => (Ok hash, mkQmdbStorage (q_db self) (q_cache self) (prune_signals self + 1))
      end
  end.

Definition preview_batch_root (self : QmdbStorage DB) (operations : list Operation)
    : Result StorageError CommitHash :=
  prepared ← prepare_batch operations;
  if bool_decide (updates prepared = []) then root_to_commit_hash (db_root (q_db self))
  else
    merkleized ← map_err QmdbError (db_merkleize (q_db self) (updates prepared));
    root_to_commit_hash (merkleized_root merkleized).

Definition apply_batch (self : QmdbStorage DB) (operations : list Operation)
    : Result StorageError unit * QmdbStorage DB :=
  match prepare_batch operations with
  | Err e => (Err e, self)
  | Ok prepared =>
      if bool_decide (updates prepared = []) then (Ok tt, self)
      else
        match db_merkleize (q_db self) (updates prepared) with
        | Err e => (Err (QmdbError e), self)
        | Ok changeset =>
            match db_apply_batch (q_db self) changeset with
            | (Err e, db) => (Err (QmdbError e), mkQmdbStorage db (q_cache self) (prune_signals self))
            | (Ok _, db) =>
                (Ok tt, mkQmdbStorage db
                   (foldl ShardedDbCache.invalidate (q_cache self) (keys_to_invalidate prepared))
                   (prune_signals self))
            end
        end
  end.

(** [decode_storage_value] *)
Definition decode_storage_value (result : Result string (option bytes)) : SdkResult (option bytes) :=
  match result with Ok value => Ok value | Err _ => Err StorageTypes.ERR_ADB_ERROR end.

Definition get_async_uncached (self : QmdbStorage DB) (key : bytes) : SdkResult (option bytes) :=
  storage_key ← StorageTypes.create_storage_key key;
  decode_storage_value (db_get (q_db self) storage_key).

(** Populate the cache with a result. *)
Definition populate (self : QmdbStorage DB) (key : bytes) (result : option bytes) : QmdbStorage DB :=
  mkQmdbStorage (q_db self) (ShardedDbCache.insert keys (q_cache self) key (cached_of result)) (prune_signals self).

(** [get_async] does not populate the cache. *)
Definition get_async (self : QmdbStorage DB) (key : bytes) : SdkResult (option bytes) :=
  match ShardedDbCache.get (q_cache self) key with
  | Some cached => Ok (cached_result cached)
  | None => get_async_uncached self key
  end.

(** [ReadonlyKV::get], called from runtime [rt]. *)
Definition get (rt : option RuntimeFlavor) (self : QmdbStorage DB) (key : bytes)
    : SdkResult (option bytes) * QmdbStorage DB :=
  match ShardedDbCache.get (q_cache self) key with
  | Some cached => (Ok (cached_result cached), self)
  | None =>
      match rt with
      | Some CurrentThread => (Err StorageTypes.ERR_RUNTIME_ERROR, self)
      | _ =>
          match get_async_uncached self key with
          | Err e => (Err e, self)
          | Ok result => (Ok result, populate self key result)
          end
      end
  end.

(** The first loop of [get_many_async]: what the cache answers, and the misses
    with their positions. *)
Fixpoint split_misses (self : QmdbStorage DB) (idx : nat) (ks : list bytes)
    : SdkResult (list (option bytes) * list (nat * bytes * bytes)) :=
  match ks with
  | [] => Ok ([], [])
  | key :: ks =>
      match ShardedDbCache.get (q_cache self) key with
      | Some cached =>
          '(results, misses) ← split_misses self (S idx) ks; Ok (cached_result cached :: results, misses)
      | None =>
          storage_key ← StorageTypes.create_storage_key key;
          '(results, misses) ← split_misses self (S idx) ks;
          Ok (None :: results, (idx, key, storage_key) :: misses)
      end
  end.

Fixpoint get_many_async_uncached (self : QmdbStorage DB) (misses : list (nat * bytes * bytes))
    : SdkResult (list (option bytes)) :=
  match misses with
  | [] => Ok []
  | (_, _, storage_key) :: misses =>
      v ← decode_storage_value (db_get (q_db self) storage_key);
      vs ← get_many_async_uncached self misses;
      Ok (v :: vs)
  end.

(** The last loop: results in their places, and the cache filled. *)
Definition fill_misses (misses : list (nat * bytes * bytes)) (values : list (option bytes))
    (results : list (option bytes)) (self : QmdbStorage DB) : list (option bytes) * QmdbStorage DB :=
  foldl (fun '(results, self) '((idx, key, _), value) => (<[idx := value]> results, populate self key value))
    (results, self) (zip misses values).

Definition get_many_async (self : QmdbStorage DB) (ks : list bytes)
    : SdkResult (list (option bytes)) * QmdbStorage DB :=
  if StorageTypes.MAX_BATCH_SIZE <? zlen ks then (Err StorageTypes.ERR_BATCH_TOO_LARGE, self)
  else if bool_decide (ks = []) then (Ok [], self)
  else
    match split_misses self 0 ks with
    | Err e => (Err e, self)
    | Ok (results, misses) =>
        if bool_decide (misses = []) then (Ok results, self)
        else
          match get_many_async_uncached self misses with
          | Err e => (Err e, self)
          | Ok miss_values =>
              let '(results, self) := fill_misses misses miss_values results self in
              (Ok results, self)
          end
    end.

Definition get_many (rt : option RuntimeFlavor) (self : QmdbStorage DB) (ks : list bytes)
    : SdkResult (list (option bytes)) * QmdbStorage DB :=
  match rt with
  | Some CurrentThread => (Err StorageTypes.ERR_RUNTIME_ERROR, self)
  | _ => get_many_async self ks
  end.

(** One cycle of the prune worker, once it was signalled: [locked] says that
    it got the write lock within its retries. *)
Definition prune_cycle (locked : bool) (self : QmdbStorage DB) : QmdbStorage DB :=
  if prune_signals self =? 0 then self
  else if locked then mkQmdbStorage (db_prune (q_db self)).2 (q_cache self) 0
  else mkQmdbStorage (q_db self) (q_cache self) 0.

(** The [Storage] trait. *)
Definition commit (self : QmdbStorage DB) : SdkResult CommitHash * QmdbStorage DB :=
  let '(r, self) := commit_state self in (map_err map_storage_error r, self).

Definition batch (self : QmdbStorage DB) (operations : list Operation) : SdkResult unit * QmdbStorage DB :=
  let '(r, self) := apply_batch self operations in (map_err map_storage_error r, self).

End Methods.
End QmdbStorage.

(** Reads through the trait, from a multi-threaded runtime; the cache a read
    leaves does not change later results. *)
#[export] Instance qmdb_storage {DB} `{Qmdb DB} : Storage (QmdbStorage DB) := {|
  storage_get self key := (QmdbStorage.get (fun m => (map_to_list m).*1) (Some MultiThread) self key).1;
  storage_commit := QmdbStorage.commit;
  storage_batch := QmdbStorage.batch
|}.
