(* ===== verification/StorageTheorems.v ===== *)
(** * The storage backends, verified

    Facts about keys, caches and the database-backed storage, then the
    theorems. *)

From S2P Require Import Prelude Core ExecState ExecStateFacts Commit StorageBackend.

(** ** Facts about the storage backends

    Fixed-size keys are injective, the caches only ever answer what was put
    into them, and the database-backed storage reads and writes like a finite
    map within its limits. *)

(** ** Fixed-size keys *)

Lemma create_storage_key_ok k : zlen k <= StorageTypes.MAX_KEY_SIZE ->
  exists sk, StorageTypes.create_storage_key k = Ok sk /\ zlen sk = StorageTypes.STORAGE_KEY_SIZE.
Proof.
  intros Hk. unfold StorageTypes.create_storage_key. destruct (Z.ltb_spec StorageTypes.MAX_KEY_SIZE (zlen k)); [lia|].
  eexists. split; [done|]. unfold StorageTypes.MAX_KEY_SIZE, MAX_STORAGE_KEY_SIZE, zlen in *.
  rewrite !length_app, length_le_bytes, length_replicate. cbn -[Z.to_nat]. unfold StorageTypes.STORAGE_KEY_SIZE, StorageTypes.KEY_LENGTH_PREFIX_SIZE. lia.
Qed.

Lemma create_storage_key_err k : StorageTypes.MAX_KEY_SIZE < zlen k ->
  StorageTypes.create_storage_key k = Err StorageTypes.ERR_KEY_TOO_LARGE.
Proof. intros Hk. unfold StorageTypes.create_storage_key. by destruct (Z.ltb_spec StorageTypes.MAX_KEY_SIZE (zlen k)); [|lia]. Qed.

Lemma create_storage_key_inj k k' sk :
  StorageTypes.create_storage_key k = Ok sk -> StorageTypes.create_storage_key k' = Ok sk -> k = k'.
Proof.
  unfold StorageTypes.create_storage_key, StorageTypes.MAX_KEY_SIZE, MAX_STORAGE_KEY_SIZE.
  destruct (Z.ltb_spec 254 (zlen k)), (Z.ltb_spec 254 (zlen k')); try done.
  intros E' E. apply (inj Ok) in E'. apply (inj Ok) in E. rewrite <-E' in E. clear E'.
  apply app_inj_1 in E as [El E]; [|by rewrite !length_le_bytes].
  assert (Hlen : length k' = length k).
  { apply (f_equal le_value) in El. rewrite !le_value_bytes in El. unfold wrapping, zlen in *.
    change (256 ^ Z.of_nat 2) with (2 ^ 16) in El. rewrite !Z.mod_mod, !Z.mod_small in El; lia. }
  by apply app_inj_1 in E as [-> _].
Qed.

(** ** Caches *)

Lemma evict_subseteq keys c : DbCache.evict keys c ⊆ entries c.
Proof.
  unfold DbCache.evict. case_match; [|done].
  generalize (take (Z.to_nat (max_entries c / 2)) (keys (entries c))). intros l.
  enough (Hl : forall m, foldl (fun es k => delete k es) m l ⊆ m) by apply Hl.
  induction l as [|k l IH]; intros m; cbn; [done|]. etrans; [apply IH|]. apply delete_subseteq.
Qed.

Lemma db_cache_insert keys c k v k' v' :
  DbCache.get (DbCache.insert keys c k v) k' = Some v' -> (k' = k /\ v' = v) \/ DbCache.get c k' = Some v'.
Proof.
  unfold DbCache.get, DbCache.insert. cbn. intros [[-> ->]|[? Hl]]%lookup_insert_Some; [by left|right].
  eapply lookup_weaken; [done | apply evict_subseteq].
Qed.

Lemma db_cache_insert_eq keys c k v : DbCache.get (DbCache.insert keys c k v) k = Some v.
Proof. apply lookup_insert_eq. Qed.

Lemma size_delete_list {A} (l : list bytes) : forall m : gmap bytes A,
  NoDup l -> (forall x, x ∈ l -> is_Some (m !! x)) ->
  (size (foldl (fun es k => delete k es) m l) + length l = size m)%nat.
Proof.
  induction l as [|x l IH]; intros m Hl Hin; cbn [foldl length]; [lia|].
  apply NoDup_cons in Hl as [Hx Hl]. assert (Hm : is_Some (m !! x)) by (apply Hin; left).
  specialize (IH (delete x m) Hl). rewrite map_size_delete_Some in IH by done.
  assert (size m ≠ 0%nat) by (destruct Hm as [v Hv]; intros ->%map_size_empty_inv; by rewrite lookup_empty in Hv).
  rewrite Nat.add_succ_r, IH; [lia|]. intros y Hy. rewrite lookup_delete_ne by (by intros ->).
  apply Hin. by right.
Qed.

(** Eviction keeps a cache within its capacity, whatever order the keys of the
    hash map come in. *)
Lemma db_cache_bounded keys c k v : (forall m, keys m ≡ₚ (map_to_list m).*1) ->
  2 <= max_entries c -> DbCache.len c <= max_entries c -> DbCache.len (DbCache.insert keys c k v) <= max_entries c.
Proof.
  intros Hkeys Hmax Hlen. unfold DbCache.len, DbCache.insert in *. cbn [entries].
  enough (Hev : Z.of_nat (size (DbCache.evict keys c)) + 1 <= max_entries c).
  { rewrite map_size_insert. case_match; cbn; lia. }
  unfold DbCache.evict. destruct (Z.leb_spec (max_entries c) (Z.of_nat (size (entries c)))) as [Hfull|]; [|lia].
  set (l := keys (entries c)) in *. assert (Hl : l ≡ₚ (map_to_list (entries c)).*1) by apply Hkeys.
  assert (Hlong : length l = size (entries c)) by (by rewrite Hl, length_fmap, length_map_to_list).
  pose proof (size_delete_list (take (Z.to_nat (max_entries c / 2)) l) (entries c)) as Hsize.
  rewrite length_take, Hlong in Hsize.
  assert (1 <= max_entries c / 2 <= max_entries c) by (split; [apply Z.div_le_lower_bound | apply Z.div_le_upper_bound]; lia).
  specialize (Hsize ltac:(eapply sublist_NoDup; [|apply sublist_take]; rewrite Hl; apply NoDup_fst_map_to_list)).
  rewrite <-Hsize in Hlen; [lia|].
  intros x Hx%subseteq_take. rewrite Hl, list_elem_of_fmap in Hx.
  destruct Hx as ([y w] & -> & Hin%elem_of_map_to_list). by eexists.
Qed.

(** *** Shards *)

Lemma sharded_insert keys c k v k' v' :
  ShardedDbCache.get (ShardedDbCache.insert keys c k v) k' = Some v' ->
  (k' = k /\ v' = v) \/ ShardedDbCache.get c k' = Some v'.
Proof.
  unfold ShardedDbCache.get, ShardedDbCache.insert, ShardedDbCache.on_shard. cbn [shards].
  rewrite !list_lookup_total_alt. set (i := Z.to_nat (ShardedDbCache.shard_index k)).
  set (j := Z.to_nat (ShardedDbCache.shard_index k')). destruct (decide (i = j)) as [<-|Hne].
  - rewrite list_lookup_alter_eq. destruct (shards c !! i); cbn; [apply db_cache_insert | by right].
  - rewrite list_lookup_alter_ne by done. by right.
Qed.

Lemma sharded_invalidate c k k' v' :
  ShardedDbCache.get (ShardedDbCache.invalidate c k) k' = Some v' ->
  (k' ≠ k) /\ ShardedDbCache.get c k' = Some v'.
Proof.
  unfold ShardedDbCache.get, ShardedDbCache.invalidate, ShardedDbCache.on_shard. cbn [shards].
  rewrite !list_lookup_total_alt. set (i := Z.to_nat (ShardedDbCache.shard_index k)).
  set (j := Z.to_nat (ShardedDbCache.shard_index k')). destruct (decide (i = j)) as [E|Hne].
  - rewrite E, list_lookup_alter_eq. destruct (shards c !! j); cbn; [|done].
    unfold DbCache.get, DbCache.invalidate. cbn. by intros [? ?]%lookup_delete_Some.
  - rewrite list_lookup_alter_ne by done. split; [|done]. by intros ->.
Qed.

Lemma sharded_invalidate_list ks : forall c k v,
  ShardedDbCache.get (foldl ShardedDbCache.invalidate c ks) k = Some v ->
  (k ∉ ks) /\ ShardedDbCache.get c k = Some v.
Proof.
  induction ks as [|k0 ks IH]; intros c k v Hg; cbn in *; [split; [apply not_elem_of_nil | done]|].
  apply IH in Hg as [Hn [? ?]%sharded_invalidate]. rewrite not_elem_of_cons. done.
Qed.

Lemma shard_index_lt k : (Z.to_nat (ShardedDbCache.shard_index k) < 256)%nat.
Proof.
  unfold ShardedDbCache.shard_index. destruct k as [|b k]; [lia|]. pose proof (Z_of_byte_range b). lia.
Qed.

Lemma sharded_insert_eq keys c k v : length (shards c) = 256%nat ->
  ShardedDbCache.get (ShardedDbCache.insert keys c k v) k = Some v.
Proof.
  intros Hlen. unfold ShardedDbCache.get, ShardedDbCache.insert, ShardedDbCache.on_shard. cbn [shards].
  rewrite list_lookup_total_alt, list_lookup_alter_eq. pose proof (shard_index_lt k) as Hlt. rewrite <-Hlen in Hlt.
  apply lookup_lt_is_Some in Hlt as [shard ->]. cbn. apply db_cache_insert_eq.
Qed.

Lemma sharded_invalidate_length ks : forall c, length (shards (foldl ShardedDbCache.invalidate c ks)) = length (shards c).
Proof. induction ks as [|k ks IH]; intros c; cbn; [done|]. rewrite IH. cbn. apply length_alter. Qed.

(** ** Cached reads

    A cache is faithful to [read] when it only answers what [read] would. *)
Definition faithful (read : bytes -> option (option bytes)) (get : bytes -> option CachedValue) : Prop :=
  forall k v, get k = Some v -> read k = Some (cached_result v).

Lemma cached_of_result r : cached_result (cached_of r) = r.
Proof. by destruct r. Qed.

Lemma prefetch_faithful {E} keys (fetch : bytes -> Result E (option bytes)) (read : bytes -> option (option bytes)) ks :
  (forall k r, fetch k = Ok r -> read k = Some r) ->
  forall c, faithful read (ShardedDbCache.get c) ->
  faithful read (ShardedDbCache.get (ShardedDbCache.prefetch_keys keys c ks fetch)).
Proof.
  intros Hfetch. unfold ShardedDbCache.prefetch_keys.
  assert (Hone : forall idx (l : list bytes) c, Forall (fun k => ShardedDbCache.shard_index k = idx) l ->
    faithful read (ShardedDbCache.get c) ->
    faithful read (ShardedDbCache.get (foldl (ShardedDbCache.prefetch_one keys fetch idx) c l))).
  { intros idx l. induction l as [|k l IH]; intros c Hl Hc; cbn; [done|].
    apply Forall_cons in Hl as [Hk Hl]. apply IH; [done|]. unfold ShardedDbCache.prefetch_one.
    case_match; [done|]. rewrite <-Hk.
    destruct (fetch k) as [[value|]|e] eqn:Ef; [..|done]; apply Hfetch in Ef.
    - intros k' v' [[-> ->]|Hg]%sharded_insert; [done | by apply Hc].
    - intros k' v' [[-> ->]|Hg]%sharded_insert; [done | by apply Hc]. }
  induction (seqZ 0 NUM_SHARDS) as [|idx idxs IH]; intros c Hc; cbn [foldl]; [done|].
  apply IH, Hone; [|done]. apply Forall_forall. by intros k [? _]%list_elem_of_filter.
Qed.

(** ** Batches *)

Definition op_target (op : Operation) : bytes :=
  match op with OperationSet key _ | OperationRemove key => key end.

Definition op_write (op : Operation) : option bytes :=
  match op with OperationSet _ value => Some value | OperationRemove _ => None end.

(** What is wrong with an operation, in the order of the checks. *)
Definition op_error (op : Operation) : option StorageError :=
  let too_large := if StorageTypes.MAX_KEY_SIZE <? zlen (op_target op)
                   then Some (KeyError StorageTypes.ERR_KEY_TOO_LARGE) else None in
  match op with
  | OperationSet _ value =>
      if StorageTypes.MAX_VALUE_SIZE <? zlen value
      then Some (ValueTooLarge (zlen value) StorageTypes.MAX_VALUE_SIZE) else too_large
  | OperationRemove _ => too_large
  end.

Fixpoint ops_error (ops : list Operation) : option StorageError :=
  match ops with
  | [] => None
  | op :: ops => match op_error op with Some e => Some e | None => ops_error ops end
  end.

Definition batch_error (ops : list Operation) : option StorageError :=
  if StorageTypes.MAX_BATCH_SIZE <? zlen ops then Some (KeyError StorageTypes.ERR_BATCH_TOO_LARGE)
  else ops_error ops.

(** Where a key is stored. *)
Definition storage_key_of (k : bytes) : bytes :=
  match StorageTypes.create_storage_key k with Ok sk => sk | Err _ => [] end.

Lemma op_error_None op : op_error op = None ->
  zlen (op_target op) <= StorageTypes.MAX_KEY_SIZE /\
  (forall v, op_write op = Some v -> zlen v <= StorageTypes.MAX_VALUE_SIZE).
Proof.
  unfold op_error. destruct op as [k v|k]; cbn; repeat case_match; try done; intros _; zbool;
    (split; [lia|]); intros ? [= <-]; lia.
Qed.

Definition op_update (op : Operation) : bytes * option bytes := (storage_key_of (op_target op), op_write op).

Lemma op_update_key op sk : StorageTypes.create_storage_key (op_target op) = Ok sk ->
  op_update op = (sk, op_write op).
Proof. intros Hsk. unfold op_update, storage_key_of. by rewrite Hsk. Qed.

Lemma prepare_loop_spec ops : forall b,
  match ops_error ops with
  | Some e => QmdbStorage.prepare_loop ops b = Err e
  | None => exists b', QmdbStorage.prepare_loop ops b = Ok b' /\
      updates b' = updates b ++ (op_update <$> ops) /\
      keys_to_invalidate b' = keys_to_invalidate b ++ (op_target <$> ops)
  end.
Proof.
  induction ops as [|op ops IH]; intros b; cbn [QmdbStorage.prepare_loop ops_error].
  { exists b. by rewrite !app_nil_r. }
  destruct (op_error op) as [e|] eqn:Eop.
  - unfold op_error in Eop. destruct op as [k v|k]; cbn in Eop; repeat case_match; try done;
      injection Eop as <-; try done; zbool; by rewrite create_storage_key_err.
  - pose proof (op_error_None _ Eop) as [Hk Hv]. destruct (create_storage_key_ok _ Hk) as (sk & Hsk & _).
    destruct op as [k v|k]; cbn [op_target op_write] in *.
    + destruct (Z.ltb_spec StorageTypes.MAX_VALUE_SIZE (zlen v)); [specialize (Hv v eq_refl); lia|].
      rewrite Hsk. cbn [mbind Result_bind map_err]. set (b1 := mkPreparedBatch _ _ _ _ _). specialize (IH b1).
      destruct (ops_error ops); [done|]. destruct IH as (b' & Hb & Hu & Hi). exists b'.
      split; [done|]. rewrite Hu, Hi, !fmap_cons, (op_update_key (OperationSet k v) _ Hsk). unfold b1. cbn [updates keys_to_invalidate].
      by rewrite <-!app_assoc.
    + rewrite Hsk. cbn [mbind Result_bind map_err]. set (b1 := mkPreparedBatch _ _ _ _ _). specialize (IH b1).
      destruct (ops_error ops); [done|]. destruct IH as (b' & Hb & Hu & Hi). exists b'.
      split; [done|]. rewrite Hu, Hi, !fmap_cons, (op_update_key (OperationRemove k) _ Hsk). unfold b1. cbn [updates keys_to_invalidate].
      by rewrite <-!app_assoc.
Qed.

Lemma prepare_batch_spec ops :
  match batch_error ops with
  | Some e => QmdbStorage.prepare_batch ops = Err e
  | None => exists b, QmdbStorage.prepare_batch ops = Ok b /\
      updates b = op_update <$> ops /\ keys_to_invalidate b = op_target <$> ops
  end.
Proof.
  unfold batch_error, QmdbStorage.prepare_batch. destruct (_ <? zlen ops); [done|].
  apply (prepare_loop_spec ops (mkPreparedBatch [] [] (zlen ops) 0 0)).
Qed.

Lemma batch_error_None ops : batch_error ops = None -> Forall (fun op => op_error op = None) ops.
Proof.
  unfold batch_error. case_match; [done|]. clear. induction ops as [|op ops IH]; cbn; [by constructor|].
  destruct (op_error op) eqn:E; [done|]. intros Hr. constructor; auto.
Qed.

(** The last write to a key of a batch is what the batch leaves there. *)
Lemma batch_lookup ops : forall (m : gmap bytes bytes) k,
  Forall (fun op => op_error op = None) ops -> zlen k <= StorageTypes.MAX_KEY_SIZE ->
  foldl MockStorage.batch_one m ops !! k =
  match last_write (op_update <$> ops) (storage_key_of k) with Some v => v | None => m !! k end.
Proof.
  induction ops as [|op ops IH] using rev_ind; intros m k Hok Hk; [done|].
  apply Forall_app in Hok as [Hok [Hop _]%Forall_cons]. apply op_error_None in Hop as [Hkey _].
  rewrite foldl_app. cbn [foldl]. specialize (IH m k Hok Hk). unfold last_write in *.
  rewrite fmap_app, filter_app, fmap_app. cbn [fmap list_fmap]. rewrite filter_cons, filter_nil.
  destruct (create_storage_key_ok _ Hkey) as (sk & Hsk & _). destruct (create_storage_key_ok _ Hk) as (sk' & Hsk' & _).
  rewrite (op_update_key op _ Hsk). cbn [fst].
  assert (storage_key_of k = sk') as Ek by (unfold storage_key_of; by rewrite Hsk'). rewrite Ek in *.
  case_decide as E.
  - rewrite E in Hsk. pose proof (create_storage_key_inj _ _ _ Hsk Hsk') as <-. rewrite fmap_cons, fmap_nil, last_snoc.
    destruct op; cbn; [apply lookup_insert_eq | apply lookup_delete_eq].
  - rewrite fmap_nil, app_nil_r, <-IH.
    assert (op_target op ≠ k) by congruence.
    destruct op; cbn; [by apply lookup_insert_ne | by apply lookup_delete_ne].
Qed.

Lemma batch_untouched ops : forall (m : gmap bytes bytes) k, k ∉ op_target <$> ops ->
  foldl MockStorage.batch_one m ops !! k = m !! k.
Proof.
  induction ops as [|op ops IH]; intros m k Hk; [done|].
  rewrite fmap_cons, not_elem_of_cons in Hk. destruct Hk as [Hk Hks]. cbn [foldl]. rewrite IH by done.
  destruct op; cbn; [by apply lookup_insert_ne | by apply lookup_delete_ne].
Qed.

(** ** The storage as a finite map

    When the database does not fail, the operations of [QmdbStorage] refine a
    finite map with the limits on keys, values and batches. *)
Inductive StorageOp :=
| SGet (key : bytes)
| SGetMany (ks : list bytes)
| SBatch (operations : list Operation)
| SCommit
| SPrune (locked : bool).

Inductive StorageOut :=
| SOutGet (r : SdkResult (option bytes))
| SOutMany (r : SdkResult (list (option bytes)))
| SOutBatch (r : SdkResult unit)
| SOutUnit.

Definition map_get (m : gmap bytes bytes) (key : bytes) : SdkResult (option bytes) :=
  if StorageTypes.MAX_KEY_SIZE <? zlen key then Err StorageTypes.ERR_KEY_TOO_LARGE else Ok (m !! key).

Definition map_get_many (m : gmap bytes bytes) (ks : list bytes) : SdkResult (list (option bytes)) :=
  if StorageTypes.MAX_BATCH_SIZE <? zlen ks then Err StorageTypes.ERR_BATCH_TOO_LARGE
  else if bool_decide (Forall (fun k => zlen k <= StorageTypes.MAX_KEY_SIZE) ks)
  then Ok ((fun k => m !! k) <$> ks) else Err StorageTypes.ERR_KEY_TOO_LARGE.

Definition map_step (op : StorageOp) (m : gmap bytes bytes) : StorageOut * gmap bytes bytes :=
  match op with
  | SGet key => (SOutGet (map_get m key), m)
  | SGetMany ks => (SOutMany (map_get_many m ks), m)
  | SBatch ops =>
      match batch_error ops with
      | Some e => (SOutBatch (Err (map_storage_error e)), m)
      | None => (SOutBatch (Ok tt), foldl MockStorage.batch_one m ops)
      end
  | SCommit | SPrune _ => (SOutUnit, m)
  end.

Fixpoint map_run (ops : list StorageOp) (m : gmap bytes bytes) : list StorageOut * gmap bytes bytes :=
  match ops with
  | [] => ([], m)
  | op :: ops =>
      let '(out, m) := map_step op m in
      let '(outs, m) := map_run ops m in
      (out :: outs, m)
  end.

Section Refinement.
Context {DB : Type} `{Qmdb DB} (keys : gmap bytes CachedValue -> list bytes).

Definition storage_step (op : StorageOp) (s : QmdbStorage DB) : StorageOut * QmdbStorage DB :=
  match op with
  | SGet key => let '(r, s) := QmdbStorage.get keys (Some MultiThread) s key in (SOutGet r, s)
  | SGetMany ks => let '(r, s) := QmdbStorage.get_many keys (Some MultiThread) s ks in (SOutMany r, s)
  | SBatch ops => let '(r, s) := QmdbStorage.batch s ops in (SOutBatch r, s)
  | SCommit => (SOutUnit, (QmdbStorage.commit s).2)
  | SPrune locked => (SOutUnit, QmdbStorage.prune_cycle locked s)
  end.

(** The database holds the map, and the cache agrees with it. *)
Record holds_map (s : QmdbStorage DB) (m : gmap bytes bytes) : Prop := {
  hm_db : forall k, zlen k <= StorageTypes.MAX_KEY_SIZE -> db_get (q_db s) (storage_key_of k) = Ok (m !! k);
  hm_cache : forall k v, ShardedDbCache.get (q_cache s) k = Some v ->
               zlen k <= StorageTypes.MAX_KEY_SIZE /\ m !! k = cached_result v }.

Lemma uncached_read s m key : holds_map s m -> QmdbStorage.get_async_uncached s key = map_get m key.
Proof.
  intros []. unfold QmdbStorage.get_async_uncached, map_get.
  destruct (Z.ltb_spec StorageTypes.MAX_KEY_SIZE (zlen key)) as [Hk|Hk]; [by rewrite create_storage_key_err|].
  destruct (create_storage_key_ok key Hk) as (sk & Hsk & _). specialize (hm_db0 key Hk).
  unfold storage_key_of in hm_db0. rewrite Hsk in hm_db0 |- *. cbn. by rewrite hm_db0.
Qed.

Lemma populate_holds s m key r : holds_map s m -> map_get m key = Ok r ->
  holds_map (QmdbStorage.populate keys s key r) m.
Proof.
  intros [] Hr. unfold map_get in Hr. destruct (Z.ltb_spec StorageTypes.MAX_KEY_SIZE (zlen key)); [done|].
  injection Hr as <-. split; cbn; [done|]. intros k v [[-> ->]|Hg]%sharded_insert; [|by apply hm_cache0].
  by rewrite cached_of_result.
Qed.

(** A read gives what the map holds, from the cache or from the database. *)
Lemma get_holds s m key : holds_map s m ->
  let '(r, s') := QmdbStorage.get keys (Some MultiThread) s key in r = map_get m key /\ holds_map s' m.
Proof.
  intros Hm. unfold QmdbStorage.get. destruct (ShardedDbCache.get (q_cache s) key) as [v|] eqn:Ec.
  - split; [|done]. apply (hm_cache _ _ Hm) in Ec as [Hk Hv]. unfold map_get.
    destruct (Z.ltb_spec StorageTypes.MAX_KEY_SIZE (zlen key)); [lia|]. by rewrite Hv.
  - rewrite (uncached_read s m key Hm). destruct (map_get m key) as [r|] eqn:Er; [|done].
    split; [done|]. by apply populate_holds.
Qed.

(** *** Many keys at once *)

Lemma split_misses_ok s m ks : holds_map s m -> forall idx,
  Forall (fun k => zlen k <= StorageTypes.MAX_KEY_SIZE) ks ->
  exists results misses, QmdbStorage.split_misses s idx ks = Ok (results, misses) /\
    length results = length ks /\
    QmdbStorage.get_many_async_uncached s misses = Ok ((fun miss => m !! miss.1.2) <$> misses) /\
    forall pre s0, length pre = idx -> holds_map s0 m ->
      exists s', QmdbStorage.fill_misses keys misses ((fun miss => m !! miss.1.2) <$> misses) (pre ++ results) s0
                 = (pre ++ ((fun k => m !! k) <$> ks), s') /\ holds_map s' m.
Proof.
  intros Hm. induction ks as [|k ks IH]; intros idx Hks.
  { exists [], []. split_and!; [done..|]. intros pre s0 _ Hs0. exists s0. done. }
  apply Forall_cons in Hks as [Hk Hks]. destruct (IH (S idx) Hks) as (results & misses & Hsp & Hlen & Hmany & Hfill).
  cbn [QmdbStorage.split_misses]. destruct (ShardedDbCache.get (q_cache s) k) as [v|] eqn:Ec.
  - rewrite Hsp. exists (cached_result v :: results), misses. split_and!; [done | cbn; lia | done|].
    intros pre s0 Hpre Hs0. destruct (Hfill (pre ++ [cached_result v]) s0) as (s' & Hf & Hs'); [|done|].
    { rewrite length_app. cbn. lia. }
    exists s'. split; [|done]. rewrite <-!app_assoc in Hf. rewrite fmap_cons.
    apply (hm_cache _ _ Hm) in Ec as [_ ->]. done.
  - destruct (create_storage_key_ok k Hk) as (sk & Hsk & _). rewrite Hsk. cbn [mbind Result_bind]. rewrite Hsp.
    exists (None :: results), ((idx, k, sk) :: misses). cbn [mbind Result_bind].
    pose proof (hm_db _ _ Hm k Hk) as Hdb. unfold storage_key_of in Hdb. rewrite Hsk in Hdb.
    split_and!; [done | cbn; lia | |].
    + cbn [QmdbStorage.get_many_async_uncached]. rewrite Hdb. cbn. by rewrite Hmany.
    + intros pre s0 Hpre Hs0. unfold QmdbStorage.fill_misses in *. rewrite fmap_cons. cbn [zip foldl fst snd].
      rewrite insert_app_r_alt by lia. replace (idx - length pre)%nat with 0%nat by lia. cbn [insert list_insert].
      destruct (Hfill (pre ++ [m !! k]) (QmdbStorage.populate keys s0 k (m !! k))) as (s' & Hf & Hs').
      * rewrite length_app. cbn. lia.
      * apply populate_holds; [done|]. unfold map_get. by destruct (Z.ltb_spec StorageTypes.MAX_KEY_SIZE (zlen k)); [lia|].
      * exists s'. split; [|done]. rewrite <-!app_assoc in Hf. by rewrite fmap_cons.
Qed.

Lemma split_misses_err s m ks : holds_map s m -> forall idx,
  ~ Forall (fun k => zlen k <= StorageTypes.MAX_KEY_SIZE) ks ->
  QmdbStorage.split_misses s idx ks = Err StorageTypes.ERR_KEY_TOO_LARGE.
Proof.
  intros Hm. induction ks as [|k ks IH]; intros idx Hks; [by destruct Hks|].
  cbn [QmdbStorage.split_misses]. destruct (decide (zlen k <= StorageTypes.MAX_KEY_SIZE)) as [Hk|Hk].
  - assert (Hn : ~ Forall (fun k => zlen k <= StorageTypes.MAX_KEY_SIZE) ks) by (intros ?; apply Hks; by constructor).
    rewrite (IH (S idx) Hn). destruct (ShardedDbCache.get _ _); [done|].
    destruct (create_storage_key_ok k Hk) as (sk & -> & _). done.
  - destruct (ShardedDbCache.get (q_cache s) k) eqn:Ec; [apply (hm_cache _ _ Hm) in Ec as [? _]; lia|].
    rewrite create_storage_key_err by lia. done.
Qed.

Lemma get_many_holds s m ks : holds_map s m ->
  let '(r, s') := QmdbStorage.get_many keys (Some MultiThread) s ks in r = map_get_many m ks /\ holds_map s' m.
Proof.
  intros Hm. unfold QmdbStorage.get_many, QmdbStorage.get_many_async, map_get_many.
  destruct (StorageTypes.MAX_BATCH_SIZE <? zlen ks); [done|].
  case_bool_decide as Enil; [by subst|].
  case_bool_decide as Hks; [|by rewrite (split_misses_err s m)].
  destruct (split_misses_ok s m ks Hm 0 Hks) as (results & misses & -> & _ & Hmany & Hfill).
  destruct (Hfill [] s eq_refl Hm) as (s' & Hf & Hs'). cbn [app] in Hf.
  case_bool_decide as Em.
  - subst misses. injection Hf as -> ->. done.
  - rewrite Hmany, Hf. done.
Qed.

(** *** Writing *)
Lemma batch_shards s ops : length (shards (q_cache (QmdbStorage.batch s ops).2)) = length (shards (q_cache s)).
Proof.
  unfold QmdbStorage.batch, QmdbStorage.apply_batch. destruct (QmdbStorage.prepare_batch ops); [|done].
  case_bool_decide; [done|]. destruct (db_merkleize _ _); [|done]. destruct (db_apply_batch _ _) as [[] db]; [|done].
  apply sharded_invalidate_length.
Qed.

Context (Hmerkle : forall (db : DB) ups, exists merk, db_merkleize db ups = Ok merk).
Context (Happly : forall (db : DB) ups merk, db_merkleize db ups = Ok merk -> exists db', db_apply_batch db merk = (Ok tt, db')).

Lemma batch_holds s m ops : holds_map s m ->
  let '(r, s') := QmdbStorage.batch s ops in
  match batch_error ops with
  | Some e => r = Err (map_storage_error e) /\ s' = s
  | None => r = Ok tt /\ holds_map s' (foldl MockStorage.batch_one m ops)
  end.
Proof using Hmerkle Happly.
  intros Hm. unfold QmdbStorage.batch, QmdbStorage.apply_batch. pose proof (prepare_batch_spec ops) as Hp.
  destruct (batch_error ops) as [e|] eqn:Eb; [by rewrite Hp|].
  destruct Hp as (b & -> & Hu & Hi). case_bool_decide as En.
  - rewrite Hu in En. apply fmap_nil_inv in En as ->. done.
  - destruct (Hmerkle (q_db s) (updates b)) as [merk Hmk]. rewrite Hmk.
    destruct (Happly _ _ _ Hmk) as [db' Hap]. rewrite Hap. split; [done|]. apply batch_error_None in Eb.
    split; cbn [q_db q_cache].
    + intros k Hk. rewrite (db_get_apply _ _ _ _ (storage_key_of k) Hmk Hap), Hu, (batch_lookup ops m k Eb Hk).
      destruct (last_write _ _); [done|]. by apply (hm_db _ _ Hm).
    + intros k v [Hn Hg]%sharded_invalidate_list. apply (hm_cache _ _ Hm) in Hg as [Hk Hv]. split; [done|].
      rewrite Hi in Hn. by rewrite (batch_untouched ops m k Hn).
Qed.

(** ** One operation, and all of them *)
Lemma storage_step_refines op s m : holds_map s m ->
  (storage_step op s).1 = (map_step op m).1 /\ holds_map (storage_step op s).2 (map_step op m).2.
Proof using Hmerkle Happly.
  intros Hm. destruct op as [key|ks|ops| |locked]; cbn [storage_step map_step fst snd].
  - pose proof (get_holds s m key Hm). destruct (QmdbStorage.get _ _ _ _), H0. by subst.
  - pose proof (get_many_holds s m ks Hm). destruct (QmdbStorage.get_many _ _ _ _), H0. by subst.
  - pose proof (batch_holds s m ops Hm) as Hb. destruct (QmdbStorage.batch s ops) as [r s'].
    destruct (batch_error ops); destruct Hb; subst; done.
  - split; [done|]. unfold QmdbStorage.commit, QmdbStorage.commit_state.
    destruct (db_sync _); [|done]. destruct (root_to_commit_hash _); [|done]. by destruct Hm.
  - split; [done|]. unfold QmdbStorage.prune_cycle. destruct (prune_signals s =? 0); [done|].
    destruct Hm. destruct locked; [|done]. split; [|done]. intros k Hk. cbn [q_db].
    rewrite (db_get_prune (q_db s) (db_prune (q_db s)).1) by (by destruct (db_prune (q_db s))). by apply hm_db0.
Qed.

Fixpoint storage_run (ops : list StorageOp) (s : QmdbStorage DB) : list StorageOut * QmdbStorage DB :=
  match ops with
  | [] => ([], s)
  | op :: ops =>
      let '(out, s) := storage_step op s in
      let '(outs, s) := storage_run ops s in
      (out :: outs, s)
  end.

Lemma storage_run_refines ops : forall s m, holds_map s m ->
  (storage_run ops s).1 = (map_run ops m).1 /\ holds_map (storage_run ops s).2 (map_run ops m).2.
Proof using Hmerkle Happly.
  induction ops as [|op ops IH]; intros s m Hm; [done|]. cbn [storage_run map_run].
  destruct (storage_step_refines op s m Hm) as [Ho Hs].
  destruct (storage_step op s) as [o1 s1], (map_step op m) as [o2 m2]. cbn [fst snd] in *. subst o2.
  destruct (IH s1 m2 Hs) as [Hos Hss].
  destruct (storage_run ops s1), (map_run ops m2). cbn [fst snd] in *. by subst.
Qed.

End Refinement.

(** ** Theorems on the storage backends

    The database-backed storage implements a finite map when its operations
    run one after the other; a read that overlaps with a batch can leave a
    stale value in the cache. *)

(** ** A reference database *)

Definition reference_write (db : gmap bytes bytes) (u : bytes * option bytes) : gmap bytes bytes :=
  match u.2 with Some v => <[u.1 := v]> db | None => delete u.1 db end.

Lemma reference_get_apply (db : gmap bytes bytes) updates k :
  foldl reference_write db updates !! k =
  match last_write updates k with Some v => v | None => db !! k end.
Proof.
  induction updates as [|u ups IH] using rev_ind; [done|]. rewrite foldl_app. cbn [foldl]. unfold last_write in *.
  rewrite filter_app, fmap_app, filter_cons, filter_nil. destruct u as [k' v]. cbn [fst]. case_decide as E.
  - subst k'. rewrite fmap_cons, fmap_nil, last_snoc. unfold reference_write. cbn.
    destruct v; [apply lookup_insert_eq | apply lookup_delete_eq].
  - rewrite fmap_nil, app_nil_r, <-IH. unfold reference_write. cbn.
    destruct v; [by apply lookup_insert_ne | by apply lookup_delete_ne].
Qed.

#[export] Program Instance reference_qmdb : Qmdb (gmap bytes bytes) := {|
  Merkleized := gmap bytes bytes;
  db_get db k := Ok (db !! k);
  db_root _ := replicate 32 x00;
  db_sync _ := Ok tt;
  db_merkleize db updates := Ok (foldl reference_write db updates);
  merkleized_root _ := replicate 32 x00;
  db_apply_batch _ m := (Ok tt, m);
  db_prune db := (Ok tt, db)
|}.
Next Obligation.
  intros db updates m db' k [= <-] [= <-]. cbn. rewrite reference_get_apply. by destruct (last_write _ _).
Qed.
Next Obligation. done. Qed.
Next Obligation. intros db r db' k [= <- <-]. done. Qed.

Definition reference_storage : QmdbStorage (gmap bytes bytes) := mkQmdbStorage ∅ ShardedDbCache.with_defaults 0.

Lemma reference_storage_holds : holds_map reference_storage ∅.
Proof.
  split; [done|]. intros k v. unfold ShardedDbCache.get. cbn [q_cache reference_storage].
  rewrite list_lookup_total_alt. unfold ShardedDbCache.with_defaults, ShardedDbCache.new. cbn [shards].
  destruct (replicate _ _ !! _) as [shard|] eqn:E; [|done]. apply lookup_replicate in E as [-> _]. done.
Qed.

Section Theorems.
Context {DB : Type} `{Qmdb DB} (keys : gmap bytes CachedValue -> list bytes).
Context (Hmerkle : forall (db : DB) ups, exists merk, db_merkleize db ups = Ok merk).
Context (Happly : forall (db : DB) ups merk, db_merkleize db ups = Ok merk -> exists db', db_apply_batch db merk = (Ok tt, db')).

(** C23: the storage over a database that does not fail is a finite map. Every
    sequence of reads, batched reads, batches, commits and prunings gives what
    it gives on a finite map with the limits on keys, values and batches,
    whatever the cache holds and evicts; a batch that breaks a limit changes
    nothing. *)
Theorem qmdb_implements_map ops s m : holds_map s m ->
  (storage_run keys ops s).1 = (map_run ops m).1 /\ holds_map (storage_run keys ops s).2 (map_run ops m).2.
Proof using Hmerkle Happly. apply (storage_run_refines keys Hmerkle Happly). Qed.

(** ** Overlapping operations

    A reader of a key holds no lock between its steps: it misses the cache,
    reads the database under the read lock, and then fills the cache. A batch
    runs under the write lock, invalidation included. *)
Inductive Reader := Idle | Missed (key : bytes) | HasRead (key : bytes) (result : option bytes).

Inductive overlap : QmdbStorage DB * Reader -> QmdbStorage DB * Reader -> Prop :=
| overlap_miss s key : ShardedDbCache.get (q_cache s) key = None -> overlap (s, Idle) (s, Missed key)
| overlap_read s key result : QmdbStorage.get_async_uncached s key = Ok result ->
    overlap (s, Missed key) (s, HasRead key result)
| overlap_fill s key result : overlap (s, HasRead key result) (QmdbStorage.populate keys s key result, Idle)
| overlap_batch s ops s' reader : QmdbStorage.batch s ops = (Ok tt, s') -> overlap (s, reader) (s', reader).

(** A read that overlaps with a batch can leave a stale value in the cache.
    A reader that has read a key before a batch overwrites it, and fills the
    cache after the batch invalidated the key, makes every later read of the
    key give the old value although the database holds the new one. *)
Theorem qmdb_stale_read s m key old new :
  holds_map s m -> length (shards (q_cache s)) = 256%nat ->
  ShardedDbCache.get (q_cache s) key = None -> m !! key = Some old ->
  zlen key <= StorageTypes.MAX_KEY_SIZE -> zlen new <= StorageTypes.MAX_VALUE_SIZE ->
  exists s', rtc overlap (s, Idle) (s', Idle) /\
    QmdbStorage.get_async_uncached s' key = Ok (Some new) /\
    forall rt, (QmdbStorage.get keys rt s' key).1 = Ok (Some old).
Proof using Hmerkle Happly.
  intros Hm Hlen Hmiss Hold Hk Hv. set (ops := [OperationSet key new]).
  assert (Hok : batch_error ops = None).
  { unfold batch_error, ops. cbn -[zlen]. change (zlen [OperationSet key new]) with 1.
    destruct (Z.ltb_spec StorageTypes.MAX_VALUE_SIZE (zlen new)), (Z.ltb_spec StorageTypes.MAX_KEY_SIZE (zlen key)); try lia. done. }
  pose proof (batch_holds Hmerkle Happly s m ops Hm) as Hb.
  destruct (QmdbStorage.batch s ops) as [r s1] eqn:Eb. rewrite Hok in Hb. destruct Hb as [-> Hm1].
  assert (Hlen1 : length (shards (q_cache s1)) = 256%nat) by (pose proof (batch_shards s ops) as Hl; rewrite Eb in Hl; cbn in Hl; congruence).
  exists (QmdbStorage.populate keys s1 key (Some old)). split_and!.
  - eapply rtc_l; [by apply overlap_miss|]. eapply rtc_l; [apply (overlap_read _ _ (Some old))|].
    { rewrite (uncached_read s m key Hm). unfold map_get.
      destruct (Z.ltb_spec StorageTypes.MAX_KEY_SIZE (zlen key)); [lia|]. by rewrite Hold. }
    eapply rtc_l; [by eapply overlap_batch|]. apply rtc_once, overlap_fill.
  - change (QmdbStorage.get_async_uncached s1 key = Ok (Some new)).
    rewrite (uncached_read s1 _ key Hm1). unfold map_get.
    destruct (Z.ltb_spec StorageTypes.MAX_KEY_SIZE (zlen key)); [lia|]. cbn. by rewrite lookup_insert_eq.
  - intros rt. unfold QmdbStorage.get. cbn [q_cache QmdbStorage.populate]. by rewrite sharded_insert_eq.
Qed.

(** The root previewed for a batch is the root committed after it. *)
Lemma preview_matches_commit s ops h h' s' s'' :
  QmdbStorage.preview_batch_root s ops = Ok h -> QmdbStorage.apply_batch s ops = (Ok tt, s') ->
  QmdbStorage.commit_state s' = (Ok h', s'') -> h' = h.
Proof.
  unfold QmdbStorage.preview_batch_root, QmdbStorage.apply_batch, QmdbStorage.commit_state.
  destruct (QmdbStorage.prepare_batch ops) as [b|]; [|done]. cbn. case_bool_decide.
  - intros Hp [= <-]. destruct (db_sync _); [|done]. rewrite Hp. by intros [= <- _].
  - destruct (db_merkleize (q_db s) (updates b)) as [merk|] eqn:Em; [|done]. cbn. intros Hp.
    destruct (db_apply_batch (q_db s) merk) as [[[]|] db'] eqn:Ea; [|done]. intros [= <-]. cbn.
    rewrite (db_root_apply _ _ _ _ Em Ea). destruct (db_sync _); [|done]. rewrite Hp. by intros [= <- _].
Qed.

End Theorems.

(** ** Witnesses *)

Definition map_keys (m : gmap bytes CachedValue) : list bytes := (map_to_list m).*1.

Lemma reference_merkle (db : gmap bytes bytes) ups : exists merk, db_merkleize db ups = Ok merk.
Proof. by eexists. Qed.

Lemma reference_apply (db : gmap bytes bytes) ups merk : db_merkleize db ups = Ok merk ->
  exists db', db_apply_batch db merk = (Ok tt, db').
Proof. by eexists. Qed.

Definition sample_ops : list StorageOp :=
  [SGet [x01]; SBatch [OperationSet [x01] [x07]; OperationRemove [x02]]; SGet [x01]; SGetMany [[x01]; [x02]];
   SBatch [OperationSet [x01] (replicate 4093 x00)]; SGet [x01]; SCommit; SPrune true; SGet [x01]].

Lemma qmdb_implements_map_witness :
  (storage_run map_keys sample_ops reference_storage).1 =
  [SOutGet (Ok None); SOutBatch (Ok tt); SOutGet (Ok (Some [x07])); SOutMany (Ok [Some [x07]; None]);
   SOutBatch (Err StorageTypes.ERR_VALUE_TOO_LARGE); SOutGet (Ok (Some [x07])); SOutUnit; SOutUnit;
   SOutGet (Ok (Some [x07]))].
Proof.
  destruct (qmdb_implements_map map_keys reference_merkle reference_apply sample_ops reference_storage ∅
    reference_storage_holds) as [-> _]. vm_compute. reflexivity.
Defined.

(** The storage after a first batch. *)
Definition written_storage : QmdbStorage (gmap bytes bytes) :=
  (QmdbStorage.batch reference_storage [OperationSet [x01] [x07]]).2.

Lemma written_storage_holds : holds_map written_storage (<[[x01] := [x07]]> ∅).
Proof.
  exact (proj2 (batch_holds reference_merkle reference_apply reference_storage ∅ [OperationSet [x01] [x07]]
    reference_storage_holds)).
Qed.

Lemma qmdb_stale_read_witness :
  exists s', rtc (overlap map_keys) (written_storage, Idle) (s', Idle) /\
    QmdbStorage.get_async_uncached s' [x01] = Ok (Some [x08]) /\
    forall rt, (QmdbStorage.get map_keys rt s' [x01]).1 = Ok (Some [x07]).
Proof.
  apply (qmdb_stale_read map_keys reference_merkle reference_apply written_storage (<[[x01] := [x07]]> ∅)).
  - apply written_storage_holds.
  - vm_compute. reflexivity.
  - vm_compute. reflexivity.
  - vm_compute. reflexivity.
  - vm_compute. discriminate.
  - vm_compute. discriminate.
Defined.
