(* ===== verification/Server.v ===== *)
(** * Blocks and their production

    Models [crates/app/server/src]: block headers, blocks, the builder and the
    archived form of a block ([block.rs]), the development consensus engine that
    produces blocks from the mempool ([dev.rs]) and the persisted chain state
    ([persistence.rs]). Tasks that the code spawns for archiving and indexing
    are part of the result; the wall clock is an argument. *)

From S2P Require Import Prelude Core Gas ExecState ExecStateFacts Commit Runtime Invoker Stf.
From S2P Require Import StorageBackend Mempool.

Open Scope evolve_scope.

(** [alloy_primitives]: fixed byte arrays and 256-bit integers. *)
Abbreviation B256 := (vec byte 32).
Abbreviation Address := (vec byte 20).
Definition B256_ZERO : B256 := vreplicate 32 x00.

(** [Encodable] of a transaction type. *)
Class Encodable (A : Type) := { encode_tx : A -> SdkResult bytes }.

Module Server.

(** ** [block.rs] *)
Record BlockHeader := mkBlockHeader {
  bh_parent_hash : B256;
  ommers_hash : B256;
  bh_beneficiary : Address;
  bh_state_root : B256;
  transactions_root : B256;
  receipts_root : B256;
  logs_bloom : vec byte 256;
  difficulty : Z;
  bh_number : Z;
  bh_gas_limit : Z;
  bh_gas_used : Z;
  bh_timestamp : Z;
  extra_data : bytes;
  mix_hash : B256;
  bh_nonce : vec byte 8;
  base_fee_per_gas : option Z;
  withdrawals_root : option B256;
  blob_gas_used : option Z;
  excess_blob_gas : option Z;
  parent_beacon_block_root : option B256 }.

Definition header_default : BlockHeader :=
  mkBlockHeader B256_ZERO B256_ZERO (vreplicate 20 x00) B256_ZERO B256_ZERO B256_ZERO (vreplicate 256 x00) 0
    0 0 0 0 [] B256_ZERO (vreplicate 8 x00) None None None None None.

(** The Keccak-256 hash of an empty list. *)
Definition EMPTY_OMMERS_HASH : B256 :=
  [# x1d; xcc; x4d; xe8; xde; xc7; x5d; x7a; xab; x85; xb5; x67; xb6; xcc; xd4; x1a;
     xd3; x12; x45; x1b; x94; x8a; x74; x13; xf0; xa1; x42; xfd; x40; xd4; x93; x47].

(** Struct updates, for the fields that the code sets. *)
Definition set_number (h : BlockHeader) (n : Z) : BlockHeader :=
  mkBlockHeader (bh_parent_hash h) (ommers_hash h) (bh_beneficiary h) (bh_state_root h) (transactions_root h)
    (receipts_root h) (logs_bloom h) (difficulty h) n (bh_gas_limit h) (bh_gas_used h) (bh_timestamp h)
    (extra_data h) (mix_hash h) (bh_nonce h) (base_fee_per_gas h) (withdrawals_root h) (blob_gas_used h)
    (excess_blob_gas h) (parent_beacon_block_root h).
Definition set_timestamp (h : BlockHeader) (t : Z) : BlockHeader :=
  mkBlockHeader (bh_parent_hash h) (ommers_hash h) (bh_beneficiary h) (bh_state_root h) (transactions_root h)
    (receipts_root h) (logs_bloom h) (difficulty h) (bh_number h) (bh_gas_limit h) (bh_gas_used h) t
    (extra_data h) (mix_hash h) (bh_nonce h) (base_fee_per_gas h) (withdrawals_root h) (blob_gas_used h)
    (excess_blob_gas h) (parent_beacon_block_root h).
Definition set_parent_hash (h : BlockHeader) (p : B256) : BlockHeader :=
  mkBlockHeader p (ommers_hash h) (bh_beneficiary h) (bh_state_root h) (transactions_root h)
    (receipts_root h) (logs_bloom h) (difficulty h) (bh_number h) (bh_gas_limit h) (bh_gas_used h) (bh_timestamp h)
    (extra_data h) (mix_hash h) (bh_nonce h) (base_fee_per_gas h) (withdrawals_root h) (blob_gas_used h)
    (excess_blob_gas h) (parent_beacon_block_root h).
Definition set_ommers_hash (h : BlockHeader) (o : B256) : BlockHeader :=
  mkBlockHeader (bh_parent_hash h) o (bh_beneficiary h) (bh_state_root h) (transactions_root h)
    (receipts_root h) (logs_bloom h) (difficulty h) (bh_number h) (bh_gas_limit h) (bh_gas_used h) (bh_timestamp h)
    (extra_data h) (mix_hash h) (bh_nonce h) (base_fee_per_gas h) (withdrawals_root h) (blob_gas_used h)
    (excess_blob_gas h) (parent_beacon_block_root h).
Definition set_gas_limit (h : BlockHeader) (g : Z) : BlockHeader :=
  mkBlockHeader (bh_parent_hash h) (ommers_hash h) (bh_beneficiary h) (bh_state_root h) (transactions_root h)
    (receipts_root h) (logs_bloom h) (difficulty h) (bh_number h) g (bh_gas_used h) (bh_timestamp h)
    (extra_data h) (mix_hash h) (bh_nonce h) (base_fee_per_gas h) (withdrawals_root h) (blob_gas_used h)
    (excess_blob_gas h) (parent_beacon_block_root h).
Definition set_beneficiary (h : BlockHeader) (a : Address) : BlockHeader :=
  mkBlockHeader (bh_parent_hash h) (ommers_hash h) a (bh_state_root h) (transactions_root h)
    (receipts_root h) (logs_bloom h) (difficulty h) (bh_number h) (bh_gas_limit h) (bh_gas_used h) (bh_timestamp h)
    (extra_data h) (mix_hash h) (bh_nonce h) (base_fee_per_gas h) (withdrawals_root h) (blob_gas_used h)
    (excess_blob_gas h) (parent_beacon_block_root h).
Definition set_base_fee (h : BlockHeader) (f : Z) : BlockHeader :=
  mkBlockHeader (bh_parent_hash h) (ommers_hash h) (bh_beneficiary h) (bh_state_root h) (transactions_root h)
    (receipts_root h) (logs_bloom h) (difficulty h) (bh_number h) (bh_gas_limit h) (bh_gas_used h) (bh_timestamp h)
    (extra_data h) (mix_hash h) (bh_nonce h) (Some f) (withdrawals_root h) (blob_gas_used h)
    (excess_blob_gas h) (parent_beacon_block_root h).
Definition set_extra_data (h : BlockHeader) (d : bytes) : BlockHeader :=
  mkBlockHeader (bh_parent_hash h) (ommers_hash h) (bh_beneficiary h) (bh_state_root h) (transactions_root h)
    (receipts_root h) (logs_bloom h) (difficulty h) (bh_number h) (bh_gas_limit h) (bh_gas_used h) (bh_timestamp h)
    d (mix_hash h) (bh_nonce h) (base_fee_per_gas h) (withdrawals_root h) (blob_gas_used h)
    (excess_blob_gas h) (parent_beacon_block_root h).

Definition header_new (number timestamp : Z) (parent_hash : B256) : BlockHeader :=
  set_gas_limit (set_ommers_hash (set_parent_hash (set_timestamp (set_number header_default number) timestamp)
    parent_hash) EMPTY_OMMERS_HASH) 30000000.

Record Block (Tx : Type) := mkBlock { header : BlockHeader; transactions : list Tx }.
Arguments mkBlock {Tx} _ _.
Arguments header {Tx} _.
Arguments transactions {Tx} _.

Definition block_new {Tx} (header : BlockHeader) (transactions : list Tx) : Block Tx := mkBlock header transactions.
Definition for_testing {Tx} (height : Z) (transactions : list Tx) : Block Tx :=
  mkBlock (header_new height 0 B256_ZERO) transactions.
Definition number {Tx} (self : Block Tx) : Z := bh_number (header self).
Definition timestamp {Tx} (self : Block Tx) : Z := bh_timestamp (header self).
Definition parent_hash {Tx} (self : Block Tx) : B256 := bh_parent_hash (header self).
Definition beneficiary {Tx} (self : Block Tx) : Address := bh_beneficiary (header self).
Definition gas_limit {Tx} (self : Block Tx) : Z := bh_gas_limit (header self).
Definition block_gas_used {Tx} (self : Block Tx) : Z := bh_gas_used (header self).

#[global] Instance block_trait {Tx} : Stf.Block (Block Tx) Tx := {|
  block_context self := mkBlockContext (bh_number (header self)) (bh_timestamp (header self));
  block_txs := transactions;
  block_gas_limit self := bh_gas_limit (header self)
|}.

Record ArchivedBlock := mkArchivedBlock {
  ab_number : Z; ab_timestamp : Z; ab_parent_hash : B256; ab_state_root : B256; ab_block_hash : B256;
  ab_gas_limit : Z; ab_gas_used : Z; ab_transactions : list bytes }.

(** [collect::<Result<Vec<_>, _>>]: the first error wins. *)
Fixpoint encode_all {Tx} `{Encodable Tx} (txs : list Tx) : SdkResult (list bytes) :=
  match txs with
  | [] => Ok []
  | tx :: txs => b ← encode_tx tx; bs ← encode_all txs; Ok (b :: bs)
  end.

Definition to_archived {Tx} `{Encodable Tx} (self : Block Tx) (block_hash state_root : B256) (gas_used : Z)
    : SdkResult ArchivedBlock :=
  txs ← encode_all (transactions self);
  Ok (mkArchivedBlock (bh_number (header self)) (bh_timestamp (header self)) (bh_parent_hash (header self))
        state_root block_hash (bh_gas_limit (header self)) gas_used txs).

Record BlockBuilder (Tx : Type) := mkBlockBuilder { bb_header : BlockHeader; bb_transactions : list Tx }.
Arguments mkBlockBuilder {Tx} _ _.
Arguments bb_header {Tx} _.
Arguments bb_transactions {Tx} _.

Module BlockBuilder.
Section Methods.
Context {Tx : Type}.
Definition new : BlockBuilder Tx := mkBlockBuilder header_default [].
Definition number (self : BlockBuilder Tx) (n : Z) : BlockBuilder Tx :=
  mkBlockBuilder (set_number (bb_header self) n) (bb_transactions self).
Definition timestamp (self : BlockBuilder Tx) (t : Z) : BlockBuilder Tx :=
  mkBlockBuilder (set_timestamp (bb_header self) t) (bb_transactions self).
Definition parent_hash (self : BlockBuilder Tx) (h : B256) : BlockBuilder Tx :=
  mkBlockBuilder (set_parent_hash (bb_header self) h) (bb_transactions self).
Definition beneficiary (self : BlockBuilder Tx) (a : Address) : BlockBuilder Tx :=
  mkBlockBuilder (set_beneficiary (bb_header self) a) (bb_transactions self).
Definition gas_limit (self : BlockBuilder Tx) (limit : Z) : BlockBuilder Tx :=
  mkBlockBuilder (set_gas_limit (bb_header self) limit) (bb_transactions self).
Definition base_fee (self : BlockBuilder Tx) (fee : Z) : BlockBuilder Tx :=
  mkBlockBuilder (set_base_fee (bb_header self) fee) (bb_transactions self).
Definition extra_data (self : BlockBuilder Tx) (data : bytes) : BlockBuilder Tx :=
  mkBlockBuilder (set_extra_data (bb_header self) data) (bb_transactions self).
Definition transaction (self : BlockBuilder Tx) (tx : Tx) : BlockBuilder Tx :=
  mkBlockBuilder (bb_header self) (bb_transactions self ++ [tx]).
Definition transactions (self : BlockBuilder Tx) (txs : list Tx) : BlockBuilder Tx :=
  mkBlockBuilder (bb_header self) (bb_transactions self ++ txs).
Definition build (self : BlockBuilder Tx) : Block Tx := mkBlock (bb_header self) (bb_transactions self).
End Methods.
End BlockBuilder.

(** ** [error.rs]: formatted messages are their pieces. *)
Inductive Piece := Lit (s : string) | Debug (e : ErrorCode).

Inductive ServerError :=
| NoPendingBlock
| Config (msg : list Piece)
| StorageFailed (msg : list Piece)
| Genesis (msg : list Piece)
| Rpc (msg : list Piece)
| Grpc (msg : list Piece)
| Execution (msg : list Piece)
| Shutdown (msg : list Piece)
| Indexer (msg : list Piece).

(** ** [BlockMetadata] of [chain-index/src/integration.rs] *)
Record BlockMetadata := mkBlockMetadata {
  md_hash : B256; md_parent_hash : B256; md_state_root : B256; md_timestamp : Z; md_gas_limit : Z;
  md_miner : Address; md_extra_data : bytes; md_chain_id : Z }.

Definition metadata_default : BlockMetadata :=
  mkBlockMetadata B256_ZERO B256_ZERO B256_ZERO 0 30000000 (vreplicate 20 x00) [] 1.

Definition metadata_new (hash parent_hash state_root : B256) (timestamp gas_limit : Z) (miner : Address)
    (chain_id : Z) : BlockMetadata :=
  mkBlockMetadata hash parent_hash state_root timestamp gas_limit miner [] chain_id.

Definition with_extra_data (self : BlockMetadata) (extra_data : bytes) : BlockMetadata :=
  mkBlockMetadata (md_hash self) (md_parent_hash self) (md_state_root self) (md_timestamp self)
    (md_gas_limit self) (md_miner self) extra_data (md_chain_id self).

(** ** [dev.rs] *)

(** [block_interval] in milliseconds. *)
Record DevConfig := mkDevConfig {
  block_interval : option Z; dev_gas_limit : Z; initial_height : Z; chain_id : Z }.

Definition config_default : DevConfig := mkDevConfig (Some 1000) 30000000 1 1.
Definition config_manual : DevConfig := mkDevConfig None 30000000 1 1.
Definition config_with_interval (interval : Z) : DevConfig := mkDevConfig (Some interval) 30000000 1 1.

Record DevState := mkDevState { ds_height : Z; last_hash : B256; last_timestamp : Z }.

Definition state_new (initial_height : Z) : DevState := mkDevState initial_height B256_ZERO 0.

Record ProducedBlock := mkProducedBlock {
  pb_height : Z; pb_hash : B256; tx_count : Z; pb_gas_used : Z; successful_txs : Z; failed_txs : Z }.

Definition compute_block_hash `{Keccak} (height timestamp : Z) (parent_hash : B256) : B256 :=
  keccak256 (le_bytes 8 height ++ le_bytes 8 timestamp ++ vec_to_list parent_hash).

(** The engine; the mempool is shared with the RPC server. [I], [Subs] and
    [Callback] are the chain index, the subscriptions and the callback. *)
Record DevConsensus (Tx S I Subs Callback : Type) `{MempoolTx Tx} := mkDevConsensus {
  stf : Stf Tx (Block Tx);
  dc_storage : S;
  codes : AccountsCodeStorage;
  config : DevConfig;
  state : DevState;
  mempool : option (Mempool Tx);
  chain_index : option I;
  subscriptions : option Subs;
  index_blocks : bool;
  on_block_archive : option Callback }.
Arguments mkDevConsensus {Tx S I Subs Callback _} _ _ _ _ _ _ _ _ _ _.
Arguments stf {Tx S I Subs Callback _} _.
Arguments dc_storage {Tx S I Subs Callback _} _.
Arguments codes {Tx S I Subs Callback _} _.
Arguments config {Tx S I Subs Callback _} _.
Arguments state {Tx S I Subs Callback _} _.
Arguments mempool {Tx S I Subs Callback _} _.
Arguments chain_index {Tx S I Subs Callback _} _.
Arguments subscriptions {Tx S I Subs Callback _} _.
Arguments index_blocks {Tx S I Subs Callback _} _.
Arguments on_block_archive {Tx S I Subs Callback _} _.

(** Spawned tasks: the archive callback on the encoded block, and indexing. *)
Inductive Task (Tx I Subs Callback : Type) :=
| ArchiveTask (cb : Callback) (height : Z) (block_hash : B256) (archived_bytes : bytes)
| IndexTask (index : I) (subscriptions : option Subs) (block : Block Tx) (result : BlockResult)
    (metadata : BlockMetadata).
Arguments ArchiveTask {Tx I Subs Callback} _ _ _ _.
Arguments IndexTask {Tx I Subs Callback} _ _ _ _ _.

Module DevConsensus.
Section Methods.
Context `{RuntimeDeps} {Tx S I Subs Callback : Type}.
Context `{Transaction Tx} `{MempoolTx Tx} `{Encodable Tx} `{Storage S} `{Borsh ArchivedBlock}.
Context (fuel : nat).

Abbreviation Dev := (DevConsensus Tx S I Subs Callback).

Definition new (stf : Stf Tx (Block Tx)) (storage : S) (codes : AccountsCodeStorage) (config : DevConfig) : Dev :=
  mkDevConsensus stf storage codes config (state_new (initial_height config)) None None None false None.

Definition with_rpc (stf : Stf Tx (Block Tx)) (storage : S) (codes : AccountsCodeStorage) (config : DevConfig)
    (chain_index : I) (subscriptions : Subs) : Dev :=
  mkDevConsensus stf storage codes config (state_new (initial_height config)) None (Some chain_index)
    (Some subscriptions) true None.

Definition with_rpc_and_mempool (stf : Stf Tx (Block Tx)) (storage : S) (codes : AccountsCodeStorage)
    (config : DevConfig) (chain_index : I) (subscriptions : Subs) (mempool : Mempool Tx) : Dev :=
  mkDevConsensus stf storage codes config (state_new (initial_height config)) (Some mempool) (Some chain_index)
    (Some subscriptions) true None.

Definition with_mempool (stf : Stf Tx (Block Tx)) (storage : S) (codes : AccountsCodeStorage)
    (config : DevConfig) (mempool : Mempool Tx) : Dev :=
  mkDevConsensus stf storage codes config (state_new (initial_height config)) (Some mempool) None None false None.

Definition height (self : Dev) : Z := ds_height (state self).

Definition with_indexing_enabled (self : Dev) (enabled : bool) : Dev :=
  mkDevConsensus (stf self) (dc_storage self) (codes self) (config self) (state self) (mempool self)
    (chain_index self) (subscriptions self) enabled (on_block_archive self).

Definition with_block_archive (self : Dev) (cb : Callback) : Dev :=
  mkDevConsensus (stf self) (dc_storage self) (codes self) (config self) (state self) (mempool self)
    (chain_index self) (subscriptions self) (index_blocks self) (Some cb).

(** Field updates through interior mutability. *)
Definition set_state (self : Dev) (st : DevState) : Dev :=
  mkDevConsensus (stf self) (dc_storage self) (codes self) (config self) st (mempool self)
    (chain_index self) (subscriptions self) (index_blocks self) (on_block_archive self).
Definition set_storage (self : Dev) (s : S) : Dev :=
  mkDevConsensus (stf self) s (codes self) (config self) (state self) (mempool self)
    (chain_index self) (subscriptions self) (index_blocks self) (on_block_archive self).
Definition set_mempool (self : Dev) (pool : Mempool Tx) : Dev :=
  mkDevConsensus (stf self) (dc_storage self) (codes self) (config self) (state self) (Some pool)
    (chain_index self) (subscriptions self) (index_blocks self) (on_block_archive self).

(** The block that [produce_block_with_txs] builds. *)
Definition build_block (self : Dev) (height timestamp : Z) (parent_hash : B256) (transactions : list Tx) : Block Tx :=
  BlockBuilder.build
    (BlockBuilder.transactions
      (BlockBuilder.gas_limit
        (BlockBuilder.parent_hash (BlockBuilder.timestamp (BlockBuilder.number BlockBuilder.new height) timestamp)
           parent_hash)
        (dev_gas_limit (config self)))
      transactions).

(** The task for the archive callback, when the block can be encoded. *)
Definition archive_tasks (self : Dev) (block : Block Tx) (height : Z) (block_hash state_root : B256) (gas_used : Z)
    : list (Task Tx I Subs Callback) :=
  match on_block_archive self with
  | None => []
  | Some cb =>
      match to_archived block block_hash state_root gas_used with
      | Err _ => []
      | Ok archived =>
          match to_vec archived with
          | Some encoded => [ArchiveTask cb height block_hash encoded]
          | None => []
          end
      end
  end.

Definition index_tasks (self : Dev) (block : Block Tx) (result : BlockResult) (metadata : BlockMetadata)
    : list (Task Tx I Subs Callback) :=
  if index_blocks self then
    match chain_index self with
    | Some index => [IndexTask index (subscriptions self) block result metadata]
    | None => []
    end
  else [].

(** [None] when executing the block panics or runs out of fuel; [now] is
    [current_timestamp()]. The height is taken before anything can fail. *)
Definition produce_block_with_txs (self : Dev) (now : Z) (transactions : list Tx)
    : option (Result ServerError ProducedBlock * list (Task Tx I Subs Callback) * Dev) :=
  let height := ds_height (state self) in
  let self := set_state self (mkDevState (wrap64 (height + 1)) (last_hash (state self)) (last_timestamp (state self))) in
  let parent_hash := last_hash (state self) in
  let timestamp := now in
  let block := build_block self height timestamp parent_hash transactions in
  match Stf.apply_block (stf self) (codes self) fuel (storage_get (dc_storage self)) block with
  | Done result w =>
      match ExecutionState.into_changes (w_storage w) with
      | Err e => Some (Err (Execution [Lit "failed to get state changes: "; Debug e]), [], self)
      | Ok changes =>
          let block_hash := compute_block_hash height timestamp parent_hash in
          let gas_used := wrap64 (foldr (fun r n => tx_gas_used r + n) 0 (tx_results result)) in
          let executed_tx_count := zlen (tx_results result) in
          let successful_txs := zlen (filter (fun r => is_ok (tx_response r) = true) (tx_results result)) in
          let failed_txs := saturating_sub executed_tx_count successful_txs in
          let operations := state_changes_to_operations changes in
          match storage_batch (dc_storage self) operations with
          | (Err e, s) => Some (Err (StorageFailed [Lit "batch failed: "; Debug e]), [], set_storage self s)
          | (Ok _, s) =>
              let self := set_storage self s in
              match storage_commit s with
              | (Err e, s) => Some (Err (StorageFailed [Lit "commit failed: "; Debug e]), [], set_storage self s)
              | (Ok commit_hash, s) =>
                  let self := set_storage self s in
                  let state_root := commit_bytes commit_hash in
                  let self := set_state self (mkDevState (ds_height (state self)) block_hash timestamp) in
                  let metadata := metadata_new block_hash parent_hash state_root timestamp
                                    (dev_gas_limit (config self)) (vreplicate 20 x00) (chain_id (config self)) in
                  Some (Ok (mkProducedBlock height block_hash executed_tx_count gas_used successful_txs failed_txs),
                        archive_tasks self block height block_hash state_root gas_used ++
                        index_tasks self block result metadata,
                        self)
              end
          end
      end
  | _ => None
  end.

Definition produce_block (self : Dev) (now : Z) : option (Result ServerError ProducedBlock * list (Task Tx I Subs Callback) * Dev) :=
  produce_block_with_txs self now [].

(** [drained] orders the hash set in [finalize]; [meanwhile] is what others do
    to the shared mempool while the block is produced and the lock is free. *)
Definition produce_block_from_mempool (drained : gset Hash -> list Hash) (meanwhile : Mempool Tx -> Mempool Tx)
    (self : Dev) (now max_txs : Z)
    : option (Result ServerError ProducedBlock * list (Task Tx I Subs Callback) * Dev) :=
  match mempool self with
  | None => Some (Err (Execution [Lit "no mempool configured"]), [], self)
  | Some pool =>
      if max_txs =? 0 then produce_block_with_txs self now []
      else
        let '(selected, _, pool) := Mempool.propose pool (dev_gas_limit (config self)) max_txs in
        let tx_hashes := tx_id <$> selected in
        let self := set_mempool self (meanwhile pool) in
        '(r, tasks, self) ← produce_block_with_txs self now selected;
        let finalise executed :=
          if bool_decide (tx_hashes = []) then self
          else match mempool self with
               | Some pool => set_mempool self (Mempool.finalize_draining drained pool executed)
               | None => self
               end in
        match r with
        | Err err => Some (Err err, tasks, finalise [])
        | Ok result => Some (Ok result, tasks, finalise (take (Z.to_nat (tx_count result)) tx_hashes))
        end
  end.

(** A tick of [run_block_production_with_mempool]: errors are logged. *)
Definition production_tick (drained : gset Hash -> list Hash) (meanwhile : Mempool Tx -> Mempool Tx) (self : Dev)
    (now max_txs_per_block : Z)
    : option (Result ServerError ProducedBlock * list (Task Tx I Subs Callback) * Dev) :=
  match mempool self with
  | Some _ => produce_block_from_mempool drained meanwhile self now max_txs_per_block
  | None => produce_block self now
  end.

End Methods.
End DevConsensus.

(** ** [persistence.rs] *)
Definition CHAIN_STATE_KEY : bytes := String.list_byte_of_string "__evolve_chain_state__".

Record ChainState (G : Type) := mkChainState { cs_height : Z; genesis_result : G }.
Arguments mkChainState {G} _ _.
Arguments cs_height {G} _.
Arguments genesis_result {G} _.

Section Persistence.
Context {G S : Type} `{Borsh (ChainState G)} `{Storage S}.

Definition load_chain_state (storage : S) : option (ChainState G) :=
  match storage_get storage CHAIN_STATE_KEY with
  | Ok (Some b) => from_slice b
  | _ => None
  end.

Definition save_chain_state (storage : S) (st : ChainState G) : Result ServerError unit * S :=
  match to_vec st with
  | None => (Err (StorageFailed [Lit "serialize: "]), storage)
  | Some value =>
      match storage_batch storage [OperationSet CHAIN_STATE_KEY value] with
      | (Err e, storage) => (Err (StorageFailed [Lit "batch: "; Debug e]), storage)
      | (Ok _, storage) =>
          match storage_commit storage with
          | (Err e, storage) => (Err (StorageFailed [Lit "commit: "; Debug e]), storage)
          | (Ok _, storage) => (Ok tt, storage)
          end
      end
  end.

End Persistence.

End Server.
