(* ===== verification/ServerFacts.v ===== *)
(** * Facts about block production

    When the gas limits of a block's transactions fit into its limit, the
    transactions it executes are a prefix of the block's, run one after the
    other. Producing a block from the mempool keeps the pool's invariant. *)

From S2P Require Import Prelude Core Gas ExecState ExecStateFacts Commit Runtime Invoker Stf InvokerFacts CallFacts.
From S2P Require Import StfFacts Heap Mempool MempoolFacts MempoolSpec StorageBackend Server.

Open Scope evolve_scope.

(** ** Transactions of a block *)
Section Prefix.
Context `{RuntimeDeps} {Tx B : Type} `{Transaction Tx} `{Stf.Block B Tx}.
Context (self : Stf Tx B) (codes : AccountsCodeStorage) (fuel : nat).

(** Transactions run one after the other, with their results. *)
Inductive in_order (ctx : BlockContext) : World -> list Tx -> list TxResult -> World -> Prop :=
| in_order_nil w : in_order ctx w [] [] w
| in_order_cons w tx txs r rs w1 w2 :
    Stf.apply_tx self codes fuel tx (storage_gas_config self) ctx w = Done r w1 ->
    in_order ctx w1 txs rs w2 -> in_order ctx w (tx :: txs) (r :: rs) w2.

(** The sum of gas limits as the selection computes it. *)
Definition limits_from (g : Z) (txs : list Tx) : Z :=
  foldl (fun g tx => saturating_add u64_max g (tx_gas_limit tx)) g txs.

Lemma limits_from_ge txs : forall g, Forall (fun tx => is_u64 (tx_gas_limit tx)) txs -> g <= u64_max ->
  g <= limits_from g txs.
Proof.
  induction txs as [|tx txs IH]; intros g Hu Hg; unfold limits_from in *; cbn [foldl]; [lia|].
  apply Forall_cons in Hu as [Htx Hu]. unfold is_u64 in Htx.
  specialize (IH (saturating_add u64_max g (tx_gas_limit tx)) Hu). unfold saturating_add in *. lia.
Qed.

Lemma apply_txs_in_order len ctx limit txs : forall results cum sk g w out w',
  config_wf (storage_gas_config self) -> Forall (fun tx => is_u64 (tx_gas_limit tx)) txs ->
  0 <= cum <= g -> g <= u64_max -> limits_from g txs <= limit ->
  Stf.apply_txs self codes fuel len ctx limit txs results cum sk w = Done out w' ->
  exists new, out.1.1 = results ++ new /\ in_order ctx w (take (length new) txs) new w'.
Proof.
  induction txs as [|tx txs IH]; intros results cum sk g w out w' Hcfg Hu Hcum Hg Hlim; cbn [Stf.apply_txs].
  { intros [= <- <-]. exists []. rewrite app_nil_r. split; [done | constructor]. }
  apply Forall_cons in Hu as [Htx Hu].
  set (g' := saturating_add u64_max g (tx_gas_limit tx)).
  change (limits_from g (tx :: txs)) with (limits_from g' txs) in Hlim.
  assert (Hg' : g' <= u64_max) by (unfold g', saturating_add; lia).
  pose proof (limits_from_ge txs g' Hu Hg') as Hge. unfold is_u64 in Htx.
  destruct (Z.ltb_spec limit (saturating_add u64_max cum (tx_gas_limit tx))).
  { unfold g', saturating_add in *. lia. }
  unfold mbind, M_bind.
  pose proof (apply_tx_triple self codes fuel tx (storage_gas_config self) ctx w Htx Hcfg) as Ht.
  destruct (Stf.apply_tx _ _ _ _ _ _ _) as [r w1| |] eqn:Ea; [|done|done].
  destruct Ht as (_ & _ & _ & Hr). cbv zeta. case_match.
  - intros [= <- <-]. exists [r]. split; [done|]. cbn [length take]. econstructor; [exact Ea | constructor].
  - intros Hrest. apply (IH _ _ _ g') in Hrest as (new & He & Ho); [|done|done|unfold g', saturating_add; lia|done|done].
    exists (r :: new). rewrite He, <-app_assoc. split; [done|]. cbn [length take]. by econstructor.
Qed.

(** What a block executes when the limits of its transactions fit. *)
Lemma apply_block_in_order storage block r w :
  config_wf (storage_gas_config self) -> Forall (fun tx => is_u64 (tx_gas_limit tx)) (block_txs block) ->
  limits_from 0 (block_txs block) <= block_gas_limit block ->
  Stf.apply_block self codes fuel storage block = Done r w ->
  exists w1 w2, Stf.do_begin_block self codes fuel block (mkWorld (ExecutionState.new storage) Infinite)
                = Done (begin_block_events r) w1 /\
    in_order (block_context block) w1 (take (length (tx_results r)) (block_txs block)) (tx_results r) w2 /\
    Stf.do_end_block self codes fuel (block_context block) w2 = Done (end_block_events r) w.
Proof.
  intros Hcfg Hu Hlim. unfold Stf.apply_block, Stf.on_fresh_state, Stf.apply_block_body, mbind, M_bind.
  destruct (Stf.do_begin_block _ _ _ _ _) as [ev w1| |]; [|done|done]. cbv zeta.
  destruct (Stf.apply_txs _ _ _ _ _ _ _ _ _ _ _) as [[[rs cum] sk] w2| |] eqn:El; [|done|done].
  apply (apply_txs_in_order _ _ _ _ _ _ _ 0) in El as (new & He & Ho); [|done|done|lia|unfold u64_max; lia|done].
  cbn [fst snd app] in He. subst rs.
  destruct (Stf.do_end_block _ _ _ _ w2) as [ev' w3| |] eqn:Ee; [|done|done]. intros [= <- <-].
  exists w1, w2. done.
Qed.

Lemma apply_block_counts storage block r w : Stf.apply_block self codes fuel storage block = Done r w ->
  config_wf (storage_gas_config self) -> Forall (fun tx => is_u64 (tx_gas_limit tx)) (block_txs block) ->
  limits_from 0 (block_txs block) <= block_gas_limit block ->
  (length (tx_results r) <= length (block_txs block))%nat.
Proof.
  intros Ha Hcfg Hu Hlim. destruct (apply_block_in_order storage block r w Hcfg Hu Hlim Ha) as (w1 & w2 & _ & Ho & _).
  assert (Hlen : forall ctx w a b w', in_order ctx w a b w' -> length a = length b) by (induction 1; cbn; congruence).
  apply Hlen in Ho. rewrite length_take in Ho. lia.
Qed.

End Prefix.

(** ** Arrivals *)
Section Arrivals.
Context {T : Type} `{MempoolTx T}.

(** Transactions added to the shared mempool by others; an addition that
    panics leaves it as it was. *)
Definition arrive (txs : list T) (p : Mempool T) : Mempool T :=
  foldl (fun p tx => match Mempool.add p tx with Some (_, p') => p' | None => p end) p txs.

Lemma arrive_producing drained txs : forall p l, producing drained p l ->
  exists l', producing drained (arrive txs p) l' /\ l `prefix_of` l' /\ l' ⊆ l ++ txs /\
             in_flight (arrive txs p) = in_flight p.
Proof.
  induction txs as [|tx txs IH]; intros p l Hp; cbn [arrive foldl].
  { exists l. by rewrite app_nil_r. }
  destruct (Mempool.add p tx) as [[r p']|] eqn:Ea.
  - pose proof (producing_add drained _ _ _ _ _ Hp Ea) as Hp'.
    destruct (IH _ _ Hp') as (l' & Hl' & Hpre & Hsub & Hfly). exists l'.
    assert (Hf : in_flight p' = in_flight p).
    { clear -Ea. unfold Mempool.add, Mempool.next_sender_sequence in Ea. case_bool_decide; [by injection Ea as _ <-|].
      destruct (sender_key tx); [|by injection Ea as _ <-]. destruct (checked_add _ _ _); [|done]. by injection Ea as _ <-. }
    cbn [list_step] in *. split; [done|]. rewrite <-Hf. split_and!; [| |done].
    + etrans; [|exact Hpre]. destruct (pending_tx _ _); [done|]. by eexists.
    + etrans; [exact Hsub|]. intros x. destruct (pending_tx _ _); cbn [snd];
        rewrite !elem_of_app, ?list_elem_of_singleton, ?elem_of_cons; tauto.
  - destruct (IH _ _ Hp) as (l' & Hl' & Hpre & Hsub & Hfly). exists l'. split_and!; try done.
    etrans; [exact Hsub|]. intros x. rewrite !elem_of_app, elem_of_cons. tauto.
Qed.

End Arrivals.

(** ** Proposals *)
Section Proposals.
Context {Tx : Type} `{RuntimeDeps} `{Transaction Tx} `{MempoolTx Tx}.
Context (drained : gset Hash -> list Hash) (Hdrained : forall s, drained s ≡ₚ elements s).
Context (Hgas : forall tx : Tx, mp_gas_limit tx = tx_gas_limit tx).

(** What the selection of a proposal fits into. *)
Lemma proposal_fits pool l max_gas max_txs selected gas pool' : producing drained pool l -> 0 < max_gas ->
  Mempool.propose pool max_gas max_txs = (selected, gas, pool') -> limits_from 0 selected <= max_gas.
Proof using Hdrained Hgas.
  intros Hp Hpos Hprop. destruct (propose_spec drained Hdrained _ _ _ _ _ _ _ Hp Hprop) as (order & _ & _ & Hsel & _ & _).
  assert (Hw : within_gas max_gas (gas_from 0 selected)).
  { rewrite Hsel. apply greedy_within. right. lia. }
  replace (limits_from 0 selected) with (gas_from 0 selected); [destruct Hw; lia|].
  unfold limits_from, gas_from. clear -Hgas. generalize 0. induction selected as [|tx txs IH]; intros g; [done|].
  cbn [foldl]. by rewrite Hgas, IH.
Qed.

(** The shared pool between the proposal and its finalisation. *)
Lemma after_proposal pool l arrivals max_gas max_txs selected gas pool1 :
  producing drained pool l -> in_flight pool = ∅ ->
  Mempool.propose pool max_gas max_txs = (selected, gas, pool1) ->
  exists l', producing drained (arrive arrivals pool1) l' /\ l `prefix_of` l' /\ l' ⊆ l ++ arrivals /\
    in_flight (arrive arrivals pool1) = list_to_set (tx_id <$> selected) /\ selected ⊆ l.
Proof using Hdrained.
  intros Hp Hfly Eprop.
  destruct (propose_spec drained Hdrained _ _ _ _ _ _ _ Hp Eprop) as (order & Hord & _ & Hsel & _ & Hfly1).
  pose proof (producing_propose drained pool l max_gas max_txs Hp) as Hp1. rewrite Eprop in Hp1. cbn [snd] in Hp1.
  destruct (arrive_producing drained arrivals _ _ Hp1) as (l' & Hp2 & Hpre & Hsub & Hfly2).
  exists l'. split_and!; try done.
  - rewrite Hfly2, Hfly1, Hfly. by rewrite (right_id_L ∅ (∪)).
  - intros tx Htx. rewrite Hsel in Htx. eapply elem_of_sublist in Htx; [|apply greedy_sublist].
    rewrite Hord in Htx. by apply list_elem_of_filter in Htx as [_ ?].
Qed.

(** The end of [produce_block_from_mempool]. *)
Definition finalised (selected : list Tx) (pool : Mempool Tx) (executed : list Hash) : Mempool Tx :=
  if bool_decide (tx_id <$> selected = []) then pool else Mempool.finalize_draining drained pool executed.

Lemma finalised_producing selected pool l executed : producing drained pool l ->
  in_flight pool = list_to_set (tx_id <$> selected) -> executed ⊆ tx_id <$> selected ->
  in_flight (finalised selected pool executed) = ∅ /\ producing drained (finalised selected pool executed) (without executed l).
Proof.
  intros Hp Hfly Hsub. unfold finalised. case_bool_decide as E.
  - rewrite E in *. split; [done|]. destruct executed as [|x ex]; [|destruct (not_elem_of_nil x); apply Hsub; left].
    unfold without. rewrite filter_every; [done|]. intros tx _. apply not_elem_of_nil.
  - split; [done|]. apply producing_finalize; [done|]. rewrite Hfly. intros x. rewrite !elem_of_list_to_set. apply Hsub.
Qed.

Lemma without_none (l : list Tx) : without [] l = l.
Proof. unfold without. apply filter_every. intros tx _. apply not_elem_of_nil. Qed.

End Proposals.
