(* ===== verification/ServerExample.v ===== *)
(** * A producer on concrete data

    The application of [Example] with transactions that carry an identifier, a
    gas price and the bytes they store, an engine over the in-memory storage
    and one over the reference database. *)

From S2P Require Import Prelude Core Gas ExecState Commit Runtime Invoker Codec Stf Example Heap Mempool MempoolFacts.
From S2P Require Import MempoolSpec StorageBackend StorageTheorems Server.

Import Reference.

Record PoolTx := mkPoolTx { pt_id : byte; pt_price : Z; pt_nonce : Z; pt_gas : Z; pt_data : bytes }.

#[export] Instance PoolTx_transaction : Transaction PoolTx := {|
  tx_sender _ := AccountId.from_u64 7;
  tx_recipient _ := cell_account;
  tx_request tx := InvokeRequest.new_from_message "call" 1 (Message.from_bytes (pt_data tx));
  tx_gas_limit := pt_gas;
  tx_funds _ := [];
  compute_identifier tx := vreplicate 32 (pt_id tx);
  resolve_sender_account := default_resolve_sender_account (fun _ => AccountId.from_u64 7);
  resolve_recipient_account := default_resolve_recipient_account (fun _ => cell_account);
  sender_bootstrap := default_sender_bootstrap;
  after_sender_bootstrap := default_after_sender_bootstrap |}.

#[export] Instance PoolTx_mempool : MempoolTx PoolTx := {|
  OrderingKey := GasPriceOrdering;
  tx_id tx := vreplicate 32 (pt_id tx);
  ordering_key tx := mkGasPriceOrdering (pt_price tx) (pt_nonce tx);
  sender_key _ := SenderKey.new [x07];
  mp_gas_limit := pt_gas |}.

#[export] Instance PoolTx_encodable : Encodable PoolTx := {| encode_tx tx := Ok [pt_id tx] |}.

(** An encoder that gives up on every block, so that nothing is archived. *)
#[export] Program Instance no_archive : Borsh Server.ArchivedBlock := {|
  to_vec _ := None; from_slice _ := None |}.
Next Obligation. done. Qed.

Definition pool_stf : Stf PoolTx (Server.Block PoolTx) := {|
  begin_blocker _ _ := PRet tt;
  end_blocker _ := PRet tt;
  tx_validator _ _ := PRet (Ok tt);
  post_tx_handler _ _ _ _ := PRet (Ok tt);
  storage_gas_config := StorageGasConfig_default |}.

Definition base_map : gmap bytes bytes :=
  match to_vec "cell" with
  | Some v => {[ get_account_code_identifier_for_account_key cell_account := v ]}
  | None => ∅
  end.

Definition pool_tx (id : byte) (price gas : Z) : PoolTx := mkPoolTx id price 0 gas [x2a].

Definition tx_low : PoolTx := pool_tx x01 5 30000.
Definition tx_high : PoolTx := pool_tx x02 9 40000.
Definition tx_late : PoolTx := pool_tx x03 7 30000.

(** The pool after additions. *)
Definition added (txs : list PoolTx) : Mempool PoolTx :=
  foldl (fun p tx => match Mempool.add p tx with Some (_, p') => p' | None => p end) Mempool.new txs.

Definition adds (p : Mempool PoolTx) (tx : PoolTx) : bool :=
  match Mempool.add p tx with Some _ => true | None => false end.

Lemma producing_adds p l tx : adds p tx = true -> producing elements p l ->
  producing elements (match Mempool.add p tx with Some (_, p') => p' | None => p end) (list_step (OpAdd tx) l).2.
Proof.
  unfold adds. destruct (Mempool.add p tx) as [[r p']|] eqn:E; [|done]. intros _ Hp.
  exact (producing_add elements _ _ _ _ _ Hp E).
Qed.

Lemma added_producing : producing elements (added [tx_low; tx_high]) [tx_low; tx_high].
Proof.
  apply (producing_adds _ [tx_low] tx_high); [vm_compute; reflexivity|].
  apply (producing_adds _ [] tx_low); [vm_compute; reflexivity|]. apply producing_new.
Qed.

Definition engine : Server.DevConsensus PoolTx (gmap bytes bytes) unit unit unit :=
  Server.DevConsensus.with_mempool pool_stf base_map codes Server.config_manual (added [tx_low; tx_high]).

(** ** An engine over the database *)

(** A transaction that stores 5000 bytes. *)
Definition tx_oversized : PoolTx := mkPoolTx x04 5 0 1000000 (replicate 5000 x2a).

Definition cell_database : QmdbStorage (gmap bytes bytes) :=
  (QmdbStorage.batch reference_storage
     ((fun '(k, v) => OperationSet k v) <$> map_to_list base_map)).2.

Definition db_engine : Server.DevConsensus PoolTx (QmdbStorage (gmap bytes bytes)) unit unit unit :=
  Server.DevConsensus.with_mempool pool_stf cell_database codes Server.config_manual (added [tx_oversized]).

Lemma oversized_producing : producing elements (added [tx_oversized]) [tx_oversized].
Proof. apply (producing_adds _ [] tx_oversized); [vm_compute; reflexivity|]. apply producing_new. Qed.
