(* ===== verification/ServerTheorems.v ===== *)
(** * Theorems on the mempool and on block production *)

From S2P Require Import Prelude Core Gas ExecState ExecStateFacts Commit Runtime Invoker Codec Stf InvokerFacts.
From S2P Require Import CallFacts StfFacts Heap Mempool MempoolFacts MempoolSpec StorageBackend StorageTheorems Server.
From S2P Require Import ServerFacts ServerExample.

Open Scope evolve_scope.

(** ** The mempool *)
Section Pool.
Context {T : Type} `{MempoolTx T}.
Context (drained : gset Hash -> list Hash) (Hdrained : forall s, drained s ≡ₚ elements s).


(** C18: a proposal takes the best transactions that fit. In a pool as block
    production makes it, from an empty one by additions, proposals and
    finalisations of transactions in flight, without removals and clears, a
    proposal is the greedy choice, within the gas and count limits, from the
    pending transactions that are not in flight, in an order of descending
    priority; so it has no repetitions and respects the limits, and what it
    takes is in flight afterwards. *)
Theorem propose_takes_best p l max_gas max_txs selected gas p' : producing drained p l ->
  0 <= max_gas -> 0 <= max_txs -> Mempool.propose p max_gas max_txs = (selected, gas, p') ->
  exists order, order ≡ₚ queued p l /\ StronglySorted by_priority_order order /\
    selected = greedy max_gas max_txs 0 0 order /\ gas = gas_from 0 selected /\
    NoDup (tx_id <$> selected) /\ within_gas max_gas gas /\ (max_txs ≠ 0 -> zlen selected <= max_txs) /\
    in_flight p' = list_to_set (tx_id <$> selected) ∪ in_flight p.
Proof using Hdrained.
  intros Hp Hg Ht Hprop. destruct (propose_spec drained Hdrained _ _ _ _ _ _ _ Hp Hprop) as (order & Ho & Hs & Hsel & Hgas & Hf).
  destruct (producing_clean drained Hdrained p l Hp) as (bound & _ & Hrep & _).
  exists order. split_and!; try done.
  - rewrite Hsel. eapply sublist_NoDup; [|apply fmap_sublist, greedy_sublist]. rewrite Ho. unfold queued.
    eapply sublist_NoDup; [apply (rep_nodup _ _ _ Hrep) | apply fmap_sublist, sublist_filter].
  - rewrite Hgas, Hsel. apply greedy_within. unfold within_gas. lia.
  - intros Hn. rewrite Hsel. pose proof (greedy_count max_gas max_txs order 0 0 Hn). lia.
Qed.

(** C19: no transaction is lost. In a pool as block production makes it, from an
    empty one by additions, proposals and finalisations of transactions in
    flight, returning what is in flight and proposing without limits gives all
    pending transactions, each once, in an order of descending priority. *)
Theorem no_transaction_lost p l : producing drained p l ->
  let selected := (Mempool.propose (Mempool.finalize_draining drained p []) 0 0).1.1 in
  selected ≡ₚ l /\ StronglySorted by_priority_order selected.
Proof using Hdrained.
  intros Hp. pose proof (producing_finalize drained p l [] Hp ltac:(set_solver)) as Hf.
  assert (Hwithout : without [] l = l) by (apply filter_every; intros; apply not_elem_of_nil). rewrite Hwithout in Hf.
  set (q := Mempool.finalize_draining drained p []) in *.
  destruct (Mempool.propose q 0 0) as [[selected gas] q'] eqn:Eq. cbn [fst].
  destruct (propose_spec drained Hdrained _ _ _ _ _ _ _ Hf Eq) as (order & Ho & Hs & -> & _ & _).
  rewrite greedy_all. split; [|done]. rewrite Ho. unfold queued. rewrite filter_every; [done|].
  intros tx _. apply not_elem_of_empty.
Qed.

(** A transaction that is removed and submitted again is proposed twice.
    The entry that removal leaves in the heap counts again once the hash is
    back in the pool. *)
Theorem resubmitted_proposed_twice tx r1 p1 r2 p2 :
  Mempool.add Mempool.new tx = Some (r1, p1) ->
  Mempool.add (Mempool.remove p1 (tx_id tx)).2 tx = Some (r2, p2) ->
  (Mempool.propose p2 0 0).1.1 = [tx; tx].
Proof.
  intros H1 H2. pose proof represents_new as Hrep. destruct (represents_add _ _ _ _ _ _ Hrep ltac:(lia) eq_refl H1) as [_ Hrep1].
  destruct (add_new _ _ _ _ (lookup_empty _) H1) as (_ & _ & Ep1 & _).
  destruct (represents_remove _ _ _ (tx_id tx) Hrep1) as (q & Eq & Hrepq & Epq & _). rewrite Eq in H2. cbn [snd] in H2.
  assert (Hq : by_hash q !! tx_id tx = None).
  { rewrite (rep_hash _ _ _ Hrepq), pending_tx_without. by rewrite decide_True by (by apply list_elem_of_singleton). }
  destruct (add_new _ _ _ _ Hq H2) as (_ & Eh & Ep2 & _).
  set (e := mkOrderedEntry (tx_id tx) (ordering_key tx)) in *.
  assert (Hheap : is_heap entry_leb (by_priority p2)).
  { rewrite Ep2, Epq, Ep1. apply push_entry_heap, push_entry_heap, empty_heap. }
  unfold Mempool.propose. destruct (Mempool.select_with_gas_budget p2 0 0) as [[sel g] p3] eqn:Es. cbn [fst].
  destruct (select_with_gas_budget_spec _ _ _ _ _ _ Hheap Es) as (order & taken & stale & []).
  rewrite bs_greedy, greedy_all. rewrite Ep2, Epq, Ep1 in bs_order.
  assert (Ho : order ≡ₚ [e; e]) by (rewrite bs_order, !push_permutation; done).
  assert (order = [e; e]) as ->.
  { pose proof (Permutation_length Ho) as Hlen. destruct order as [|a [|b [|c o]]]; try done.
    assert (Hin : forall x, x ∈ [a; b] -> x = e) by (intros x Hx; rewrite Ho in Hx;
      by apply elem_of_cons in Hx as [?|[?|?%not_elem_of_nil]%elem_of_cons]).
    f_equal; [apply Hin; left | f_equal; apply Hin; right; left]. }
  unfold live. cbn. by rewrite Eh, lookup_insert_eq.
Qed.

End Pool.

(** ** Producing blocks from the mempool *)
Section Production.
Context `{RuntimeDeps} {Tx S I Subs Callback : Type}.
Context `{Transaction Tx} `{MempoolTx Tx} `{Encodable Tx} `{Storage S} `{Borsh Server.ArchivedBlock}.
Context (fuel : nat).
Context (drained : gset Hash -> list Hash) (Hdrained : forall s, drained s ≡ₚ elements s).
Context (Hgas : forall tx : Tx, mp_gas_limit tx = tx_gas_limit tx).

Abbreviation Dev := (Server.DevConsensus Tx S I Subs Callback).

(** The block an engine executes for a list of transactions. *)
Definition next_block (self : Dev) (now : Z) (txs : list Tx) : Server.Block Tx :=
  Server.DevConsensus.build_block self (Server.ds_height (Server.state self)) now (Server.last_hash (Server.state self)) txs.

Definition execute (self : Dev) (now : Z) (txs : list Tx) : Outcome BlockResult :=
  Stf.apply_block (Server.stf self) (Server.codes self) fuel (storage_get (Server.dc_storage self)) (next_block self now txs).

(** The changes of an execution that a storage took, in one batch and a commit. *)
Definition committed (storage : S) (w : World) (storage' : S) : Prop :=
  exists changes s h, ExecutionState.into_changes (w_storage w) = Ok changes /\
    storage_batch storage (state_changes_to_operations changes) = (Ok tt, s) /\ storage_commit s = (Ok h, storage').

Lemma produce_ok (self : Dev) now txs b tasks self' :
  Server.DevConsensus.produce_block_with_txs fuel self now txs = Some (Ok b, tasks, self') ->
  exists result w, execute self now txs = Done result w /\ Server.tx_count b = zlen (tx_results result) /\
    committed (Server.dc_storage self) w (Server.dc_storage self').
Proof.
  unfold Server.DevConsensus.produce_block_with_txs, execute, next_block. cbv zeta. cbn [Server.state Server.DevConsensus.set_state].
  destruct (Stf.apply_block _ _ _ _ _) as [result w| |]; [|done|done].
  destruct (ExecutionState.into_changes _) as [changes|] eqn:Hc; [|done].
  destruct (storage_batch _ _) as [[[]|] s] eqn:Hb; [|done]. destruct (storage_commit _) as [[h|] s'] eqn:Hs; [|done].
  intros [= <- _ <-]. exists result, w. split_and!; [done..|]. by exists changes, s, h.
Qed.

Lemma produce_mempool (self : Dev) now txs r tasks self' :
  Server.DevConsensus.produce_block_with_txs fuel self now txs = Some (r, tasks, self') ->
  Server.mempool self' = Server.mempool self.
Proof.
  unfold Server.DevConsensus.produce_block_with_txs. cbv zeta.
  destruct (Stf.apply_block _ _ _ _ _) as [result w| |]; [|done|done].
  destruct (ExecutionState.into_changes _); [|by intros [= _ _ <-]].
  destruct (storage_batch _ _) as [[] s]; [|by intros [= _ _ <-]].
  destruct (storage_commit _) as [[] s']; by intros [= _ _ <-].
Qed.

(** How [produce_block_from_mempool] is composed. *)
Lemma from_mempool_steps (self self' : Dev) pool meanwhile now max_txs r tasks selected gas pool1 :
  Server.mempool self = Some pool -> max_txs ≠ 0 ->
  Mempool.propose pool (Server.dev_gas_limit (Server.config self)) max_txs = (selected, gas, pool1) ->
  Server.DevConsensus.produce_block_from_mempool fuel drained meanwhile self now max_txs = Some (r, tasks, self') ->
  exists self2, Server.DevConsensus.produce_block_with_txs fuel (Server.DevConsensus.set_mempool self (meanwhile pool1))
                  now selected = Some (r, tasks, self2) /\
    Server.dc_storage self' = Server.dc_storage self2 /\ Server.state self' = Server.state self2 /\
    Server.mempool self' = Some (finalised drained selected (meanwhile pool1)
      match r with Ok b => take (Z.to_nat (Server.tx_count b)) (tx_id <$> selected) | Err _ => [] end).
Proof.
  intros Hpool Hmax Eprop. unfold Server.DevConsensus.produce_block_from_mempool. rewrite Hpool, Eprop.
  destruct (Z.eqb_spec max_txs 0); [done|].
  destruct (Server.DevConsensus.produce_block_with_txs _ _ _ _) as [[[r1 tasks1] self2]|] eqn:Eprod; [|done].
  cbn [mbind option_bind]. pose proof (produce_mempool _ _ _ _ _ _ Eprod) as Hmp. cbn in Hmp. rewrite Hmp.
  intros Heq. exists self2. unfold finalised. case_bool_decide.
  all: destruct r1; injection Heq as <- <- <-; by rewrite ?Hmp.
Qed.

(** C10: the block, the storage and the mempool agree on what was executed. For
    a producing pool with nothing in flight, a positive gas limit of the engine
    and a count limit that is not zero, and whatever transactions arrive while
    the block is produced: on success the executed transactions are the first
    [tx_count] selected ones, run one after the other with their results, the
    changes of that execution are batched into the storage and committed, which
    is the storage the engine is left with, and exactly the executed
    transactions leave the pool; on failure none leaves it; nothing stays in
    flight. *)
Theorem production_finalises_executed (self self' : Dev) pool l arrivals now max_txs r tasks :
  Server.mempool self = Some pool -> producing drained pool l -> in_flight pool = ∅ ->
  Forall (fun tx => is_u64 (tx_gas_limit tx)) l -> config_wf (storage_gas_config (Server.stf self)) ->
  0 < Server.dev_gas_limit (Server.config self) -> max_txs ≠ 0 ->
  Server.DevConsensus.produce_block_from_mempool fuel drained (arrive arrivals) self now max_txs
    = Some (r, tasks, self') ->
  exists selected pool' l', Server.mempool self' = Some pool' /\ in_flight pool' = ∅ /\
    selected = (Mempool.propose pool (Server.dev_gas_limit (Server.config self)) max_txs).1.1 /\
    l `prefix_of` l' /\ l' ⊆ l ++ arrivals /\
    match r with
    | Err _ => producing drained pool' l'
    | Ok b => exists result w w1 w2, execute self now selected = Done result w /\
        Server.tx_count b = zlen (tx_results result) /\
        in_order (Server.stf self) (Server.codes self) fuel (block_context (next_block self now selected)) w1
          (take (length (tx_results result)) selected) (tx_results result) w2 /\
        committed (Server.dc_storage self) w (Server.dc_storage self') /\
        producing drained pool' (without (tx_id <$> take (length (tx_results result)) selected) l')
    end.
Proof using Hdrained Hgas.
  intros Hpool Hp Hfly Hu Hcfg Hlim Hmax Hrun.
  destruct (Mempool.propose pool (Server.dev_gas_limit (Server.config self)) max_txs) as [[selected gas] pool1] eqn:Eprop.
  pose proof (proposal_fits drained Hdrained Hgas _ _ _ _ _ _ _ Hp Hlim Eprop) as Hfits.
  destruct (after_proposal drained Hdrained _ _ arrivals _ _ _ _ _ Hp Hfly Eprop) as (l' & Hp2 & Hpre & Hsub & Hfly2 & Hin).
  destruct (from_mempool_steps _ _ _ _ _ _ _ _ _ _ _ Hpool Hmax Eprop Hrun) as (self2 & Hprod & Hst & _ & Hmp).
  exists selected, (finalised drained selected (arrive arrivals pool1)
      match r with Ok b => take (Z.to_nat (Server.tx_count b)) (tx_id <$> selected) | Err _ => [] end), l'.
  destruct (finalised_producing drained selected _ l'
      match r with Ok b => take (Z.to_nat (Server.tx_count b)) (tx_id <$> selected) | Err _ => [] end Hp2 Hfly2)
    as [Hf Hpf].
  { destruct r; [apply subseteq_take | apply list_subseteq_nil]. }
  split_and!; try done. destruct r as [b|err]; [|by rewrite without_none in Hpf].
  destruct (produce_ok _ _ _ _ _ _ Hprod) as (result & w & Hexec & Hcount & Hcom).
  assert (Hsu : Forall (fun tx => is_u64 (tx_gas_limit tx)) selected).
  { apply Forall_forall. intros tx Htx. eapply Forall_forall in Hu; [done | by apply Hin]. }
  pose proof (apply_block_in_order (Server.stf self) (Server.codes self) fuel (storage_get (Server.dc_storage self))
    (next_block self now selected) result w Hcfg) as Hord.
  destruct (Hord Hsu Hfits Hexec) as (w1 & w2 & _ & Ho & _).
  exists result, w, w1, w2. rewrite Hst. split_and!; try done.
  rewrite Hcount in Hpf |- *. unfold zlen in *. rewrite Nat2Z.id, <-fmap_take in *. done.
Qed.

End Production.

(** ** A transaction that stops the chain *)
Section Stuck.
Context `{RuntimeDeps} {Tx DB I Subs Callback : Type}.
Context `{Transaction Tx} `{MempoolTx Tx} `{Encodable Tx} `{Qmdb DB} `{Borsh Server.ArchivedBlock}.
Context (fuel : nat).
Context (drained : gset Hash -> list Hash) (Hdrained : forall s, drained s ≡ₚ elements s).
Context (Hgas : forall tx : Tx, mp_gas_limit tx = tx_gas_limit tx).

Abbreviation Dev := (Server.DevConsensus Tx (QmdbStorage DB) I Subs Callback).

(** A run whose changes the database does not take: the limits of the storage
    are lower than those of the execution. *)
Definition uncommittable (o : Outcome BlockResult) : bool :=
  match o with
  | Done _ w =>
      match ExecutionState.into_changes (w_storage w) with
      | Ok changes => bool_decide (is_Some (batch_error (state_changes_to_operations changes)))
      | Err _ => false
      end
  | _ => false
  end.

Lemma batch_rejects (s : QmdbStorage DB) ops e : batch_error ops = Some e ->
  QmdbStorage.batch s ops = (Err (map_storage_error e), s).
Proof.
  intros He. pose proof (prepare_batch_spec ops) as Hp. rewrite He in Hp.
  unfold QmdbStorage.batch, QmdbStorage.apply_batch. by rewrite Hp.
Qed.

Lemma produce_uncommittable (self : Dev) now txs : uncommittable (execute fuel self now txs) = true ->
  exists err self', Server.DevConsensus.produce_block_with_txs fuel self now txs = Some (Err err, [], self') /\
    self' = Server.DevConsensus.set_state self
      (Server.mkDevState (wrap64 (Server.ds_height (Server.state self) + 1)) (Server.last_hash (Server.state self))
         (Server.last_timestamp (Server.state self))).
Proof.
  unfold Server.DevConsensus.produce_block_with_txs, execute, next_block. cbv zeta.
  cbn [Server.state Server.DevConsensus.set_state Server.stf Server.codes Server.dc_storage Server.config].
  destruct (Stf.apply_block _ _ _ _ _) as [result w| |]; [|done|done]. cbn [uncommittable].
  destruct (ExecutionState.into_changes _) as [changes|]; [|done]. intros [e He]%bool_decide_eq_true.
  cbn [storage_batch qmdb_storage]. rewrite (batch_rejects _ _ _ He). eexists _, _. split; [done|]. by destruct self.
Qed.

Fixpoint ticks (self : Dev) (nows : list Z) (max_txs : Z)
    : option (list (Result Server.ServerError Server.ProducedBlock) * Dev) :=
  match nows with
  | [] => Some ([], self)
  | now :: nows =>
      '(r, _, self) ← Server.DevConsensus.production_tick fuel drained (fun pool => pool) self now max_txs;
      '(rs, self) ← ticks self nows max_txs;
      Some (r :: rs, self)
  end.

(** One tick with a transaction whose changes cannot be committed. *)
Lemma stuck_tick (self : Dev) pool tx now max_txs :
  Server.mempool self = Some pool -> producing drained pool [tx] -> in_flight pool = ∅ -> 0 < max_txs ->
  saturating_add u64_max 0 (tx_gas_limit tx) <= Server.dev_gas_limit (Server.config self) ->
  uncommittable (execute fuel self now [tx]) = true ->
  exists err self' pool', Server.DevConsensus.production_tick fuel drained (fun pool => pool) self now max_txs
      = Some (Err err, [], self') /\
    Server.mempool self' = Some pool' /\ producing drained pool' [tx] /\ in_flight pool' = ∅ /\
    Server.dc_storage self' = Server.dc_storage self /\ Server.stf self' = Server.stf self /\
    Server.codes self' = Server.codes self /\ Server.config self' = Server.config self.
Proof using Hdrained Hgas.
  intros Hpool Hp Hfly Hmax Hfit Hun. unfold Server.DevConsensus.production_tick, Server.DevConsensus.produce_block_from_mempool.
  rewrite Hpool. destruct (Z.eqb_spec max_txs 0); [lia|].
  destruct (Mempool.propose pool _ max_txs) as [[selected gas] pool1] eqn:Eprop.
  destruct (after_proposal drained Hdrained _ _ [] _ _ _ _ _ Hp Hfly Eprop) as (l' & Hp2 & Hpre & Hsub & Hfly2 & _).
  cbn [arrive foldl] in *. rewrite app_nil_r in Hsub.
  pose proof (producing_propose drained pool [tx] (Server.dev_gas_limit (Server.config self)) max_txs Hp) as Hp1.
  rewrite Eprop in Hp1. cbn [snd] in Hp1.
  assert (selected = [tx]) as ->.
  { destruct (propose_spec drained Hdrained _ _ _ _ _ _ _ Hp Eprop) as (order & Ho & _ & -> & _ & _).
    unfold queued in Ho. rewrite filter_every in Ho by (intros; rewrite Hfly; apply not_elem_of_empty).
    apply Permutation_singleton_r in Ho as ->. cbn. rewrite Hgas.
    destruct (Z.ltb_spec 0 max_txs), (Z.leb_spec (saturating_add u64_max 0 (tx_gas_limit tx)) (Server.dev_gas_limit (Server.config self)));
      try lia. by rewrite !orb_true_r. }
  destruct (produce_uncommittable (Server.DevConsensus.set_mempool self pool1) now [tx] Hun) as (err & self' & -> & ->).
  cbn [mbind option_bind]. cbn. eexists err, _, _. split; [done|].
  cbn. split; [done|]. split; [|done].
  destruct (finalised_producing drained [tx] pool1 [tx] [] Hp1 Hfly2 (list_subseteq_nil _)) as [_ Hf].
  by rewrite without_none in Hf.
Qed.

(** A transaction whose changes exceed the limits of the database stops
    block production. The execution accepts values that the storage rejects
    (up to 1 MiB against 4092 bytes), so the block cannot be committed; the
    proposal goes back to the pool, is proposed again, and every later tick
    fails in the same way while the height still advances. *)
Theorem oversized_value_stops_production (self : Dev) pool tx nows max_txs :
  Server.mempool self = Some pool -> producing drained pool [tx] -> in_flight pool = ∅ -> 0 < max_txs ->
  saturating_add u64_max 0 (tx_gas_limit tx) <= Server.dev_gas_limit (Server.config self) ->
  (forall (self1 : Dev) now, Server.stf self1 = Server.stf self -> Server.codes self1 = Server.codes self ->
     Server.dc_storage self1 = Server.dc_storage self -> Server.config self1 = Server.config self ->
     uncommittable (execute fuel self1 now [tx]) = true) ->
  exists results self' pool', ticks self nows max_txs = Some (results, self') /\
    Forall (fun r => is_err r = true) results /\ length results = length nows /\
    Server.dc_storage self' = Server.dc_storage self /\
    Server.mempool self' = Some pool' /\ producing drained pool' [tx].
Proof using Hdrained Hgas.
  intros Hpool Hp Hfly Hmax. revert self pool Hpool Hp Hfly.
  induction nows as [|now nows IH]; intros self pool Hpool Hp Hfly Hfit Hun.
  { exists [], self, pool. done. }
  destruct (stuck_tick self pool tx now max_txs Hpool Hp Hfly Hmax Hfit (Hun self now eq_refl eq_refl eq_refl eq_refl))
    as (err & self1 & pool1 & Ht & Hpool1 & Hp1 & Hfly1 & Es & Estf & Ecodes & Econf).
  destruct (IH self1 pool1 Hpool1 Hp1 Hfly1) as (results & self' & pool' & Hrun & Herr & Hlen & Hs & Hpool' & Hp').
  - by rewrite Econf.
  - intros self2 now2 E1 E2 E3 E4. apply Hun; congruence.
  - exists (Err err :: results), self', pool'. cbn [ticks]. rewrite Ht. cbn [mbind option_bind]. rewrite Hrun.
    split_and!; try done; [by constructor | cbn; congruence | congruence].
Qed.

End Stuck.

(** ** Witnesses *)

Import Reference.

Lemma drained_elements (s : gset Hash) : elements s ≡ₚ elements s.
Proof. done. Qed.

Lemma pool_config : config_wf (storage_gas_config (Server.stf engine)).
Proof. exact (ltac:(by_decision) : config_wf StorageGasConfig_default). Qed.

Lemma pool_gas (tx : PoolTx) : mp_gas_limit tx = tx_gas_limit tx.
Proof. done. Qed.




Lemma propose_takes_best_witness :
  (Mempool.propose (added [tx_low; tx_high]) 60000 0).1 = ([tx_high], 40000) /\
  NoDup (tx_id <$> [tx_high]).
Proof.
  assert (E : (Mempool.propose (added [tx_low; tx_high]) 60000 0).1 = ([tx_high], 40000)) by (vm_compute; reflexivity).
  split; [exact E|].
  destruct (Mempool.propose (added [tx_low; tx_high]) 60000 0) as [[sel gas] p'] eqn:Ep. cbn [fst] in E.
  injection E as -> ->.
  destruct (propose_takes_best elements drained_elements _ _ 60000 0 _ _ _ added_producing ltac:(lia) ltac:(lia) Ep)
    as (order & _ & _ & _ & _ & Hnd & _). exact Hnd.
Defined.

Lemma no_transaction_lost_witness :
  (Mempool.propose (Mempool.finalize_draining elements (Mempool.propose (added [tx_low; tx_high]) 0 1).2 []) 0 0).1.1
    ≡ₚ [tx_low; tx_high].
Proof.
  apply (no_transaction_lost elements drained_elements (Mempool.propose (added [tx_low; tx_high]) 0 1).2 [tx_low; tx_high]).
  apply producing_propose, added_producing.
Defined.

Lemma resubmitted_proposed_twice_witness :
  match Mempool.add Mempool.new tx_low with
  | Some (_, p1) =>
      match Mempool.add (Mempool.remove p1 (tx_id tx_low)).2 tx_low with
      | Some (_, p2) => (Mempool.propose p2 0 0).1.1 = [tx_low; tx_low]
      | None => False
      end
  | None => False
  end.
Proof.
  assert (Hc : match Mempool.add Mempool.new tx_low with
    | Some (_, p1) => adds (Mempool.remove p1 (tx_id tx_low)).2 tx_low | None => false end = true) by (vm_compute; reflexivity).
  destruct (Mempool.add Mempool.new tx_low) as [[r1 p1]|] eqn:E1; [|discriminate Hc]. unfold adds in Hc.
  destruct (Mempool.add (Mempool.remove p1 (tx_id tx_low)).2 tx_low) as [[r2 p2]|] eqn:E2; [|discriminate Hc].
  exact (resubmitted_proposed_twice tx_low r1 p1 r2 p2 E1 E2).
Defined.

Lemma production_finalises_executed_witness :
  match Server.DevConsensus.produce_block_from_mempool 5 elements (arrive [tx_late]) engine 17 10 with
  | Some (Ok b, _, self') => Server.tx_count b = 2 /\
      match Server.mempool self' with Some pool' => in_flight pool' = ∅ | None => False end
  | _ => False
  end.
Proof.
  assert (Hc : match Server.DevConsensus.produce_block_from_mempool 5 elements (arrive [tx_late]) engine 17 10 with
    | Some (Ok b, _, _) => Server.tx_count b =? 2 | _ => false end = true) by (vm_compute; reflexivity).
  destruct (Server.DevConsensus.produce_block_from_mempool 5 elements (arrive [tx_late]) engine 17 10)
    as [[[[b|e] tasks] self']|] eqn:Er; [|discriminate Hc..]. apply Z.eqb_eq in Hc. split; [exact Hc|].
  destruct (production_finalises_executed 5 elements drained_elements pool_gas engine self'
    (added [tx_low; tx_high]) [tx_low; tx_high] [tx_late] 17 10 (Ok b) tasks eq_refl added_producing) as (selected & pool' & l' & -> & Hf & _).
  - vm_compute. reflexivity.
  - by_decision.
  - exact pool_config.
  - by_decision.
  - discriminate.
  - exact Er.
  - exact Hf.
Defined.

Lemma oversized_value_stops_production_witness :
  exists results self' pool', ticks 5 elements db_engine [1; 2; 3] 10 = Some (results, self') /\
    Forall (fun r => is_err r = true) results /\ length results = 3%nat /\
    Server.dc_storage self' = Server.dc_storage db_engine /\
    Server.mempool self' = Some pool' /\ producing elements pool' [tx_oversized].
Proof.
  apply (oversized_value_stops_production 5 elements drained_elements pool_gas db_engine (added [tx_oversized])
    tx_oversized [1; 2; 3] 10 eq_refl oversized_producing).
  - vm_compute. reflexivity.
  - lia.
  - vm_compute. discriminate.
  - intros self1 now E1 E2 E3 E4. unfold execute, next_block, Server.DevConsensus.build_block.
    rewrite E1, E2, E3, E4. vm_compute. reflexivity.
Defined.
