(* ===== verification/EthTx.v ===== *)
(** * Ethereum transactions

    Models [crates/app/tx/eth/src]: the signed transactions ([ethereum/]), the
    typed envelope ([envelope.rs]), payloads, the transaction context that the
    mempool and the state transition function work on ([mempool.rs]), the
    decoder, the signature verifiers and the gateway. The RLP code and the
    transaction types of alloy, and the secp256k1 library, are classes. *)

From S2P Require Import Prelude Core Runtime Invoker Stf Mempool Server.

Open Scope evolve_scope.

(** ** [error.rs], [sender_type.rs] *)
Definition ERR_INVALID_SIGNATURE : ErrorCode := define_error 0x10.
Definition ERR_SIGNATURE_RECOVERY : ErrorCode := define_error 0x11.
Definition ERR_INVALID_CHAIN_ID : ErrorCode := define_error 0x12.
Definition ERR_UNSUPPORTED_TX_TYPE : ErrorCode := define_error 0x13.
Definition ERR_TX_DECODE : ErrorCode := define_error 0x14.
Definition ERR_EMPTY_INPUT : ErrorCode := define_error 0x15.
Definition ERR_SENDER_MISMATCH : ErrorCode := define_error 0x17.
Definition ERR_UNSUPPORTED_SENDER_TYPE : ErrorCode := define_error 0x1A.
Definition ERR_NONCE_OVERFLOW : ErrorCode := define_error 0x1B.
Definition ERR_NONCE_TOO_LOW : ErrorCode := define_error 0x18.
Definition ERR_NONCE_TOO_HIGH : ErrorCode := define_error 0x19.
Definition ERR_RECIPIENT_REQUIRED : ErrorCode := define_error 0x50.
Definition ERR_ADDRESS_ACCOUNT_CONFLICT : ErrorCode := define_error 0x5A.

Definition EOA_SECP256K1 : Z := 0x0001.
Definition CUSTOM : Z := 0x8000.

(** ** The transactions of alloy

    A [Signature] has the scalars [r] and [s] and the parity of [y]. *)
Record Signature := mkSignature { sig_r : Z; sig_s : Z; sig_v : bool }.

Inductive TxKind := Create | Call (to : Address).

Record TxLegacy := mkTxLegacy {
  leg_chain_id : option Z; leg_nonce : Z; leg_gas_price : Z; leg_gas_limit : Z; leg_to : TxKind;
  leg_value : Z; leg_input : bytes }.

Record TxEip1559 := mkTxEip1559 {
  fee_chain_id : Z; fee_nonce : Z; fee_gas_limit : Z; fee_max_fee_per_gas : Z;
  fee_max_priority_fee_per_gas : Z; fee_to : TxKind; fee_value : Z;
  fee_access_list : list (Address * list B256); fee_input : bytes }.

Record Signed (T : Type) := mkSigned { signed_tx : T; signature : Signature }.
Arguments mkSigned {T} _ _.
Arguments signed_tx {T} _.
Arguments signature {T} _.

(** The RLP code of one type of transaction, and what it documents: the
    encoding of a signed transaction is a list, whose first byte is at least
    [0xc0]; a decoder consumes a prefix; and what has been decoded decodes again
    after it is encoded. *)
Class AlloyTx (T : Type) := {
  rlp_encode : Signed T -> bytes;
  rlp_decode : bytes -> option (Signed T * bytes);
  signature_hash : T -> B256;
  alloy_hash : Signed T -> B256;
  rlp_list : forall s, exists b l, rlp_encode s = b :: l /\ 0xc0 <= Z_of_byte b;
  rlp_decode_prefix : forall b s rest, rlp_decode b = Some (s, rest) -> exists raw, b = raw ++ rest;
  rlp_decode_encode : forall b s rest rest',
    rlp_decode b = Some (s, rest) -> rlp_decode (rlp_encode s ++ rest') = Some (s, rest')
}.

(** The secp256k1 library: public keys are recovered from a digest. *)
Class Secp256k1 := {
  RecoveryId : Type;
  RecoverableSignature : Type;
  PublicKey : Type;
  recovery_id_from_i32 : Z -> option RecoveryId;
  from_compact : bytes -> RecoveryId -> option RecoverableSignature;
  recover_ecdsa : B256 -> RecoverableSignature -> option PublicKey;
  serialize_uncompressed : PublicKey -> bytes
}.

Section Recovery.
Context `{Keccak}.

(** The last twenty bytes of a digest. *)
Definition address_of_digest (d : B256) : Address := (Vector.splitat 12 (d : vec byte (12 + 20))).2.

(** ** [ethereum/recovery.rs] *)
Definition recover_sender_from_signature_hash `{Secp256k1} (signature_hash : B256) (signature : Signature)
    : SdkResult Address :=
  let compact := be_bytes 32 (sig_r signature) ++ be_bytes 32 (sig_s signature) in
  recid ← ok_or (recovery_id_from_i32 (if sig_v signature then 1 else 0)) ERR_SIGNATURE_RECOVERY;
  recoverable ← ok_or (from_compact compact recid) ERR_SIGNATURE_RECOVERY;
  pubkey ← ok_or (recover_ecdsa signature_hash recoverable) ERR_SIGNATURE_RECOVERY;
  let uncompressed := serialize_uncompressed pubkey in
  Ok (address_of_digest (keccak256 (drop 1 uncompressed))).

(** ** [traits.rs]: account identifiers are derived under a domain tag *)
Definition DOMAIN_EOA_ETH_V1 : bytes := String.list_byte_of_string "eoa:eth:v1".
Definition DOMAIN_CONTRACT_RUNTIME_V1 : bytes := String.list_byte_of_string "contract:runtime:v1".
Definition DOMAIN_SYSTEM_V1 : bytes := String.list_byte_of_string "system:v1".
Definition DOMAIN_CONTRACT_ADDR_RUNTIME_V1 : bytes := String.list_byte_of_string "contract:addr:runtime:v1".

Definition derive_account_id (domain_tag payload : bytes) : AccountId :=
  AccountId.from_bytes (keccak256 (domain_tag ++ payload)).

Definition derive_eth_eoa_account_id (addr : Address) : AccountId :=
  derive_account_id DOMAIN_EOA_ETH_V1 (vec_to_list addr).

Definition derive_runtime_contract_account_id (creation_entropy : bytes) : AccountId :=
  derive_account_id DOMAIN_CONTRACT_RUNTIME_V1 creation_entropy.

Definition derive_system_account_id (module_name : string) : AccountId :=
  derive_account_id DOMAIN_SYSTEM_V1 (string_bytes module_name).

Definition derive_runtime_contract_address (account_id : AccountId) : Address :=
  address_of_digest (keccak256 (DOMAIN_CONTRACT_ADDR_RUNTIME_V1 ++ AccountId.as_bytes account_id)).

End Recovery.

(** ** [ethereum/mod.rs] *)
Definition invoke_request_from_input (input : bytes) : InvokeRequest :=
  let '(function_id, args) :=
    if 4 <=? zlen input then (be_value (take 4 input), drop 4 input) else (0, input) in
  InvokeRequest.new_from_message "eth_dispatch" function_id (Message.from_bytes args).

(** ** [ethereum/legacy.rs], [ethereum/eip1559.rs] *)
Record SignedLegacyTx := mkSignedLegacyTx {
  sl_inner : Signed TxLegacy; sl_sender : Address; sl_hash : B256 }.

Record SignedEip1559Tx := mkSignedEip1559Tx {
  sf_inner : Signed TxEip1559; sf_sender : Address; sf_hash : B256 }.

Definition kind_to (k : TxKind) : option Address := match k with Create => None | Call to => Some to end.

Module tx_type.
Definition LEGACY : Z := 0x00.
Definition EIP2930 : Z := 0x01.
Definition EIP1559 : Z := 0x02.
Definition EIP4844 : Z := 0x03.
End tx_type.

Section Signing.
Context `{Keccak} `{Secp256k1} `{AlloyTx TxLegacy} `{AlloyTx TxEip1559}.

Definition legacy_from_alloy_with_bytes (signed : Signed TxLegacy) (raw_bytes : bytes) : SdkResult SignedLegacyTx :=
  sender ← recover_sender_from_signature_hash (signature_hash (signed_tx signed)) (signature signed);
  Ok (mkSignedLegacyTx signed sender (keccak256 raw_bytes)).

Definition legacy_from_alloy (signed : Signed TxLegacy) : SdkResult SignedLegacyTx :=
  sender ← recover_sender_from_signature_hash (signature_hash (signed_tx signed)) (signature signed);
  Ok (mkSignedLegacyTx signed sender (alloy_hash signed)).

Definition eip1559_from_alloy_with_bytes (signed : Signed TxEip1559) (rlp_bytes : bytes) : SdkResult SignedEip1559Tx :=
  sender ← recover_sender_from_signature_hash (signature_hash (signed_tx signed)) (signature signed);
  Ok (mkSignedEip1559Tx signed sender (keccak256 (byte_of_Z tx_type.EIP1559 :: rlp_bytes))).

Definition eip1559_from_alloy (signed : Signed TxEip1559) : SdkResult SignedEip1559Tx :=
  sender ← recover_sender_from_signature_hash (signature_hash (signed_tx signed)) (signature signed);
  Ok (mkSignedEip1559Tx signed sender (alloy_hash signed)).

End Signing.

(** ** [envelope.rs] *)
Inductive TxEnvelope :=
| Legacy (tx : SignedLegacyTx)
| Eip1559 (tx : SignedEip1559Tx).

(** [ErrorCodeExt::with_arg]. *)
Definition with_arg (self : ErrorCode) (arg : Z) : ErrorCode := ErrorCode_new_with_arg (err_id self) arg.

Module TxEnvelope.
Section Methods.
Context `{Keccak} `{Secp256k1} `{AlloyTx TxLegacy} `{AlloyTx TxEip1559}.

Definition encode (self : TxEnvelope) : bytes :=
  match self with
  | Legacy tx => rlp_encode (sl_inner tx)
  | Eip1559 tx => byte_of_Z tx_type.EIP1559 :: rlp_encode (sf_inner tx)
  end.

(** The bytes consumed are those before the cursor the decoder leaves. *)
Definition consumed_by (input cursor : bytes) : nat := length input - length cursor.

Definition decode_from (input : bytes) : SdkResult (TxEnvelope * bytes) :=
  match input with
  | [] => Err ERR_EMPTY_INPUT
  | first_byte :: payload =>
      let ty := Z_of_byte first_byte in
      if 0xc0 <=? ty then
        '(signed, cursor) ← ok_or (rlp_decode (T := TxLegacy) input) ERR_TX_DECODE;
        let consumed := consumed_by input cursor in
        tx ← legacy_from_alloy_with_bytes signed (take consumed input);
        Ok (Legacy tx, drop consumed input)
      else if ty =? tx_type.LEGACY then Err (with_arg ERR_UNSUPPORTED_TX_TYPE tx_type.LEGACY)
      else if ty =? tx_type.EIP1559 then
        '(signed, cursor) ← ok_or (rlp_decode (T := TxEip1559) payload) ERR_TX_DECODE;
        let consumed := consumed_by payload cursor in
        tx ← eip1559_from_alloy_with_bytes signed (take consumed payload);
        Ok (Eip1559 tx, drop (1 + consumed) input)
      else Err (with_arg ERR_UNSUPPORTED_TX_TYPE ty)
  end.

Definition decode (b : bytes) : SdkResult TxEnvelope :=
  '(tx, rest) ← decode_from b;
  if bool_decide (rest = []) then Ok tx else Err ERR_TX_DECODE.

End Methods.

Definition tx_type (self : TxEnvelope) : Z :=
  match self with Legacy _ => tx_type.LEGACY | Eip1559 _ => tx_type.EIP1559 end.
Definition sender (self : TxEnvelope) : Address :=
  match self with Legacy tx => sl_sender tx | Eip1559 tx => sf_sender tx end.
Definition tx_hash (self : TxEnvelope) : B256 :=
  match self with Legacy tx => sl_hash tx | Eip1559 tx => sf_hash tx end.
Definition gas_limit (self : TxEnvelope) : Z :=
  match self with
  | Legacy tx => leg_gas_limit (signed_tx (sl_inner tx))
  | Eip1559 tx => fee_gas_limit (signed_tx (sf_inner tx))
  end.
Definition chain_id (self : TxEnvelope) : option Z :=
  match self with
  | Legacy tx => leg_chain_id (signed_tx (sl_inner tx))
  | Eip1559 tx => Some (fee_chain_id (signed_tx (sf_inner tx)))
  end.
Definition nonce (self : TxEnvelope) : Z :=
  match self with
  | Legacy tx => leg_nonce (signed_tx (sl_inner tx))
  | Eip1559 tx => fee_nonce (signed_tx (sf_inner tx))
  end.
Definition to (self : TxEnvelope) : option Address :=
  match self with
  | Legacy tx => kind_to (leg_to (signed_tx (sl_inner tx)))
  | Eip1559 tx => kind_to (fee_to (signed_tx (sf_inner tx)))
  end.
Definition value (self : TxEnvelope) : Z :=
  match self with
  | Legacy tx => leg_value (signed_tx (sl_inner tx))
  | Eip1559 tx => fee_value (signed_tx (sf_inner tx))
  end.
Definition input (self : TxEnvelope) : bytes :=
  match self with
  | Legacy tx => leg_input (signed_tx (sl_inner tx))
  | Eip1559 tx => fee_input (signed_tx (sf_inner tx))
  end.

Definition to_invoke_requests (self : TxEnvelope) : list InvokeRequest :=
  match to self with None => [] | Some _ => [invoke_request_from_input (input self)] end.

(** The default methods of [TypedTransaction]. *)
Definition sender_account_id `{Keccak} (self : TxEnvelope) : AccountId := derive_eth_eoa_account_id (sender self).
Definition recipient_account_id `{Keccak} (self : TxEnvelope) : option AccountId :=
  derive_eth_eoa_account_id <$> to self.

End TxEnvelope.

(** ** [payload.rs] *)
Inductive TxPayload := PayloadEoa (envelope : TxEnvelope) | PayloadCustom (raw : bytes).

Record EthIntentPayload := mkEthIntentPayload { intent_envelope : bytes; auth_proof : bytes }.
