(* ===== verification/EthContext.v ===== *)
(** * Transaction contexts, the account registry and the gateway

    Models [eoa_registry.rs], [mempool.rs], [payload.rs], [decoder.rs],
    [verifier/] and [gateway.rs] of [crates/app/tx/eth/src]: how bytes from the
    network become a [TxContext], what the runtime asks of it, and the registry
    of addresses and account identifiers in the runtime's own storage. *)

From S2P Require Import Prelude Core Runtime Invoker Stf Mempool Server EthTx.

Open Scope evolve_scope.

(** ** The wire format of [mempool.rs] *)
Definition TX_CONTEXT_WIRE_MAGIC : bytes := String.list_byte_of_string "ctx1".

Inductive TxPayloadWire := WireEoa (raw : bytes) | WireCustom (raw : bytes).

Record TxContextWireV1 := mkTxContextWireV1 {
  w_sender_type : Z; w_payload : TxPayloadWire; w_tx_hash : B256; w_gas_limit : Z; w_nonce : Z;
  w_chain_id : option Z; w_effective_gas_price : Z; w_invoke_request : InvokeRequest;
  w_funds : list FungibleAsset; w_sender_account : AccountId; w_recipient_account : option AccountId;
  w_sender_key : bytes; w_authentication_payload : Message; w_sender_eth_address : option Address;
  w_recipient_eth_address : option Address }.

(** What borsh gives these types. *)
Class EthCodec := {
  eth_address :: Borsh Address;
  eth_wire :: Borsh TxContextWireV1;
  eth_intent :: Borsh EthIntentPayload
}.

(** ** [eoa_registry.rs] *)
Definition EOA_ADDR_TO_ID_PREFIX : bytes := String.list_byte_of_string "registry/eoa/eth/a2i/".
Definition EOA_ID_TO_ADDR_PREFIX : bytes := String.list_byte_of_string "registry/eoa/eth/i2a/".
Definition CONTRACT_ADDR_TO_ID_PREFIX : bytes := String.list_byte_of_string "registry/contract/runtime/a2i/".
Definition CONTRACT_ID_TO_ADDR_PREFIX : bytes := String.list_byte_of_string "registry/contract/runtime/i2a/".
Definition ETH_EOA_CODE_ID : string := "EthEoaAccount".

Definition addr_to_id_key (address : Address) : bytes := EOA_ADDR_TO_ID_PREFIX ++ vec_to_list address.
Definition id_to_addr_key (account_id : AccountId) : bytes := EOA_ID_TO_ADDR_PREFIX ++ AccountId.as_bytes account_id.
Definition contract_addr_to_id_key (address : Address) : bytes := CONTRACT_ADDR_TO_ID_PREFIX ++ vec_to_list address.
Definition contract_id_to_addr_key (account_id : AccountId) : bytes :=
  CONTRACT_ID_TO_ADDR_PREFIX ++ AccountId.as_bytes account_id.

Section Registry.
Context `{RuntimeDeps} `{EthCodec}.

Definition decode_account_id (message : Message) : SdkResult AccountId := Message.get message.

(** A read of the runtime account's storage, decoded with [get]. *)
Definition lookup_runtime {A} (get : Message -> SdkResult A) (key : bytes) : QueryProg (SdkResult (option A)) :=
  let? response := query_account (Resp := StorageGetResponse) STORAGE_ACCOUNT_ID
                     (mkStorageGetRequest RUNTIME_ACCOUNT_ID key) in
  match get_value response with
  | Some raw => mret (a ← get raw; Ok (Some a))
  | None => mret (Ok None)
  end.

Definition lookup_account_id_in_env (address : Address) : QueryProg (SdkResult (option AccountId)) :=
  lookup_runtime decode_account_id (addr_to_id_key address).

Definition lookup_address_in_env (account_id : AccountId) : QueryProg (SdkResult (option Address)) :=
  lookup_runtime (Message.get (A := Address)) (id_to_addr_key account_id).

Definition lookup_contract_account_id_in_env (address : Address) : QueryProg (SdkResult (option AccountId)) :=
  lookup_runtime decode_account_id (contract_addr_to_id_key address).

(** The same reads on a storage without an execution. *)
Definition lookup_in_storage {A} (get : Message -> SdkResult A) (storage : bytes -> SdkResult (option bytes))
    (key : bytes) : SdkResult (option A) :=
  raw ← storage (ACCOUNT_STORAGE_PREFIX :: AccountId.as_bytes RUNTIME_ACCOUNT_ID ++ key);
  match raw with
  | Some raw => a ← get (Message.from_bytes raw); Ok (Some a)
  | None => Ok None
  end.

Definition lookup_account_id_in_storage (storage : bytes -> SdkResult (option bytes)) (address : Address)
    : SdkResult (option AccountId) :=
  lookup_in_storage decode_account_id storage (addr_to_id_key address).

Definition lookup_contract_account_id_in_storage (storage : bytes -> SdkResult (option bytes)) (address : Address)
    : SdkResult (option AccountId) :=
  lookup_in_storage decode_account_id storage (contract_addr_to_id_key address).

Definition lookup_address_in_storage (storage : bytes -> SdkResult (option bytes)) (account_id : AccountId)
    : SdkResult (option Address) :=
  lookup_in_storage (Message.get (A := Address)) storage (id_to_addr_key account_id).

Definition ensure_mapping_conflict_free (address : Address) (account_id : AccountId)
    : QueryProg (SdkResult (option AccountId * option Address)) :=
  let? forward := lookup_account_id_in_env address in
  let? reverse := lookup_address_in_env account_id in
  mret
    (if from_option (fun existing => negb (bool_decide (existing = account_id))) false forward
     then Err ERR_ADDRESS_ACCOUNT_CONFLICT
     else if from_option (fun existing_addr => negb (bool_decide (existing_addr = address))) false reverse
     then Err ERR_ADDRESS_ACCOUNT_CONFLICT
     else Ok (forward, reverse)).

(** A write to the storage of the running account. *)
Definition storage_set_value {A} `{Borsh A} (key : bytes) (a : A) : EnvProg (SdkResult unit) :=
  let? value := mret (Message.new a) in
  let? _resp := exec_account (Resp := StorageSetResponse) STORAGE_ACCOUNT_ID (mkStorageSetRequest key value) [] in
  mret (Ok tt).

Definition set_mapping (address : Address) (account_id : AccountId) : EnvProg (SdkResult unit) :=
  let? found := lift_query (ensure_mapping_conflict_free address account_id) in
  if bool_decide (is_Some found.1) && bool_decide (is_Some found.2) then mret (Ok tt)
  else
    do? storage_set_value (addr_to_id_key address) account_id in
    do? storage_set_value (id_to_addr_key account_id) address in
    mret (Ok tt).

Definition ensure_eoa_mapping (address : Address) (account_id : AccountId) : EnvProg (SdkResult unit) :=
  let? found := lift_query (ensure_mapping_conflict_free address account_id) in
  if bool_decide (is_Some found.1) && bool_decide (is_Some found.2) then mret (Ok tt)
  else set_mapping address account_id.

Definition resolve_or_create_eoa_account (address : Address) : EnvProg (SdkResult AccountId) :=
  let? found := lift_query (lookup_account_id_in_env address) in
  match found with
  | Some account_id => mret (Ok account_id)
  | None =>
      let account_id := derive_eth_eoa_account_id address in
      do? register_account_at_id account_id ETH_EOA_CODE_ID address in
      do? ensure_eoa_mapping address account_id in
      mret (Ok account_id)
  end.

Definition register_runtime_contract_account (account_id : AccountId) : EnvProg (SdkResult Address) :=
  let address := derive_runtime_contract_address account_id in
  let? found := lift_query (lookup_contract_account_id_in_env address) in
  if from_option (fun existing => negb (bool_decide (existing = account_id))) false found
  then mret (Err ERR_ADDRESS_ACCOUNT_CONFLICT)
  else
    let? found := lift_query (lookup_runtime (Message.get (A := Address)) (contract_id_to_addr_key account_id)) in
    if from_option (fun existing => negb (bool_decide (existing = address))) false found
    then mret (Err ERR_ADDRESS_ACCOUNT_CONFLICT)
    else
      do? storage_set_value (contract_addr_to_id_key address) account_id in
      do? storage_set_value (contract_id_to_addr_key account_id) address in
      mret (Ok address).

End Registry.

(** ** [TxContext] *)
Inductive SenderResolution := SenderAddress (address : Address) | SenderAccount (account : AccountId).
Inductive RecipientResolution :=
| RecipientAddress (address : Address) | RecipientAccount (account : AccountId) | RecipientNone.

Record TxContextMeta := mkTxContextMeta {
  m_tx_hash : B256; m_gas_limit : Z; m_nonce : Z; m_chain_id : option Z; m_effective_gas_price : Z;
  m_invoke_request : InvokeRequest; m_funds : list FungibleAsset; m_sender_account : AccountId;
  m_recipient_account : option AccountId; m_sender_key : bytes; m_authentication_payload : Message;
  m_sender_eth_address : option Address; m_recipient_eth_address : option Address }.

Record TxContext := mkTxContext {
  c_payload : TxPayload; c_sender_type : Z; c_invoke_request : InvokeRequest; c_effective_gas_price : Z;
  c_tx_hash : B256; c_gas_limit : Z; c_nonce : Z; c_chain_id : option Z;
  sender_resolution : SenderResolution; recipient_resolution : RecipientResolution;
  c_sender_key : bytes; c_authentication_payload : Message; c_sender_eth_address : option Address;
  c_recipient_eth_address : option Address; c_funds : list FungibleAsset }.

Definition calculate_effective_gas_price (envelope : TxEnvelope) (base_fee : Z) : Z :=
  match envelope with
  | Legacy tx => leg_gas_price (signed_tx (sl_inner tx))
  | Eip1559 tx =>
      let max_fee := fee_max_fee_per_gas (signed_tx (sf_inner tx)) in
      let priority_fee := fee_max_priority_fee_per_gas (signed_tx (sf_inner tx)) in
      Z.min max_fee (saturating_add u128_max base_fee priority_fee)
  end.

(** [Result::ok]. *)
Definition ok {A} (r : SdkResult A) : option A := match r with Ok a => Some a | Err _ => None end.

Definition recipient_of (account : option AccountId) (address : option Address) : RecipientResolution :=
  match account, address with
  | Some account, _ => RecipientAccount account
  | None, Some address => RecipientAddress address
  | None, None => RecipientNone
  end.

Module TxContext.
Section Methods.
Context `{RuntimeDeps} `{EthCodec} `{Secp256k1} `{AlloyTx TxLegacy} `{AlloyTx TxEip1559}.

Definition new (envelope : TxEnvelope) (base_fee : Z) : option TxContext :=
  to ← TxEnvelope.to envelope;
  let sender := TxEnvelope.sender envelope in
  invoke_request ← head (TxEnvelope.to_invoke_requests envelope);
  authentication_payload ← ok (Message.new sender);
  Some {|
    c_sender_type := EOA_SECP256K1;
    c_payload := PayloadEoa envelope;
    c_invoke_request := invoke_request;
    c_effective_gas_price := calculate_effective_gas_price envelope base_fee;
    c_tx_hash := TxEnvelope.tx_hash envelope;
    c_gas_limit := TxEnvelope.gas_limit envelope;
    c_nonce := TxEnvelope.nonce envelope;
    c_chain_id := TxEnvelope.chain_id envelope;
    sender_resolution := SenderAddress sender;
    recipient_resolution := RecipientAddress to;
    c_sender_key := vec_to_list sender;
    c_authentication_payload := authentication_payload;
    c_sender_eth_address := Some sender;
    c_recipient_eth_address := Some to;
    c_funds := [] |}.

Definition from_payload (payload : TxPayload) (sender_type : Z) (meta : TxContextMeta) : option TxContext :=
  sender_resolution ←
    (if sender_type =? EOA_SECP256K1 then
       addr ← m_sender_eth_address meta; Some (SenderAddress addr)
     else Some (SenderAccount (m_sender_account meta)));
  let recipient_resolution := recipient_of (m_recipient_account meta) (m_recipient_eth_address meta) in
  let sender_key :=
    if bool_decide (m_sender_key meta = []) then
      match sender_resolution with
      | SenderAddress addr => vec_to_list addr
      | SenderAccount account => AccountId.as_bytes account
      end
    else m_sender_key meta in
  _ ← SenderKey.new sender_key;
  Some {|
    c_payload := payload;
    c_sender_type := sender_type;
    c_invoke_request := m_invoke_request meta;
    c_effective_gas_price := m_effective_gas_price meta;
    c_tx_hash := m_tx_hash meta;
    c_gas_limit := m_gas_limit meta;
    c_nonce := m_nonce meta;
    c_chain_id := m_chain_id meta;
    sender_resolution := sender_resolution;
    recipient_resolution := recipient_resolution;
    c_sender_key := sender_key;
    c_authentication_payload := m_authentication_payload meta;
    c_sender_eth_address := m_sender_eth_address meta;
    c_recipient_eth_address := m_recipient_eth_address meta;
    c_funds := m_funds meta |}.

(** [EthIntentPayload::decode_envelope]. *)
Definition decode_envelope (intent : EthIntentPayload) : SdkResult TxEnvelope :=
  TxEnvelope.decode (intent_envelope intent).

Definition from_eth_intent (sender_type : Z) (intent : EthIntentPayload) (sender_account : AccountId)
    (sender_key : bytes) (authentication_payload : Message) (base_fee : Z) : option TxContext :=
  envelope ← ok (decode_envelope intent);
  to ← TxEnvelope.to envelope;
  invoke_request ← head (TxEnvelope.to_invoke_requests envelope);
  payload_bytes ← to_vec intent;
  let tx_hash := keccak256 payload_bytes in
  from_payload (PayloadCustom payload_bytes) sender_type {|
    m_tx_hash := tx_hash;
    m_gas_limit := TxEnvelope.gas_limit envelope;
    m_nonce := TxEnvelope.nonce envelope;
    m_chain_id := TxEnvelope.chain_id envelope;
    m_effective_gas_price := calculate_effective_gas_price envelope base_fee;
    m_invoke_request := invoke_request;
    m_funds := [];
    m_sender_account := sender_account;
    m_recipient_account := None;
    m_sender_key := sender_key;
    m_authentication_payload := authentication_payload;
    m_sender_eth_address := None;
    m_recipient_eth_address := Some to |}.

Definition is_wire_encoded (b : bytes) : bool :=
  (zlen TX_CONTEXT_WIRE_MAGIC <=? zlen b) &&
  bool_decide (take (length TX_CONTEXT_WIRE_MAGIC) b = TX_CONTEXT_WIRE_MAGIC).

Definition sender_address (self : TxContext) : option Address :=
  match sender_resolution self with SenderAddress address => Some address | SenderAccount _ => None end.

Definition envelope (self : TxContext) : option TxEnvelope :=
  match c_payload self with PayloadEoa envelope => Some envelope | PayloadCustom _ => None end.

Definition sender (self : TxContext) : AccountId :=
  match sender_resolution self with
  | SenderAccount account => account
  | SenderAddress address => derive_eth_eoa_account_id address
  end.

Definition resolve_sender_account (self : TxContext) (env : EnvView) : EnvProg (SdkResult AccountId) :=
  match sender_resolution self with
  | SenderAccount account => mret (Ok account)
  | SenderAddress address =>
      let? found := lift_query (lookup_account_id_in_env address) in
      match found with
      | Some account_id => mret (Ok account_id)
      | None => mret (Ok (derive_eth_eoa_account_id address))
      end
  end.

Definition recipient (self : TxContext) : AccountId :=
  match recipient_resolution self with
  | RecipientAccount account => account
  | RecipientAddress address => derive_eth_eoa_account_id address
  | RecipientNone => AccountId.invalid
  end.

Definition resolve_recipient_account (self : TxContext) (env : EnvView) : EnvProg (SdkResult AccountId) :=
  match recipient_resolution self with
  | RecipientAccount account => mret (Ok account)
  | RecipientAddress to =>
      let? found := lift_query (lookup_account_id_in_env to) in
      match found with
      | Some account_id => mret (Ok account_id)
      | None =>
          let? found := lift_query (lookup_contract_account_id_in_env to) in
          match found with
          | Some account_id => mret (Ok account_id)
          | None => resolve_or_create_eoa_account to
          end
      end
  | RecipientNone => mret (Err ERR_RECIPIENT_REQUIRED)
  end.

Definition sender_bootstrap (self : TxContext) : option SenderBootstrap :=
  if negb (c_sender_type self =? EOA_SECP256K1) then None
  else
    address ← sender_address self;
    init_message ← ok (Message.new address);
    Some (mkSenderBootstrap ETH_EOA_CODE_ID init_message).

Definition after_sender_bootstrap (self : TxContext) (resolved_sender : AccountId) (env : EnvView)
    : EnvProg (SdkResult unit) :=
  if negb (c_sender_type self =? EOA_SECP256K1) then mret (Ok tt)
  else
    match sender_address self with
    | Some address => ensure_eoa_mapping address resolved_sender
    | None => mret (Err ERR_TX_DECODE)
    end.

(** [Encodable for TxContext]: an EOA transaction is its envelope. *)
Definition encode (self : TxContext) : SdkResult bytes :=
  match c_payload self with
  | PayloadEoa envelope => Ok (TxEnvelope.encode envelope)
  | PayloadCustom raw =>
      let recipient_account :=
        match recipient_resolution self with RecipientAccount account => Some account | _ => None end in
      let wire := {|
        w_sender_type := c_sender_type self;
        w_payload := WireCustom raw;
        w_tx_hash := c_tx_hash self;
        w_gas_limit := c_gas_limit self;
        w_nonce := c_nonce self;
        w_chain_id := c_chain_id self;
        w_effective_gas_price := c_effective_gas_price self;
        w_invoke_request := c_invoke_request self;
        w_funds := c_funds self;
        w_sender_account := sender self;
        w_recipient_account := recipient_account;
        w_sender_key := c_sender_key self;
        w_authentication_payload := c_authentication_payload self;
        w_sender_eth_address := c_sender_eth_address self;
        w_recipient_eth_address := c_recipient_eth_address self |} in
      encoded ← ok_or (to_vec wire) ERR_TX_DECODE;
      Ok (TX_CONTEXT_WIRE_MAGIC ++ encoded)
  end.

(** The payload of a wire context; for an envelope, its recovered sender has to
    be the claimed one. *)
Definition decode_payload (wire : TxContextWireV1) : SdkResult TxPayload :=
  match w_payload wire with
  | WireEoa raw =>
      envelope ← TxEnvelope.decode raw;
      let recovered := TxEnvelope.sender envelope in
      claimed ← ok_or (w_sender_eth_address wire) ERR_TX_DECODE;
      if bool_decide (recovered ≠ claimed) then Err ERR_SENDER_MISMATCH
      else Ok (PayloadEoa envelope)
  | WireCustom raw => Ok (PayloadCustom raw)
  end.

Definition decode (b : bytes) : SdkResult TxContext :=
  if is_wire_encoded b then
    wire ← ok_or (from_slice (A := TxContextWireV1) (drop (length TX_CONTEXT_WIRE_MAGIC) b)) ERR_TX_DECODE;
    if bool_decide (SenderKey.new (w_sender_key wire) = None) then Err ERR_TX_DECODE
    else
      payload ← decode_payload wire;
      sender_resolution ←
        (if w_sender_type wire =? EOA_SECP256K1 then
           address ← ok_or (w_sender_eth_address wire) ERR_TX_DECODE; Ok (SenderAddress address)
         else Ok (SenderAccount (w_sender_account wire)));
      let recipient_resolution := recipient_of (w_recipient_account wire) (w_recipient_eth_address wire) in
      Ok {|
        c_payload := payload;
        c_sender_type := w_sender_type wire;
        c_invoke_request := w_invoke_request wire;
        c_effective_gas_price := w_effective_gas_price wire;
        c_tx_hash := w_tx_hash wire;
        c_gas_limit := w_gas_limit wire;
        c_nonce := w_nonce wire;
        c_chain_id := w_chain_id wire;
        sender_resolution := sender_resolution;
        recipient_resolution := recipient_resolution;
        c_sender_key := w_sender_key wire;
        c_authentication_payload := w_authentication_payload wire;
        c_sender_eth_address := w_sender_eth_address wire;
        c_recipient_eth_address := w_recipient_eth_address wire;
        c_funds := w_funds wire |}
  else
    envelope ← TxEnvelope.decode b;
    ok_or (new envelope 0) ERR_RECIPIENT_REQUIRED.

(** [AuthenticationPayload]: [Message::new(self)]. *)
Definition authentication_payload (self : TxContext) : SdkResult Message :=
  b ← encode self; Ok (Message.from_bytes b).

#[global] Instance context_mempool : MempoolTx TxContext := {|
  tx_id := c_tx_hash;
  ordering_key self := mkGasPriceOrdering (c_effective_gas_price self) (c_nonce self);
  sender_key self := SenderKey.new (c_sender_key self);
  mp_gas_limit := c_gas_limit |}.

#[global] Instance context_transaction : Transaction TxContext := {|
  tx_sender := sender;
  tx_recipient := recipient;
  tx_request := c_invoke_request;
  tx_gas_limit := c_gas_limit;
  tx_funds := c_funds;
  compute_identifier := c_tx_hash;
  Stf.resolve_sender_account := resolve_sender_account;
  Stf.resolve_recipient_account := resolve_recipient_account;
  Stf.sender_bootstrap := sender_bootstrap;
  Stf.after_sender_bootstrap := after_sender_bootstrap |}.

#[global] Instance context_encodable : Encodable TxContext := {| encode_tx := encode |}.

End Methods.
End TxContext.
