(* ===== verification/EthGateway.v ===== *)
(** * The gateway

    Models [decoder.rs], [verifier/] and [gateway.rs] of
    [crates/app/tx/eth/src]: decoding with a set of allowed types, the registry
    of signature verifiers, and the verification of what comes from the
    network. *)

From S2P Require Import Prelude Core Runtime Invoker Stf Mempool Server EthTx EthContext.

Open Scope evolve_scope.

(** ** [decoder.rs] *)
Record TypedTxDecoder := mkTypedTxDecoder { allowed_types : gset Z }.

Module TypedTxDecoder.
Section Methods.
Context `{Keccak} `{Secp256k1} `{AlloyTx TxLegacy} `{AlloyTx TxEip1559}.

Definition ethereum : TypedTxDecoder := mkTypedTxDecoder {[tx_type.LEGACY; tx_type.EIP1559]}.
Definition with_types (types : list Z) : TypedTxDecoder := mkTypedTxDecoder (list_to_set types).
Definition permissive : TypedTxDecoder := mkTypedTxDecoder (list_to_set (Z.of_nat <$> seq 0 256)).

Definition allow_type (self : TypedTxDecoder) (tx_type : Z) : TypedTxDecoder :=
  mkTypedTxDecoder ({[tx_type]} ∪ allowed_types self).
Definition is_allowed (self : TypedTxDecoder) (tx_type : Z) : bool :=
  bool_decide (tx_type ∈ allowed_types self).

Definition decode (self : TypedTxDecoder) (b : bytes) : SdkResult (TxEnvelope * bytes) :=
  '(tx, rest) ← TxEnvelope.decode_from b;
  let tx_type := TxEnvelope.tx_type tx in
  if negb (bool_decide (tx_type ∈ allowed_types self))
  then Err (ErrorCode_new_with_arg (err_id ERR_UNSUPPORTED_TX_TYPE) tx_type)
  else Ok (tx, rest).

End Methods.
End TypedTxDecoder.

(** ** [verifier/ecdsa.rs] *)
Record EcdsaVerifier := mkEcdsaVerifier { ev_chain_id : Z; require_chain_id : bool }.

Module EcdsaVerifier.

Definition new (chain_id : Z) : EcdsaVerifier := mkEcdsaVerifier chain_id true.
Definition new_permissive (chain_id : Z) : EcdsaVerifier := mkEcdsaVerifier chain_id false.

Definition verify_chain_id (self : EcdsaVerifier) (tx_chain_id : option Z) : SdkResult unit :=
  match tx_chain_id with
  | Some id => if id =? ev_chain_id self then Ok tt else Err ERR_INVALID_CHAIN_ID
  | None => if require_chain_id self then Err ERR_INVALID_CHAIN_ID else Ok tt
  end.

Definition verify_signature (self : EcdsaVerifier) (tx : TxEnvelope) : SdkResult unit :=
  verify_chain_id self (TxEnvelope.chain_id tx).

End EcdsaVerifier.

(** ** [verifier/registry.rs]

    A [Box<dyn SignatureVerifierDyn>] is its [verify] method. *)
Abbreviation SignatureVerifierDyn := (TxPayload -> SdkResult unit).

(** [EoaPayloadVerifier]. *)
Definition eoa_payload_verifier (verify_signature : TxEnvelope -> SdkResult unit) : SignatureVerifierDyn :=
  fun payload =>
    match payload with
    | PayloadEoa tx => verify_signature tx
    | PayloadCustom _ => Err ERR_INVALID_SIGNATURE
    end.

Record SignatureVerifierRegistry := mkSignatureVerifierRegistry { verifiers : gmap Z SignatureVerifierDyn }.

Module SignatureVerifierRegistry.

Definition new : SignatureVerifierRegistry := mkSignatureVerifierRegistry ∅.

Definition register_dyn (self : SignatureVerifierRegistry) (sender_type : Z) (verifier : SignatureVerifierDyn)
    : SignatureVerifierRegistry := mkSignatureVerifierRegistry (<[sender_type := verifier]> (verifiers self)).

Definition register_eoa (self : SignatureVerifierRegistry) (sender_type : Z)
    (verifier : TxEnvelope -> SdkResult unit) : SignatureVerifierRegistry :=
  register_dyn self sender_type (eoa_payload_verifier verifier).

Definition ethereum (chain_id : Z) : SignatureVerifierRegistry :=
  register_eoa new EOA_SECP256K1 (EcdsaVerifier.verify_signature (EcdsaVerifier.new chain_id)).

Definition verify_payload (self : SignatureVerifierRegistry) (sender_type : Z) (payload : TxPayload)
    : SdkResult unit :=
  verifier ← ok_or (verifiers self !! sender_type)
               (ErrorCode_new_with_arg (err_id ERR_UNSUPPORTED_SENDER_TYPE) sender_type);
  verifier payload.

Definition verify (self : SignatureVerifierRegistry) (tx : TxEnvelope) : SdkResult unit :=
  verify_payload self EOA_SECP256K1 (PayloadEoa tx).

Definition supports (self : SignatureVerifierRegistry) (sender_type : Z) : bool :=
  bool_decide (is_Some (verifiers self !! sender_type)).

End SignatureVerifierRegistry.

(** ** [gateway.rs] *)
Inductive GatewayError :=
| DecodeFailed (e : ErrorCode)
| InvalidChainId (expected : Z) (actual : option Z)
| InvalidSignature
| ContractCreationNotSupported
| TrailingBytes.

Record EthGateway := mkEthGateway {
  gw_chain_id : Z; decoder : TypedTxDecoder; verifier : SignatureVerifierRegistry; gw_base_fee : Z }.

Module EthGateway.
Section Methods.
Context `{RuntimeDeps} `{EthCodec} `{Secp256k1} `{AlloyTx TxLegacy} `{AlloyTx TxEip1559}.

Definition new (chain_id : Z) : EthGateway :=
  mkEthGateway chain_id TypedTxDecoder.ethereum (SignatureVerifierRegistry.ethereum chain_id) 0.
Definition with_base_fee (chain_id base_fee : Z) : EthGateway :=
  mkEthGateway chain_id TypedTxDecoder.ethereum (SignatureVerifierRegistry.ethereum chain_id) base_fee.
Definition set_base_fee (self : EthGateway) (base_fee : Z) : EthGateway :=
  mkEthGateway (gw_chain_id self) (decoder self) (verifier self) base_fee.
Definition register_payload_verifier (self : EthGateway) (sender_type : Z) (v : SignatureVerifierDyn)
    : EthGateway :=
  mkEthGateway (gw_chain_id self) (decoder self)
    (SignatureVerifierRegistry.register_dyn (verifier self) sender_type v) (gw_base_fee self).
Definition supports_sender_type (self : EthGateway) (sender_type : Z) : bool :=
  SignatureVerifierRegistry.supports (verifier self) sender_type.

Definition verify_context (self : EthGateway) (context : TxContext) : Result GatewayError TxContext :=
  if from_option (fun id => negb (id =? gw_chain_id self)) false (c_chain_id context)
  then Err (InvalidChainId (gw_chain_id self) (c_chain_id context))
  else
    match SignatureVerifierRegistry.verify_payload (verifier self) (c_sender_type context) (c_payload context) with
    | Ok _ => Ok context
    | Err _ => Err InvalidSignature
    end.

Definition verify_envelope (self : EthGateway) (envelope : TxEnvelope) : Result GatewayError TxContext :=
  if from_option (fun id => negb (id =? gw_chain_id self)) true (TxEnvelope.chain_id envelope)
  then Err (InvalidChainId (gw_chain_id self) (TxEnvelope.chain_id envelope))
  else
    match SignatureVerifierRegistry.verify_payload (verifier self) EOA_SECP256K1 (PayloadEoa envelope) with
    | Ok _ =>
        match TxContext.new envelope (gw_base_fee self) with
        | Some context => Ok context
        | None => Err ContractCreationNotSupported
        end
    | Err _ => Err InvalidSignature
    end.

Definition decode_and_verify (self : EthGateway) (raw : bytes) : Result GatewayError TxContext :=
  if TxContext.is_wire_encoded raw then
    match TxContext.decode raw with
    | Ok context => verify_context self context
    | Err e => Err (DecodeFailed e)
    end
  else
    match TypedTxDecoder.decode (decoder self) raw with
    | Ok (envelope, rest) =>
        if bool_decide (rest = []) then verify_envelope self envelope else Err TrailingBytes
    | Err e => Err (DecodeFailed e)
    end.

End Methods.
End EthGateway.
