(* ===== verification/EthEoa.v ===== *)
(** * Authentication and the Ethereum account

    Models the validator of
    [crates/app/sdk/standards/evolve_authentication/src/lib.rs], which calls
    [authenticate] on the sender's account, and [EthEoaAccount] of
    [bin/testapp/src/eth_eoa.rs], the account of an Ethereum key holder, as the
    [AccountCode] the [account_impl] macro generates for it. *)

From S2P Require Import Prelude Core Collections Runtime Invoker Stf Mempool Server EthTx EthContext.

Open Scope evolve_scope.

Definition ERR_NOT_EOA : ErrorCode := define_error 0x41.

(** The messages generated for [authenticate], [initialize] and the queries. *)
Record AuthenticateMsg := mkAuthenticateMsg { auth_tx : Message }.
Record EoaInitializeMsg := mkEoaInitializeMsg { init_eth_address : Address }.
Record GetNonceMsg := mkGetNonceMsg {}.
Record GetEthAddressMsg := mkGetEthAddressMsg {}.

Class EoaCodec := {
  eoa_authenticate :: Borsh AuthenticateMsg;
  eoa_initialize :: Borsh EoaInitializeMsg;
  eoa_get_nonce :: Borsh GetNonceMsg;
  eoa_get_eth_address :: Borsh GetEthAddressMsg
}.

#[export] Instance AuthenticateMsg_invokable `{Keccak} : InvokableMessage AuthenticateMsg :=
  {| FUNCTION_IDENTIFIER := compute_function_id "authenticate"; FUNCTION_IDENTIFIER_NAME := "authenticate" |}.

(** ** The validator *)
Class AuthenticationPayload (Tx : Type) := { authentication_payload : Tx -> SdkResult Message }.

Section Validator.
Context `{RuntimeDeps} `{CollectionCodec} `{EoaCodec} {Tx : Type} `{Transaction Tx} `{AuthenticationPayload Tx}.

(** [AuthenticationInterfaceRef::authenticate]. *)
Definition interface_authenticate (account : AccountId) (tx : Message) : EnvProg (SdkResult unit) :=
  exec_account (Resp := unit) account (mkAuthenticateMsg tx) [].

(** [AuthenticationTxValidator::validate_tx]. *)
Definition validate_tx (tx : Tx) (env : EnvView) : EnvProg (SdkResult unit) :=
  let? sender_account := resolve_sender_account tx env in
  let? payload := mret (authentication_payload tx) in
  r ← interface_authenticate sender_account payload;
  mret (match r with
        | Ok u => Ok u
        | Err e => if decide (e = ERR_UNKNOWN_FUNCTION) then Err ERR_NOT_EOA else Err e
        end).

End Validator.

(** ** The account *)
Module EthEoaAccount.
Section Methods.
Context `{RuntimeDeps} `{CollectionCodec} `{EthCodec} `{EoaCodec}.
Context `{Secp256k1} `{AlloyTx TxLegacy} `{AlloyTx TxEip1559}.

#[global] Instance context_authentication : AuthenticationPayload TxContext :=
  {| authentication_payload := TxContext.authentication_payload |}.

Definition nonce : Item U64 := mkMap x00.
Definition eth_address : Item Address := mkMap x01.

Definition zero_address : Address := vreplicate 20 x00.

(** [unwrap_or(0)], [unwrap_or_default()]. *)
Definition unwrap_nonce (v : option U64) : U64 := default 0 v.

Definition increment_nonce (env : EnvView) : EnvProg (SdkResult unit) :=
  do? Item.update nonce (fun v => ok_or (checked_add u64_max (unwrap_nonce v) 1) ERR_NONCE_OVERFLOW) env in
  mret (Ok tt).

Definition authenticate_canonical_tx (tx : TxContext) (expected_address : Address) (env : EnvView)
    : EnvProg (SdkResult unit) :=
  let? sender_address := mret (ok_or (TxContext.sender_address tx) ERR_SENDER_MISMATCH) in
  if bool_decide (sender_address ≠ expected_address) then mret (Err ERR_SENDER_MISMATCH)
  else
    let? current_nonce := lift_query (Item.may_get nonce env) in
    match c_nonce tx ?= unwrap_nonce current_nonce with
    | Lt => mret (Err ERR_NONCE_TOO_LOW)
    | Gt => mret (Err ERR_NONCE_TOO_HIGH)
    | Eq => increment_nonce env
    end.

Definition initialize (msg : EoaInitializeMsg) (env : EnvView) : EnvProg (SdkResult unit) :=
  do? Item.set (V := U64) nonce 0 in
  do? Item.set eth_address (init_eth_address msg) in
  mret (Ok tt).

Definition get_nonce (msg : GetNonceMsg) (env : EnvView) : QueryProg (SdkResult U64) :=
  let? v := Item.may_get nonce env in
  mret (Ok (unwrap_nonce v)).

Definition get_eth_address (msg : GetEthAddressMsg) (env : EnvView) : QueryProg (SdkResult Address) :=
  let? v := Item.may_get eth_address env in
  mret (Ok (default zero_address v)).

(** [Message::get::<TxContext>]. *)
Definition get_context (tx : Message) : SdkResult TxContext :=
  match inner tx with OwnedBytes b => TxContext.decode b end.

(** The check of a message that is not a context: an address, an account
    identifier, or anything else. The last arm tries the context again. *)
Definition check_sender (tx : Message) (expected_address : Address) (env : EnvView) : SdkResult unit :=
  match Message.get (A := Address) tx with
  | Ok sender_address =>
      if bool_decide (sender_address ≠ expected_address) then Err ERR_SENDER_MISMATCH else Ok tt
  | Err _ =>
      match Message.get (A := AccountId) tx with
      | Ok sender_id => if bool_decide (sender_id ≠ whoami env) then Err ERR_SENDER_MISMATCH else Ok tt
      | Err _ =>
          match get_context tx with
          | Ok mempool_tx =>
              sender_bytes ← ok_or (TxContext.sender_address mempool_tx) ERR_SENDER_MISMATCH;
              if bool_decide (sender_bytes ≠ expected_address) then Err ERR_SENDER_MISMATCH else Ok tt
          | Err _ => Ok tt
          end
      end
  end.

Definition authenticate (msg : AuthenticateMsg) (env : EnvView) : EnvProg (SdkResult unit) :=
  let tx := auth_tx msg in
  let? address := lift_query (Item.may_get eth_address env) in
  let expected_address := default zero_address address in
  match get_context tx with
  | Ok mempool_tx => authenticate_canonical_tx mempool_tx expected_address env
  | Err _ =>
      do? mret (check_sender tx expected_address env) in
      increment_nonce env
  end.

(** The generated [AccountCode]: [impl EthEoaAccount] first, then the interface. *)
Definition code : AccountCode := {|
  identifier := ETH_EOA_CODE_ID;
  code_init := exec_arm false initialize;
  code_execute := dispatch [ (compute_function_id "authenticate", exec_arm false authenticate) ];
  code_query := dispatch
    [ (compute_function_id "get_nonce", query_arm get_nonce);
      (compute_function_id "get_eth_address", query_arm get_eth_address) ] |}.

End Methods.
End EthEoaAccount.
