(* ===== verification/EthFacts.v ===== *)
(** * Facts about Ethereum transactions

    Envelopes decode to what was signed and survive encoding; contexts survive
    the wire; what the gateway accepts was signed by its sender. *)

From S2P Require Import Prelude Core Collections Runtime Invoker Stf Mempool Server EthTx EthContext EthGateway EthEoa.

Open Scope evolve_scope.

Section Envelope.
Context `{Keccak} `{Secp256k1} `{AlloyTx TxLegacy} `{AlloyTx TxEip1559}.

(** The address whose key signed the transaction of an envelope. *)
Definition signer (e : TxEnvelope) : SdkResult Address :=
  match e with
  | Legacy tx => recover_sender_from_signature_hash (signature_hash (signed_tx (sl_inner tx))) (signature (sl_inner tx))
  | Eip1559 tx => recover_sender_from_signature_hash (signature_hash (signed_tx (sf_inner tx))) (signature (sf_inner tx))
  end.

(** The same signed transaction with the hash of other bytes. *)
Definition rehash (raw : bytes) (e : TxEnvelope) : TxEnvelope :=
  match e with
  | Legacy tx => Legacy (mkSignedLegacyTx (sl_inner tx) (sl_sender tx) (keccak256 raw))
  | Eip1559 tx => Eip1559 (mkSignedEip1559Tx (sf_inner tx) (sf_sender tx) (keccak256 raw))
  end.

Lemma consumed_app raw rest : TxEnvelope.consumed_by (raw ++ rest) rest = length raw.
Proof. unfold TxEnvelope.consumed_by. rewrite length_app. lia. Qed.

(** What a decoder gives: the sender signed it, the hash is that of the bytes
    read, and encoding it gives bytes that decode to it again. *)
Lemma decode_from_ok b e rest :
  TxEnvelope.decode_from b = Ok (e, rest) ->
  signer e = Ok (TxEnvelope.sender e) /\
  (exists raw, b = raw ++ rest /\ rehash raw e = e) /\
  forall rest', TxEnvelope.decode_from (TxEnvelope.encode e ++ rest') =
                Ok (rehash (TxEnvelope.encode e) e, rest').
Proof.
  unfold TxEnvelope.decode_from. destruct b as [|b payload]; [done|].
  destruct (0xc0 <=? Z_of_byte b).
  - intros Hd. destruct (rlp_decode (b :: payload)) as [[s cursor]|] eqn:Er; [|done].
    unfold legacy_from_alloy_with_bytes in Hd. cbn [ok_or mbind Result_bind] in Hd.
    destruct (recover_sender_from_signature_hash _ _) as [a|] eqn:Ea; [|done]. cbn [mbind Result_bind] in Hd.
    destruct (rlp_decode_prefix _ _ _ Er) as [raw Hraw]. rewrite Hraw, consumed_app in Hd.
    rewrite take_app_length, drop_app_length in Hd. apply (inj Ok), pair_equal_spec in Hd as [<- <-].
    split; [done|]. split; [by exists raw|]. intros rest'. cbn [TxEnvelope.encode sl_inner].
    pose proof (rlp_decode_encode _ _ _ rest' Er) as He. destruct (rlp_list s) as (c & l & Hl & Hc).
    rewrite Hl in *. cbn [app] in *. apply Z.leb_le in Hc. rewrite Hc, He. cbn [ok_or mbind Result_bind].
    unfold legacy_from_alloy_with_bytes. rewrite Ea. cbn [mbind Result_bind].
    change (c :: l ++ rest') with ((c :: l) ++ rest'). by rewrite consumed_app, take_app_length, drop_app_length.
  - destruct (_ =? tx_type.LEGACY); [done|]. destruct (_ =? tx_type.EIP1559) eqn:Et; [|done].
    intros Hd. destruct (rlp_decode payload) as [[s cursor]|] eqn:Er; [|done].
    unfold eip1559_from_alloy_with_bytes in Hd. cbn [ok_or mbind Result_bind] in Hd.
    destruct (recover_sender_from_signature_hash _ _) as [a|] eqn:Ea; [|done]. cbn [mbind Result_bind] in Hd.
    destruct (rlp_decode_prefix _ _ _ Er) as [raw Hraw]. rewrite Hraw, consumed_app in Hd.
    cbn [Nat.add drop] in Hd.
    rewrite take_app_length, drop_app_length in Hd. apply (inj Ok), pair_equal_spec in Hd as [<- <-].
    apply Z.eqb_eq in Et. assert (Hb : b = byte_of_Z tx_type.EIP1559) by (by apply (inj Z_of_byte)).
    split; [done|]. split; [exists (b :: raw); split; [by rewrite Hraw | by rewrite Hb]|].
    intros rest'. cbn [TxEnvelope.encode sf_inner app].
    change (0xc0 <=? Z_of_byte (byte_of_Z tx_type.EIP1559)) with false. cbn match.
    change (Z_of_byte (byte_of_Z tx_type.EIP1559) =? tx_type.LEGACY) with false.
    change (Z_of_byte (byte_of_Z tx_type.EIP1559) =? tx_type.EIP1559) with true. cbn match.
    rewrite (rlp_decode_encode _ _ _ rest' Er). cbn [ok_or mbind Result_bind].
    unfold eip1559_from_alloy_with_bytes. rewrite Ea. cbn [mbind Result_bind].
    by rewrite consumed_app, take_app_length; cbn [Nat.add drop]; rewrite drop_app_length.
Qed.

Lemma decode_from_of b e : TxEnvelope.decode b = Ok e <-> TxEnvelope.decode_from b = Ok (e, []).
Proof.
  unfold TxEnvelope.decode. destruct (TxEnvelope.decode_from b) as [[e' [|x l]]|]; cbn; split; intros; simplify_eq; done.
Qed.

Lemma decode_signed b e : TxEnvelope.decode b = Ok e -> signer e = Ok (TxEnvelope.sender e) /\ TxEnvelope.tx_hash e = keccak256 b.
Proof.
  intros Hd. apply decode_from_of, decode_from_ok in Hd as (Hs & (raw & -> & Hr) & _). split; [done|].
  rewrite app_nil_r, <-Hr. by destruct e.
Qed.

Lemma decode_encode b e :
  TxEnvelope.decode b = Ok e -> TxEnvelope.decode (TxEnvelope.encode e) = Ok (rehash (TxEnvelope.encode e) e).
Proof.
  intros Hd. apply decode_from_of, decode_from_ok in Hd as (_ & _ & Hr). apply decode_from_of.
  specialize (Hr []). by rewrite app_nil_r in Hr.
Qed.

(** An encoded envelope never looks like a wire context. *)
Lemma encode_not_wire e : TxContext.is_wire_encoded (TxEnvelope.encode e) = false.
Proof.
  unfold TxContext.is_wire_encoded. apply andb_false_iff. right. apply bool_decide_eq_false. intros Ht.
  destruct e as [tx|tx]; cbn [TxEnvelope.encode] in Ht.
  - destruct (rlp_list (sl_inner tx)) as (b & l & Hl & Hb). rewrite Hl in Ht.
    vm_compute (TX_CONTEXT_WIRE_MAGIC) in Ht. cbn in Ht. injection Ht as -> _. by vm_compute in Hb.
  - vm_compute (TX_CONTEXT_WIRE_MAGIC) in Ht. cbn in Ht. discriminate Ht.
Qed.

End Envelope.

(** ** Contexts *)
Section Context_.
Context `{RuntimeDeps} `{EthCodec} `{Secp256k1} `{AlloyTx TxLegacy} `{AlloyTx TxEip1559}.

(** The contexts the code builds. *)
Inductive constructed : TxContext -> Prop :=
| constructed_new e fee c : TxContext.new e fee = Some c -> constructed c
| constructed_payload p ty meta c : TxContext.from_payload p ty meta = Some c -> constructed c
| constructed_intent ty i a k m fee c : TxContext.from_eth_intent ty i a k m fee = Some c -> constructed c
| constructed_decode b c : TxContext.decode b = Ok c -> constructed c.

(** The resolutions are determined by the fields on the wire. *)
Record wire_formed (c : TxContext) : Prop := {
  wf_sender : if c_sender_type c =? EOA_SECP256K1
              then exists a, c_sender_eth_address c = Some a /\ sender_resolution c = SenderAddress a
              else exists a, sender_resolution c = SenderAccount a;
  wf_recipient : recipient_resolution c =
                 recipient_of (match recipient_resolution c with RecipientAccount x => Some x | _ => None end)
                   (c_recipient_eth_address c);
  wf_key : SenderKey.new (c_sender_key c) ≠ None }.

Lemma recipient_of_formed x a :
  recipient_of x a =
  recipient_of (match recipient_of x a with RecipientAccount y => Some y | _ => None end) a.
Proof. by destruct x, a. Qed.

Lemma new_formed e fee c : TxContext.new e fee = Some c -> wire_formed c.
Proof.
  unfold TxContext.new. destruct (TxEnvelope.to e) as [to|]; [|done].
  destruct (head _) as [r|]; [|done]. destruct (ok _) as [m|]; [|done]. cbn [mbind option_bind].
  intros Hc. apply (inj Some) in Hc as <-. split; cbn [c_sender_type c_sender_key]; [by eexists | done |].
  unfold SenderKey.new. rewrite length_vec_to_list || idtac. unfold zlen. rewrite length_vec_to_list. done.
Qed.

Lemma from_payload_formed p ty meta c : TxContext.from_payload p ty meta = Some c -> wire_formed c.
Proof.
  unfold TxContext.from_payload. destruct (if ty =? _ then _ else _) as [s|] eqn:Es; [|done].
  cbn [mbind option_bind]. destruct (SenderKey.new _) as [k|] eqn:Ek; [|done]. cbn [mbind option_bind].
  intros Hc. apply (inj Some) in Hc as <-.
  split; cbn [c_sender_type c_sender_key recipient_resolution sender_resolution c_sender_eth_address
              c_recipient_eth_address]; [|apply recipient_of_formed | by rewrite Ek].
  destruct (ty =? _); [|by apply (inj Some) in Es as <-; eexists].
  destruct (m_sender_eth_address meta) as [a|]; [|done]. apply (inj Some) in Es as <-. by exists a.
Qed.

(** The context of a decoded wire record. *)
Definition context_of (wire : TxContextWireV1) (payload : TxPayload) (sender : SenderResolution) : TxContext := {|
  c_payload := payload;
  c_sender_type := w_sender_type wire;
  c_invoke_request := w_invoke_request wire;
  c_effective_gas_price := w_effective_gas_price wire;
  c_tx_hash := w_tx_hash wire;
  c_gas_limit := w_gas_limit wire;
  c_nonce := w_nonce wire;
  c_chain_id := w_chain_id wire;
  sender_resolution := sender;
  recipient_resolution := recipient_of (w_recipient_account wire) (w_recipient_eth_address wire);
  c_sender_key := w_sender_key wire;
  c_authentication_payload := w_authentication_payload wire;
  c_sender_eth_address := w_sender_eth_address wire;
  c_recipient_eth_address := w_recipient_eth_address wire;
  c_funds := w_funds wire |}.

Definition sender_of (wire : TxContextWireV1) : SdkResult SenderResolution :=
  if w_sender_type wire =? EOA_SECP256K1 then
    address ← ok_or (w_sender_eth_address wire) ERR_TX_DECODE; Ok (SenderAddress address)
  else Ok (SenderAccount (w_sender_account wire)).

Lemma is_wire_magic w : TxContext.is_wire_encoded (TX_CONTEXT_WIRE_MAGIC ++ w) = true.
Proof.
  unfold TxContext.is_wire_encoded. rewrite take_app_length, zlen_app. apply andb_true_iff. split.
  - apply Z.leb_le. unfold zlen. lia.
  - by apply bool_decide_eq_true.
Qed.

Lemma is_wire_inv b : TxContext.is_wire_encoded b = true -> exists w, b = TX_CONTEXT_WIRE_MAGIC ++ w.
Proof.
  intros [_ Ht%bool_decide_eq_true]%andb_true_iff. exists (drop (length TX_CONTEXT_WIRE_MAGIC) b).
  by rewrite <-Ht at 1; rewrite take_drop.
Qed.

Lemma decode_wire w c :
  TxContext.decode (TX_CONTEXT_WIRE_MAGIC ++ w) = Ok c <->
  exists wire s, from_slice w = Some wire /\ (SenderKey.new (w_sender_key wire) ≠ None) /\
    TxContext.decode_payload wire = Ok (c_payload c) /\ sender_of wire = Ok s /\
    c = context_of wire (c_payload c) s.
Proof.
  unfold TxContext.decode. rewrite is_wire_magic, drop_app_length. split.
  - intros Hd. destruct (from_slice w) as [wire|]; [|done]. cbn [ok_or mbind Result_bind] in Hd.
    case_bool_decide as Hk; [done|].
    destruct (TxContext.decode_payload wire) as [p'|] eqn:Ep; [|done]. cbn [mbind Result_bind] in Hd.
    change (if w_sender_type wire =? EOA_SECP256K1 then _ else _) with (sender_of wire) in Hd.
    destruct (sender_of wire) as [s'|] eqn:Es; [|done]. cbn [mbind Result_bind] in Hd.
    apply (inj Ok) in Hd as <-. by exists wire, s'.
  - intros (wire & s & -> & Hk & Hp & Hs & Hc). cbn [ok_or mbind Result_bind].
    rewrite bool_decide_false by done. rewrite Hp. cbn [mbind Result_bind].
    change (if w_sender_type wire =? EOA_SECP256K1 then _ else _) with (sender_of wire). rewrite Hs.
    cbn [mbind Result_bind]. by rewrite Hc.
Qed.

Lemma decode_envelope_only b c :
  TxContext.is_wire_encoded b = false ->
  TxContext.decode b = Ok c -> exists e, TxEnvelope.decode b = Ok e /\ TxContext.new e 0 = Some c.
Proof.
  intros Hw. unfold TxContext.decode. rewrite Hw. destruct (TxEnvelope.decode b) as [e|]; [|done].
  cbn [mbind Result_bind]. destruct (TxContext.new e 0) as [c'|] eqn:Ec; [|done]. cbn. intros Hc.
  apply (inj Ok) in Hc as <-. by exists e.
Qed.

Lemma decode_formed b c : TxContext.decode b = Ok c -> wire_formed c.
Proof.
  destruct (TxContext.is_wire_encoded b) eqn:Hw.
  - apply is_wire_inv in Hw as [w ->]. intros (wire & s & _ & Hk & _ & Hs & ->)%decode_wire.
    split; cbn [context_of c_sender_type c_sender_key recipient_resolution sender_resolution
                c_sender_eth_address c_recipient_eth_address]; [|apply recipient_of_formed | done].
    unfold sender_of in Hs. destruct (_ =? _); [|apply (inj Ok) in Hs as <-; by eexists].
    destruct (w_sender_eth_address wire) as [a|]; [|done]. apply (inj Ok) in Hs as <-. by exists a.
  - intros (e & _ & Hn)%decode_envelope_only; [|done]. by eapply new_formed.
Qed.

Lemma constructed_formed c : constructed c -> wire_formed c.
Proof.
  intros [e fee c' Hc|p ty meta c' Hc|ty i a k m fee c' Hc|b c' Hc].
  - by eapply new_formed.
  - by eapply from_payload_formed.
  - unfold TxContext.from_eth_intent in Hc. destruct (ok _); [|done]. cbn [mbind option_bind] in Hc.
    destruct (TxEnvelope.to _); [|done]. destruct (head _); [|done]. cbn [mbind option_bind] in Hc.
    destruct (to_vec i); [|done]. by eapply from_payload_formed.
  - by eapply decode_formed.
Qed.

(** A context with a payload of its own survives the wire. *)
Lemma custom_roundtrip c raw b :
  wire_formed c -> c_payload c = PayloadCustom raw -> TxContext.encode c = Ok b -> TxContext.decode b = Ok c.
Proof.
  intros [Hs Hr Hk] Hp. unfold TxContext.encode. rewrite Hp. destruct (to_vec _) as [w|] eqn:Ew; [|done].
  cbn [ok_or mbind Result_bind]. intros Hb. apply (inj Ok) in Hb as <-. apply decode_wire.
  eexists _, (sender_resolution c). split; [by apply from_slice_to_vec|].
  cbn [w_sender_key]. split; [done|]. split; [by rewrite Hp|]. split.
  - unfold sender_of. cbn [w_sender_type w_sender_eth_address w_sender_account].
    destruct (c_sender_type c =? _); [destruct Hs as (a & -> & ->); done|].
    unfold TxContext.sender. by destruct Hs as (a & ->).
  - destruct c. cbn in *. unfold context_of. cbn. by rewrite <-Hr.
Qed.

(** A transaction of an Ethereum account is reduced to its envelope. *)
Lemma eoa_roundtrip c e b raw :
  c_payload c = PayloadEoa e -> TxEnvelope.decode raw = Ok e -> TxContext.encode c = Ok b ->
  TxContext.decode b = ok_or (TxContext.new (rehash b e) 0) ERR_RECIPIENT_REQUIRED.
Proof.
  intros Hp Hd. unfold TxContext.encode. rewrite Hp. intros Hb. apply (inj Ok) in Hb as <-.
  unfold TxContext.decode. rewrite encode_not_wire. by rewrite (decode_encode _ _ Hd).
Qed.

End Context_.

(** ** The gateway *)
Section Gateway.
Context `{RuntimeDeps} `{EthCodec} `{Secp256k1} `{AlloyTx TxLegacy} `{AlloyTx TxEip1559}.

(** The verifier of Ethereum senders is the one [EthGateway] starts with. *)
Definition eoa_verified (gw : EthGateway) : Prop :=
  verifiers (verifier gw) !! EOA_SECP256K1 =
  Some (eoa_payload_verifier (EcdsaVerifier.verify_signature (EcdsaVerifier.new (gw_chain_id gw)))).

Lemma eoa_verified_new id : eoa_verified (EthGateway.new id).
Proof. apply lookup_insert_eq. Qed.

Lemma eoa_verified_with_base_fee id fee : eoa_verified (EthGateway.with_base_fee id fee).
Proof. apply lookup_insert_eq. Qed.

Lemma eoa_verified_set_base_fee gw fee : eoa_verified gw -> eoa_verified (EthGateway.set_base_fee gw fee).
Proof. done. Qed.

Lemma eoa_verified_register gw ty v :
  ty ≠ EOA_SECP256K1 -> eoa_verified gw -> eoa_verified (EthGateway.register_payload_verifier gw ty v).
Proof. intros Hty Hgw. unfold eoa_verified. cbn. by rewrite lookup_insert_ne. Qed.

Lemma verify_eoa gw p :
  eoa_verified gw ->
  SignatureVerifierRegistry.verify_payload (verifier gw) EOA_SECP256K1 p = Ok tt <->
  exists e, p = PayloadEoa e /\ TxEnvelope.chain_id e = Some (gw_chain_id gw).
Proof.
  intros Hgw. unfold SignatureVerifierRegistry.verify_payload. rewrite Hgw. cbn [ok_or mbind Result_bind].
  destruct p as [e|raw]; cbn [eoa_payload_verifier].
  - unfold EcdsaVerifier.verify_signature, EcdsaVerifier.verify_chain_id. cbn [EcdsaVerifier.new ev_chain_id require_chain_id].
    split.
    + intros Hv. exists e. split; [done|]. destruct (TxEnvelope.chain_id e) as [id|]; [|done].
      destruct (id =? _) eqn:Ei; [|done]. apply Z.eqb_eq in Ei. by rewrite Ei.
    + intros (e' & [= <-] & ->). by rewrite Z.eqb_refl.
  - split; [done | by intros (e & ? & _)].
Qed.

(** Bytes that are not a wire context: exactly the signed transactions for this
    chain that call something. *)
Lemma verify_plain gw raw c :
  eoa_verified gw -> TxContext.is_wire_encoded raw = false ->
  EthGateway.decode_and_verify gw raw = Ok c <->
  exists e, TxEnvelope.decode raw = Ok e /\ TxEnvelope.tx_type e ∈ allowed_types (decoder gw) /\
    TxEnvelope.chain_id e = Some (gw_chain_id gw) /\ TxContext.new e (gw_base_fee gw) = Some c.
Proof.
  intros Hgw Hw. unfold EthGateway.decode_and_verify. rewrite Hw. unfold TypedTxDecoder.decode, TxEnvelope.decode.
  destruct (TxEnvelope.decode_from raw) as [[e rest]|]; cbn [mbind Result_bind];
    [|split; [done | by intros (? & ? & _)]].
  split.
  - intros Hv. case_bool_decide as Ht; cbn [negb] in Hv; [|done]. case_bool_decide; [|done]. subst rest.
    unfold EthGateway.verify_envelope in Hv.
    destruct (TxEnvelope.chain_id e) as [id|] eqn:Ei; cbn [from_option] in Hv; [|done].
    destruct (id =? gw_chain_id gw) eqn:Eid; cbn [negb] in Hv; [|done]. apply Z.eqb_eq in Eid. subst id.
    destruct (SignatureVerifierRegistry.verify_payload _ _ _); [|done].
    destruct (TxContext.new e _) as [c'|] eqn:Ec; [|done]. apply (inj Ok) in Hv as <-. by exists e.
  - intros (e' & Hd & Ht & Hi & Hc). case_bool_decide; [|done]. apply (inj Ok) in Hd as <-. subst rest.
    rewrite bool_decide_true by done. cbn [negb]. unfold EthGateway.verify_envelope.
    rewrite Hi. cbn [from_option]. rewrite Z.eqb_refl. cbn [negb].
    by rewrite (proj2 (verify_eoa gw (PayloadEoa e) Hgw)), Hc by (by exists e).
Qed.

Lemma verify_context_ok gw c c' :
  EthGateway.verify_context gw c = Ok c' <->
  c' = c /\ (forall id, c_chain_id c = Some id -> id = gw_chain_id gw) /\
  SignatureVerifierRegistry.verify_payload (verifier gw) (c_sender_type c) (c_payload c) = Ok tt.
Proof.
  unfold EthGateway.verify_context. destruct (c_chain_id c) as [id|]; cbn [from_option].
  - destruct (id =? _) eqn:Ei; cbn [negb].
    + apply Z.eqb_eq in Ei. destruct (SignatureVerifierRegistry.verify_payload _ _ _) as [[]|].
      * split; [intros [= <-]; split_and!; [done | by intros ? [= <-] | done] | by intros (-> & _)].
      * split; [done | by intros (_ & _ & ?)].
    + apply Z.eqb_neq in Ei. split; [done|]. intros (_ & Hi & _). by specialize (Hi _ eq_refl).
  - destruct (SignatureVerifierRegistry.verify_payload _ _ _) as [[]|].
    + split; [by intros [= <-] | by intros (-> & _)].
    + split; [done | by intros (_ & _ & ?)].
Qed.

(** Bytes that are a wire context. *)
Lemma verify_wire gw w c :
  EthGateway.decode_and_verify gw (TX_CONTEXT_WIRE_MAGIC ++ w) = Ok c <->
  TxContext.decode (TX_CONTEXT_WIRE_MAGIC ++ w) = Ok c /\
  (forall id, c_chain_id c = Some id -> id = gw_chain_id gw) /\
  SignatureVerifierRegistry.verify_payload (verifier gw) (c_sender_type c) (c_payload c) = Ok tt.
Proof.
  unfold EthGateway.decode_and_verify. rewrite is_wire_magic.
  destruct (TxContext.decode _) as [c0|]; [|split; [done | by intros (? & _)]].
  rewrite verify_context_ok. split.
  - intros (-> & ? & ?). done.
  - by intros ([= <-] & ? & ?).
Qed.

(** The sender of a wire context with an envelope is the signer. *)
Lemma decode_payload_eoa wire e :
  TxContext.decode_payload wire = Ok (PayloadEoa e) ->
  exists raw, w_payload wire = WireEoa raw /\ TxEnvelope.decode raw = Ok e /\
              w_sender_eth_address wire = Some (TxEnvelope.sender e).
Proof.
  unfold TxContext.decode_payload. destruct (w_payload wire) as [raw|raw]; [|done].
  destruct (TxEnvelope.decode raw) as [e'|] eqn:Ed; [|done]. cbn [mbind Result_bind].
  destruct (w_sender_eth_address wire) as [a|]; [|done]. cbn [ok_or mbind Result_bind].
  case_bool_decide as Ha; [done|]. intros [= <-]. exists raw. split_and!; [done..|]. by rewrite Ha.
Qed.

Lemma gateway_sender gw raw c :
  eoa_verified gw -> EthGateway.decode_and_verify gw raw = Ok c -> c_sender_type c = EOA_SECP256K1 ->
  exists e, c_payload c = PayloadEoa e /\ signer e = Ok (TxEnvelope.sender e) /\
    TxEnvelope.chain_id e = Some (gw_chain_id gw) /\ sender_resolution c = SenderAddress (TxEnvelope.sender e).
Proof.
  intros Hgw Hv Hty. destruct (TxContext.is_wire_encoded raw) eqn:Hw.
  - apply is_wire_inv in Hw as [w ->]. apply verify_wire in Hv as (Hd & _ & Hp). rewrite Hty in Hp.
    apply verify_eoa in Hp as (e & Hpe & Hi); [|done]. exists e.
    apply decode_wire in Hd as (wire & s & _ & _ & Hpay & Hs & Hc).
    rewrite Hpe in Hpay. apply decode_payload_eoa in Hpay as (r & _ & He & Ha).
    split_and!; [done | by apply decode_signed in He as [? _] | done |].
    unfold sender_of in Hs. rewrite Hc in Hty. cbn [context_of c_sender_type] in Hty.
    rewrite Hty, Z.eqb_refl, Ha in Hs. apply (inj Ok) in Hs as <-. by rewrite Hc.
  - apply verify_plain in Hv as (e & He & _ & Hi & Hc); [|done|done]. exists e.
    apply decode_signed in He as [Hs _]. unfold TxContext.new in Hc.
    destruct (TxEnvelope.to e); [|done]. destruct (head _); [|done]. destruct (ok _); [|done].
    cbn [mbind option_bind] in Hc. by apply (inj Some) in Hc as <-.
Qed.

End Gateway.
