(* ===== verification/EthExample.v ===== *)
(** * A concrete Ethereum setting

    Reference instances of the RLP code, of key recovery and of the borsh code
    of the Ethereum types, and a chain on which an Ethereum account holds
    tokens. The theorems on Ethereum transactions are evaluated on it. *)

From S2P Require Import Prelude Core Gas Collections ExecState Commit Runtime Invoker Token Codec Stf Example.
From S2P Require Import TokenExample Mempool Server EthTx EthContext EthGateway EthEoa.

Import Reference.
Open Scope evolve_scope.

(** ** Key recovery: the public key is read off the signature *)
#[export] Instance secp : Secp256k1 := {|
  RecoveryId := Z;
  RecoverableSignature := bytes;
  PublicKey := bytes;
  recovery_id_from_i32 i := if (0 <=? i) && (i <=? 3) then Some i else None;
  from_compact b _ := Some b;
  recover_ecdsa _ s := Some s;
  serialize_uncompressed k := x04 :: k |}.

(** ** A strict list encoding *)
#[export] Instance address_stream : BorshStream Address := array 20.
#[export] Instance hash_stream : BorshStream B256 := array 32.

#[export] Instance bool_stream : BorshStream bool.
Proof.
  refine {| serialize b := Some [if b : bool then x01 else x00];
            deserialize_reader r := match r with
                                    | x00 :: r => Some (false, r) | x01 :: r => Some (true, r) | _ => None
                                    end |}.
  by intros [] b rest [= <-].
Defined.

(** Fields in sequence. *)
Definition both {A B} (x : BorshStream A) (y : BorshStream B) : BorshStream (A * B) := pair_stream.
#[local] Notation "x ⋆ y" := (both x y) (at level 60, right associativity).

#[export] Instance signature_stream : BorshStream Signature.
Proof.
  refine (iso (H := uint 32 ⋆ uint 32 ⋆ bool_stream)
            (fun s => (sig_r s, (sig_s s, sig_v s))) (fun '(r, (s, v)) => Some (mkSignature r s v)) (fun _ => true) _).
  by_iso.
Defined.

#[export] Instance kind_stream : BorshStream TxKind.
Proof.
  refine (iso kind_to (fun o => Some (match o with Some a => Call a | None => Create end)) (fun _ => true) _). by_iso.
Defined.

#[export] Instance legacy_stream : BorshStream TxLegacy.
Proof.
  refine (iso (H := option_stream (H := uint 8) ⋆ uint 8 ⋆ uint 16 ⋆ uint 8 ⋆ kind_stream ⋆ uint 32 ⋆ vec_u8)
            (fun t => (leg_chain_id t, (leg_nonce t, (leg_gas_price t, (leg_gas_limit t, (leg_to t,
                      (leg_value t, leg_input t)))))))
            (fun '(c, (n, (p, (g, (t, (v, i)))))) => Some (mkTxLegacy c n p g t v i)) (fun _ => true) _). by_iso.
Defined.

#[export] Instance eip1559_stream : BorshStream TxEip1559.
Proof.
  refine (iso (H := uint 8 ⋆ uint 8 ⋆ uint 8 ⋆ uint 16 ⋆ uint 16 ⋆ kind_stream ⋆ uint 32 ⋆
                    list_stream (H := address_stream ⋆ list_stream) ⋆ vec_u8)
            (fun t => (fee_chain_id t, (fee_nonce t, (fee_gas_limit t, (fee_max_fee_per_gas t,
                      (fee_max_priority_fee_per_gas t, (fee_to t, (fee_value t, (fee_access_list t, fee_input t)))))))))
            (fun '(c, (n, (g, (m, (p, (t, (v, (a, i)))))))) => Some (mkTxEip1559 c n g m p t v a i)) (fun _ => true) _).
  by_iso.
Defined.

Section Strict.
Context {T : Type} `{BorshStream T}.

#[export] Instance signed_stream : BorshStream (Signed T).
Proof.
  refine (iso (fun s => (signed_tx s, signature s)) (fun p => Some (mkSigned p.1 p.2)) (fun _ => true) _). by_iso.
Defined.

Definition strict_encode (s : Signed T) : bytes := xf8 :: default [] (serialize s).

(** Only what the encoder writes is accepted. *)
Definition strict_decode (b : bytes) : option (Signed T * bytes) :=
  '(s, rest) ← deserialize_reader (tail b);
  raw ← serialize s;
  if bool_decide (b = xf8 :: raw ++ rest) then Some (s, rest) else None.

Lemma strict_decode_inv b s rest :
  strict_decode b = Some (s, rest) -> exists raw, serialize s = Some raw /\ b = xf8 :: raw ++ rest.
Proof.
  unfold strict_decode. destruct (deserialize_reader (tail b)) as [[s' rest']|]; [|done]. cbn [mbind option_bind].
  destruct (serialize s') as [raw|] eqn:Er; [|done]. cbn [mbind option_bind]. case_bool_decide; [|done].
  intros Hs. apply (inj Some), pair_equal_spec in Hs as [-> ->]. by exists raw.
Qed.

Definition strict : AlloyTx T.
Proof.
  refine {| rlp_encode := strict_encode; rlp_decode := strict_decode;
            signature_hash t := keccak256 (default [] (serialize t));
            alloy_hash s := keccak256 (strict_encode s) |}.
  - intros s. by eexists _, _.
  - intros b s rest (raw & _ & ->)%strict_decode_inv. by exists (xf8 :: raw).
  - intros b s rest rest' (raw & Hr & _)%strict_decode_inv. unfold strict_encode, strict_decode. rewrite Hr.
    cbn [default app tail]. rewrite (deserialize_serialize _ _ _ Hr). cbn [mbind option_bind]. rewrite Hr.
    cbn [mbind option_bind]. by rewrite bool_decide_true.
Defined.

End Strict.

#[export] Instance alloy_legacy : AlloyTx TxLegacy := strict.
#[export] Instance alloy_eip1559 : AlloyTx TxEip1559 := strict.

(** ** borsh *)
#[export] Instance payload_stream : BorshStream TxPayloadWire.
Proof.
  refine (iso (fun p => match p with WireEoa r => (false, r) | WireCustom r => (true, r) end)
            (fun p => Some (if p.1 : bool then WireCustom p.2 else WireEoa p.2)) (fun _ => true) _). by_iso.
Defined.

#[export] Instance asset_stream : BorshStream FungibleAsset.
Proof.
  refine (iso (H := pair_stream (H0 := uint 16)) (fun f => (asset_id f, amount f))
            (fun p => Some (mkFungibleAsset p.1 p.2)) (fun _ => true) _). by_iso.
Defined.

#[export] Instance wire_stream : BorshStream TxContextWireV1.
Proof.
  refine (iso (H := uint 2 ⋆ payload_stream ⋆ hash_stream ⋆ uint 8 ⋆ uint 8 ⋆ option_stream (H := uint 8) ⋆
                    uint 16 ⋆ request_stream ⋆ list_stream ⋆ account_stream ⋆ option_stream ⋆ vec_u8 ⋆
                    message_stream ⋆ option_stream ⋆ option_stream)
            (fun w => (w_sender_type w, (w_payload w, (w_tx_hash w, (w_gas_limit w, (w_nonce w, (w_chain_id w,
              (w_effective_gas_price w, (w_invoke_request w, (w_funds w, (w_sender_account w,
              (w_recipient_account w, (w_sender_key w, (w_authentication_payload w, (w_sender_eth_address w,
               w_recipient_eth_address w)))))))))))))))
            (fun '(a, (b, (c, (d, (e, (f, (g, (h, (i, (j, (k, (l, (m, (n, o)))))))))))))) =>
               Some (mkTxContextWireV1 a b c d e f g h i j k l m n o)) (fun _ => true) _). by_iso.
Defined.

#[export] Instance eth_codec : EthCodec.
Proof.
  refine {| eth_address := stream_borsh; eth_wire := stream_borsh; eth_intent := @stream_borsh _ _ |}.
  refine (iso (fun i => (intent_envelope i, auth_proof i)) (fun p => Some (mkEthIntentPayload p.1 p.2)) (fun _ => true) _).
  by_iso.
Defined.

#[export] Instance eoa_codec : EoaCodec.
Proof.
  refine {| eoa_authenticate := @stream_borsh _ _; eoa_initialize := @stream_borsh _ _;
            eoa_get_nonce := @stream_borsh _ (unit_stream mkGetNonceMsg (fun a => ltac:(by destruct a)));
            eoa_get_eth_address := @stream_borsh _ (unit_stream mkGetEthAddressMsg (fun a => ltac:(by destruct a))) |}.
  - refine (iso auth_tx (fun m => Some (mkAuthenticateMsg m)) (fun _ => true) _). by_iso.
  - refine (iso init_eth_address (fun m => Some (mkEoaInitializeMsg m)) (fun _ => true) _). by_iso.
Defined.

(** ** The chain

    The key with [r = 7] belongs to [victim]. *)
Definition victim : Address := pad 20 (be_bytes 20 7).
Definition victim_account : AccountId := derive_eth_eoa_account_id victim.
Definition other_address : Address := pad 20 (be_bytes 20 9).

(** The transaction [victim] signed: a call without input. *)
Definition signed_call (n : Z) : Signed TxLegacy :=
  mkSigned (mkTxLegacy (Some 1) n 5 100000 (Call other_address) 0 []) (mkSignature 7 1 false).
Definition victim_raw : bytes := rlp_encode (signed_call 0).

Definition gateway : EthGateway := EthGateway.new 1.

Definition eth_codes : AccountsCodeStorage := {|
  lookup_code id := Ok (if bool_decide (id = "Token") then Some Token.code
                        else if bool_decide (id = ETH_EOA_CODE_ID) then Some EthEoaAccount.code else None) |}.

(** [victim] holds 100 units of the token. *)
Definition eth_entries : list (bytes * option bytes) :=
  [ (get_account_code_identifier_for_account_key token_account, to_vec "Token");
    (account_number_key, to_vec (AccountId.from_u64 65543));
    (account_storage_key token_account (key_of (Map.make_key Token.balances victim_account)), to_vec (100 : U128));
    (account_storage_key token_account supply_key, to_vec (100 : U128));
    (account_storage_key token_account manager_key, to_vec (None : option AccountId)) ].

Definition eth_map : gmap bytes bytes := list_to_map (omap (fun e => pair e.1 <$> e.2) eth_entries).

#[export] Instance EthBlock_block : Block (list TxContext) TxContext := {|
  block_context _ := mkBlockContext 1 1;
  block_txs txs := txs;
  block_gas_limit _ := u64_max |}.

Definition eth_stf : Stf TxContext (list TxContext) := {|
  begin_blocker _ _ := PRet tt;
  end_blocker _ := PRet tt;
  tx_validator tx env := validate_tx tx env;
  post_tx_handler _ _ _ _ := PRet (Ok tt);
  storage_gas_config := StorageGasConfig_default |}.
