(* ===== verification/EoaFacts.v ===== *)
(** * Ethereum accounts: registry and account code

    The registry of [eoa_registry.rs] is an injective map; the account code of
    an externally owned account keeps its nonce and address. *)

From S2P Require Import Prelude Core Gas Collections ExecState ExecStateFacts Runtime Invoker Stf InvokerFacts.
From S2P Require Import CallFacts Isolation CollectionFacts Local TokenFacts Mempool Server EthTx EthContext EthEoa.

Open Scope evolve_scope.

(** ** The registry of Ethereum accounts

    The two tables of [eoa_registry.rs] in the storage of the runtime account
    are one injective map from addresses to account identifiers:
    [ensure_eoa_mapping], run by the runtime, adds a pair, finds it, or refuses
    a conflicting one. Run by another account it writes to that account's
    storage and leaves the registry as it is. *)

(** borsh encodes addresses and account identifiers. *)
Class AddressTotal `{SystemCodec} `{EthCodec} : Prop := {
  address_fits : forall x : Address, fits x;
  account_fits : forall y : AccountId, fits y
}.

Section Registry.
Context `{RuntimeDeps} `{EthCodec} `{Hst : !StorageTotal} `{Hat : !AddressTotal}.

Abbreviation run := (exec_local RUNTIME_ACCOUNT_ID).

(** The value at a key. *)
Definition cell {V} `{Borsh V} (st : gmap bytes bytes) (k : bytes) (o : option V) : Prop :=
  match st !! k with
  | None => o = None
  | Some b => exists v, decode_value b = Ok v /\ o = Some v
  end.

Lemma cell_same {V} `{Borsh V} st k (v : V) b : encode_value v = Ok b -> cell (<[k := b]> st) k (Some v).
Proof.
  intros Hb. unfold cell. rewrite lookup_insert_eq. exists v. split; [|done].
  unfold encode_value in Hb. destruct (to_vec v) eqn:Ev; [|done]. apply (inj Ok) in Hb as <-.
  unfold decode_value. by rewrite (from_slice_to_vec _ _ Ev).
Qed.

Lemma cell_other {V} `{Borsh V} st k k' (o : option V) b : k ≠ k' -> cell st k o -> cell (<[k' := b]> st) k o.
Proof. intros Hk. unfold cell. by rewrite lookup_insert_ne. Qed.

Definition registry_short (k : bytes) : Prop := short RUNTIME_ACCOUNT_ID k.

Lemma addr_key_short x : registry_short (addr_to_id_key x).
Proof.
  unfold registry_short, short, account_storage_key, addr_to_id_key, zlen.
  rewrite !length_app, length_vec_to_list, AccountId_as_bytes_length. by vm_compute.
Qed.

Lemma id_key_short y : registry_short (id_to_addr_key y).
Proof.
  unfold registry_short, short, account_storage_key, id_to_addr_key, zlen.
  rewrite !length_app, !AccountId_as_bytes_length. by vm_compute.
Qed.

Lemma addr_key_inj x x' : addr_to_id_key x = addr_to_id_key x' -> x = x'.
Proof. unfold addr_to_id_key. intros Hx%(app_inv_head EOA_ADDR_TO_ID_PREFIX). by apply vec_to_list_inj2. Qed.

Lemma id_key_inj y y' : id_to_addr_key y = id_to_addr_key y' -> y = y'.
Proof. unfold id_to_addr_key. intros Hy%(app_inv_head EOA_ID_TO_ADDR_PREFIX). by apply (inj AccountId.as_bytes). Qed.

Lemma addr_id_keys x y : addr_to_id_key x ≠ id_to_addr_key y.
Proof. discriminate. Qed.

(** ** The two operations on the runtime's storage *)
Lemma exec_lookup {A} `{Borsh A} k st (o : option A) :
  registry_short k -> values_fit st -> cell st k o ->
  run (lift_query (lookup_runtime (Message.get (A := A)) k)) st = Some (Ok o, st).
Proof using Hst.
  intros Hs Hfit Ho. unfold lookup_runtime, query_account.
  destruct (get_request_encodes RUNTIME_ACCOUNT_ID k (short_key _ k Hs)) as [b Hb].
  destruct (InvokeRequest.new (mkStorageGetRequest RUNTIME_ACCOUNT_ID k)) as [req|] eqn:Ereq;
    [|unfold InvokeRequest.new, Message.new, encode_value in Ereq; by rewrite Hb in Ereq].
  apply InvokeRequest_get_new in Ereq as [Hget Hfn]. cbn.
  unfold local_query. rewrite Hfn, Z.eqb_refl, Hget. cbn. rewrite !decide_True by done. cbn.
  destruct (get_response_encodes (Message.from_bytes <$> st !! k)) as [rb Hrb].
  { intros mv Hmv. destruct (st !! k) as [v|] eqn:Ev; simplify_eq/=. by apply (Hfit k). }
  destruct (InvokeResponse.new _) as [resp|] eqn:Eresp;
    [|unfold InvokeResponse.new, Message.new, encode_value in Eresp; by rewrite Hrb in Eresp].
  apply InvokeResponse_get_new in Eresp. cbn. rewrite Eresp. cbn. unfold cell in Ho.
  destruct (st !! k) as [v|]; [destruct Ho as (x & Hx & ->) | by subst]. cbn.
  unfold Message.get. cbn. by rewrite Hx.
Qed.

Lemma exec_storage_set {A} `{Borsh A} k (v : A) b st :
  registry_short k -> encode_value v = Ok b -> zlen b <= MAX_VALUE_SIZE ->
  run (storage_set_value k v) st = Some (Ok tt, <[k := b]> st).
Proof using Hst.
  intros Hs Hb Hl. unfold storage_set_value, exec_account, Message.new. rewrite Hb. cbn.
  destruct (set_request_encodes k (mkMessage (OwnedBytes b)) (short_key _ k Hs) Hl) as [rb Hrb].
  destruct (InvokeRequest.new _) as [req|] eqn:Ereq;
    [|unfold InvokeRequest.new, Message.new, encode_value in Ereq; by rewrite Hrb in Ereq].
  apply InvokeRequest_get_new in Ereq as [Hget Hfn]. cbn.
  unfold local_exec. rewrite Hfn, Z.eqb_refl, Hget. unfold local_write. cbn [set_key set_value from_option].
  unfold registry_short, short in Hs. rewrite (proj2 (Z.ltb_ge _ _) Hs). cbn [Message.len inner].
  change (Message.len (mkMessage (OwnedBytes b))) with (zlen b). rewrite (proj2 (Z.ltb_ge _ _) Hl).
  destruct set_response_encodes as [sb Hsb].
  destruct (InvokeResponse.new mkStorageSetResponse) as [resp|] eqn:Eresp;
    [|unfold InvokeResponse.new, Message.new, encode_value in Eresp; by rewrite Hsb in Eresp].
  apply InvokeResponse_get_new in Eresp. cbn. by rewrite Eresp.
Qed.

(** ** The registry is an injective map *)
Record registry_rep (st : gmap bytes bytes) (f : gmap Address AccountId) : Prop := {
  rr_forward : forall x, cell st (addr_to_id_key x) (f !! x);
  rr_reverse : forall y, exists o, cell st (id_to_addr_key y) o /\ forall x, o = Some x <-> f !! x = Some y;
  rr_fit : values_fit st }.

(** The account of an address and the address of an account determine each other. *)
Lemma registry_injective st f x x' y :
  registry_rep st f -> f !! x = Some y -> f !! x' = Some y -> x = x'.
Proof.
  intros Hr Hx Hx'. destruct (rr_reverse _ _ Hr y) as (o & _ & Ho).
  apply Ho in Hx, Hx'. by simplify_eq.
Qed.

(** What [ensure_eoa_mapping] does to the map. *)
Definition ensure_map (f : gmap Address AccountId) (x : Address) (y : AccountId)
    : SdkResult unit * gmap Address AccountId :=
  if decide (f !! x = Some y) then (Ok tt, f)
  else if bool_decide (f !! x = None) && bool_decide (map_Forall (fun _ y' => y' ≠ y) f)
  then (Ok tt, <[x := y]> f)
  else (Err ERR_ADDRESS_ACCOUNT_CONFLICT, f).

Lemma exec_conflict_free st f x y o :
  registry_rep st f -> cell st (id_to_addr_key y) o ->
  run (lift_query (ensure_mapping_conflict_free x y)) st =
  Some (if from_option (fun y' => negb (bool_decide (y' = y))) false (f !! x)
        then Err ERR_ADDRESS_ACCOUNT_CONFLICT
        else if from_option (fun x' => negb (bool_decide (x' = x))) false o
        then Err ERR_ADDRESS_ACCOUNT_CONFLICT
        else Ok (f !! x, o), st).
Proof using Hst.
  intros Hr Ho. unfold ensure_mapping_conflict_free.
  assert (Hl : run (lift_query (lookup_account_id_in_env x)) st = Some (Ok (f !! x), st))
    by exact (exec_lookup _ _ _ (addr_key_short x) (rr_fit _ _ Hr) (rr_forward _ _ Hr x)).
  rewrite exec_local_lift_try, Hl. cbn [mbind option_bind].
  rewrite exec_local_lift_try. unfold lookup_address_in_env.
  by rewrite (exec_lookup _ _ _ (id_key_short y) (rr_fit _ _ Hr) Ho).
Qed.

Lemma registry_insert st f x y bx by_ :
  registry_rep st f -> f !! x = None -> map_Forall (fun _ y' => y' ≠ y) f ->
  encode_value y = Ok by_ -> encode_value x = Ok bx -> zlen bx <= MAX_VALUE_SIZE -> zlen by_ <= MAX_VALUE_SIZE ->
  registry_rep (<[id_to_addr_key y := bx]> (<[addr_to_id_key x := by_]> st)) (<[x := y]> f).
Proof.
  intros [Hf Hr Hfit] Hx Hy Ey Ex Lx Ly. split.
  - intros x'. apply cell_other; [apply addr_id_keys|]. destruct (decide (x' = x)) as [->|Hne].
    + rewrite lookup_insert_eq. by apply cell_same.
    + rewrite lookup_insert_ne by done. apply cell_other; [|done]. intros Heq. by apply Hne, addr_key_inj.
  - intros y'. destruct (decide (y' = y)) as [->|Hne].
    + exists (Some x). split; [by apply cell_same|]. intros x'. split; [intros [= <-]; apply lookup_insert_eq|].
      intros [[-> _]|[_ Hx']]%lookup_insert_Some; [done|]. by specialize (Hy _ _ Hx').
    + destruct (Hr y') as (o & Ho & Hio). exists o. split.
      * apply cell_other; [intros Heq; by apply Hne, id_key_inj|]. apply cell_other; [|done].
        intros Heq. by apply (addr_id_keys x y').
      * intros x'. rewrite Hio, lookup_insert_Some. split; [|intros [[_ Heq]|[_ ?]]; congruence].
        intros Hx'. right. split; [|done]. intros <-. congruence.
  - unfold values_fit. by repeat apply map_Forall_insert_2.
Qed.

Lemma ensure_mapping_exec st f x y :
  registry_rep st f ->
  exists st', run (ensure_eoa_mapping x y) st = Some ((ensure_map f x y).1, st') /\
              registry_rep st' (ensure_map f x y).2.
Proof using Hst Hat.
  intros Hr. destruct (rr_reverse _ _ Hr y) as (o & Ho & Hio).
  pose proof (exec_conflict_free st f x y o Hr Ho) as Hc.
  unfold ensure_eoa_mapping, ensure_map. rewrite exec_local_try, Hc. cbn [mbind option_bind].
  destruct (f !! x) as [y'|] eqn:Ex; cbn [from_option].
  - destruct (decide (Some y' = Some y)) as [Heq|Hne].
    + apply (inj Some) in Heq as ->. rewrite bool_decide_true by done.
      rewrite (proj2 (Hio x)) by done. cbn [negb from_option fst snd]. rewrite bool_decide_true by done.
      cbn [negb]. rewrite !bool_decide_true by done. by exists st.
    + rewrite bool_decide_false by congruence. cbn. by exists st.
  - rewrite decide_False by done. rewrite bool_decide_true by done. cbn [andb].
    case_bool_decide as Hy.
    + assert (o = None) as ->.
      { destruct o as [x'|]; [|done]. by destruct (Hy x' y (proj1 (Hio x') eq_refl)). }
      cbn [from_option fst snd]. rewrite bool_decide_false by (by intros []). cbn [andb].
      unfold set_mapping. rewrite exec_local_try, Hc. cbn [mbind option_bind from_option fst snd].
      rewrite bool_decide_false by (by intros []). cbn [andb].
      destruct (account_fits y) as (by_ & Ey & Ly), (address_fits x) as (bx & Ebx & Lx).
      rewrite exec_local_try, (exec_storage_set _ _ _ _ (addr_key_short x) Ey Ly). cbn [mbind option_bind].
      rewrite exec_local_try, (exec_storage_set _ _ _ _ (id_key_short y) Ebx Lx). cbn [mbind option_bind].
      eexists. split; [done | by apply registry_insert].
    + destruct o as [x'|].
      * cbn [from_option]. rewrite bool_decide_false by (intros ->; by rewrite (proj1 (Hio x) eq_refl) in Ex). cbn. by exists st.
      * destruct Hy. intros x' y' Hx' ->. by apply Hio in Hx'.
Qed.

End Registry.

(** ** Facts about the Ethereum account

    What [authenticate] of [EthEoaAccount] does on every branch, and that the
    account's nonce never goes back and its address never changes, whatever
    other code runs and whichever transactions the account sends. *)

Section Eoa.
Context `{RuntimeDeps} `{CollectionCodec} `{EthCodec} `{EoaCodec}.
Context `{Secp256k1} `{AlloyTx TxLegacy} `{AlloyTx TxEip1559}.
Context (a : AccountId).

(** ** [authenticate] on the account's own storage *)
Section Spec.
Context `{Hst : !StorageTotal} `{Hkt : !KeysTotal}.

(** The account of the key [addr] whose next nonce is [n]. *)
Record eoa_rep (st : gmap bytes bytes) (addr : Address) (n : Z) : Prop := {
  er_address : holds a EthEoaAccount.eth_address tt st (Some addr);
  er_nonce : holds (V := U64) a EthEoaAccount.nonce tt st (Some n);
  er_range : is_u64 n;
  er_fit : values_fit st }.

Definition next_nonce (n : Z) : SdkResult Z :=
  if decide (n = u64_max) then Err ERR_NONCE_OVERFLOW else Ok (n + 1).

(** The nonce after authentication, or the reason why it fails. *)
Definition auth_result (addr : Address) (n : Z) (tx : Message) : SdkResult Z :=
  match EthEoaAccount.get_context tx with
  | Ok c =>
      if decide (TxContext.sender_address c = Some addr) then
        match c_nonce c ?= n with
        | Lt => Err ERR_NONCE_TOO_LOW
        | Gt => Err ERR_NONCE_TOO_HIGH
        | Eq => next_nonce n
        end
      else Err ERR_SENDER_MISMATCH
  | Err _ =>
      match Message.get (A := Address) tx, Message.get (A := AccountId) tx with
      | Ok x, _ => if decide (x = addr) then next_nonce n else Err ERR_SENDER_MISMATCH
      | Err _, Ok x => if decide (x = a) then next_nonce n else Err ERR_SENDER_MISMATCH
      | Err _, Err _ => next_nonce n
      end
  end.

Definition with_nonce (st : gmap bytes bytes) (r : SdkResult Z) : SdkResult unit * gmap bytes bytes :=
  match r with
  | Ok n => (Ok tt, put (V := U64) EthEoaAccount.nonce tt n st)
  | Err e => (Err e, st)
  end.

Lemma increment_nonce_spec st addr n env :
  whoami env = a -> eoa_rep st addr n ->
  exec_local a (EthEoaAccount.increment_nonce env) st = Some (with_nonce st (next_nonce n)).
Proof using Hst Hkt.
  intros Hwho [Ha Hn Hr Hf]. unfold EthEoaAccount.increment_nonce, Item.update, Map.update.
  rewrite !exec_local_try, (exec_may_get a _ _ env _ _ Hwho Hf Hn). cbn [mbind option_bind].
  unfold EthEoaAccount.unwrap_nonce, next_nonce, checked_add, is_u64 in *. cbn [default]. unfold id.
  rewrite exec_local_try. cbn [exec_local mret EnvProg_ret mbind option_bind].
  destruct (decide (n = u64_max)) as [->|Hne]; [done|].
  destruct (Z.ltb_spec u64_max (n + 1)); [lia|]. cbn [ok_or].
  rewrite exec_local_try, exec_set; [done | exact Hst | by eapply holds_key_ok | apply fits_u64; unfold is_u64; lia].
Qed.

Lemma authenticate_exec st addr n msg env :
  whoami env = a -> eoa_rep st addr n ->
  exec_local a (EthEoaAccount.authenticate msg env) st = Some (with_nonce st (auth_result addr n (auth_tx msg))).
Proof using Hst Hkt.
  intros Hwho Hrep. pose proof Hrep as [Ha Hn Hr Hf]. unfold EthEoaAccount.authenticate, auth_result.
  rewrite exec_local_try. unfold Item.may_get. rewrite (exec_may_get a _ _ env _ _ Hwho Hf Ha).
  cbn [mbind option_bind default]. destruct (EthEoaAccount.get_context (auth_tx msg)) as [c|e0] eqn:Ec.
  - unfold EthEoaAccount.authenticate_canonical_tx. rewrite exec_local_try. cbn [exec_local mret EnvProg_ret].
    destruct (TxContext.sender_address c) as [x|]; cbn [ok_or mbind option_bind]; [|done].
    case_bool_decide as Hx; [by rewrite decide_False by (by intros ?%(inj Some))|].
    rewrite Hx, decide_True by done.
    rewrite exec_local_try. unfold Item.may_get. rewrite (exec_may_get a _ _ env _ _ Hwho Hf Hn).
    cbn [mbind option_bind]. unfold EthEoaAccount.unwrap_nonce. cbn [default]. unfold id.
    destruct (c_nonce c ?= n); [by eapply increment_nonce_spec | done | done].
  - rewrite exec_local_try. cbn [exec_local mret EnvProg_ret mbind option_bind]. unfold EthEoaAccount.check_sender.
    rewrite Ec, Hwho.
    destruct (Message.get (A := Address) (auth_tx msg)) as [x|]; [|destruct (Message.get (A := AccountId) (auth_tx msg)) as [x|]];
      [case_bool_decide as Hx; [rewrite decide_False by done; done|]; rewrite decide_True by done..|];
      by eapply increment_nonce_spec.
Qed.

Lemma eoa_rep_put st addr n m : is_u64 m -> eoa_rep st addr n -> eoa_rep (put (V := U64) EthEoaAccount.nonce tt m st) addr m.
Proof using Hkt.
  intros Hm [Ha Hn Hr Hf]. split; [| |done|].
  - apply holds_put_apart; [apply apart_prefix; done | done].
  - apply holds_put; [by eapply holds_key_ok | by apply fits_u64].
  - apply values_fit_put; [by apply fits_u64 | done].
Qed.

End Spec.
(** ** The nonce under arbitrary other code *)

(** The address of the account is [addr] and its nonce at least [n]. *)
Record eoa_holds (addr : Address) (m : Z) (st : Store) : Prop := {
  eh_nonce : forall k, Map.make_key EthEoaAccount.nonce tt = Ok k -> read (V := U64) st k = Ok (Some m);
  eh_address : forall k, Map.make_key EthEoaAccount.eth_address tt = Ok k -> read st k = Ok (Some addr) }.

Definition eoa_state (addr : Address) (n : Z) (st : Store) : Prop := exists m, n <= m /\ eoa_holds addr m st.

Lemma eoa_state_proper addr n st st' : store_eq st st' -> eoa_state addr n st -> eoa_state addr n st'.
Proof.
  intros Hs (m & Hm & [Hn Ha]). exists m. split; [done|].
  split; intros; rewrite <-(read_proper st st') by done; auto.
Qed.

(** Keys that do not start with the prefix of one of the account's fields. *)
Lemma eoa_holds_other addr m st b k v :
  b ≠ x00 -> b ≠ x01 -> eoa_holds addr m st -> eoa_holds addr m (upd st (b :: k) v).
Proof.
  intros H0b H1b [Hn Ha]. split; intros k' Hk'; rewrite read_upd_ne; auto; intros ->;
    unfold Map.make_key in Hk'; repeat case_match; simplify_eq.
Qed.

Lemma eoa_holds_nonce addr m m' st k b :
  eoa_holds addr m st -> Map.make_key EthEoaAccount.nonce tt = Ok k -> encode_value (A := U64) m' = Ok b ->
  eoa_holds addr m' (upd st k (Some b)).
Proof.
  intros [Hn Ha] Hk Hb. split.
  - intros k' Hk'. assert (k' = k) as -> by congruence. by apply (read_upd (V := U64)).
  - intros k' Hk'. rewrite read_upd_ne; [auto|]. intros ->. unfold Map.make_key in *.
    repeat case_match; simplify_eq.
Qed.

Lemma wp_increment addr n I st env :
  whoami env = a -> eoa_state addr n st ->
  wp a I (EthEoaAccount.increment_nonce env) (fun r st' => is_ok r = true -> eoa_state addr n st') st.
Proof.
  intros Hwho (m & Hm & Hh). unfold EthEoaAccount.increment_nonce, Item.update.
  apply wp_try, wp_update; [done | done |]. intros k o x b Hk Ho Hx Hb.
  rewrite (eh_nonce _ _ _ Hh _ Hk) in Ho. apply (inj Ok) in Ho as <-. cbn. intros _.
  unfold EthEoaAccount.unwrap_nonce, checked_add in Hx. cbn [default] in Hx. unfold id in Hx.
  destruct (_ <? _); [done|]. apply (inj Ok) in Hx as <-.
  exists (m + 1). split; [lia | by eapply eoa_holds_nonce].
Qed.

Lemma eoa_keeps addr n : keeps_invariant a EthEoaAccount.code (eoa_state addr n).
Proof.
  intros env req st Hwho Hst. cbn [EthEoaAccount.code code_execute dispatch].
  case_match; [|done]. apply exec_arm_keeps. intros msg _. unfold EthEoaAccount.authenticate.
  apply wp_try, wp_may_get; [done | done |]. intros k o _ _.
  destruct (EthEoaAccount.get_context _) as [c|].
  - unfold EthEoaAccount.authenticate_canonical_tx.
    destruct (TxContext.sender_address c) as [x|]; [|done]. cbn [ok_or].
    apply wp_try. cbn [wp mret EnvProg_ret]. case_bool_decide; [done|].
    apply wp_try, wp_may_get; [done | done |]. intros k' o' _ _.
    destruct (_ ?= _); [by apply wp_increment | done | done].
  - apply wp_try. cbn [wp mret EnvProg_ret].
    destruct (EthEoaAccount.check_sender _ _ _); [by apply wp_increment | done].
Qed.

(** A message with a nonce that has been used is refused. *)
Lemma wp_replay addr n I st msg c env :
  whoami env = a -> eoa_state addr n st -> EthEoaAccount.get_context (auth_tx msg) = Ok c -> c_nonce c < n ->
  wp a I (EthEoaAccount.authenticate msg env) (fun r st' => is_ok r = false /\ st' = st) st.
Proof.
  intros Hwho (m & Hm & [Hn Ha]) Hc Hlt. unfold EthEoaAccount.authenticate.
  apply wp_try, wp_may_get; [done | done |]. intros k o Hk Ho. rewrite Hc.
  unfold EthEoaAccount.authenticate_canonical_tx.
  destruct (TxContext.sender_address c) as [x|]; [|done]. cbn [ok_or].
  apply wp_try. cbn [wp mret EnvProg_ret]. case_bool_decide; [done|].
  apply wp_try, wp_may_get; [done | done |]. intros k' o' Hk' Ho'.
  rewrite (Hn _ Hk') in Ho'. apply (inj Ok) in Ho' as <-.
  unfold EthEoaAccount.unwrap_nonce. cbn [default]. unfold id.
  destruct (Z.compare_spec (c_nonce c) m); [lia | done | lia].
Qed.

(** ** Resolving the recipient of the account's own transactions *)
Lemma wp_lookup {A} (get : Message -> SdkResult A) key I Q st :
  (forall r, Q r st) -> wp a I (lift_query (lookup_runtime get key)) Q st.
Proof.
  intros HQ. unfold lookup_runtime, query_account. cbn.
  destruct (InvokeRequest.new _) as [req|e]; [|apply HQ]. cbn. split; [intros; apply HQ|].
  intros resp _. destruct (InvokeResponse.get resp) as [r|e]; [|apply HQ]. cbn.
  destruct (get_value r); apply HQ.
Qed.

Lemma wp_storage_set {A} `{Borsh A} key (x : A) I Q st :
  (forall e, Q (Err e) st) -> (forall e b, Q (Err e) (upd st key (Some b))) ->
  (forall b, encode_value x = Ok b -> Q (Ok tt) (upd st key (Some b))) ->
  wp a I (storage_set_value key x) Q st.
Proof.
  intros He He' Hok. unfold storage_set_value, exec_account, Message.new.
  destruct (encode_value x) as [b|e] eqn:Eb; [|apply He]. cbn.
  destruct (InvokeRequest.new _) as [req|e] eqn:Ereq; [|apply He]. cbn. rewrite decide_True by done.
  split; [apply He|]. intros resp _. destruct (InvokeRequest_get_new _ _ Ereq) as [Hget Hfn].
  unfold storage_effect. rewrite Hfn, Z.eqb_refl, Hget. cbn [set_value set_key Message.into_bytes inner].
  cbn [mbind]. destruct (InvokeResponse.get resp); cbn; [by apply Hok | apply He'].
Qed.

Lemma wp_conflict_free addr id I Q st :
  (forall r, Q r st) -> wp a I (lift_query (ensure_mapping_conflict_free addr id)) Q st.
Proof.
  intros HQ. unfold ensure_mapping_conflict_free.
  apply wp_lift_try, wp_lookup. intros [f|e]; [|apply HQ].
  apply wp_lift_try, wp_lookup. intros [r|e]; [|apply HQ]. apply HQ.
Qed.

Lemma wp_ensure_mapping addr id J st :
  (forall st key v, J st -> J (upd st (addr_to_id_key key) v)) ->
  (forall st key v, J st -> J (upd st (id_to_addr_key key) v)) -> J st ->
  wp a J (ensure_eoa_mapping addr id) (fun _ st' => J st') st.
Proof.
  intros Hj1 Hj2 Hj. unfold ensure_eoa_mapping. apply wp_try, wp_conflict_free. intros [[f r]|e]; [|done].
  case_match; [done|]. unfold set_mapping. apply wp_try, wp_conflict_free. intros [[f' r']|e]; [|done].
  case_match; [done|]. apply wp_try, wp_storage_set; cbn beta iota; [auto | auto |]. intros b _.
  apply wp_try, wp_storage_set; cbn [wp mret EnvProg_ret]; auto.
Qed.

Lemma wp_register {Req} `{Borsh Req} id code_id (msg : Req) J st :
  J st -> wp a J (register_account_at_id id code_id msg) (fun _ st' => J st') st.
Proof.
  intros Hj. unfold register_account_at_id, exec_account.
  destruct (Message.new msg) as [m|e]; [|done]. cbn.
  destruct (InvokeRequest.new _) as [req|e] eqn:Ereq; [|done]. cbn.
  apply InvokeRequest_get_new in Ereq as [_ Hfn].
  rewrite decide_False by done. split_and!; [|done|done|].
  - split; [done|]. split; [by rewrite Hfn | by constructor].
  - intros resp st' Hj'. by destruct (InvokeResponse.get resp).
Qed.

(** Resolving a recipient keeps what does not depend on the registry keys. *)
Lemma wp_resolve_recipient tx env J st :
  (forall st key v, J st -> J (upd st (addr_to_id_key key) v)) ->
  (forall st key v, J st -> J (upd st (id_to_addr_key key) v)) -> J st ->
  wp a J (resolve_recipient_account (Tx := TxContext) tx env) (fun _ st' => J st') st.
Proof.
  intros Hj1 Hj2 Hj. cbn [resolve_recipient_account TxContext.context_transaction].
  unfold TxContext.resolve_recipient_account. destruct (recipient_resolution tx) as [to|x|]; [|done|done].
  apply wp_try, wp_lookup. intros [[x|]|e]; [done| |done].
  apply wp_try, wp_lookup. intros [[x|]|e]; [done| |done].
  unfold resolve_or_create_eoa_account. apply wp_try, wp_lookup. intros [[x|]|e]; [done| |done].
  apply wp_try. eapply wp_mono; [|by apply wp_register]. intros [[]|e] st1 Hst1; [|done].
  apply wp_try. eapply wp_mono; [|by apply wp_ensure_mapping]. by intros [[]|e] st2 Hst2.
Qed.

Lemma eoa_state_registry addr n st key v :
  eoa_state addr n st -> head key = Some x72 -> eoa_state addr n (upd st key v).
Proof.
  intros (m & Hm & Hh) Hk. exists m. split; [done|]. destruct key as [|b key]; [done|].
  apply (inj Some) in Hk as ->. by apply eoa_holds_other.
Qed.

Lemma eoa_resolve_recipient addr n tx env st :
  eoa_state addr n st ->
  wp a (eoa_state addr n) (resolve_recipient_account (Tx := TxContext) tx env)
    (fun _ st' => eoa_state addr n st') st.
Proof. apply wp_resolve_recipient; intros; by apply eoa_state_registry. Qed.

End Eoa.
