(* ===== verification/EthTheorems.v ===== *)
(** * Theorems on Ethereum transactions

    What the gateway accepts, what it does not check, and the round trip of
    contexts. *)

From S2P Require Import Prelude Core Gas Collections ExecState Commit Runtime Invoker Token Codec Stf Example.
From S2P Require Import TokenExample Chain Mempool Server EthTx EthContext EthGateway EthEoa EthFacts EthExample.

Open Scope evolve_scope.

Section Eth.
Context `{RuntimeDeps} `{CollectionCodec} `{EthCodec} `{EoaCodec}.
Context `{Secp256k1} `{AlloyTx TxLegacy} `{AlloyTx TxEip1559}.

(** C8: the gateway accepts a transaction of an Ethereum sender only with a
    transaction that the sender's key signed for this chain. Bytes that are not
    a wire context are accepted exactly when they are a signed call of an
    allowed type for this chain; the context is then the one of that
    transaction, and its hash is the hash of the bytes. *)
Theorem gateway_sender_signed gw raw c :
  eoa_verified gw ->
  (EthGateway.decode_and_verify gw raw = Ok c -> c_sender_type c = EOA_SECP256K1 ->
   exists e, c_payload c = PayloadEoa e /\ signer e = Ok (TxEnvelope.sender e) /\
     TxEnvelope.chain_id e = Some (gw_chain_id gw) /\ sender_resolution c = SenderAddress (TxEnvelope.sender e)) /\
  (TxContext.is_wire_encoded raw = false ->
   EthGateway.decode_and_verify gw raw = Ok c <->
   exists e, TxEnvelope.decode raw = Ok e /\ TxEnvelope.tx_type e ∈ allowed_types (decoder gw) /\
     TxEnvelope.chain_id e = Some (gw_chain_id gw) /\ TxContext.new e (gw_base_fee gw) = Some c /\
     TxEnvelope.tx_hash e = keccak256 raw).
Proof.
  intros Hgw. split; [intros; by eapply gateway_sender|]. intros Hw. rewrite verify_plain by done.
  split; intros (e & Hd & ?); exists e; [|tauto]. pose proof (decode_signed _ _ Hd). tauto.
Qed.

(** The wire context of a request of the attacker's choice around somebody
    else's signed transaction. *)
Definition forged_wire (raw : bytes) (sender : Address) (request : InvokeRequest) (to : AccountId)
    (funds : list FungibleAsset) (hash : B256) (gas_limit : Z) : TxContextWireV1 := {|
  w_sender_type := EOA_SECP256K1;
  w_payload := WireEoa raw;
  w_tx_hash := hash;
  w_gas_limit := gas_limit;
  w_nonce := 0;
  w_chain_id := None;
  w_effective_gas_price := u128_max;
  w_invoke_request := request;
  w_funds := funds;
  w_sender_account := AccountId.invalid;
  w_recipient_account := Some to;
  w_sender_key := [];
  w_authentication_payload := Message.from_bytes [];
  w_sender_eth_address := Some sender;
  w_recipient_eth_address := None |}.

(** C9: a signature does not protect what is executed. From any signed
    transaction the gateway accepts, anybody can build, without a key, a wire
    context that it accepts as well, with a request, recipient, funds, hash and
    gas limit of their choice; and no check before the execution can tell the
    two apart: the sender is resolved, created and registered alike, and the
    validator runs the same program for both. *)
Theorem forged_request_accepted gw raw c request to funds hash gas_limit w :
  eoa_verified gw -> TxContext.is_wire_encoded raw = false ->
  EthGateway.decode_and_verify gw raw = Ok c ->
  to_vec (forged_wire raw (default EthEoaAccount.zero_address (TxContext.sender_address c)) request to funds
            hash gas_limit) = Some w ->
  exists f, EthGateway.decode_and_verify gw (TX_CONTEXT_WIRE_MAGIC ++ w) = Ok f /\
    (tx_request f = request /\ tx_funds f = funds /\ tx_gas_limit f = gas_limit /\ tx_id f = hash /\
     forall env, resolve_recipient_account f env = mret (Ok to)) /\
    (sender_bootstrap f = sender_bootstrap c /\
     forall env, resolve_sender_account f env = resolve_sender_account c env /\
       validate_tx f env = validate_tx c env /\
       forall a, after_sender_bootstrap f a env = after_sender_bootstrap c a env).
Proof.
  intros Hgw Hw Hv Hf. apply verify_plain in Hv as (e & Hd & _ & Hi & Hc); [|done|done].
  unfold TxContext.new in Hc. destruct (TxEnvelope.to e) as [t|]; [|done].
  destruct (head _) as [r|]; [|done]. destruct (ok _) as [m|]; [|done].
  cbn [mbind option_bind] in Hc. apply (inj Some) in Hc as <-.
  cbn [TxContext.sender_address sender_resolution default] in Hf. apply from_slice_to_vec in Hf.
  set (wire := forged_wire _ _ _ _ _ _ _) in Hf.
  exists (context_of wire (PayloadEoa e) (SenderAddress (TxEnvelope.sender e))).
  split; [|by split_and!].
  apply verify_wire. split; [|split; [done | apply verify_eoa; [done|]; by exists e]].
  apply decode_wire. exists wire, (SenderAddress (TxEnvelope.sender e)).
  split_and!; [done | done | | done | done]. unfold TxContext.decode_payload.
  cbn [wire forged_wire w_payload w_sender_eth_address]. rewrite Hd. cbn [mbind Result_bind ok_or].
  by rewrite bool_decide_false by (intros Hne; by apply Hne).
Qed.

(** C40: contexts survive the network. A context the code builds around a
    payload of its own decodes to itself after it is encoded. The encoding of an
    Ethereum transaction is its envelope: whatever else the context says, it
    decodes to the context of the signed transaction, without a base fee. *)
Theorem context_roundtrip c b :
  constructed c -> TxContext.encode c = Ok b ->
  match c_payload c with
  | PayloadCustom _ => TxContext.decode b = Ok c
  | PayloadEoa e => forall raw, TxEnvelope.decode raw = Ok e ->
      TxContext.decode b = ok_or (TxContext.new (rehash b e) 0) ERR_RECIPIENT_REQUIRED
  end.
Proof.
  intros Hc%constructed_formed He. destruct (c_payload c) as [e|raw] eqn:Hp.
  - intros raw Hd. by eapply eoa_roundtrip.
  - by eapply custom_roundtrip.
Qed.

End Eth.

(** ** The theorems at work *)
Import Reference.

(** What holds of the context accepted for [raw], which passes a test. *)
Definition accepted (raw : bytes) (P : TxContext -> Prop) : Prop :=
  match EthGateway.decode_and_verify gateway raw with Ok c => P c | Err _ => False end.

Lemma accepted_intro raw (t : TxContext -> bool) (P : TxContext -> Prop) :
  match EthGateway.decode_and_verify gateway raw with Ok c => t c | Err _ => false end = true ->
  (forall c, EthGateway.decode_and_verify gateway raw = Ok c -> t c = true -> P c) -> accepted raw P.
Proof. unfold accepted. destruct (EthGateway.decode_and_verify _ _); [auto | done]. Qed.

Lemma gateway_sender_signed_witness :
  accepted victim_raw (fun c => exists e, signer e = Ok (TxEnvelope.sender e) /\
    sender_resolution c = SenderAddress (TxEnvelope.sender e)).
Proof.
  apply (accepted_intro _ (fun c => c_sender_type c =? EOA_SECP256K1)); [vm_compute; reflexivity|].
  intros c Hc Ht. apply Z.eqb_eq in Ht.
  destruct (gateway_sender_signed gateway victim_raw c (eoa_verified_new 1)) as [Hs _].
  destruct (Hs Hc Ht) as (e & _ & He & _ & Hr). by exists e.
Defined.

(** The request of an attacker: all tokens of the victim for [bob]. *)
Definition theft : InvokeRequest := TokenExample.request "transfer" (mkTransferMsg bob 100).
Definition theft_wire : TxContextWireV1 :=
  forged_wire victim_raw victim theft token_account [] B256_ZERO 100000.

(** The balance of [bob] after a block with the context accepted for [raw]. *)
Definition loot (raw : bytes) : option bytes :=
  match EthGateway.decode_and_verify gateway raw with
  | Ok c => '(_, _, storage) ← produce_block eth_stf eth_codes 20 eth_map [c];
            storage !! account_storage_key token_account (key_of (Map.make_key Token.balances bob))
  | Err _ => None
  end.

Lemma forged_request_accepted_witness :
  accepted victim_raw (fun c =>
    match to_vec theft_wire with
    | Some w => accepted (TX_CONTEXT_WIRE_MAGIC ++ w) (fun f =>
                  tx_request f = theft /\ (forall env, validate_tx f env = validate_tx c env)) /\
                loot (TX_CONTEXT_WIRE_MAGIC ++ w) = to_vec (100 : U128)
    | None => False
    end).
Proof.
  apply (accepted_intro _ (fun c => bool_decide (TxContext.sender_address c = Some victim)));
    [vm_compute; reflexivity|].
  intros c Hc Ht. apply bool_decide_eq_true in Ht.
  assert (Hw : match to_vec theft_wire with
               | Some w => bool_decide (loot (TX_CONTEXT_WIRE_MAGIC ++ w) = to_vec (100 : U128))
               | None => false end = true) by (vm_compute; reflexivity).
  destruct (to_vec theft_wire) as [w|] eqn:Ew; [|done]. apply bool_decide_eq_true in Hw. split; [|exact Hw].
  pose proof (forged_request_accepted gateway victim_raw c theft token_account [] B256_ZERO 100000 w) as Hf.
  rewrite Ht in Hf. destruct (Hf (eoa_verified_new 1) ltac:(vm_compute; reflexivity) Hc Ew)
    as (f & Hd & (Hr & _) & _ & He).
  unfold accepted. rewrite Hd. split; [exact Hr | intros env; by apply He].
Defined.

(** A context of a custom sender type. *)
Definition custom_context : option TxContext :=
  TxContext.from_payload (PayloadCustom [x01; x02]) CUSTOM
    (mkTxContextMeta B256_ZERO 1000 3 (Some 1) 7 theft [] bob (Some token_account) [] (Message.from_bytes [x05])
       None None).

Lemma context_roundtrip_witness :
  match custom_context with
  | Some c => match TxContext.encode c with Ok b => TxContext.decode b = Ok c | Err _ => False end
  | None => False
  end.
Proof.
  assert (Hc : match custom_context with
               | Some c => is_ok (TxContext.encode c) && match c_payload c with PayloadCustom _ => true | _ => false end
               | None => false end = true) by (vm_compute; reflexivity).
  destruct custom_context as [c|] eqn:Ec; [|done]. apply andb_true_iff in Hc as [Hb Hp].
  destruct (TxContext.encode c) as [b|] eqn:Eb; [|done].
  pose proof (context_roundtrip c b (constructed_payload _ _ _ _ Ec) Eb) as Hr.
  by destruct (c_payload c).
Defined.

(** ** Registration of foreign accounts

    Nothing authorises a [RegisterAccountAtIdRequest]. The holder of
    [other_address] registers the account of [victim], who has not sent a
    transaction yet, with a key of their own; the account then refuses the
    transactions of [victim]. *)
Definition attacker_raw : bytes :=
  rlp_encode (mkSigned (mkTxLegacy (Some 1) 0 5 100000 (Call other_address) 0 []) (mkSignature 9 1 false)).

Definition squat : SdkResult InvokeRequest :=
  init ← Message.new other_address;
  InvokeRequest.new (mkRegisterAccountAtIdRequest victim_account ETH_EOA_CODE_ID init).

Definition decoded (raw : bytes) : list TxContext :=
  match EthGateway.decode_and_verify gateway raw with Ok c => [c] | Err _ => [] end.

Definition squatting_block : list TxContext :=
  match squat with
  | Ok request =>
      match to_vec (forged_wire attacker_raw other_address request RUNTIME_ACCOUNT_ID [] B256_ZERO 100000) with
      | Some w => decoded (TX_CONTEXT_WIRE_MAGIC ++ w) ++ decoded victim_raw
      | None => []
      end
  | Err _ => []
  end.

Example squatted_account_refuses_owner :
  (fun p => is_ok ∘ tx_response <$> tx_results p.1.1) <$> produce_block eth_stf eth_codes 20 eth_map squatting_block =
    Some [true; false] /\
  (fun p => tx_response <$> drop 1 (tx_results p.1.1)) <$> produce_block eth_stf eth_codes 20 eth_map squatting_block =
    Some [Err ERR_SENDER_MISMATCH].
Proof. split; vm_compute; reflexivity. Qed.

(** ** Recipients and the registry

    The recipient of a transaction is resolved with the rights of the sender:
    the entry for a new recipient ends up in the sender's storage, where no
    lookup reads it, and not in the registry of the runtime account. *)
Example recipient_not_registered :
  (fun p => (p.2 !! account_storage_key RUNTIME_ACCOUNT_ID (addr_to_id_key other_address),
             p.2 !! account_storage_key victim_account (addr_to_id_key other_address))) <$>
    produce_block eth_stf eth_codes 20 eth_map (decoded victim_raw) =
  Some (None, to_vec (derive_eth_eoa_account_id other_address)).
Proof. vm_compute. reflexivity. Qed.
