(* ===== verification/EoaTheorems.v ===== *)
(** * Theorems on the Ethereum account and the registry *)

From S2P Require Import Prelude Core Gas Collections ExecState ExecStateFacts Commit Runtime Invoker Token Codec Stf.
From S2P Require Import Example InvokerFacts CallFacts Isolation CollectionFacts Local TokenExample StfFacts Chain.
From S2P Require Import CollectionTheorems Mempool Server EthTx EthContext EthGateway EthEoa EthFacts EthExample.
From S2P Require Import EoaFacts.

Open Scope evolve_scope.

Section Eoa.
Context `{RuntimeDeps} `{CollectionCodec} `{EthCodec} `{EoaCodec}.
Context `{Secp256k1} `{AlloyTx TxLegacy} `{AlloyTx TxEip1559}.

Section Chain.
Context {B : Type} `{Block B TxContext}.
Context (self : Stf TxContext B) (codes : AccountsCodeStorage) (fuel : nat) (a : AccountId).

(** What a transaction sent as [a] asks for is neither a write to storage nor a
    migration and carries no funds, as with every Ethereum transaction, and the
    handler after it leaves the account alone. *)
Definition sends_calls (I : Store -> Prop) (tx : TxContext) (block : BlockContext) : Prop := forall w x w',
  Stf.resolve_sender_phase codes fuel tx block w = Done (Ok x) w' -> x = a ->
  plain_request (tx_request tx) /\ tx_funds tx = [] /\
  forall gas_used response env st, whoami env = a -> I st ->
    wp a I (post_tx_handler self tx gas_used response env) (fun _ st' => I st') st.

(** The chain's setting: [a] is an ordinary account with the code of an
    Ethereum account and the key [addr], whose nonce is at least [n]; every
    undo log fits a [Vec], and the counter of account numbers reaches neither
    [reach] nor, unless it has passed it, the account. *)
Record eoa_chain (kappa reach : Z) (addr : Address) (n : Z) (storage : gmap bytes bytes) (blocks : list B) : Prop := {
  ec_ordinary : a ≠ RUNTIME_ACCOUNT_ID /\ a ≠ STORAGE_ACCOUNT_ID /\ a ≠ AccountId.invalid;
  ec_code : lookup_code codes ETH_EOA_CODE_ID = Ok (Some EthEoaAccount.code);
  ec_start : good a ETH_EOA_CODE_ID kappa reach (eoa_state addr n) (ExecutionState.new (MockStorage.get storage));
  ec_calls : Forall (fun block => Forall (fun tx => sends_calls (eoa_state addr n) tx (block_context block))
                                    (block_txs block)) blocks;
  ec_bounded : blocks_bounded self codes fuel storage blocks;
  ec_numbers : kappa + (zlen blocks + 1) * u64_max + 1 < reach <= 2 ^ 256 }.

(** C7: an authenticated transaction cannot be replayed. On a chain with
    arbitrary other accounts and codes, the account keeps its key and its nonce
    never goes back; and once the nonce has passed the nonce of a signed
    transaction, [authenticate] refuses every message that carries it and
    changes nothing. The transactions sent as the account itself are restricted,
    by [sends_calls]: they make plain calls, which are neither writes to the
    storage nor migrations, they carry no funds, and the handler after them
    leaves the state of the account alone. This is a condition on the
    transactions of the chain that the gateway does not enforce: a decoded
    Ethereum transaction carries no funds, but a forged wire context may ask for
    anything. The account is an ordinary one, whose identifier the counter of
    new accounts does not reach. *)
Theorem eoa_replay_protected kappa reach addr n storage blocks storage' :
  eoa_chain kappa reach addr n storage blocks ->
  produce_blocks self codes fuel storage blocks = Some storage' ->
  let st := own a (ExecutionState.new (MockStorage.get storage')) in
  eoa_state addr n st /\
  forall msg c env I, whoami env = a -> EthEoaAccount.get_context (auth_tx msg) = Ok c -> c_nonce c < n ->
    wp a I (EthEoaAccount.authenticate msg env) (fun r st' => is_ok r = false /\ st' = st) st.
Proof.
  intros [(? & ? & ?) Hc Hg Hs Hb Hn] Hp st.
  assert (Hst : eoa_state addr n st); [|split; [done | intros; by eapply wp_replay]].
  eapply (produce_blocks_good self codes fuel a ETH_EOA_CODE_ID EthEoaAccount.code); try done.
  - intros f g. apply eoa_state_proper.
  - apply eoa_keeps.
  - eapply Forall_impl; [exact Hs|]. intros block Hblock. eapply Forall_impl; [exact Hblock|].
    intros tx Htx w x w' Hr. destruct (decide (x = a)) as [->|]; [right | by left].
    destruct (Htx _ _ _ Hr eq_refl) as (Hreq & Hf & Hpost). split; [|exact Hpost |].
    + intros env st0 _. apply eoa_resolve_recipient.
    + intros ctx w0 to w1 _ _. rewrite Hf. by apply plain_harmless.
Qed.

End Chain.

Section Local.
Context `{Hst : !StorageTotal} `{Hkt : !KeysTotal} `{Hat : !AddressTotal}.

(** What [authenticate] does, on every branch. A context has to come from
    the account's own key with exactly the account's nonce; another message
    only has to be the account's address or identifier, or neither of the two.
    On success the nonce goes up by one, on an error nothing changes; who calls
    does not matter. *)
Theorem authenticate_spec a st addr n msg env :
  whoami env = a -> eoa_rep a st addr n ->
  exec_local a (EthEoaAccount.authenticate msg env) st = Some (with_nonce st (auth_result a addr n (auth_tx msg))).
Proof. intros. by apply authenticate_exec. Qed.

(** Anybody can use up the nonces of an Ethereum account. Whoever sends it,
    a call of [authenticate] with bytes that are no transaction, address or
    account identifier succeeds without a signature and advances the nonce, so
    that the transactions its holder has signed are refused. *)
Theorem authenticate_unsigned a st addr n junk env :
  whoami env = a -> eoa_rep a st addr n -> n < u64_max ->
  is_ok (TxContext.decode junk) = false -> from_slice (A := Address) junk = None ->
  from_slice (A := AccountId) junk = None ->
  exists st', exec_local a (EthEoaAccount.authenticate (mkAuthenticateMsg (Message.from_bytes junk)) env) st =
              Some (Ok tt, st') /\
    forall msg c env', whoami env' = a -> EthEoaAccount.get_context (auth_tx msg) = Ok c -> c_nonce c <= n ->
      exists e, exec_local a (EthEoaAccount.authenticate msg env') st' = Some (Err e, st').
Proof.
  intros Hwho Hrep Hn Hj Ha Hi. rewrite (authenticate_exec a st addr n) by done.
  unfold auth_result. cbn [auth_tx]. unfold EthEoaAccount.get_context at 1. cbn [inner Message.from_bytes].
  destruct (TxContext.decode junk); [done|].
  unfold Message.get. cbn [inner Message.from_bytes]. unfold decode_value. rewrite Ha, Hi. cbn [ok_or].
  unfold next_nonce. rewrite decide_False by lia. cbn [with_nonce]. eexists. split; [done|].
  intros msg c env' Hwho' Hc Hlt. rewrite (authenticate_exec a _ addr (n + 1)); [|done..|].
  - unfold auth_result. rewrite Hc. case_decide; [|by eexists].
    destruct (Z.compare_spec (c_nonce c) (n + 1)); [lia | by eexists | lia].
  - apply (eoa_rep_put a st addr n); [|done]. destruct (er_range _ _ _ _ Hrep). unfold is_u64. lia.
Qed.

(** C37: the registry of Ethereum accounts is an injective map. Run by the
    runtime account on its own storage, without gas limits, [ensure_eoa_mapping]
    adds a pair whose address and account are both new, accepts a pair that is
    registered, and refuses every other one without changing anything; in every
    state it leaves, an address has one account and an account one address. *)
Theorem registry_is_injective_map st f x y :
  registry_rep st f ->
  exists st', exec_local RUNTIME_ACCOUNT_ID (ensure_eoa_mapping x y) st = Some ((ensure_map f x y).1, st') /\
    registry_rep st' (ensure_map f x y).2 /\
    forall x1 x2 z, (ensure_map f x y).2 !! x1 = Some z -> (ensure_map f x y).2 !! x2 = Some z -> x1 = x2.
Proof.
  intros Hr. destruct (ensure_mapping_exec st f x y Hr) as (st' & He & Hr').
  exists st'. split; [done|]. split; [done|]. intros. by eapply registry_injective.
Qed.

End Local.
End Eoa.

(** ** The theorems at work *)
Import Reference.

(** The chain of [EthExample] after the first transaction of [victim]. *)
Definition nonce_key : bytes := key_of (Map.make_key EthEoaAccount.nonce tt).
Definition eth_address_key : bytes := key_of (Map.make_key EthEoaAccount.eth_address tt).
Definition eoa_map : gmap bytes bytes :=
  list_to_map (omap (fun e => pair e.1 <$> e.2)
    (eth_entries ++
     [ (get_account_code_identifier_for_account_key victim_account, to_vec ETH_EOA_CODE_ID);
       (account_storage_key victim_account nonce_key, to_vec (1 : U64));
       (account_storage_key victim_account eth_address_key, to_vec victim) ])).

(** A block with the second one. *)
Definition eoa_block : list TxContext :=
  match EthGateway.decode_and_verify gateway (rlp_encode (signed_call 1)) with Ok c => [c] | Err _ => [] end.

Lemma eoa_good : good victim_account ETH_EOA_CODE_ID 65543 (2 ^ 254) (eoa_state victim 1)
                   (ExecutionState.new (MockStorage.get eoa_map)).
Proof.
  split; [split | done |].
  - vm_compute. reflexivity.
  - intros last. assert (next_id (ExecutionState.new (MockStorage.get eoa_map)) = Ok (AccountId.from_u64 65543))
      as -> by (vm_compute; reflexivity).
    intros Hl. apply (inj Ok) in Hl as <-. split; [right; by vm_compute | by vm_compute].
  - exists 1. split; [done|].
    split; intros k Hk; apply (inj Ok) in Hk as <-; vm_compute; reflexivity.
Qed.

Lemma eoa_chain_example : eoa_chain eth_stf eth_codes 20 victim_account 65543 (2 ^ 254) victim 1 eoa_map [eoa_block].
Proof.
  split.
  - split_and!; by_decision.
  - reflexivity.
  - apply eoa_good.
  - apply Forall_singleton.
    assert (Hb : forallb (fun tx => (function (tx_request tx) =? 0) && bool_decide (tx_funds tx = [])) eoa_block = true)
      by (vm_compute; reflexivity).
    rewrite forallb_forall in Hb. apply Forall_forall. intros tx Hin w x w' _ _.
    apply list_elem_of_In, Hb, andb_true_iff in Hin as [Hf Hfs%bool_decide_eq_true]. apply Z.eqb_eq in Hf.
    split; [unfold plain_request; rewrite Hf; by_decision | split; [exact Hfs | by intros]].
  - apply chain_bounded_ok. vm_compute. reflexivity.
  - by_decision.
Qed.

(** The message the validator sends for the transaction with nonce [n]. *)
Definition auth_message (n : Z) : AuthenticateMsg :=
  match EthGateway.decode_and_verify gateway (rlp_encode (signed_call n)) with
  | Ok c => match authentication_payload c with Ok m => mkAuthenticateMsg m | Err _ => mkAuthenticateMsg (Message.from_bytes []) end
  | Err _ => mkAuthenticateMsg (Message.from_bytes [])
  end.

Definition context_nonce (msg : AuthenticateMsg) : option Z :=
  match EthEoaAccount.get_context (auth_tx msg) with Ok c => Some (c_nonce c) | Err _ => None end.

Lemma context_nonce_ok msg n :
  context_nonce msg = Some n -> exists c, EthEoaAccount.get_context (auth_tx msg) = Ok c /\ c_nonce c = n.
Proof.
  unfold context_nonce. destruct (EthEoaAccount.get_context _) as [c|]; [|done]. intros Hn%(inj Some). by exists c.
Qed.

Definition eoa_env : EnvView := mkEnvView victim_account RUNTIME_ACCOUNT_ID [] (mkBlockContext 1 1).

Lemma eoa_replay_protected_witness :
  match produce_blocks eth_stf eth_codes 20 eoa_map [eoa_block] with
  | Some storage =>
      let st := own victim_account (ExecutionState.new (MockStorage.get storage)) in
      eoa_state victim 1 st /\
      wp victim_account (eoa_state victim 1) (EthEoaAccount.authenticate (auth_message 0) eoa_env)
        (fun r st' => is_ok r = false /\ st' = st) st
  | None => False
  end.
Proof.
  assert (Hc : bool_decide (is_Some (produce_blocks eth_stf eth_codes 20 eoa_map [eoa_block])) = true)
    by (vm_compute; reflexivity).
  apply bool_decide_eq_true in Hc as [storage Hc]. rewrite Hc.
  destruct (eoa_replay_protected eth_stf eth_codes 20 victim_account 65543 (2 ^ 254) victim 1 eoa_map [eoa_block]
              storage eoa_chain_example Hc) as [Hst Hold].
  split; [exact Hst|].
  assert (Hn : context_nonce (auth_message 0) = Some 0) by (vm_compute; reflexivity).
  destruct (context_nonce_ok _ _ Hn) as (c & Hctx & Hnonce).
  apply (Hold _ c); [reflexivity | exact Hctx | rewrite Hnonce; lia].
Defined.

#[export] Instance reference_address_total : AddressTotal.
Proof.
  split; intros x; unfold fits, encode_value, to_vec; cbn; eexists; (split; [reflexivity|]).
  - unfold zlen. rewrite length_vec_to_list. by vm_compute.
  - unfold zlen. rewrite length_vec_to_list. by vm_compute.
Qed.

(** The cells of the account at nonce 1. *)
Definition eoa_cells : gmap bytes bytes :=
  list_to_map (omap (fun e => pair e.1 <$> e.2)
    [ (nonce_key, to_vec (1 : U64)); (eth_address_key, to_vec victim) ]).

Lemma eoa_rep_example : eoa_rep victim_account eoa_cells victim 1.
Proof.
  split.
  - exists eth_address_key. split; [vm_compute; reflexivity|]. split; [by vm_compute|].
    vm_compute. eexists. split; reflexivity.
  - exists nonce_key. split; [vm_compute; reflexivity|]. split; [by vm_compute|].
    vm_compute. eexists. split; reflexivity.
  - by_decision.
  - apply map_Forall_to_list. by_decision.
Qed.

Lemma authenticate_spec_witness :
  exec_local victim_account (EthEoaAccount.authenticate (auth_message 1) eoa_env) eoa_cells =
    Some (Ok tt, <[nonce_key := le_bytes 8 2]> eoa_cells) /\
  exec_local victim_account (EthEoaAccount.authenticate (auth_message 0) eoa_env) eoa_cells =
    Some (Err ERR_NONCE_TOO_LOW, eoa_cells).
Proof.
  split; rewrite (authenticate_spec victim_account eoa_cells victim 1 _ eoa_env eq_refl eoa_rep_example);
    vm_compute; reflexivity.
Defined.

Lemma authenticate_unsigned_witness :
  exists st', exec_local victim_account
                (EthEoaAccount.authenticate (mkAuthenticateMsg (Message.from_bytes [])) eoa_env) eoa_cells =
              Some (Ok tt, st') /\
    exists e, exec_local victim_account (EthEoaAccount.authenticate (auth_message 1) eoa_env) st' = Some (Err e, st').
Proof.
  destruct (authenticate_unsigned victim_account eoa_cells victim 1 [] eoa_env eq_refl eoa_rep_example)
    as (st' & He & Hold); [by_decision | vm_compute; reflexivity.. |].
  exists st'. split; [exact He|].
  assert (Hn : context_nonce (auth_message 1) = Some 1) by (vm_compute; reflexivity).
  destruct (context_nonce_ok _ _ Hn) as (c & Hctx & Hnonce).
  apply (Hold _ c); [reflexivity | exact Hctx | rewrite Hnonce; lia].
Defined.

Lemma registry_empty : registry_rep ∅ ∅.
Proof.
  split.
  - intros x. unfold cell. by rewrite !lookup_empty.
  - intros y. exists None. unfold cell. split; [by rewrite lookup_empty|]. intros x. by rewrite lookup_empty.
  - apply map_Forall_empty.
Qed.

Lemma registry_is_injective_map_witness :
  exists st', exec_local RUNTIME_ACCOUNT_ID (ensure_eoa_mapping victim victim_account) ∅ = Some (Ok tt, st') /\
    registry_rep st' {[ victim := victim_account ]}.
Proof.
  destruct (registry_is_injective_map ∅ ∅ victim victim_account registry_empty) as (st' & He & Hr & _).
  exists st'. split; [exact He | exact Hr].
Defined.
