(* ===== verification/Indexing.v ===== *)
(** * Index data of a block

    Models [crates/rpc/chain-index/src/integration.rs] with the stored types of
    [types.rs]: what the chain index stores of a block, its transactions and
    their receipts. SHA-256 is a parameter. *)

From stdpp Require Import pretty.
From S2P Require Import Prelude Core Gas ExecState ExecStateFacts Commit Runtime Invoker Stf.
From S2P Require Import StorageBackend Mempool Server EthTx EthContext.

Open Scope evolve_scope.

(** ** [types.rs] *)
Record StoredBlock := mkStoredBlock {
  sb_number : Z; sb_hash : B256; sb_parent_hash : B256; sb_state_root : B256;
  sb_transactions_root : B256; sb_receipts_root : B256; sb_timestamp : Z; sb_gas_used : Z;
  sb_gas_limit : Z; sb_transaction_count : Z; sb_miner : Address; sb_extra_data : bytes }.

Record StoredTransaction := mkStoredTransaction {
  st_hash : B256; st_block_number : Z; st_block_hash : B256; st_transaction_index : Z;
  st_from : Address; st_to : option Address; st_value : Z; st_gas : Z; st_gas_price : Z;
  st_input : bytes; st_nonce : Z; st_v : Z; st_r : Z; st_s : Z; st_tx_type : Z;
  st_chain_id : option Z; st_max_fee_per_gas : option Z; st_max_priority_fee_per_gas : option Z }.

Record StoredLog := mkStoredLog { lg_address : Address; lg_topics : list B256; lg_data : bytes }.

Record StoredReceipt := mkStoredReceipt {
  sr_transaction_hash : B256; sr_transaction_index : Z; sr_block_hash : B256; sr_block_number : Z;
  sr_from : Address; sr_to : option Address; sr_cumulative_gas_used : Z; sr_gas_used : Z;
  sr_effective_gas_price : Z; sr_contract_address : option Address; sr_logs : list StoredLog;
  sr_status : Z; sr_tx_type : Z; sr_revert_reason : option string }.

(** ** [integration.rs] *)
Class Sha256 := { sha256 : bytes -> B256 }.

(** What the index asks of a transaction besides [Transaction]: the two
    addresses of the trait, and the cast to a [TxContext]. *)
Class Indexable (Tx : Type) := {
  sender_eth_address : Tx -> option Address;
  recipient_eth_address : Tx -> option Address;
  as_context : Tx -> option TxContext
}.

#[export] Instance context_indexable : Indexable TxContext := {|
  sender_eth_address := c_sender_eth_address;
  recipient_eth_address := c_recipient_eth_address;
  as_context := Some |}.

Record EthereumIndexedTransaction := mkEthereumIndexedTransaction {
  ei_value : Z; ei_gas_price : Z; ei_input : bytes; ei_nonce : Z; ei_v : Z; ei_r : Z; ei_s : Z;
  ei_tx_type : Z; ei_chain_id : option Z; ei_max_fee_per_gas : option Z;
  ei_max_priority_fee_per_gas : option Z }.

Definition legacy_signature_v (y_parity : bool) (chain_id : option Z) : Z :=
  match chain_id with
  | Some chain_id =>
      saturating_add u64_max (saturating_add u64_max 35 (saturating_mul u64_max chain_id 2)) (Z.b2z y_parity)
  | None => 27 + Z.b2z y_parity
  end.

(** [format!("ErrorCode(id=0x{:04x}, arg={})")]. *)
Definition hex_digit (d : Z) : Ascii.ascii :=
  Ascii.ascii_of_N (Z.to_N (if d <? 10 then 48 + d else 87 + d)).
Definition hex4 (n : Z) : string :=
  String (hex_digit (n / 4096 mod 16)) (String (hex_digit (n / 256 mod 16))
    (String (hex_digit (n / 16 mod 16)) (String (hex_digit (n mod 16)) EmptyString))).
Definition format_error (err : ErrorCode) : string :=
  ("ErrorCode(id=0x" +:+ hex4 (err_id err) +:+ ", arg=" +:+ pretty (Z.to_N (err_arg err)) +:+ ")")%string.

Section Indexing.
Context `{RuntimeDeps} `{Sha256} {Tx : Type} `{Transaction Tx} `{Indexable Tx}.

Definition account_id_to_address (account_id : AccountId) : Address := derive_runtime_contract_address account_id.

Definition ethereum_tx_fields (tx : Tx) : option EthereumIndexedTransaction :=
  tx ← as_context tx;
  let gas_price := c_effective_gas_price tx in
  envelope ← TxContext.envelope tx;
  Some match envelope with
  | Legacy legacy =>
      let signed := sl_inner legacy in
      let chain_id := leg_chain_id (signed_tx signed) in
      {| ei_value := leg_value (signed_tx signed);
         ei_gas_price := gas_price;
         ei_input := leg_input (signed_tx signed);
         ei_nonce := leg_nonce (signed_tx signed);
         ei_v := legacy_signature_v (sig_v (signature signed)) chain_id;
         ei_r := sig_r (signature signed);
         ei_s := sig_s (signature signed);
         ei_tx_type := 0;
         ei_chain_id := chain_id;
         ei_max_fee_per_gas := None;
         ei_max_priority_fee_per_gas := None |}
  | Eip1559 eip1559 =>
      let signed := sf_inner eip1559 in
      {| ei_value := fee_value (signed_tx signed);
         ei_gas_price := gas_price;
         ei_input := fee_input (signed_tx signed);
         ei_nonce := fee_nonce (signed_tx signed);
         ei_v := Z.b2z (sig_v (signature signed));
         ei_r := sig_r (signature signed);
         ei_s := sig_s (signature signed);
         ei_tx_type := 2;
         ei_chain_id := Some (fee_chain_id (signed_tx signed));
         ei_max_fee_per_gas := Some (fee_max_fee_per_gas (signed_tx signed));
         ei_max_priority_fee_per_gas := Some (fee_max_priority_fee_per_gas (signed_tx signed)) |}
  end.

Definition event_to_stored_log (event : Event) : StoredLog :=
  let address := account_id_to_address (event_source event) in
  let name_hash := keccak256 (string_bytes (event_name event)) in
  let data := match Message.into_bytes (event_contents event) with Ok b => b | Err _ => [] end in
  mkStoredLog address [name_hash] data.

Definition resolve_sender_address (tx : Tx) : Address :=
  default (account_id_to_address (tx_sender tx)) (sender_eth_address tx).

Definition resolve_recipient_address (tx : Tx) : option Address :=
  match recipient_eth_address tx with
  | Some recipient => Some recipient
  | None =>
      let recipient := tx_recipient tx in
      if bool_decide (recipient = AccountId.invalid) then None else Some (account_id_to_address recipient)
  end.

Definition u32_of (n : Z) : Z := n mod 2 ^ 32.

Definition build_stored_transaction `{Borsh InvokeRequest} (tx : Tx) (tx_hash : B256) (block_number : Z)
    (block_hash : B256) (transaction_index chain_id : Z) (eth_fields : option EthereumIndexedTransaction)
    : StoredTransaction :=
  let from := resolve_sender_address tx in
  let to := resolve_recipient_address tx in
  match eth_fields with
  | Some f =>
      mkStoredTransaction tx_hash block_number block_hash transaction_index from to (ei_value f)
        (tx_gas_limit tx) (ei_gas_price f) (ei_input f) (ei_nonce f) (ei_v f) (ei_r f) (ei_s f)
        (ei_tx_type f) (ei_chain_id f) (ei_max_fee_per_gas f) (ei_max_priority_fee_per_gas f)
  | None =>
      let value := foldl (fun acc fa => (acc + amount fa) mod 2 ^ 256) 0 (tx_funds tx) in
      let input := default [] (to_vec (tx_request tx)) in
      mkStoredTransaction tx_hash block_number block_hash transaction_index from to value
        (tx_gas_limit tx) 0 input 0 0 0 0 0 (Some chain_id) None None
  end.

Definition build_stored_receipt (tx : Tx) (tx_result : TxResult) (tx_hash : B256) (block_number : Z)
    (block_hash : B256) (transaction_index cumulative_gas_used : Z)
    (eth_fields : option EthereumIndexedTransaction) : StoredReceipt :=
  {| sr_transaction_hash := tx_hash;
     sr_transaction_index := transaction_index;
     sr_block_hash := block_hash;
     sr_block_number := block_number;
     sr_from := resolve_sender_address tx;
     sr_to := resolve_recipient_address tx;
     sr_cumulative_gas_used := cumulative_gas_used;
     sr_gas_used := tx_gas_used tx_result;
     sr_effective_gas_price := from_option ei_gas_price 0 eth_fields;
     sr_contract_address := None;
     sr_logs := event_to_stored_log <$> tx_events tx_result;
     sr_status := if is_ok (tx_response tx_result) then 1 else 0;
     sr_tx_type := from_option ei_tx_type 0 eth_fields;
     sr_revert_reason := match tx_response tx_result with Err err => Some (format_error err) | Ok _ => None end |}.

Definition compute_tx_root (txs : list StoredTransaction) : B256 :=
  match txs with
  | [] => B256_ZERO
  | _ => sha256 (mjoin ((fun tx => vec_to_list (st_hash tx)) <$> txs))
  end.

Definition compute_receipts_root (receipts : list StoredReceipt) : B256 :=
  match receipts with
  | [] => B256_ZERO
  | _ => sha256 (mjoin ((fun r => vec_to_list (sr_transaction_hash r) ++ [byte_of_Z (sr_status r)] ++
                                  be_bytes 8 (sr_gas_used r)) <$> receipts))
  end.

(** The loop of [build_index_data], over the pairs left. *)
Fixpoint index_loop `{Borsh InvokeRequest} (block_number : Z) (block_hash : B256) (chain_id idx : Z)
    (cumulative_gas : Z) (pairs : list (Tx * TxResult)) : list StoredTransaction * list StoredReceipt :=
  match pairs with
  | [] => ([], [])
  | (tx, tx_result) :: pairs =>
      let tx_hash := compute_identifier tx in
      let cumulative_gas := wrap64 (cumulative_gas + tx_gas_used tx_result) in
      let eth_fields := ethereum_tx_fields tx in
      let stored_tx :=
        build_stored_transaction tx tx_hash block_number block_hash (u32_of idx) chain_id eth_fields in
      let stored_receipt :=
        build_stored_receipt tx tx_result tx_hash block_number block_hash (u32_of idx) cumulative_gas eth_fields in
      let '(stored_txs, stored_receipts) :=
        index_loop block_number block_hash chain_id (idx + 1) cumulative_gas pairs in
      (stored_tx :: stored_txs, stored_receipt :: stored_receipts)
  end.

Definition build_index_data {B : Type} `{Stf.Block B Tx} `{Borsh InvokeRequest} (block : B) (result : BlockResult)
    (metadata : Server.BlockMetadata) : StoredBlock * list StoredTransaction * list StoredReceipt :=
  let block_number := block_height (block_context block) in
  let block_hash := Server.md_hash metadata in
  let txs := block_txs block in
  let total_gas_used := wrap64 (foldr (fun r n => tx_gas_used r + n) 0 (tx_results result)) in
  let '(stored_txs, stored_receipts) :=
    index_loop block_number block_hash (Server.md_chain_id metadata) 0 0 (zip txs (tx_results result)) in
  ({| sb_number := block_number;
      sb_hash := block_hash;
      sb_parent_hash := Server.md_parent_hash metadata;
      sb_state_root := Server.md_state_root metadata;
      sb_transactions_root := compute_tx_root stored_txs;
      sb_receipts_root := compute_receipts_root stored_receipts;
      sb_timestamp := Server.md_timestamp metadata;
      sb_gas_used := total_gas_used;
      sb_gas_limit := Server.md_gas_limit metadata;
      sb_transaction_count := u32_of (zlen stored_txs);
      sb_miner := Server.md_miner metadata;
      sb_extra_data := Server.md_extra_data metadata |}, stored_txs, stored_receipts).

End Indexing.

(** ** The trait of [index.rs]

    A chain index answers from its cache and its tables; reading fills the
    cache, so that every operation returns the index. *)
Record TxLocation := mkTxLocation { loc_block_number : Z; loc_transaction_index : Z }.

Class ChainIndex (I E : Type) := {
  latest_block_number : I -> Result E (option Z) * I;
  get_block : I -> Z -> Result E (option StoredBlock) * I;
  get_block_by_hash : I -> B256 -> Result E (option StoredBlock) * I;
  get_block_number : I -> B256 -> Result E (option Z) * I;
  get_block_transactions : I -> Z -> Result E (list B256) * I;
  get_transaction : I -> B256 -> Result E (option StoredTransaction) * I;
  get_transaction_location : I -> B256 -> Result E (option TxLocation) * I;
  get_receipt : I -> B256 -> Result E (option StoredReceipt) * I;
  get_logs_by_block : I -> Z -> Result E (list StoredLog) * I;
  store_block : I -> StoredBlock -> list StoredTransaction -> list StoredReceipt -> Result E unit * I
}.
