(* ===== verification/IndexStore.v ===== *)
(** * The persistent chain index

    Models [crates/rpc/chain-index/src]: the cache of recent chain data
    ([cache.rs]), the errors ([error.rs]) and the index kept in a SQLite
    database ([index.rs]). The SQL statements of the source are definitions on
    tables; the engine that runs them, the LRU cache and the JSON encoding of
    topics are parameters. *)

From S2P Require Import Prelude Core ExecState Runtime Stf StorageBackend Mempool Server EthTx EthContext Indexing.

Open Scope evolve_scope.

(** Operations on a state behind a shared reference. *)
Definition Op (S A : Type) : Type := S -> A * S.
#[global] Instance Op_ret S : MRet (Op S) := fun A a s => (a, s).
#[global] Instance Op_bind S : MBind (Op S) := fun A B k m s => let '(a, s) := m s in k a s.

(** ** [cache.rs] *)

(** The [lru] crate: a map of bounded size that forgets its oldest entries. *)
Class LruCache (L : Type -> Type -> Type) := {
  lru_new : forall {K V} `{Countable K}, Z -> L K V;
  lru_put : forall {K V} `{Countable K}, L K V -> K -> V -> L K V;
  lru_get : forall {K V} `{Countable K}, L K V -> K -> option V * L K V;
  lru_clear : forall {K V} `{Countable K}, L K V -> L K V;
  lru_contents : forall {K V} `{Countable K}, L K V -> gmap K V
}.

Class LruCacheLaws (L : Type -> Type -> Type) `{LruCache L} := {
  contents_new K V `{Countable K} n : lru_contents (lru_new n : L K V) = ∅;
  contents_put K V `{Countable K} (c : L K V) k v : lru_contents (lru_put c k v) ⊆ <[k := v]> (lru_contents c);
  get_contents K V `{Countable K} (c : L K V) k : (lru_get c k).1 = lru_contents c !! k;
  contents_get K V `{Countable K} (c : L K V) k : lru_contents (lru_get c k).2 = lru_contents c;
  contents_clear K V `{Countable K} (c : L K V) : lru_contents (lru_clear c) = ∅
}.

Definition DEFAULT_BLOCK_CACHE_SIZE : Z := 128.
Definition DEFAULT_TX_CACHE_SIZE : Z := 4096.
Definition DEFAULT_RECEIPT_CACHE_SIZE : Z := 4096.

Record CacheConfig := mkCacheConfig { block_cache_size : Z; tx_cache_size : Z; receipt_cache_size : Z }.
Definition CacheConfig_default : CacheConfig :=
  mkCacheConfig DEFAULT_BLOCK_CACHE_SIZE DEFAULT_TX_CACHE_SIZE DEFAULT_RECEIPT_CACHE_SIZE.

Record ChainCache (L : Type -> Type -> Type) := mkChainCache {
  blocks_by_number : L Z StoredBlock; block_number_by_hash : L B256 Z;
  cached_transactions : L B256 StoredTransaction; cached_receipts : L B256 StoredReceipt;
  latest_block : option Z }.
Arguments mkChainCache {L} _ _ _ _ _.
Arguments blocks_by_number {L} _.
Arguments block_number_by_hash {L} _.
Arguments cached_transactions {L} _.
Arguments cached_receipts {L} _.
Arguments latest_block {L} _.

Module ChainCache.
Section Methods.
Context {L : Type -> Type -> Type} `{LruCache L}.

(** [None]: a size of zero panics. *)
Definition new (config : CacheConfig) : option (ChainCache L) :=
  if bool_decide (block_cache_size config ≠ 0 /\ tx_cache_size config ≠ 0 /\ receipt_cache_size config ≠ 0) then
    Some (mkChainCache (lru_new (block_cache_size config)) (lru_new (block_cache_size config))
            (lru_new (tx_cache_size config)) (lru_new (receipt_cache_size config)) None)
  else None.

Definition with_defaults : option (ChainCache L) := new CacheConfig_default.

Definition latest_block_number (self : ChainCache L) : option Z := latest_block self.

Definition set_latest_block_number (self : ChainCache L) (number : Z) : ChainCache L :=
  if match latest_block self with None => true | Some n => n <? number end then
    mkChainCache (blocks_by_number self) (block_number_by_hash self) (cached_transactions self)
      (cached_receipts self) (Some number)
  else self.

Definition insert_block (self : ChainCache L) (block : StoredBlock) : ChainCache L :=
  let number := sb_number block in
  let hash := sb_hash block in
  set_latest_block_number
    (mkChainCache (lru_put (blocks_by_number self) number block) (lru_put (block_number_by_hash self) hash number)
       (cached_transactions self) (cached_receipts self) (latest_block self)) number.

Definition get_block_by_number (number : Z) : Op (ChainCache L) (option StoredBlock) := fun self =>
  let '(block, blocks) := lru_get (blocks_by_number self) number in
  (block, mkChainCache blocks (block_number_by_hash self) (cached_transactions self) (cached_receipts self)
            (latest_block self)).

Definition get_block_number_by_hash (hash : B256) : Op (ChainCache L) (option Z) := fun self =>
  let '(number, numbers) := lru_get (block_number_by_hash self) hash in
  (number, mkChainCache (blocks_by_number self) numbers (cached_transactions self) (cached_receipts self)
             (latest_block self)).

Definition get_block_by_hash (hash : B256) : Op (ChainCache L) (option StoredBlock) := fun self =>
  match get_block_number_by_hash hash self with
  | (None, self) => (None, self)
  | (Some number, self) => get_block_by_number number self
  end.

Definition insert_transaction (self : ChainCache L) (tx : StoredTransaction) : ChainCache L :=
  mkChainCache (blocks_by_number self) (block_number_by_hash self)
    (lru_put (cached_transactions self) (st_hash tx) tx) (cached_receipts self) (latest_block self).

Definition get_transaction (hash : B256) : Op (ChainCache L) (option StoredTransaction) := fun self =>
  let '(tx, transactions) := lru_get (cached_transactions self) hash in
  (tx, mkChainCache (blocks_by_number self) (block_number_by_hash self) transactions (cached_receipts self)
         (latest_block self)).

Definition insert_receipt (self : ChainCache L) (receipt : StoredReceipt) : ChainCache L :=
  mkChainCache (blocks_by_number self) (block_number_by_hash self) (cached_transactions self)
    (lru_put (cached_receipts self) (sr_transaction_hash receipt) receipt) (latest_block self).

Definition get_receipt (tx_hash : B256) : Op (ChainCache L) (option StoredReceipt) := fun self =>
  let '(receipt, receipts) := lru_get (cached_receipts self) tx_hash in
  (receipt, mkChainCache (blocks_by_number self) (block_number_by_hash self) (cached_transactions self) receipts
              (latest_block self)).

Definition insert_block_with_data (self : ChainCache L) (block : StoredBlock)
    (transactions : list StoredTransaction) (receipts : list StoredReceipt) : ChainCache L :=
  foldl insert_receipt (foldl insert_transaction (insert_block self block) transactions) receipts.

Definition clear (self : ChainCache L) : ChainCache L :=
  mkChainCache (lru_clear (blocks_by_number self)) (lru_clear (block_number_by_hash self))
    (lru_clear (cached_transactions self)) (lru_clear (cached_receipts self)) None.

End Methods.
End ChainCache.

(** ** [error.rs] *)

(** Errors of [rusqlite]. *)
Inductive RusqliteError :=
| QueryReturnedNoRows
| FromSqlConversionFailure (col : Z) (len : option Z)
| SqliteFailure (msg : option string).

Inductive ChainIndexError :=
| BlockNotFound (number : Z)
| BlockHashNotFound (hash : string)
| TransactionNotFound (hash : string)
| ReceiptNotFound (hash : string)
| IndexStorage (err : ErrorCode)
| Serialization
| Deserialization
| InvalidParentHash (height : Z)
| BlockAlreadyExists (height : Z)
| EmptyIndex
| SqliteError (err : RusqliteError).

(** ** The tables of [index.rs]: rows hold 64-bit signed integers and blobs *)
Record BlockRow := mkBlockRow {
  br_number : Z; br_hash : bytes; br_parent_hash : bytes; br_state_root : bytes; br_transactions_root : bytes;
  br_receipts_root : bytes; br_timestamp : Z; br_gas_used : Z; br_gas_limit : Z; br_transaction_count : Z;
  br_miner : bytes; br_extra_data : bytes }.

Record TxRow := mkTxRow {
  tr_hash : bytes; tr_block_number : Z; tr_transaction_index : Z; tr_from : bytes; tr_to : option bytes;
  tr_value : bytes; tr_gas : Z; tr_gas_price : bytes; tr_input : bytes; tr_nonce : Z; tr_v : Z; tr_r : bytes;
  tr_s : bytes; tr_tx_type : Z; tr_chain_id : option Z; tr_max_fee_per_gas : option bytes;
  tr_max_priority_fee_per_gas : option bytes }.

Record ReceiptRow := mkReceiptRow {
  rr_transaction_hash : bytes; rr_transaction_index : Z; rr_block_number : Z; rr_from : bytes;
  rr_to : option bytes; rr_cumulative_gas_used : Z; rr_gas_used : Z; rr_contract_address : option bytes;
  rr_status : Z; rr_tx_type : Z; rr_revert_reason : option string }.

(** Rows of [logs] in the order of their ids, which grow. *)
Record LogRow := mkLogRow {
  lr_block_number : Z; lr_transaction_hash : bytes; lr_address : bytes; lr_topics : bytes; lr_data : bytes }.

(** Of [metadata], the value of the key [latest_block]. *)
Record Tables := mkTables {
  t_blocks : list BlockRow; t_transactions : list TxRow; t_receipts : list ReceiptRow; t_logs : list LogRow;
  t_latest : option Z }.

(** The statements of [store_block] and its helpers. *)
Inductive Statement :=
| DeleteLogs (block_number : Z)
| DeleteReceipts (block_number : Z)
| DeleteTransactions (block_number : Z)
| ReplaceBlock (row : BlockRow)
| ReplaceTransaction (row : TxRow)
| ReplaceReceipt (row : ReceiptRow)
| InsertLog (row : LogRow)
| ReplaceLatest (value : Z).

(** The foreign keys of the schema. *)
Definition references_ok (t : Tables) : bool :=
  let number n := existsb (fun b => br_number b =? n) (t_blocks t) in
  forallb (fun r => number (tr_block_number r)) (t_transactions t) &&
  forallb (fun r => number (rr_block_number r)) (t_receipts t) &&
  forallb (fun r => number (lr_block_number r)) (t_logs t).

(** What a statement makes of the tables: [OR REPLACE] drops the rows that
    agree on a primary or unique key. *)
Definition rewrite_tables (s : Statement) (t : Tables) : Tables :=
  match s with
  | DeleteLogs n =>
      mkTables (t_blocks t) (t_transactions t) (t_receipts t)
        (filter (fun r => lr_block_number r ≠ n) (t_logs t)) (t_latest t)
  | DeleteReceipts n =>
      mkTables (t_blocks t) (t_transactions t) (filter (fun r => rr_block_number r ≠ n) (t_receipts t))
        (t_logs t) (t_latest t)
  | DeleteTransactions n =>
      mkTables (t_blocks t) (filter (fun r => tr_block_number r ≠ n) (t_transactions t)) (t_receipts t)
        (t_logs t) (t_latest t)
  | ReplaceBlock row =>
      mkTables (filter (fun r => br_number r ≠ br_number row /\ br_hash r ≠ br_hash row) (t_blocks t) ++ [row])
        (t_transactions t) (t_receipts t) (t_logs t) (t_latest t)
  | ReplaceTransaction row =>
      mkTables (t_blocks t) (filter (fun r => tr_hash r ≠ tr_hash row) (t_transactions t) ++ [row])
        (t_receipts t) (t_logs t) (t_latest t)
  | ReplaceReceipt row =>
      mkTables (t_blocks t) (t_transactions t)
        (filter (fun r => rr_transaction_hash r ≠ rr_transaction_hash row) (t_receipts t) ++ [row])
        (t_logs t) (t_latest t)
  | InsertLog row =>
      mkTables (t_blocks t) (t_transactions t) (t_receipts t) (t_logs t ++ [row]) (t_latest t)
  | ReplaceLatest value =>
      mkTables (t_blocks t) (t_transactions t) (t_receipts t) (t_logs t) (Some value)
  end.

Definition run_statement (s : Statement) (t : Tables) : option Tables :=
  let t := rewrite_tables s t in if references_ok t then Some t else None.

(** The queries, by the rows they give. *)
Inductive Query : Type -> Type :=
| SelectLatest : Query Z
| SelectBlock (number : Z) : Query BlockRow
| SelectNumber (hash : bytes) : Query Z
| SelectHashes (block_number : Z) : Query bytes
| SelectTransaction (hash : bytes) : Query (TxRow * bytes)
| SelectLocation (hash : bytes) : Query (Z * Z)
| SelectReceipt (hash : bytes) : Query (ReceiptRow * bytes * bytes)
| SelectLogsByBlock (block_number : Z) : Query (bytes * bytes * bytes)
| SelectLogsByTx (hash : bytes) : Query (bytes * bytes * bytes).

(** The columns of a log that are selected. *)
Definition log_columns (r : LogRow) : bytes * bytes * bytes := (lr_address r, lr_topics r, lr_data r).

(** The rows of a query, and of the joins with [blocks] and [transactions]. *)
Definition select_transactions (hash : bytes) (t : Tables) : list (TxRow * bytes) :=
  r ← filter (fun r => tr_hash r = hash) (t_transactions t);
  (fun b => (r, br_hash b)) <$> filter (fun b => br_number b = tr_block_number r) (t_blocks t).

Definition select_receipts (hash : bytes) (t : Tables) : list (ReceiptRow * bytes * bytes) :=
  r ← filter (fun r => rr_transaction_hash r = hash) (t_receipts t);
  x ← filter (fun x => tr_hash x = rr_transaction_hash r) (t_transactions t);
  (fun b => (r, br_hash b, tr_gas_price x)) <$> filter (fun b => br_number b = rr_block_number r) (t_blocks t).

(** What a query may answer: its rows, in the order it asks for. *)
Definition answers {R} (q : Query R) (t : Tables) : list R -> Prop :=
  match q in Query R return list R -> Prop with
  | SelectLatest => fun l => l = option_list (t_latest t)
  | SelectBlock n => fun l => l ≡ₚ filter (fun r => br_number r = n) (t_blocks t)
  | SelectNumber h => fun l => l ≡ₚ br_number <$> filter (fun r => br_hash r = h) (t_blocks t)
  | SelectHashes n => fun l => exists rows, l = tr_hash <$> rows /\
      rows ≡ₚ filter (fun r => tr_block_number r = n) (t_transactions t) /\
      StronglySorted Z.le (tr_transaction_index <$> rows)
  | SelectTransaction h => fun l => l ≡ₚ select_transactions h t
  | SelectLocation h => fun l => l ≡ₚ
      (fun r => (tr_block_number r, tr_transaction_index r)) <$> filter (fun r => tr_hash r = h) (t_transactions t)
  | SelectReceipt h => fun l => l ≡ₚ select_receipts h t
  | SelectLogsByBlock n => fun l => l = log_columns <$> filter (fun r => lr_block_number r = n) (t_logs t)
  | SelectLogsByTx h => fun l => l = log_columns <$> filter (fun r => lr_transaction_hash r = h) (t_logs t)
  end.

(** The batches of [init_schema]. *)
Inductive Batch := CreateSchema | AddRevertReason.

(** ** The engine

    [committed] is what readers see, [pending] what the writer sees inside its
    transaction. Every operation may fail. *)
Class Sqlite (Db : Type) := {
  committed : Db -> Tables;
  pending : Db -> Tables;
  execute_batch : Batch -> Op Db (Result RusqliteError unit);
  begin_transaction : Op Db (Result RusqliteError unit);
  execute : Statement -> Op Db (Result RusqliteError unit);
  commit : Op Db (Result RusqliteError unit);
  rollback : Db -> Db;
  pool_get : Op Db (Result RusqliteError unit);
  query : forall {R}, Query R -> Op Db (Result RusqliteError (list R))
}.

Class SqliteLaws (Db : Type) `{Sqlite Db} := {
  batch_committed b db : committed (execute_batch b db).2 = committed db;
  begin_committed db : committed (begin_transaction db).2 = committed db;
  begin_pending db db' : begin_transaction db = (Ok tt, db') -> pending db' = committed db;
  execute_committed s db : committed (execute s db).2 = committed db;
  execute_pending s db db' : execute s db = (Ok tt, db') -> run_statement s (pending db) = Some (pending db');
  commit_ok db db' : commit db = (Ok tt, db') -> committed db' = pending db;
  commit_err e db db' : commit db = (Err e, db') -> committed db' = committed db;
  rollback_committed db : committed (rollback db) = committed db;
  pool_committed db : committed (pool_get db).2 = committed db;
  query_committed R (q : Query R) db : committed (query q db).2 = committed db;
  query_rows R (q : Query R) db rows : (query q db).1 = Ok rows -> answers q (committed db) rows;
  query_error R (q : Query R) db : (query q db).1 ≠ Err QueryReturnedNoRows
}.

(** [serde_json] on lists of topics. *)
Class TopicsJson := {
  topics_to_vec : list B256 -> option bytes;
  topics_from_slice : bytes -> option (list B256);
  topics_roundtrip l b : topics_to_vec l = Some b -> topics_from_slice b = Some l
}.

(** An engine that fails only when a statement violates the schema, and
    topics that can be encoded. *)
Record reliable (Db : Type) `{Sqlite Db} `{TopicsJson} : Prop := {
  rl_begin db : is_ok (begin_transaction db).1 = true;
  rl_execute s db : is_Some (run_statement s (pending db)) -> is_ok (execute s db).1 = true;
  rl_commit db : is_ok (commit db).1 = true;
  rl_pool db : is_ok (pool_get db).1 = true;
  rl_query R (q : Query R) db : is_ok (query q db).1 = true;
  rl_topics l : is_Some (topics_to_vec l) }.

(** Casts between [u64], [u32], [u8] and [i64]. *)
Definition as_i64 (z : Z) : Z := (z + 2 ^ 63) mod 2 ^ 64 - 2 ^ 63.
Definition as_u8 (z : Z) : Z := z mod 256.

Record PersistentChainIndex (Db : Type) (L : Type -> Type -> Type) := mkPersistentChainIndex {
  pi_db : Db; pi_cache : ChainCache L }.
Arguments mkPersistentChainIndex {Db L} _ _.
Arguments pi_db {Db L} _.
Arguments pi_cache {Db L} _.

Module PersistentChainIndex.
Section Methods.
Context {Db : Type} {L : Type -> Type -> Type} `{Sqlite Db} `{LruCache L} `{TopicsJson}.

Abbreviation Index := (PersistentChainIndex Db L).

(** [From<rusqlite::Error>]. *)
Definition from_rusqlite {A} (r : Result RusqliteError A) : Result ChainIndexError A :=
  match r with Ok a => Ok a | Err e => Err (SqliteError e) end.

Definition sql {A} (m : Op Db (Result RusqliteError A)) : Op Db (Result ChainIndexError A) :=
  fun db => let '(r, db) := m db in (from_rusqlite r, db).

(** Access to the database and to the cache of an index. *)
Definition on_db {A} (m : Op Db A) : Op Index A := fun self =>
  let '(a, db) := m (pi_db self) in (a, mkPersistentChainIndex db (pi_cache self)).
Definition on_cache {A} (m : Op (ChainCache L) A) : Op Index A := fun self =>
  let '(a, cache) := m (pi_cache self) in (a, mkPersistentChainIndex (pi_db self) cache).

(** [Connection::query_row], and [query_map] with [collect]. *)
Definition query_row {R A} (q : Query R) (f : R -> Result RusqliteError A) : Op Db (Result RusqliteError A) :=
  fun db =>
    match query q db with
    | (Err e, db) => (Err e, db)
    | (Ok [], db) => (Err QueryReturnedNoRows, db)
    | (Ok (row :: _), db) => (f row, db)
    end.

Definition query_map {R A} (q : Query R) (f : R -> Result RusqliteError A) : Op Db (Result RusqliteError (list A)) :=
  fun db =>
    match query q db with
    | (Err e, db) => (Err e, db)
    | (Ok rows, db) => (mapM f rows, db)
    end.

Definition read_conn : Op Db (Result ChainIndexError unit) := sql pool_get.

Definition contains (needle s : string) : bool := bool_decide (is_Some (String.index 0 needle s)).

Definition init_schema : Op Db (Result ChainIndexError unit) :=
  do? sql (execute_batch CreateSchema) in
  fun db =>
    match execute_batch AddRevertReason db with
    | (Ok _, db) => (Ok tt, db)
    | (Err (SqliteFailure (Some msg)) as e, db) =>
        if contains "duplicate column" msg then (Ok tt, db) else (from_rusqlite e, db)
    | (Err e, db) => (Err (SqliteError e), db)
    end.

(** [db]: the opened and configured connections. [None]: the cache of default
    size panics, which it does not. *)
Definition new (db : Db) : option (Result ChainIndexError Index) :=
  cache ← ChainCache.with_defaults;
  Some match init_schema db with
  | (Ok _, db) => Ok (mkPersistentChainIndex db cache)
  | (Err e, _) => Err e
  end.

(** The end of a query for one row. *)
Definition found {A B} (r : Result RusqliteError A) (k : A -> Op Index (Result ChainIndexError (option B)))
    : Op Index (Result ChainIndexError (option B)) :=
  match r with
  | Ok a => k a
  | Err QueryReturnedNoRows => mret (Ok None)
  | Err e => mret (Err (SqliteError e))
  end.

Definition load_latest_block_number : Op Index (Result ChainIndexError (option Z)) :=
  do? on_db read_conn in
  r ← on_db (query_row SelectLatest Ok);
  found r (fun n => mret (Ok (Some (wrap64 n)))).

Definition initialize : Op Index (Result ChainIndexError unit) :=
  let? latest := load_latest_block_number in
  fun self =>
    match latest with
    | Some latest =>
        (Ok tt, mkPersistentChainIndex (pi_db self) (ChainCache.set_latest_block_number (pi_cache self) latest))
    | None => (Ok tt, self)
    end.

Definition b256_from_row (bytes : bytes) (col : Z) : Result RusqliteError B256 :=
  match decide (length bytes = 32%nat) with
  | left e => Ok (eq_rect _ (vec byte) (list_to_vec bytes) _ e)
  | right _ => Err (FromSqlConversionFailure col (Some (zlen bytes)))
  end.

Definition address_from_row (bytes : bytes) (col : Z) : Result RusqliteError Address :=
  match decide (length bytes = 20%nat) with
  | left e => Ok (eq_rect _ (vec byte) (list_to_vec bytes) _ e)
  | right _ => Err (FromSqlConversionFailure col (Some (zlen bytes)))
  end.

(** [U256::from_be_slice] of the blobs the index writes, which fit. *)
Definition u256_from_be_slice (bytes : bytes) : Z := be_value bytes.
Definition u256_to_be_bytes (value : Z) : bytes := be_bytes 32 value.

Definition transpose {A} (o : option (Result RusqliteError A)) : Result RusqliteError (option A) :=
  match o with None => Ok None | Some (Ok a) => Ok (Some a) | Some (Err e) => Err e end.

Definition row_to_stored_block (row : BlockRow) : Result RusqliteError StoredBlock :=
  hash ← b256_from_row (br_hash row) 1;
  parent_hash ← b256_from_row (br_parent_hash row) 2;
  state_root ← b256_from_row (br_state_root row) 3;
  transactions_root ← b256_from_row (br_transactions_root row) 4;
  receipts_root ← b256_from_row (br_receipts_root row) 5;
  miner ← address_from_row (br_miner row) 10;
  Ok {| sb_number := wrap64 (br_number row);
        sb_hash := hash;
        sb_parent_hash := parent_hash;
        sb_state_root := state_root;
        sb_transactions_root := transactions_root;
        sb_receipts_root := receipts_root;
        sb_timestamp := wrap64 (br_timestamp row);
        sb_gas_used := wrap64 (br_gas_used row);
        sb_gas_limit := wrap64 (br_gas_limit row);
        sb_transaction_count := u32_of (br_transaction_count row);
        sb_miner := miner;
        sb_extra_data := br_extra_data row |}.

Definition row_to_stored_transaction (row : TxRow * bytes) : Result RusqliteError StoredTransaction :=
  let '(row, block_hash_bytes) := row in
  to ← transpose ((fun b => address_from_row b 5) <$> tr_to row);
  hash ← b256_from_row (tr_hash row) 0;
  block_hash ← b256_from_row block_hash_bytes 2;
  from ← address_from_row (tr_from row) 4;
  Ok {| st_hash := hash;
        st_block_number := wrap64 (tr_block_number row);
        st_block_hash := block_hash;
        st_transaction_index := u32_of (tr_transaction_index row);
        st_from := from;
        st_to := to;
        st_value := u256_from_be_slice (tr_value row);
        st_gas := wrap64 (tr_gas row);
        st_gas_price := u256_from_be_slice (tr_gas_price row);
        st_input := tr_input row;
        st_nonce := wrap64 (tr_nonce row);
        st_v := wrap64 (tr_v row);
        st_r := u256_from_be_slice (tr_r row);
        st_s := u256_from_be_slice (tr_s row);
        st_tx_type := as_u8 (tr_tx_type row);
        st_chain_id := wrap64 <$> tr_chain_id row;
        st_max_fee_per_gas := u256_from_be_slice <$> tr_max_fee_per_gas row;
        st_max_priority_fee_per_gas := u256_from_be_slice <$> tr_max_priority_fee_per_gas row |}.

(** The logs are loaded separately. *)
Definition row_to_stored_receipt (row : ReceiptRow * bytes * bytes) : Result RusqliteError StoredReceipt :=
  let '(row, block_hash_bytes, effective_gas_price_bytes) := row in
  to ← transpose ((fun b => address_from_row b 5) <$> rr_to row);
  contract_address ← transpose ((fun b => address_from_row b 8) <$> rr_contract_address row);
  transaction_hash ← b256_from_row (rr_transaction_hash row) 0;
  block_hash ← b256_from_row block_hash_bytes 2;
  from ← address_from_row (rr_from row) 4;
  Ok {| sr_transaction_hash := transaction_hash;
        sr_transaction_index := u32_of (rr_transaction_index row);
        sr_block_hash := block_hash;
        sr_block_number := wrap64 (rr_block_number row);
        sr_from := from;
        sr_to := to;
        sr_cumulative_gas_used := wrap64 (rr_cumulative_gas_used row);
        sr_gas_used := wrap64 (rr_gas_used row);
        sr_effective_gas_price := u256_from_be_slice effective_gas_price_bytes;
        sr_contract_address := contract_address;
        sr_logs := [];
        sr_status := as_u8 (rr_status row);
        sr_tx_type := as_u8 (rr_tx_type row);
        sr_revert_reason := rr_revert_reason row |}.

Definition parse_stored_log (row : bytes * bytes * bytes) : Result RusqliteError StoredLog :=
  let '(address_bytes, topics_json, data_bytes) := row in
  match topics_from_slice topics_json with
  | None => Err (FromSqlConversionFailure 1 None)
  | Some topics => address ← address_from_row address_bytes 0; Ok (mkStoredLog address topics data_bytes)
  end.

Definition load_logs_for_tx (tx_hash : B256) : Op Db (Result ChainIndexError (list StoredLog)) :=
  sql (query_map (SelectLogsByTx (vec_to_list tx_hash)) parse_stored_log).

(** ** The trait *)

Definition latest_block_number : Op Index (Result ChainIndexError (option Z)) := fun self =>
  match ChainCache.latest_block_number (pi_cache self) with
  | Some n => (Ok (Some n), self)
  | None => load_latest_block_number self
  end.

Definition cache_insert (f : ChainCache L -> ChainCache L) : Op Index unit := fun self =>
  (tt, mkPersistentChainIndex (pi_db self) (f (pi_cache self))).

Definition get_block (number : Z) : Op Index (Result ChainIndexError (option StoredBlock)) :=
  cached ← on_cache (ChainCache.get_block_by_number number);
  match cached with
  | Some block => mret (Ok (Some block))
  | None =>
      do? on_db read_conn in
      result ← on_db (query_row (SelectBlock (as_i64 number)) row_to_stored_block);
      found result (fun block =>
        _ ← cache_insert (fun cache => ChainCache.insert_block cache block);
        mret (Ok (Some block)))
  end.

Definition get_block_number (hash : B256) : Op Index (Result ChainIndexError (option Z)) :=
  cached ← on_cache (ChainCache.get_block_number_by_hash hash);
  match cached with
  | Some n => mret (Ok (Some n))
  | None =>
      do? on_db read_conn in
      result ← on_db (query_row (SelectNumber (vec_to_list hash)) Ok);
      found result (fun n => mret (Ok (Some (wrap64 n))))
  end.

Definition get_block_by_hash (hash : B256) : Op Index (Result ChainIndexError (option StoredBlock)) :=
  cached ← on_cache (ChainCache.get_block_by_hash hash);
  match cached with
  | Some block => mret (Ok (Some block))
  | None =>
      let? number := get_block_number hash in
      match number with
      | Some n => get_block n
      | None => mret (Ok None)
      end
  end.

Definition get_block_transactions (number : Z) : Op Index (Result ChainIndexError (list B256)) :=
  do? on_db read_conn in
  on_db (sql (query_map (SelectHashes (as_i64 number)) (fun bytes => b256_from_row bytes 0))).

Definition get_transaction (hash : B256) : Op Index (Result ChainIndexError (option StoredTransaction)) :=
  cached ← on_cache (ChainCache.get_transaction hash);
  match cached with
  | Some tx => mret (Ok (Some tx))
  | None =>
      do? on_db read_conn in
      result ← on_db (query_row (SelectTransaction (vec_to_list hash)) row_to_stored_transaction);
      found result (fun tx =>
        _ ← cache_insert (fun cache => ChainCache.insert_transaction cache tx);
        mret (Ok (Some tx)))
  end.

Definition get_transaction_location (hash : B256) : Op Index (Result ChainIndexError (option TxLocation)) :=
  do? on_db read_conn in
  result ← on_db (query_row (SelectLocation (vec_to_list hash)) Ok);
  found result (fun '(block_number, transaction_index) =>
    mret (Ok (Some (mkTxLocation (wrap64 block_number) (u32_of transaction_index))))).

Definition with_logs (receipt : StoredReceipt) (logs : list StoredLog) : StoredReceipt :=
  {| sr_transaction_hash := sr_transaction_hash receipt;
     sr_transaction_index := sr_transaction_index receipt;
     sr_block_hash := sr_block_hash receipt;
     sr_block_number := sr_block_number receipt;
     sr_from := sr_from receipt;
     sr_to := sr_to receipt;
     sr_cumulative_gas_used := sr_cumulative_gas_used receipt;
     sr_gas_used := sr_gas_used receipt;
     sr_effective_gas_price := sr_effective_gas_price receipt;
     sr_contract_address := sr_contract_address receipt;
     sr_logs := logs;
     sr_status := sr_status receipt;
     sr_tx_type := sr_tx_type receipt;
     sr_revert_reason := sr_revert_reason receipt |}.

Definition get_receipt (hash : B256) : Op Index (Result ChainIndexError (option StoredReceipt)) :=
  cached ← on_cache (ChainCache.get_receipt hash);
  match cached with
  | Some receipt => mret (Ok (Some receipt))
  | None =>
      do? on_db read_conn in
      result ← on_db (query_row (SelectReceipt (vec_to_list hash)) row_to_stored_receipt);
      found result (fun receipt =>
        let? logs := on_db (load_logs_for_tx hash) in
        let receipt := with_logs receipt logs in
        _ ← cache_insert (fun cache => ChainCache.insert_receipt cache receipt);
        mret (Ok (Some receipt)))
  end.

Definition get_logs_by_block (number : Z) : Op Index (Result ChainIndexError (list StoredLog)) :=
  do? on_db read_conn in
  on_db (sql (query_map (SelectLogsByBlock (as_i64 number)) parse_stored_log)).

(** ** [store_block] *)

Definition block_row (block : StoredBlock) : BlockRow :=
  {| br_number := as_i64 (sb_number block);
     br_hash := vec_to_list (sb_hash block);
     br_parent_hash := vec_to_list (sb_parent_hash block);
     br_state_root := vec_to_list (sb_state_root block);
     br_transactions_root := vec_to_list (sb_transactions_root block);
     br_receipts_root := vec_to_list (sb_receipts_root block);
     br_timestamp := as_i64 (sb_timestamp block);
     br_gas_used := as_i64 (sb_gas_used block);
     br_gas_limit := as_i64 (sb_gas_limit block);
     br_transaction_count := sb_transaction_count block;
     br_miner := vec_to_list (sb_miner block);
     br_extra_data := sb_extra_data block |}.

Definition transaction_row (transaction : StoredTransaction) (array_index : Z) : TxRow :=
  {| tr_hash := vec_to_list (st_hash transaction);
     tr_block_number := as_i64 (st_block_number transaction);
     tr_transaction_index := array_index;
     tr_from := vec_to_list (st_from transaction);
     tr_to := vec_to_list <$> st_to transaction;
     tr_value := u256_to_be_bytes (st_value transaction);
     tr_gas := as_i64 (st_gas transaction);
     tr_gas_price := u256_to_be_bytes (st_gas_price transaction);
     tr_input := st_input transaction;
     tr_nonce := as_i64 (st_nonce transaction);
     tr_v := as_i64 (st_v transaction);
     tr_r := u256_to_be_bytes (st_r transaction);
     tr_s := u256_to_be_bytes (st_s transaction);
     tr_tx_type := st_tx_type transaction;
     tr_chain_id := as_i64 <$> st_chain_id transaction;
     tr_max_fee_per_gas := u256_to_be_bytes <$> st_max_fee_per_gas transaction;
     tr_max_priority_fee_per_gas := u256_to_be_bytes <$> st_max_priority_fee_per_gas transaction |}.

Definition receipt_row (receipt : StoredReceipt) (array_index : Z) : ReceiptRow :=
  {| rr_transaction_hash := vec_to_list (sr_transaction_hash receipt);
     rr_transaction_index := array_index;
     rr_block_number := as_i64 (sr_block_number receipt);
     rr_from := vec_to_list (sr_from receipt);
     rr_to := vec_to_list <$> sr_to receipt;
     rr_cumulative_gas_used := as_i64 (sr_cumulative_gas_used receipt);
     rr_gas_used := as_i64 (sr_gas_used receipt);
     rr_contract_address := vec_to_list <$> sr_contract_address receipt;
     rr_status := sr_status receipt;
     rr_tx_type := sr_tx_type receipt;
     rr_revert_reason := sr_revert_reason receipt |}.

Definition insert_transaction (transaction : StoredTransaction) (array_index : Z) : Op Db (Result ChainIndexError unit) :=
  sql (execute (ReplaceTransaction (transaction_row transaction array_index))).

Definition insert_receipt (receipt : StoredReceipt) (array_index : Z) : Op Db (Result ChainIndexError unit) :=
  sql (execute (ReplaceReceipt (receipt_row receipt array_index))).

Definition insert_log (block_number : Z) (tx_hash : B256) (log : StoredLog) : Op Db (Result ChainIndexError unit) :=
  match topics_to_vec (lg_topics log) with
  | None => mret (Err Serialization)
  | Some topics_json =>
      sql (execute (InsertLog (mkLogRow (as_i64 block_number) (vec_to_list tx_hash) (vec_to_list (lg_address log))
                                 topics_json (lg_data log))))
  end.

(** The loops over transactions, receipts and logs; [idx] is the array index. *)
Fixpoint insert_transactions (idx : Z) (transactions : list StoredTransaction) : Op Db (Result ChainIndexError unit) :=
  match transactions with
  | [] => mret (Ok tt)
  | transaction :: transactions =>
      do? insert_transaction transaction idx in insert_transactions (idx + 1) transactions
  end.

Fixpoint insert_logs (block_number : Z) (tx_hash : B256) (logs : list StoredLog) : Op Db (Result ChainIndexError unit) :=
  match logs with
  | [] => mret (Ok tt)
  | log :: logs => do? insert_log block_number tx_hash log in insert_logs block_number tx_hash logs
  end.

Fixpoint insert_receipts (block_number idx : Z) (receipts : list StoredReceipt) : Op Db (Result ChainIndexError unit) :=
  match receipts with
  | [] => mret (Ok tt)
  | receipt :: receipts =>
      do? insert_receipt receipt idx in
      do? insert_logs block_number (sr_transaction_hash receipt) (sr_logs receipt) in
      insert_receipts block_number (idx + 1) receipts
  end.

(** The statements inside the transaction. *)
Definition store_rows (block : StoredBlock) (transactions : list StoredTransaction) (receipts : list StoredReceipt)
    : Op Db (Result ChainIndexError unit) :=
  let block_number := sb_number block in
  do? sql (execute (DeleteLogs (as_i64 block_number))) in
  do? sql (execute (DeleteReceipts (as_i64 block_number))) in
  do? sql (execute (DeleteTransactions (as_i64 block_number))) in
  do? sql (execute (ReplaceBlock (block_row block))) in
  do? insert_transactions 0 transactions in
  do? insert_receipts block_number 0 receipts in
  do? sql (execute (ReplaceLatest (as_i64 block_number))) in
  sql commit.

(** A transaction that is dropped rolls back. *)
Definition store_block (block : StoredBlock) (transactions : list StoredTransaction) (receipts : list StoredReceipt)
    : Op Index (Result ChainIndexError unit) :=
  do? on_db (sql begin_transaction) in
  fun self =>
    match store_rows block transactions receipts (pi_db self) with
    | (Err e, db) => (Err e, mkPersistentChainIndex (rollback db) (pi_cache self))
    | (Ok _, db) =>
        (Ok tt, mkPersistentChainIndex db
                  (ChainCache.insert_block_with_data (pi_cache self) block transactions receipts))
    end.

#[global] Instance persistent_index : ChainIndex Index ChainIndexError := {|
  Indexing.latest_block_number := latest_block_number;
  Indexing.get_block self n := get_block n self;
  Indexing.get_block_by_hash self h := get_block_by_hash h self;
  Indexing.get_block_number self h := get_block_number h self;
  Indexing.get_block_transactions self n := get_block_transactions n self;
  Indexing.get_transaction self h := get_transaction h self;
  Indexing.get_transaction_location self h := get_transaction_location h self;
  Indexing.get_receipt self h := get_receipt h self;
  Indexing.get_logs_by_block self n := get_logs_by_block n self;
  Indexing.store_block self b txs rs := store_block b txs rs self |}.

End Methods.
End PersistentChainIndex.
