(* ===== verification/IndexStoreFacts.v ===== *)
(** * Facts about the persistent chain index

    The blocks stored so far form an archive; the tables of the database are
    computed from it, the cache holds a part of it, and every answer of the
    index is the archive's. Reads are verified with a small logic of operations
    that preserve this relation. *)

From S2P Require Import Prelude Core ExecState Runtime Stf StorageBackend Mempool Server EthTx EthContext Indexing.
From S2P Require Import IndexStore.

Open Scope evolve_scope.

(** ** Archives *)
Record Entry := mkEntry { e_block : StoredBlock; e_txs : list StoredTransaction; e_receipts : list StoredReceipt }.
Abbreviation Archive := (list Entry).

Definition all_txs (a : Archive) : list StoredTransaction := a ≫= e_txs.
Definition all_receipts (a : Archive) : list StoredReceipt := a ≫= e_receipts.

(** The first element with a key. *)
Definition lookup_by {A K} `{EqDecision K} (key : A -> K) (k : K) (l : list A) : option A :=
  head (filter (fun x => key x = k) l).

Definition e_number (e : Entry) : Z := sb_number (e_block e).
Definition e_hash (e : Entry) : B256 := sb_hash (e_block e).

(** What an archive answers. *)
Definition a_entry (a : Archive) (n : Z) : option Entry := lookup_by e_number n a.
Definition a_block (a : Archive) (n : Z) : option StoredBlock := e_block <$> a_entry a n.
Definition a_block_by_hash (a : Archive) (h : B256) : option StoredBlock := e_block <$> lookup_by e_hash h a.
Definition a_number (a : Archive) (h : B256) : option Z := e_number <$> lookup_by e_hash h a.
Definition a_hashes (a : Archive) (n : Z) : list B256 := from_option (fun e => st_hash <$> e_txs e) [] (a_entry a n).
Definition a_transaction (a : Archive) (h : B256) : option StoredTransaction := lookup_by st_hash h (all_txs a).
Definition a_location (a : Archive) (h : B256) : option TxLocation :=
  (fun tx => mkTxLocation (st_block_number tx) (st_transaction_index tx)) <$> a_transaction a h.
Definition a_receipt (a : Archive) (h : B256) : option StoredReceipt :=
  lookup_by sr_transaction_hash h (all_receipts a).
Definition a_logs (a : Archive) (n : Z) : list StoredLog :=
  from_option (fun e => e_receipts e ≫= sr_logs) [] (a_entry a n).
Definition a_latest (a : Archive) : option Z := e_number <$> last a.

(** ** Well-formed entries: fields within their widths, transactions and
    receipts that agree with their block and with their position. *)
Definition is_u256 (z : Z) : Prop := 0 <= z < 2 ^ 256.
Definition is_u32 (z : Z) : Prop := 0 <= z < 2 ^ 32.
Definition is_u8 (z : Z) : Prop := 0 <= z < 256.

Record block_wf (b : StoredBlock) : Prop := {
  bw_number : is_u64 (sb_number b); bw_timestamp : is_u64 (sb_timestamp b); bw_gas_used : is_u64 (sb_gas_used b);
  bw_gas_limit : is_u64 (sb_gas_limit b); bw_count : is_u32 (sb_transaction_count b) }.

Record tx_wf (b : StoredBlock) (i : Z) (tx : StoredTransaction) : Prop := {
  tw_number : st_block_number tx = sb_number b; tw_hash : st_block_hash tx = sb_hash b;
  tw_index : st_transaction_index tx = i; tw_index_u32 : is_u32 i;
  tw_value : is_u256 (st_value tx); tw_gas : is_u64 (st_gas tx); tw_gas_price : is_u256 (st_gas_price tx);
  tw_nonce : is_u64 (st_nonce tx); tw_v : is_u64 (st_v tx); tw_r : is_u256 (st_r tx); tw_s : is_u256 (st_s tx);
  tw_type : is_u8 (st_tx_type tx); tw_chain_id : from_option is_u64 True (st_chain_id tx);
  tw_max_fee : from_option is_u256 True (st_max_fee_per_gas tx);
  tw_max_priority : from_option is_u256 True (st_max_priority_fee_per_gas tx) }.

Record receipt_wf (b : StoredBlock) (i : Z) (tx : StoredTransaction) (r : StoredReceipt) : Prop := {
  rw_tx_hash : sr_transaction_hash r = st_hash tx; rw_price : sr_effective_gas_price r = st_gas_price tx;
  rw_number : sr_block_number r = sb_number b; rw_hash : sr_block_hash r = sb_hash b;
  rw_index : sr_transaction_index r = i;
  rw_cumulative : is_u64 (sr_cumulative_gas_used r); rw_gas_used : is_u64 (sr_gas_used r);
  rw_status : is_u8 (sr_status r); rw_type : is_u8 (sr_tx_type r) }.

Record entry_wf (e : Entry) : Prop := {
  ew_block : block_wf (e_block e);
  ew_txs : forall i tx, e_txs e !! i = Some tx -> tx_wf (e_block e) (Z.of_nat i) tx;
  ew_receipts : forall i r, e_receipts e !! i = Some r ->
    exists tx, e_txs e !! i = Some tx /\ receipt_wf (e_block e) (Z.of_nat i) tx r;
  ew_distinct : NoDup (st_hash <$> e_txs e) }.

(** An entry above those of the archive, with a block hash and transactions
    of its own. *)
Record fresh (a : Archive) (e : Entry) : Prop := {
  fr_number : Forall (fun e' => e_number e' < e_number e) a;
  fr_hash : e_hash e ∉ e_hash <$> a;
  fr_txs : forall tx, tx ∈ e_txs e -> st_hash tx ∉ st_hash <$> (all_txs a) }.

Inductive archive_wf : Archive -> Prop :=
| wf_nil : archive_wf []
| wf_snoc a e : archive_wf a -> entry_wf e -> fresh a e -> archive_wf (a ++ [e]).

(** ** Lookups by key *)
Lemma bind_one {A B} (x : A) (f : A -> list B) : option_list (Some x) ≫= f = f x.
Proof. apply bind_singleton. Qed.

Section Lookup.
Context {A K : Type} `{EqDecision K} (key : A -> K).

Lemma filter_unique k l : NoDup (key <$> l) ->
  filter (fun x => key x = k) l = option_list (lookup_by key k l).
Proof.
  unfold lookup_by. induction l as [|x l IH]; [done|]. rewrite fmap_cons. intros [Hx Hl]%NoDup_cons.
  destruct (decide (key x = k)) as [Hk|Hk]; [|by rewrite !filter_cons_False by done; apply IH].
  rewrite filter_cons_True by done. cbn. f_equal. apply filter_none. intros y Hin Hy.
  apply Hx, list_elem_of_fmap. exists y. split; [congruence|done].
Qed.

Lemma lookup_by_Some k l x : lookup_by key k l = Some x -> key x = k /\ x ∈ l.
Proof. intros H%head_Some_elem_of. by apply list_elem_of_filter in H. Qed.

Lemma lookup_by_elem l x : NoDup (key <$> l) -> x ∈ l -> lookup_by key (key x) l = Some x.
Proof.
  intros Hl Hx. pose proof (filter_unique (key x) l Hl) as Hf.
  assert (Hin : x ∈ filter (fun y => key y = key x) l) by by apply list_elem_of_filter.
  rewrite Hf in Hin. destruct (lookup_by key (key x) l) as [y|]; cbn in Hin; [|by apply not_elem_of_nil in Hin].
  apply list_elem_of_singleton in Hin. by subst.
Qed.

Lemma lookup_by_app k l l' : lookup_by key k (l ++ l') =
  match lookup_by key k l with Some x => Some x | None => lookup_by key k l' end.
Proof. unfold lookup_by. rewrite filter_app. by destruct (filter _ l). Qed.

Lemma lookup_by_none k l : k ∉ key <$> l -> lookup_by key k l = None.
Proof.
  intros Hk. destruct (lookup_by key k l) as [x|] eqn:E; [|done]. apply lookup_by_Some in E as [<- Hx].
  destruct Hk. by apply list_elem_of_fmap_2.
Qed.

(** The elements that come from the one with a key. *)
Lemma filter_bind {B} (part : A -> list B) (P : B -> Prop) `{!forall x, Decision (P x)} k (l : list A) :
  NoDup (key <$> l) -> (forall x y, x ∈ l -> y ∈ part x -> P y <-> key x = k) ->
  filter P (l ≫= part) = from_option part [] (lookup_by key k l).
Proof.
  intros Hd HP. assert (Hb : filter P (l ≫= part) = filter (fun x => key x = k) l ≫= part).
  { clear Hd. induction l as [|x l IH]; [done|]. cbn [mbind list_bind]. rewrite filter_app.
    change (list_bind A B part l) with (l ≫= part).
    rewrite IH by (intros x' y Hx'; apply HP; by right). destruct (decide (key x = k)) as [Hk|Hk].
    - rewrite filter_cons_True by done. cbn [mbind list_bind]. f_equal.
      apply filter_every. intros y Hy. by apply (HP x y (list_elem_of_here _ _) Hy).
    - rewrite filter_cons_False by done. rewrite filter_none; [done|].
      intros y Hy Hpy. apply Hk. by apply (HP x y (list_elem_of_here _ _) Hy). }
  rewrite Hb, filter_unique by done. destruct (lookup_by key k l) as [x|]; [exact (bind_one x part) | done].
Qed.

End Lookup.

Lemma list_bind_fmap {A B C} (f : A -> list B) (g : B -> C) (l : list A) : g <$> (l ≫= f) = l ≫= fun x => g <$> f x.
Proof. induction l as [|x l IH]; [done|]. cbn. by rewrite fmap_app, IH. Qed.

Lemma list_bind_bind {A B C} (f : A -> list B) (g : B -> list C) (l : list A) : (l ≫= f) ≫= g = l ≫= fun x => f x ≫= g.
Proof. induction l as [|x l IH]; [done|]. cbn. by rewrite bind_app, IH. Qed.

(** Rows of the elements with a key. *)
Lemma filter_rows {A R} (P : R -> Prop) (Q : A -> Prop) `{!forall x, Decision (P x), !forall x, Decision (Q x)}
    (row : A -> R) (l : list A) :
  (forall x, x ∈ l -> P (row x) <-> Q x) -> filter P (row <$> l) = row <$> filter Q l.
Proof.
  induction l as [|x l IH]; intros Hpq; [done|]. rewrite fmap_cons.
  assert (Hl : filter P (row <$> l) = row <$> filter Q l) by (apply IH; intros y Hy; apply Hpq; by right).
  destruct (Hpq x (list_elem_of_here _ _)) as [H1 H2]. destruct (decide (Q x)) as [Hq|Hq].
  - rewrite filter_cons_True, (filter_cons_True Q) by auto. by rewrite fmap_cons, Hl.
  - rewrite filter_cons_False, (filter_cons_False Q) by auto. done.
Qed.

Lemma Permutation_option {A} (l : list A) o : l ≡ₚ option_list o -> l = option_list o.
Proof. destruct o; cbn; [apply Permutation_singleton_r | apply Permutation_nil_r]. Qed.

Lemma head_option {A} (o : option A) : head (option_list o) = o.
Proof. by destruct o. Qed.

(** A sorted permutation of a strictly sorted list is that list. *)
Lemma sorted_unique {A} (f : A -> Z) l' : forall l, l ≡ₚ l' -> StronglySorted Z.le (f <$> l) ->
  StronglySorted Z.lt (f <$> l') -> l = l'.
Proof.
  induction l' as [|x' l' IH]; intros l Hp Hs Hs'; [by apply Permutation_nil_r in Hp|].
  destruct l as [|x l]; [by apply Permutation_nil_l in Hp|]. rewrite fmap_cons in Hs, Hs'.
  apply StronglySorted_inv in Hs as [Hs Hx], Hs' as [Hs' Hx'].
  rewrite Forall_fmap in Hx, Hx'. rewrite Forall_forall in Hx, Hx'.
  assert (x = x') as ->.
  { assert (Hin : x ∈ x' :: l') by (rewrite <-Hp; by left).
    assert (Hin' : x' ∈ x :: l) by (rewrite Hp; by left).
    apply elem_of_cons in Hin as [|Hin]; [done|]. apply elem_of_cons in Hin' as [|Hin']; [done|].
    specialize (Hx _ Hin'). specialize (Hx' _ Hin). cbn in *. lia. }
  f_equal. apply IH; [by eapply Permutation_cons_inv|done|done].
Qed.

Lemma sorted_positions {A} (f : A -> Z) k (l : list A) : (forall i x, l !! i = Some x -> f x = k + Z.of_nat i) ->
  StronglySorted Z.lt (f <$> l).
Proof.
  revert k. induction l as [|x l IH]; intros k Hl; [constructor|]. rewrite fmap_cons. constructor.
  - apply (IH (k + 1)). intros i y Hy. rewrite (Hl (S i) y Hy). lia.
  - apply Forall_fmap, Forall_lookup. intros i y Hy. cbn. rewrite (Hl 0%nat x eq_refl), (Hl (S i) y Hy). lia.
Qed.

(** ** Casts and rows *)
Lemma wrap_i64 z : is_u64 z -> wrap64 (as_i64 z) = z.
Proof.
  intros Hz. unfold wrapping, as_i64, is_u64, u64_max in *.
  destruct (decide (z < 2 ^ 63)).
  - rewrite (Z.mod_small (z + 2 ^ 63)) by lia. rewrite Z.mod_small by lia. lia.
  - replace (z + 2 ^ 63) with (z - 2 ^ 63 + 1 * 2 ^ 64) by lia. rewrite Z.mod_add, (Z.mod_small (z - 2 ^ 63)) by lia.
    replace (z - 2 ^ 63 - 2 ^ 63) with (z + (-1) * 2 ^ 64) by lia. rewrite Z.mod_add by lia. apply Z.mod_small. lia.
Qed.

Lemma as_i64_inj z z' : is_u64 z -> is_u64 z' -> as_i64 z = as_i64 z' <-> z = z'.
Proof. intros Hz Hz'. split; [|by intros ->]. intros He. rewrite <-(wrap_i64 z), <-(wrap_i64 z') by done. by rewrite He. Qed.

Lemma list_to_vec_cast {n} (v : vec byte n) (e : length (vec_to_list v) = n) :
  eq_rect _ (vec byte) (list_to_vec (vec_to_list v)) _ e = v.
Proof. apply vec_to_list_inj2. destruct e. cbn. apply vec_to_list_to_vec. Qed.

Section Rows.
Context {Db : Type} {L : Type -> Type -> Type} `{Sqlite Db} `{LruCache L} `{TopicsJson}.
Import PersistentChainIndex.

Lemma b256_row (v : B256) col : b256_from_row (vec_to_list v) col = Ok v.
Proof.
  unfold b256_from_row. destruct (decide _) as [e|n]; [|by rewrite length_vec_to_list in n]. f_equal. apply list_to_vec_cast.
Qed.

Lemma address_row (v : Address) col : address_from_row (vec_to_list v) col = Ok v.
Proof.
  unfold address_from_row. destruct (decide _) as [e|n]; [|by rewrite length_vec_to_list in n]. f_equal. apply list_to_vec_cast.
Qed.

Lemma address_row_option (o : option Address) col :
  transpose ((fun b => address_from_row b col) <$> (vec_to_list <$> o)) = Ok o.
Proof. destruct o; cbn [fmap option_fmap option_map transpose]; [|done]. by rewrite address_row. Qed.

Lemma u256_row z : is_u256 z -> u256_from_be_slice (u256_to_be_bytes z) = z.
Proof.
  intros Hz. unfold u256_from_be_slice, u256_to_be_bytes. rewrite be_value_bytes. apply Z.mod_small.
  unfold is_u256 in Hz. change (256 ^ Z.of_nat 32) with (2 ^ 256). done.
Qed.

Lemma u256_row_option o : from_option is_u256 True o -> u256_from_be_slice <$> (u256_to_be_bytes <$> o) = o.
Proof. destruct o; cbn; [|done]. intros Hz. f_equal. by apply u256_row. Qed.

Lemma wrap_i64_option o : from_option is_u64 True o -> wrap64 <$> (as_i64 <$> o) = o.
Proof. destruct o; cbn [fmap option_fmap option_map from_option]; [|done]. intros Hz. by rewrite wrap_i64. Qed.

Lemma u32_row z : is_u32 z -> u32_of z = z.
Proof. apply Z.mod_small. Qed.

Lemma u8_row z : is_u8 z -> as_u8 z = z.
Proof. apply Z.mod_small. Qed.

(** Reading a row gives back what was stored. *)
Lemma block_row_roundtrip b : block_wf b -> row_to_stored_block (block_row b) = Ok b.
Proof.
  intros []. unfold row_to_stored_block, block_row. cbn [br_hash br_parent_hash br_state_root br_transactions_root
    br_receipts_root br_miner br_number br_timestamp br_gas_used br_gas_limit br_transaction_count br_extra_data].
  rewrite !b256_row, address_row. cbn [mbind Result_bind]. rewrite !wrap_i64, u32_row by done. by destruct b.
Qed.

Definition stored_tx_row (tx : StoredTransaction) : TxRow := transaction_row tx (st_transaction_index tx).
Definition stored_receipt_row (r : StoredReceipt) : ReceiptRow := receipt_row r (sr_transaction_index r).

Lemma tx_row_roundtrip b i tx : block_wf b -> tx_wf b i tx ->
  row_to_stored_transaction (stored_tx_row tx, vec_to_list (st_block_hash tx)) = Ok tx.
Proof.
  intros [] []. unfold row_to_stored_transaction, stored_tx_row, transaction_row. cbn [tr_hash tr_block_number
    tr_transaction_index tr_from tr_to tr_value tr_gas tr_gas_price tr_input tr_nonce tr_v tr_r tr_s tr_tx_type tr_chain_id
    tr_max_fee_per_gas tr_max_priority_fee_per_gas].
  rewrite address_row_option, !b256_row, address_row. cbn [mbind Result_bind].
  rewrite !wrap_i64, !u256_row, !u256_row_option, wrap_i64_option, u32_row, u8_row by congruence. by destruct tx.
Qed.

Lemma receipt_row_roundtrip b i tx r : block_wf b -> tx_wf b i tx -> receipt_wf b i tx r ->
  row_to_stored_receipt (stored_receipt_row r, vec_to_list (sr_block_hash r), u256_to_be_bytes (st_gas_price tx)) =
    Ok (with_logs r []).
Proof.
  intros [] [] []. unfold row_to_stored_receipt, stored_receipt_row, receipt_row. cbn [rr_transaction_hash
    rr_transaction_index rr_block_number rr_from rr_to rr_cumulative_gas_used rr_gas_used rr_contract_address rr_status
    rr_tx_type rr_revert_reason].
  rewrite !address_row_option, !b256_row, address_row. cbn [mbind Result_bind].
  rewrite !wrap_i64, u256_row, u32_row, !u8_row by congruence. destruct r; cbn in *. by subst.
Qed.

(** ** The tables of an archive *)

(** The topics of a log can be encoded. *)
Definition encodable (log : StoredLog) : Prop := is_Some (topics_to_vec (lg_topics log)).

Definition log_row (number : Z) (tx_hash : B256) (log : StoredLog) : LogRow :=
  mkLogRow (as_i64 number) (vec_to_list tx_hash) (vec_to_list (lg_address log))
    (default [] (topics_to_vec (lg_topics log))) (lg_data log).

Definition receipt_logs (r : StoredReceipt) : list LogRow :=
  log_row (sr_block_number r) (sr_transaction_hash r) <$> sr_logs r.

Definition tables_of (a : Archive) : Tables :=
  mkTables (block_row <$> (e_block <$> a)) (stored_tx_row <$> (all_txs a)) (stored_receipt_row <$> (all_receipts a))
    (all_receipts a ≫= receipt_logs) (as_i64 <$> a_latest a).

Definition logs_encodable (a : Archive) : Prop :=
  forall r log, r ∈ all_receipts a -> log ∈ sr_logs r -> encodable log.

Lemma log_row_roundtrip number h log : encodable log -> parse_stored_log (log_columns (log_row number h log)) = Ok log.
Proof.
  intros [b Hb]. unfold parse_stored_log, log_columns, log_row. cbn. rewrite Hb. cbn.
  rewrite (topics_roundtrip _ _ Hb), address_row. by destruct log.
Qed.

Lemma mapM_rows {A R} (f : R -> Result RusqliteError A) (g : A -> R) (l : list A) :
  (forall x, x ∈ l -> f (g x) = Ok x) -> mapM f (g <$> l) = Ok l.
Proof.
  induction l as [|x l IH]; intros Hf; [done|]. rewrite fmap_cons. cbn [mapM].
  rewrite Hf by by left. cbn [mbind Result_bind]. rewrite IH by (intros y Hy; apply Hf; by right). done.
Qed.

Lemma mapM_app {A R} (f : R -> Result RusqliteError A) l l' k k' :
  mapM f l = Ok k -> mapM f l' = Ok k' -> mapM f (l ++ l') = Ok (k ++ k').
Proof.
  revert k. induction l as [|x l IH]; intros k Hl Hl'; cbn [mapM app] in *; [by apply (inj Ok) in Hl as <-|].
  destruct (f x) as [y|]; [|done]. cbn [mbind Result_bind] in *. destruct (mapM f l) as [k1|]; [|done].
  cbn [mbind Result_bind] in Hl. apply (inj Ok) in Hl as <-. by rewrite (IH k1 eq_refl Hl').
Qed.

End Rows.

(** ** Well-formed archives *)
Lemma all_txs_app a a' : all_txs (a ++ a') = all_txs a ++ all_txs a'.
Proof. apply bind_app. Qed.

Lemma all_receipts_app a a' : all_receipts (a ++ a') = all_receipts a ++ all_receipts a'.
Proof. apply bind_app. Qed.

Lemma all_txs_elem a tx : tx ∈ all_txs a <-> exists e, e ∈ a /\ tx ∈ e_txs e.
Proof. unfold all_txs. rewrite list_elem_of_bind. split; intros (e & ? & ?); by exists e. Qed.

Lemma all_receipts_elem a r : r ∈ all_receipts a <-> exists e, e ∈ a /\ r ∈ e_receipts e.
Proof. unfold all_receipts. rewrite list_elem_of_bind. split; intros (e & ? & ?); by exists e. Qed.

Lemma wf_entries a : archive_wf a -> forall e, e ∈ a -> entry_wf e.
Proof.
  induction 1 as [|a e Ha IH He Hf]; intros e' He'; [by apply not_elem_of_nil in He'|].
  apply elem_of_app in He' as [Hin | ->%list_elem_of_singleton]; auto.
Qed.

Lemma receipt_hashes e : entry_wf e -> sr_transaction_hash <$> e_receipts e = take (length (e_receipts e)) (st_hash <$> e_txs e).
Proof.
  intros [_ _ Hr _]. apply list_eq. intros i. rewrite list_lookup_fmap. destruct (e_receipts e !! i) as [r|] eqn:Er; cbn.
  - destruct (Hr i r Er) as (tx & Htx & Hwf). rewrite lookup_take_lt by (by eapply lookup_lt_Some).
    rewrite list_lookup_fmap, Htx. cbn. f_equal. apply Hwf.
  - symmetry. apply lookup_take_ge. by apply lookup_ge_None.
Qed.

Lemma entry_receipts e r : entry_wf e -> r ∈ e_receipts e ->
  exists i tx, e_txs e !! i = Some tx /\ tx_wf (e_block e) (Z.of_nat i) tx /\ receipt_wf (e_block e) (Z.of_nat i) tx r.
Proof.
  intros Hwf [i Hi]%list_elem_of_lookup. pose proof Hwf as [_ Ht Hr _]. destruct (Hr i r Hi) as (tx & Htx & Hw).
  exists i, tx. auto.
Qed.

Record archive_facts (a : Archive) : Prop := {
  af_numbers : StronglySorted Z.lt (e_number <$> a);
  af_hashes : NoDup (e_hash <$> a);
  af_txs : NoDup (st_hash <$> all_txs a);
  af_receipts : NoDup (sr_transaction_hash <$> all_receipts a) }.

Lemma StronglySorted_snoc (l : list Z) x : StronglySorted Z.lt l -> Forall (fun y => y < x) l -> StronglySorted Z.lt (l ++ [x]).
Proof.
  induction 1 as [|y l Hs IH Hy]; intros Hx; cbn [app]; [by repeat constructor|].
  apply Forall_cons in Hx as [Hyx Hx]. constructor; [by apply IH|]. apply Forall_app. auto.
Qed.

Lemma wf_facts a : archive_wf a -> archive_facts a.
Proof.
  induction 1 as [|a e Ha [Hn Hh Ht Hr] He [Hf1 Hf2 Hf3]]; [split; cbn; constructor|].
  assert (Hnew : forall r, r ∈ e_receipts e -> exists tx, tx ∈ e_txs e /\ sr_transaction_hash r = st_hash tx).
  { intros r Hin. destruct (entry_receipts e r He Hin) as (i & tx & Htx & _ & Hw). exists tx.
    split; [by eapply list_elem_of_lookup_2 | apply Hw]. }
  assert (Hold : forall h, h ∈ sr_transaction_hash <$> all_receipts a -> h ∈ st_hash <$> all_txs a).
  { intros h (r & -> & (e' & He' & Hin)%all_receipts_elem)%list_elem_of_fmap.
    destruct (entry_receipts e' r (wf_entries a Ha e' He') Hin) as (i & tx & Htx & _ & Hw). rewrite (rw_tx_hash _ _ _ _ Hw).
    apply list_elem_of_fmap_2, all_txs_elem. exists e'. split; [done | by eapply list_elem_of_lookup_2]. }
  split.
  - rewrite fmap_app. apply StronglySorted_snoc; [done|]. by rewrite Forall_fmap.
  - rewrite fmap_app. apply NoDup_app. split_and!; [done| |apply NoDup_singleton].
    intros h Hin ->%list_elem_of_singleton. done.
  - rewrite all_txs_app, fmap_app. apply NoDup_app. split_and!; [done| |].
    + intros h Hin Hin'. unfold all_txs in Hin'. rewrite bind_singleton in Hin'.
      apply list_elem_of_fmap in Hin' as (tx & -> & Htx). by destruct (Hf3 tx Htx).
    + unfold all_txs. rewrite bind_singleton. apply He.
  - rewrite all_receipts_app, fmap_app. apply NoDup_app. unfold all_receipts at 3 4. rewrite bind_singleton.
    split_and!; [done| |].
    + intros h Hin (r & -> & Hr')%list_elem_of_fmap. destruct (Hnew r Hr') as (tx & Htx & Heq).
      destruct (Hf3 tx Htx). rewrite <-Heq. auto.
    + rewrite receipt_hashes by done. eapply sublist_NoDup; [apply He | apply sublist_take].
Qed.

Lemma sorted_lt_NoDup (l : list Z) : StronglySorted Z.lt l -> NoDup l.
Proof.
  induction 1 as [|x l Hs IH Hx]; constructor; [|done]. intros Hin. eapply Forall_forall in Hx; [|done]. lia.
Qed.

Lemma af_distinct_numbers a : archive_facts a -> NoDup (e_number <$> a).
Proof. intros [Hn _ _ _]. by apply sorted_lt_NoDup. Qed.

(** ** Storing an entry *)
Lemma try_ok {S E A B} (m : Op S (Result E A)) (k : A -> Op S (Result E B)) s b s' :
  try_bind m k s = (Ok b, s') -> exists a s1, m s = (Ok a, s1) /\ k a s1 = (Ok b, s').
Proof.
  unfold try_bind, mbind, Op_bind. destruct (m s) as [[a|e] s1]; cbn; [by eauto|]. by intros [=].
Qed.

Lemma try_step {S E A B} (m : Op S (Result E A)) (k : A -> Op S (Result E B)) s a s1 :
  m s = (Ok a, s1) -> try_bind m k s = k a s1.
Proof. unfold try_bind, mbind, Op_bind. by intros ->. Qed.

Section Store.
Context {Db : Type} {L : Type -> Type -> Type} `{SqliteLaws Db} `{LruCacheLaws L} `{TopicsJson}.
Import PersistentChainIndex.

Abbreviation Index := (PersistentChainIndex Db L).

Lemma sql_ok {A} (m : Op Db (Result RusqliteError A)) db a db' : sql m db = (Ok a, db') -> m db = (Ok a, db').
Proof. unfold sql. destruct (m db) as [[x|] ?]; [|done]. by intros [= -> ->]. Qed.

(** A statement that succeeded. *)
Lemma executed s db u db' : sql (execute s) db = (Ok u, db') ->
  pending db' = rewrite_tables s (pending db) /\ committed db' = committed db.
Proof.
  intros He%sql_ok. destruct u. split; [|by rewrite <-(execute_committed s db), He].
  apply execute_pending in He. unfold run_statement in He. destruct (references_ok _); [|done].
  by apply (inj Some) in He.
Qed.

(** Tables with more rows. *)
Definition extend (t : Tables) (txs : list TxRow) (receipts : list ReceiptRow) (logs : list LogRow) : Tables :=
  mkTables (t_blocks t) (t_transactions t ++ txs) (t_receipts t ++ receipts) (t_logs t ++ logs) (t_latest t).

Lemma extend_nil t : extend t [] [] [] = t.
Proof. unfold extend. rewrite !app_nil_r. by destruct t. Qed.

Lemma extend_extend t txs txs' rs rs' ls ls' :
  extend (extend t txs rs ls) txs' rs' ls' = extend t (txs ++ txs') (rs ++ rs') (ls ++ ls').
Proof. unfold extend. cbn. by rewrite !app_assoc. Qed.

Lemma transactions_inserted txs : forall idx db u db',
  (forall i tx, txs !! i = Some tx -> st_transaction_index tx = idx + Z.of_nat i) -> NoDup (st_hash <$> txs) ->
  (forall tx r, tx ∈ txs -> r ∈ t_transactions (pending db) -> tr_hash r ≠ vec_to_list (st_hash tx)) ->
  insert_transactions idx txs db = (Ok u, db') ->
  pending db' = extend (pending db) (stored_tx_row <$> txs) [] [] /\ committed db' = committed db.
Proof.
  induction txs as [|tx txs IH]; intros idx db u db' Hi Hd Hnew; cbn [insert_transactions].
  { intros [= _ <-]. by rewrite extend_nil. }
  intros (u1 & db1 & He & Hrest)%try_ok. apply executed in He as [Hp Hc].
  rewrite fmap_cons in Hd. apply NoDup_cons in Hd as [Hhd Hd].
  cbn [rewrite_tables] in Hp. rewrite filter_every in Hp
    by (intros r Hr; cbn [transaction_row tr_hash]; apply Hnew; [by left | done]).
  assert (Hidx : transaction_row tx idx = stored_tx_row tx).
  { unfold stored_tx_row. rewrite (Hi 0%nat tx eq_refl). f_equal. lia. }
  assert (Hp' : pending db1 = extend (pending db) [stored_tx_row tx] [] [])
    by (rewrite Hp, Hidx; unfold extend; by rewrite !app_nil_r).
  apply IH in Hrest as [Hp2 Hc2]; [|intros i x Hx; rewrite (Hi (S i) x Hx); lia|done|].
  - rewrite Hp2, Hp', extend_extend. split; [done|congruence].
  - rewrite Hp'. cbn [extend t_transactions]. intros x r Hx [Hr | ->%list_elem_of_singleton]%elem_of_app.
    + apply Hnew; [by right | done].
    + cbn. intros Heq%vec_to_list_inj2. apply Hhd. rewrite Heq. by apply list_elem_of_fmap_2.
Qed.

Lemma logs_inserted number h logs : forall db u db', insert_logs number h logs db = (Ok u, db') ->
  pending db' = extend (pending db) [] [] (log_row number h <$> logs) /\ committed db' = committed db /\
  Forall encodable logs.
Proof.
  induction logs as [|log logs IH]; intros db u db'; cbn [insert_logs].
  { intros [= _ <-]. by rewrite extend_nil. }
  intros (u1 & db1 & He & Hrest)%try_ok. unfold insert_log in He.
  destruct (topics_to_vec (lg_topics log)) as [b|] eqn:Eb; [|done]. apply executed in He as [Hp Hc].
  apply IH in Hrest as (Hp2 & Hc2 & Hl). split_and!; [|congruence|constructor; [by exists b|done]].
  rewrite Hp2, Hp. unfold extend. cbn. unfold log_row at 2. rewrite Eb. by rewrite <-app_assoc.
Qed.

Lemma receipts_inserted number rs : forall idx db u db',
  (forall i r, rs !! i = Some r -> sr_transaction_index r = idx + Z.of_nat i /\ sr_block_number r = number) ->
  NoDup (sr_transaction_hash <$> rs) ->
  (forall x r, x ∈ rs -> r ∈ t_receipts (pending db) -> rr_transaction_hash r ≠ vec_to_list (sr_transaction_hash x)) ->
  insert_receipts number idx rs db = (Ok u, db') ->
  pending db' = extend (pending db) [] (stored_receipt_row <$> rs) (rs ≫= receipt_logs) /\
  committed db' = committed db /\ Forall (fun r => Forall encodable (sr_logs r)) rs.
Proof.
  induction rs as [|r rs IH]; intros idx db u db' Hi Hd Hnew; cbn [insert_receipts].
  { intros [= _ <-]. by rewrite extend_nil. }
  intros (u1 & db1 & He & (u2 & db2 & Hl & Hrest)%try_ok)%try_ok. apply executed in He as [Hp Hc].
  apply logs_inserted in Hl as (Hp2 & Hc2 & Henc). destruct (Hi 0%nat r eq_refl) as [Hidx Hnum].
  rewrite fmap_cons in Hd. apply NoDup_cons in Hd as [Hhd Hd].
  cbn [rewrite_tables] in Hp. rewrite filter_every in Hp
    by (intros x Hx; cbn [receipt_row rr_transaction_hash]; apply Hnew; [by left | done]).
  assert (Hrow : receipt_row r idx = stored_receipt_row r).
  { unfold stored_receipt_row. rewrite Hidx. f_equal. lia. }
  assert (Hp1 : pending db2 = extend (pending db) [] [stored_receipt_row r] (receipt_logs r)).
  { rewrite Hp2, Hp, Hrow. unfold extend, receipt_logs. cbn. by rewrite !app_nil_r, Hnum. }
  apply IH in Hrest as (Hp3 & Hc3 & Hall); [|intros i x Hx; destruct (Hi (S i) x Hx); split; [lia|done]|done|].
  - rewrite Hp3, Hp1, extend_extend. split_and!; [done|congruence|by constructor].
  - rewrite Hp1. cbn [extend t_receipts]. intros x y Hx [Hy | ->%list_elem_of_singleton]%elem_of_app.
    + apply Hnew; [by right | done].
    + cbn. intros Heq%vec_to_list_inj2. apply Hhd. rewrite Heq. by apply list_elem_of_fmap_2.
Qed.

(** No row of the tables belongs to a block above the archive. *)
Lemma number_above a e e' : archive_wf a -> entry_wf e -> fresh a e -> e' ∈ a ->
  as_i64 (e_number e') ≠ as_i64 (e_number e).
Proof.
  intros Ha He Hf He'. rewrite as_i64_inj; [|apply (wf_entries a Ha e' He')|apply He].
  pose proof (fr_number _ _ Hf) as Hn. eapply Forall_forall in Hn; [|done]. lia.
Qed.

Lemma tx_entry a tx : archive_wf a -> tx ∈ all_txs a ->
  exists e i, e ∈ a /\ e_txs e !! i = Some tx /\ tx_wf (e_block e) (Z.of_nat i) tx.
Proof.
  intros Ha (e & He & [i Hi]%list_elem_of_lookup)%all_txs_elem. exists e, i. split_and!; [done..|].
  by apply (ew_txs _ (wf_entries a Ha e He)).
Qed.

Lemma receipt_entry a r : archive_wf a -> r ∈ all_receipts a ->
  exists e i tx, e ∈ a /\ e_txs e !! i = Some tx /\ tx_wf (e_block e) (Z.of_nat i) tx /\
    receipt_wf (e_block e) (Z.of_nat i) tx r.
Proof.
  intros Ha (e & He & Hr)%all_receipts_elem.
  destruct (entry_receipts e r (wf_entries a Ha e He) Hr) as (i & tx & ?). by exists e, i, tx.
Qed.

(** The deletions and the replacement of the block drop nothing. *)
Lemma deletions_idle a e : archive_wf a -> entry_wf e -> fresh a e ->
  foldl (fun t s => rewrite_tables s t) (tables_of a)
    [DeleteLogs (as_i64 (e_number e)); DeleteReceipts (as_i64 (e_number e)); DeleteTransactions (as_i64 (e_number e));
     ReplaceBlock (block_row (e_block e))] =
  mkTables (block_row <$> (e_block <$> a ++ [e])) (t_transactions (tables_of a)) (t_receipts (tables_of a))
    (t_logs (tables_of a)) (t_latest (tables_of a)).
Proof.
  intros Ha He Hf. cbn [foldl rewrite_tables tables_of t_blocks t_transactions t_receipts t_logs t_latest]. f_equal.
  - rewrite filter_every, !fmap_app; [done|]. intros row (b & -> & (e' & -> & He')%list_elem_of_fmap)%list_elem_of_fmap.
    split; [by apply (number_above a e e')|]. cbn. intros Heq%vec_to_list_inj2. apply (fr_hash _ _ Hf).
    unfold e_hash at 1. rewrite <-Heq. by apply (list_elem_of_fmap_2 e_hash).
  - apply filter_every. intros row (tx & -> & Htx)%list_elem_of_fmap.
    destruct (tx_entry a tx Ha Htx) as (e' & i & He' & _ & Hw). cbn. rewrite (tw_number _ _ _ Hw). by apply number_above with a.
  - apply filter_every. intros row (r & -> & Hr)%list_elem_of_fmap.
    destruct (receipt_entry a r Ha Hr) as (e' & i & tx & He' & _ & _ & Hw). cbn. rewrite (rw_number _ _ _ _ Hw).
    by apply number_above with a.
  - apply filter_every. intros row (r & Hrow & Hr)%list_elem_of_bind. apply list_elem_of_fmap in Hrow as (log & -> & _).
    destruct (receipt_entry a r Ha Hr) as (e' & i & tx & He' & _ & _ & Hw). cbn. rewrite (rw_number _ _ _ _ Hw).
    by apply number_above with a.
Qed.

Lemma tables_snoc a e : tables_of (a ++ [e]) =
  mkTables (block_row <$> (e_block <$> a ++ [e])) (t_transactions (tables_of a) ++ (stored_tx_row <$> e_txs e))
    (t_receipts (tables_of a) ++ (stored_receipt_row <$> e_receipts e))
    (t_logs (tables_of a) ++ (e_receipts e ≫= receipt_logs)) (Some (as_i64 (e_number e))).
Proof.
  unfold tables_of. cbn. rewrite all_txs_app, all_receipts_app, !fmap_app, bind_app.
  unfold all_txs at 2, all_receipts at 2 4. rewrite !bind_singleton. unfold a_latest. by rewrite last_snoc.
Qed.

Lemma rows_stored a e db u db' : archive_wf a -> entry_wf e -> fresh a e -> pending db = tables_of a ->
  store_rows (e_block e) (e_txs e) (e_receipts e) db = (Ok u, db') ->
  committed db' = tables_of (a ++ [e]) /\ Forall (fun r => Forall encodable (sr_logs r)) (e_receipts e).
Proof.
  intros Ha He Hf Hp. unfold store_rows.
  intros (u1 & db1 & [Hp1 _]%executed & Hrest)%try_ok. apply try_ok in Hrest as (u2 & db2 & [Hp2 _]%executed & Hrest).
  apply try_ok in Hrest as (u3 & db3 & [Hp3 _]%executed & Hrest). apply try_ok in Hrest as (u4 & db4 & [Hp4 _]%executed & Hrest).
  apply try_ok in Hrest as (u5 & db5 & Htxs & Hrest). apply try_ok in Hrest as (u6 & db6 & Hrs & Hrest).
  apply try_ok in Hrest as (u7 & db7 & [Hp7 _]%executed & Hc).
  pose proof (deletions_idle a e Ha He Hf) as Hdel. rewrite <-Hp in Hdel at 1. cbn [foldl] in Hdel.
  unfold e_number in Hdel. rewrite <-Hp1, <-Hp2, <-Hp3, <-Hp4 in Hdel. clear Hp1 Hp2 Hp3 Hp4.
  apply transactions_inserted in Htxs as [Hp5 _];
    [|intros i tx Hi; apply (tw_index _ _ _ (ew_txs _ He i tx Hi))|apply He|].
  2: { rewrite Hdel. cbn. intros tx row Htx (x & -> & Hx)%list_elem_of_fmap. cbn. intros Heq%vec_to_list_inj2.
       apply (fr_txs _ _ Hf tx Htx). rewrite <-Heq. by apply list_elem_of_fmap_2. }
  apply receipts_inserted in Hrs as (Hp6 & _ & Henc).
  2: { intros i r Hi. destruct (ew_receipts _ He i r Hi) as (tx & _ & []). auto. }
  2: { rewrite receipt_hashes by done. eapply sublist_NoDup; [apply He | apply sublist_take]. }
  2: { rewrite Hp5, Hdel. cbn. rewrite app_nil_r. intros r row Hr (x & -> & Hx)%list_elem_of_fmap. cbn. intros Heq%vec_to_list_inj2.
       destruct (receipt_entry a x Ha Hx) as (e' & i & tx & He' & Htx & _ & Hw).
       destruct (entry_receipts e r He Hr) as (j & tx' & Htx' & _ & Hw').
       apply (fr_txs _ _ Hf tx'); [by eapply list_elem_of_lookup_2|].
       rewrite <-(rw_tx_hash _ _ _ _ Hw'), <-Heq, (rw_tx_hash _ _ _ _ Hw).
       apply list_elem_of_fmap_2, all_txs_elem. exists e'. split; [done | by eapply list_elem_of_lookup_2]. }
  split; [|done]. destruct u. apply sql_ok in Hc. rewrite (commit_ok _ _ Hc), Hp7, Hp6, Hp5, Hdel, tables_snoc.
  cbn. by rewrite !app_nil_r.
Qed.

End Store.
