(* ===== verification/IndexSpec.v ===== *)
(** * The persistent chain index implements an archive

    [ArchiveIndex] says what a chain index promises to its clients: while it
    represents an archive, every answer is the archive's, and storing a fresh
    block extends the archive or changes nothing. The persistent index with its
    cache fulfils it. *)

From S2P Require Import Prelude Core ExecState Runtime Stf StorageBackend Mempool Server EthTx EthContext Indexing.
From S2P Require Import IndexStore IndexStoreFacts.

Open Scope evolve_scope.

(** ** The interface *)

(** The answer of an operation, which fails only if something is not
    reliable. *)
Definition ok_is {E A} (reliable : Prop) (Q : A -> Prop) (r : Result E A) : Prop :=
  match r with Ok v => Q v | Err _ => ~ reliable end.

Definition serves {I E A} (reliable : Prop) (R : I -> Archive -> Prop) (a : Archive) (m : I -> Result E A * I) (v : A)
    : Prop :=
  forall i, R i a -> R (m i).2 a /\ ok_is reliable (eq v) (m i).1.

Class ArchiveIndex (I E : Type) `{ChainIndex I E} (reliable : Prop) (R : I -> Archive -> Prop) := {
  ai_latest a : serves reliable R a latest_block_number (a_latest a);
  ai_block a n : is_u64 n -> serves reliable R a (fun i => get_block i n) (a_block a n);
  ai_block_by_hash a h : serves reliable R a (fun i => get_block_by_hash i h) (a_block_by_hash a h);
  ai_number a h : serves reliable R a (fun i => get_block_number i h) (a_number a h);
  ai_hashes a n : is_u64 n -> serves reliable R a (fun i => get_block_transactions i n) (a_hashes a n);
  ai_transaction a h : serves reliable R a (fun i => get_transaction i h) (a_transaction a h);
  ai_location a h : serves reliable R a (fun i => get_transaction_location i h) (a_location a h);
  ai_receipt a h : serves reliable R a (fun i => get_receipt i h) (a_receipt a h);
  ai_logs a n : is_u64 n -> serves reliable R a (fun i => get_logs_by_block i n) (a_logs a n);
  ai_store i a e : R i a -> entry_wf e -> fresh a e ->
    let '(r, i') := store_block i (e_block e) (e_txs e) (e_receipts e) in
    R i' (if is_ok r then a ++ [e] else a) /\ ok_is reliable (fun _ => True) r
}.

(** ** What queries give on the tables of an archive *)
Section Queries.
Context `{TopicsJson} (a : Archive) (Ha : archive_wf a).
Import PersistentChainIndex.

Let Hf : archive_facts a := wf_facts a Ha.

Lemma a_entry_number n e : a_entry a n = Some e -> e_number e = n /\ e ∈ a.
Proof. apply lookup_by_Some. Qed.

Lemma a_entry_elem e : e ∈ a -> a_entry a (e_number e) = Some e.
Proof. apply lookup_by_elem, af_distinct_numbers, Hf. Qed.

Lemma a_hash_elem e : e ∈ a -> lookup_by e_hash (e_hash e) a = Some e.
Proof. apply lookup_by_elem, Hf. Qed.

Lemma block_rows n : is_u64 n ->
  filter (fun r => br_number r = as_i64 n) (t_blocks (tables_of a)) = option_list (block_row <$> a_block a n).
Proof.
  intros Hn. cbn [tables_of t_blocks]. rewrite <-list_fmap_compose.
  rewrite (filter_rows _ (fun e => e_number e = n)).
  - rewrite (filter_unique e_number n a (af_distinct_numbers a Hf)). unfold a_block, a_entry. by destruct (lookup_by _ _ _).
  - intros e He. apply as_i64_inj; [apply (wf_entries a Ha e He) | done].
Qed.

Lemma number_rows h :
  br_number <$> filter (fun r => br_hash r = vec_to_list h) (t_blocks (tables_of a)) =
  option_list (as_i64 <$> a_number a h).
Proof.
  cbn [tables_of t_blocks]. rewrite <-list_fmap_compose. rewrite (filter_rows _ (fun e => e_hash e = h)).
  - rewrite (filter_unique e_hash h a (af_hashes a Hf)). unfold a_number. by destruct (lookup_by _ _ _).
  - intros e He. split; [apply vec_to_list_inj2 | by intros <-].
Qed.

Lemma tx_rows h :
  filter (fun r => tr_hash r = vec_to_list h) (t_transactions (tables_of a)) = option_list (stored_tx_row <$> a_transaction a h).
Proof.
  cbn [tables_of t_transactions]. rewrite (filter_rows _ (fun tx => st_hash tx = h)).
  - rewrite (filter_unique st_hash h _ (af_txs a Hf)). unfold a_transaction. by destruct (lookup_by _ _ _).
  - intros tx _. split; [apply vec_to_list_inj2 | by intros <-].
Qed.

(** The block of a stored transaction. *)
Lemma joined_block e : e ∈ a ->
  filter (fun b => br_number b = as_i64 (e_number e)) (t_blocks (tables_of a)) = [block_row (e_block e)].
Proof.
  intros He. rewrite block_rows by apply (wf_entries a Ha e He). unfold a_block. by rewrite (a_entry_elem e He).
Qed.

Lemma selected_transaction h : select_transactions (vec_to_list h) (tables_of a) =
  option_list ((fun tx => (stored_tx_row tx, vec_to_list (st_block_hash tx))) <$> a_transaction a h).
Proof.
  unfold select_transactions. rewrite tx_rows. destruct (a_transaction a h) as [tx|] eqn:Et; [|done].
  apply lookup_by_Some in Et as [_ Hin]. destruct (tx_entry a tx Ha Hin) as (e & i & He & _ & Hw).
  cbn [fmap option_fmap option_map]. rewrite bind_one.
  change (tr_block_number (stored_tx_row tx)) with (as_i64 (st_block_number tx)). rewrite (tw_number _ _ _ Hw). change (sb_number (e_block e)) with (e_number e). rewrite joined_block by done.
  cbn. by rewrite (tw_hash _ _ _ Hw).
Qed.

Lemma receipt_rows h :
  filter (fun r => rr_transaction_hash r = vec_to_list h) (t_receipts (tables_of a)) =
  option_list (stored_receipt_row <$> a_receipt a h).
Proof.
  cbn [tables_of t_receipts]. rewrite (filter_rows _ (fun r => sr_transaction_hash r = h)).
  - rewrite (filter_unique sr_transaction_hash h _ (af_receipts a Hf)). unfold a_receipt. by destruct (lookup_by _ _ _).
  - intros r _. split; [apply vec_to_list_inj2 | by intros <-].
Qed.

Lemma selected_receipt h : select_receipts (vec_to_list h) (tables_of a) =
  option_list ((fun r => (stored_receipt_row r, vec_to_list (sr_block_hash r),
                          u256_to_be_bytes (sr_effective_gas_price r))) <$> a_receipt a h).
Proof.
  unfold select_receipts. rewrite receipt_rows. destruct (a_receipt a h) as [r|] eqn:Er; [|done].
  apply lookup_by_Some in Er as [_ Hin]. destruct (receipt_entry a r Ha Hin) as (e & i & tx & He & Htx & _ & Hw).
  cbn [fmap option_fmap option_map]. rewrite bind_one.
  change (rr_transaction_hash (stored_receipt_row r)) with (vec_to_list (sr_transaction_hash r)).
  change (rr_block_number (stored_receipt_row r)) with (as_i64 (sr_block_number r)).
  rewrite tx_rows. unfold a_transaction. rewrite (rw_tx_hash _ _ _ _ Hw), (lookup_by_elem st_hash _ tx (af_txs a Hf)).
  2: { apply all_txs_elem. exists e. split; [done | by eapply list_elem_of_lookup_2]. }
  cbn [fmap option_fmap option_map]. rewrite bind_one. rewrite (rw_number _ _ _ _ Hw).
  change (sb_number (e_block e)) with (e_number e). rewrite joined_block by done. cbn.
  rewrite (rw_hash _ _ _ _ Hw), (rw_price _ _ _ _ Hw). done.
Qed.

Lemma hash_rows n : is_u64 n ->
  filter (fun r => tr_block_number r = as_i64 n) (t_transactions (tables_of a)) =
  from_option (fun e => stored_tx_row <$> e_txs e) [] (a_entry a n).
Proof.
  intros Hn. cbn [tables_of t_transactions]. unfold all_txs. rewrite list_bind_fmap.
  apply (filter_bind e_number); [apply af_distinct_numbers, Hf|].
  intros e row He (tx & -> & [i Hi]%list_elem_of_lookup)%list_elem_of_fmap. cbn.
  rewrite (tw_number _ _ _ (ew_txs _ (wf_entries a Ha e He) i tx Hi)).
  apply as_i64_inj; [apply (wf_entries a Ha e He) | done].
Qed.

Lemma log_rows n : is_u64 n ->
  filter (fun r => lr_block_number r = as_i64 n) (t_logs (tables_of a)) =
  from_option (fun e => e_receipts e ≫= receipt_logs) [] (a_entry a n).
Proof.
  intros Hn. cbn [tables_of t_logs]. unfold all_receipts. rewrite list_bind_bind.
  apply (filter_bind e_number); [apply af_distinct_numbers, Hf|].
  intros e row He (r & Hrow & Hr)%list_elem_of_bind. apply list_elem_of_fmap in Hrow as (log & -> & _). cbn.
  destruct (entry_receipts e r (wf_entries a Ha e He) Hr) as (i & tx & _ & _ & Hw). rewrite (rw_number _ _ _ _ Hw).
  apply as_i64_inj; [apply (wf_entries a Ha e He) | done].
Qed.

Lemma tx_log_rows h :
  filter (fun r => lr_transaction_hash r = vec_to_list h) (t_logs (tables_of a)) =
  from_option receipt_logs [] (a_receipt a h).
Proof.
  cbn [tables_of t_logs]. apply (filter_bind sr_transaction_hash); [apply Hf|].
  intros r row Hr (log & -> & _)%list_elem_of_fmap. cbn. split; [apply vec_to_list_inj2 | by intros <-].
Qed.

End Queries.

(** ** The relation between an index and its archive *)
Section Persistent.
Context {Db : Type} {L : Type -> Type -> Type} `{SqliteLaws Db} `{LruCacheLaws L} `{TopicsJson}.
Import PersistentChainIndex.

Abbreviation Index := (PersistentChainIndex Db L).
Abbreviation rel := (reliable Db).

Record cache_sound (a : Archive) (c : ChainCache L) : Prop := {
  cs_blocks n b : lru_contents (blocks_by_number c) !! n = Some b -> a_block a n = Some b;
  cs_numbers h n : lru_contents (block_number_by_hash c) !! h = Some n -> a_number a h = Some n;
  cs_txs h tx : lru_contents (cached_transactions c) !! h = Some tx -> a_transaction a h = Some tx;
  cs_receipts h r : lru_contents (cached_receipts c) !! h = Some r -> a_receipt a h = Some r;
  cs_latest : latest_block c = a_latest a }.

Record represents (i : Index) (a : Archive) : Prop := {
  rp_tables : committed (pi_db i) = tables_of a;
  rp_wf : archive_wf a;
  rp_logs : logs_encodable a;
  rp_cache : cache_sound a (pi_cache i) }.

(** ** A logic of operations that keep the relation *)
Definition keeps (a : Archive) {A} (m : Op Index A) (Q : A -> Prop) : Prop :=
  forall i, represents i a -> represents (m i).2 a /\ Q (m i).1.

Section Rules.
Context (a : Archive).

Lemma keeps_ret {A} (x : A) Q : Q x -> keeps a (mret x) Q.
Proof. by intros HQ i Hi. Qed.

Lemma keeps_bind {A B} (m : Op Index A) (k : A -> Op Index B) P Q :
  keeps a m P -> (forall x, P x -> keeps a (k x) Q) -> keeps a (m ≫= k) Q.
Proof.
  intros Hm Hk i Hi. destruct (Hm i Hi) as [Hi1 HP]. unfold mbind, Op_bind.
  destruct (m i) as [x i1]. by apply Hk.
Qed.

Lemma keeps_try {E A B} (m : Op Index (Result E A)) (k : A -> Op Index (Result E B)) P Q :
  keeps a m (ok_is rel P) -> (forall x, P x -> keeps a (k x) (ok_is rel Q)) -> keeps a (try_bind m k) (ok_is rel Q).
Proof. intros Hm Hk. eapply keeps_bind; [done|]. intros [x|e] Hx; [by apply Hk | by apply keeps_ret]. Qed.

Lemma keeps_db {A} (m : Op Db A) (Q : A -> Prop) :
  (forall db, committed db = tables_of a -> committed (m db).2 = tables_of a /\ Q (m db).1) -> keeps a (on_db m) Q.
Proof.
  intros Hm i [Ht Hw Hl Hc]. destruct (Hm _ Ht) as [Ht' HQ]. unfold on_db. destruct (m (pi_db i)) as [x db]. by split.
Qed.

Lemma keeps_read : keeps a (on_db read_conn) (ok_is rel (fun _ => True)).
Proof.
  apply keeps_db. intros db Hdb. unfold read_conn, sql. pose proof (pool_committed db) as Hc.
  pose proof (fun r : rel => rl_pool Db r db) as Hr. destruct (pool_get db) as [[]]; cbn in *; (split; [congruence|]); [done|].
  by intros Hrel%Hr.
Qed.

(** The result of a query for one row, when the archive has [o]. *)
Definition row_is {A} (o : option A) (r : Result RusqliteError A) : Prop :=
  match r with Ok v => o = Some v | Err QueryReturnedNoRows => o = None | Err _ => ~ rel end.

Lemma keeps_query_row {R A} (q : Query R) (f : R -> Result RusqliteError A) (o : option A) :
  (forall rows, answers q (tables_of a) rows -> f <$> head rows = Ok <$> o) ->
  keeps a (on_db (query_row q f)) (row_is o).
Proof.
  intros Hq. apply keeps_db. intros db Hdb. unfold query_row.
  pose proof (query_committed R q db) as Hc. pose proof (query_rows R q db) as Hr.
  pose proof (query_error R q db) as He. pose proof (fun r : rel => rl_query Db r R q db) as Hq'. destruct (query q db) as [[rows|e] db'].
  - specialize (Hr rows eq_refl). rewrite Hdb in Hr. apply Hq in Hr. destruct rows as [|row rows]; cbn in *.
    + split; [congruence|]. by destruct o.
    + split; [congruence|]. destruct o as [v|]; [|done]. cbn in Hr. apply (inj Some) in Hr. by rewrite Hr.
  - cbn in *. split; [congruence|]. assert (Hrel : ~ rel) by (intros Hrel; by specialize (Hq' Hrel)). by destruct e.
Qed.

Lemma keeps_query_map {R A} (q : Query R) (f : R -> Result RusqliteError A) (l : list A) :
  (forall rows, answers q (tables_of a) rows -> mapM f rows = Ok l) ->
  keeps a (on_db (sql (query_map q f))) (ok_is rel (eq l)).
Proof.
  intros Hq. apply keeps_db. intros db Hdb. unfold sql, query_map.
  pose proof (query_committed R q db) as Hc. pose proof (query_rows R q db) as Hr.
  pose proof (fun r : rel => rl_query Db r R q db) as Hq'. destruct (query q db) as [[rows|e] db'].
  - specialize (Hr rows eq_refl). rewrite Hdb in Hr. rewrite (Hq rows Hr). cbn in *. split; congruence.
  - cbn in *. split; [congruence|]. intros Hrel. by specialize (Hq' Hrel).
Qed.

Lemma keeps_wf {A} (m : Op Index A) Q : (archive_wf a -> logs_encodable a -> keeps a m Q) -> keeps a m Q.
Proof. intros Hm i Hi. by apply Hm; [apply Hi..|]. Qed.

Lemma keeps_found {A B} (r : Result RusqliteError A) (k : A -> Op Index (Result ChainIndexError (option B))) o w :
  row_is o r -> (forall v, o = Some v -> keeps a (k v) (ok_is rel (eq w))) -> (o = None -> w = None) ->
  keeps a (found r k) (ok_is rel (eq w)).
Proof.
  intros Hr Hk Hn. destruct r as [v|[]]; cbn [row_is found] in *; [by apply Hk|apply keeps_ret; by apply Hn|..];
    by apply keeps_ret.
Qed.

Lemma keeps_cache {A} (m : Op (ChainCache L) A) Q :
  (forall c, cache_sound a c -> cache_sound a (m c).2 /\ Q (m c).1) -> keeps a (on_cache m) Q.
Proof.
  intros Hm i [Ht Hw Hl Hc]. destruct (Hm _ Hc) as [Hc' HQ]. unfold on_cache. destruct (m (pi_cache i)) as [x c]. by split.
Qed.

Lemma keeps_insert f : (forall c, cache_sound a c -> cache_sound a (f c)) -> keeps a (cache_insert f) (fun _ => True).
Proof. intros Hf i [Ht Hw Hl Hc]. split; [|done]. split; [done..|]. by apply Hf. Qed.

(** What a cache answers is in the archive. *)
Ltac cache_read :=
  apply keeps_cache; intros c [];
  unfold ChainCache.get_block_by_number, ChainCache.get_block_number_by_hash, ChainCache.get_transaction,
    ChainCache.get_receipt;
  match goal with |- context [ lru_get ?l ?k ] =>
    let Hg := fresh in let Hc := fresh in let x := fresh in
    pose proof (get_contents _ _ l k) as Hg; pose proof (contents_get _ _ l k) as Hc; destruct (lru_get l k);
    cbn in *; split; [split; cbn; try done; by rewrite Hc | intros x ->; auto]
  end.

Lemma cached_block n :
  keeps a (on_cache (ChainCache.get_block_by_number n)) (fun o => forall b, o = Some b -> a_block a n = Some b).
Proof. cache_read. Qed.

Lemma cached_number h :
  keeps a (on_cache (ChainCache.get_block_number_by_hash h)) (fun o => forall n, o = Some n -> a_number a h = Some n).
Proof. cache_read. Qed.

Lemma cached_tx h :
  keeps a (on_cache (ChainCache.get_transaction h)) (fun o => forall tx, o = Some tx -> a_transaction a h = Some tx).
Proof. cache_read. Qed.

Lemma cached_receipt h :
  keeps a (on_cache (ChainCache.get_receipt h)) (fun o => forall r, o = Some r -> a_receipt a h = Some r).
Proof. cache_read. Qed.

(** Caching what the archive has. *)
Lemma put_sound {K V} `{Countable K} (c : L K V) (f : K -> option V) k v :
  (forall k' v', lru_contents c !! k' = Some v' -> f k' = Some v') -> f k = Some v ->
  forall k' v', lru_contents (lru_put c k v) !! k' = Some v' -> f k' = Some v'.
Proof.
  intros Hc Hk k' v' Hl. eapply lookup_weaken in Hl; [|apply contents_put].
  apply lookup_insert_Some in Hl as [[-> ->]|[_ Hl]]; auto.
Qed.

Lemma entry_below n e : archive_wf a -> a_entry a n = Some e -> exists m, a_latest a = Some m /\ n <= m.
Proof.
  intros Ha [<- He]%lookup_by_Some. destruct Ha as [|a' e' Ha' _ Hf]; [by apply not_elem_of_nil in He|].
  exists (e_number e'). unfold a_latest. rewrite last_snoc. split; [done|].
  apply elem_of_app in He as [He | ->%list_elem_of_singleton]; [|lia].
  pose proof (fr_number _ _ Hf) as Hn. eapply Forall_forall in Hn; [|done]. cbn in Hn. lia.
Qed.

Lemma a_number_entry e : archive_wf a -> e ∈ a -> a_number a (e_hash e) = Some (e_number e).
Proof. intros Ha He. unfold a_number. by rewrite (a_hash_elem a Ha e He). Qed.

Lemma insert_block_sound c b n : archive_wf a -> cache_sound a c -> a_block a n = Some b ->
  cache_sound a (ChainCache.insert_block c b).
Proof.
  intros Ha [] Hb. unfold a_block in Hb. apply fmap_Some in Hb as (e & He & ->).
  destruct (lookup_by_Some _ _ _ _ He) as [<- Hin]. destruct (entry_below _ _ Ha He) as (m & Hm & Hle).
  unfold ChainCache.insert_block, ChainCache.set_latest_block_number. cbn [latest_block].
  change (sb_number (e_block e)) with (e_number e). rewrite cs_latest0, Hm.
  destruct (Z.ltb_spec m (e_number e)); [lia|]. split; cbn; [| |done|done|congruence].
  - apply put_sound; [done|]. unfold a_block. by rewrite He.
  - apply put_sound; [done|]. by apply a_number_entry.
Qed.

Lemma insert_tx_sound c tx : cache_sound a c -> a_transaction a (st_hash tx) = Some tx ->
  cache_sound a (ChainCache.insert_transaction c tx).
Proof. intros [] Htx. split; cbn; try done. by apply put_sound. Qed.

Lemma insert_receipt_sound c r : cache_sound a c -> a_receipt a (sr_transaction_hash r) = Some r ->
  cache_sound a (ChainCache.insert_receipt c r).
Proof. intros [] Hr. split; cbn; try done. by apply put_sound. Qed.

(** ** The operations *)
Lemma latest_row : (forall rows, answers SelectLatest (tables_of a) rows -> Ok (E := RusqliteError) <$> head rows = Ok <$> (as_i64 <$> a_latest a)).
Proof. intros rows ->. cbn. by destruct (a_latest a). Qed.

Lemma a_latest_u64 n : archive_wf a -> a_latest a = Some n -> is_u64 n.
Proof. intros Ha. destruct Ha as [|a' e Ha' He _]; [done|]. unfold a_latest. rewrite last_snoc. intros [= <-]. apply He. Qed.

Lemma latest_correct : serves rel represents a (latest_block_number (Db := Db) (L := L)) (a_latest a).
Proof.
  intros i Hi. unfold latest_block_number, ChainCache.latest_block_number. pose proof (cs_latest _ _ (rp_cache _ _ Hi)) as Hl.
  destruct (latest_block (pi_cache i)) as [n|] eqn:En; [by split|]. revert i Hi En.
  assert (Hk : keeps a (load_latest_block_number (Db := Db) (L := L)) (ok_is rel (eq (a_latest a)))).
  { apply keeps_wf. intros Ha _. unfold load_latest_block_number. eapply keeps_try; [apply keeps_read|]. intros _ _.
    eapply keeps_bind; [apply keeps_query_row, latest_row|]. intros r Hr. eapply keeps_found; [done| |].
    - intros v Hv. apply keeps_ret. cbn. apply fmap_Some in Hv as (n & Hn & ->). rewrite Hn.
      by rewrite wrap_i64 by by eapply a_latest_u64.
    - by destruct (a_latest a). }
  intros i Hi _. by apply Hk.
Qed.

Lemma get_block_keeps n : is_u64 n -> keeps a (get_block (Db := Db) (L := L) n) (ok_is rel (eq (a_block a n))).
Proof.
  intros Hn. apply keeps_wf. intros Ha _. unfold get_block. eapply keeps_bind; [apply cached_block|].
  intros [b|] Hb; [apply keeps_ret; cbn; auto|]. clear Hb. eapply keeps_try; [apply keeps_read|]. intros _ _.
  eapply keeps_bind; [apply (keeps_query_row _ _ (a_block a n))|].
  - intros rows Hrows. cbn [answers] in Hrows. rewrite (block_rows a Ha n Hn) in Hrows.
    apply Permutation_option in Hrows as ->. destruct (a_block a n) as [b|] eqn:Eb; [|done]. cbn. f_equal.
    apply block_row_roundtrip. unfold a_block in Eb. apply fmap_Some in Eb as (e & [_ He]%lookup_by_Some & ->).
    apply (wf_entries a Ha e He).
  - intros r Hr. eapply keeps_found; [done| |done]. intros b Hb.
    eapply keeps_bind; [apply keeps_insert; intros c Hc; by eapply insert_block_sound|].
    intros _ _. apply keeps_ret. done.
Qed.

Lemma get_number_keeps h : keeps a (get_block_number (Db := Db) (L := L) h) (ok_is rel (eq (a_number a h))).
Proof.
  apply keeps_wf. intros Ha _. unfold get_block_number. eapply keeps_bind; [apply cached_number|].
  intros [n|] Hn; [apply keeps_ret; cbn; auto|]. clear Hn. eapply keeps_try; [apply keeps_read|]. intros _ _.
  eapply keeps_bind; [apply (keeps_query_row _ _ (as_i64 <$> a_number a h))|].
  - intros rows Hrows. cbn [answers] in Hrows. rewrite (number_rows a Ha h) in Hrows.
    apply Permutation_option in Hrows as ->. by destruct (a_number a h).
  - intros r Hr. eapply keeps_found; [done| |by destruct (a_number a h)]. intros v Hv. apply keeps_ret. cbn.
    unfold a_number in *. destruct (lookup_by e_hash h a) as [e|] eqn:Ee; [|done]. injection Hv as <-.
    apply lookup_by_Some in Ee as [_ He]. cbn. rewrite wrap_i64; [done|]. apply (wf_entries a Ha e He).
Qed.

(** Both ways to a block by its hash agree. *)
Lemma block_via_number h : archive_wf a -> a_block_by_hash a h = a_number a h ≫= a_block a.
Proof.
  intros Ha. unfold a_block_by_hash, a_number. destruct (lookup_by e_hash h a) as [e|] eqn:Ee; [|done].
  apply lookup_by_Some in Ee as [_ He]. cbn. unfold a_block. by rewrite (a_entry_elem a Ha e He).
Qed.

Lemma get_by_hash_keeps h : keeps a (get_block_by_hash (Db := Db) (L := L) h) (ok_is rel (eq (a_block_by_hash a h))).
Proof.
  apply keeps_wf. intros Ha _. rewrite block_via_number by done. unfold get_block_by_hash, ChainCache.get_block_by_hash.
  eapply (keeps_bind _ _ (fun o => forall b, o = Some b -> a_number a h ≫= a_block a = Some b)).
  - intros i Hi. destruct (cached_number h i Hi) as [Hi1 Hn]. unfold on_cache in *.
    destruct (ChainCache.get_block_number_by_hash h (pi_cache i)) as [[n|] c]; [|by split].
    destruct (cached_block n _ Hi1) as [Hi2 Hb]. unfold on_cache in Hi2, Hb. cbn [pi_cache pi_db snd fst] in *.
    destruct (ChainCache.get_block_by_number n c) as [o c2]. split; [done|]. intros b Ho.
    rewrite (Hn n eq_refl). cbn. by apply Hb.
  - intros [b|] Hb; [apply keeps_ret; cbn; auto|]. clear Hb. eapply keeps_try; [apply get_number_keeps|].
    intros o <-. destruct (a_number a h) as [n|] eqn:En; [|by apply keeps_ret]. apply get_block_keeps.
    unfold a_number in En. apply fmap_Some in En as (e & [_ He]%lookup_by_Some & ->). apply (wf_entries a Ha e He).
Qed.

Lemma get_hashes_keeps n : is_u64 n -> keeps a (get_block_transactions (Db := Db) (L := L) n) (ok_is rel (eq (a_hashes a n))).
Proof.
  intros Hn. apply keeps_wf. intros Ha _. unfold get_block_transactions. eapply keeps_try; [apply keeps_read|]. intros _ _.
  apply keeps_query_map. intros rows (txs & -> & Hp & Hs). rewrite (hash_rows a Ha n Hn) in Hp. unfold a_hashes.
  destruct (a_entry a n) as [e|] eqn:Ee; cbn [from_option] in *; [|apply Permutation_nil_r in Hp as ->; done].
  apply lookup_by_Some in Ee as [_ He].
  assert (txs = stored_tx_row <$> e_txs e) as ->.
  { apply (sorted_unique tr_transaction_index); [done..|]. rewrite <-list_fmap_compose.
    apply (sorted_positions _ 0). intros i tx Hi. cbn. apply (ew_txs _ (wf_entries a Ha e He) i tx Hi). }
  rewrite <-list_fmap_compose. rewrite (list_fmap_ext _ (vec_to_list ∘ st_hash)) by done.
  rewrite list_fmap_compose. apply mapM_rows. intros h _. apply b256_row.
Qed.

Lemma tx_in_archive h tx : archive_wf a -> a_transaction a h = Some tx ->
  st_hash tx = h /\ exists e i, e ∈ a /\ e_txs e !! i = Some tx /\ tx_wf (e_block e) (Z.of_nat i) tx.
Proof. intros Ha [Hh Hin]%lookup_by_Some. split; [done|]. by apply tx_entry. Qed.

Lemma get_tx_keeps h : keeps a (get_transaction (Db := Db) (L := L) h) (ok_is rel (eq (a_transaction a h))).
Proof.
  apply keeps_wf. intros Ha _. unfold get_transaction. eapply keeps_bind; [apply cached_tx|].
  intros [tx|] Htx; [apply keeps_ret; cbn; auto|]. clear Htx. eapply keeps_try; [apply keeps_read|]. intros _ _.
  eapply keeps_bind; [apply (keeps_query_row _ _ (a_transaction a h))|].
  - intros rows Hrows. cbn [answers] in Hrows. rewrite (selected_transaction a Ha h) in Hrows.
    apply Permutation_option in Hrows as ->. destruct (a_transaction a h) as [tx|] eqn:Et; [|done].
    rewrite head_option. cbn [fmap option_fmap option_map]. f_equal.
    destruct (tx_in_archive h tx Ha Et) as (_ & e & i & He & _ & Hw).
    by apply (tx_row_roundtrip (e_block e) (Z.of_nat i)); [apply (wf_entries a Ha e He)|].
  - intros r Hr. eapply keeps_found; [done| |done]. intros tx Htx.
    eapply keeps_bind; [apply keeps_insert|by intros _ _; apply keeps_ret].
    intros c Hc. apply insert_tx_sound; [done|]. by destruct (tx_in_archive h tx Ha Htx) as [-> _].
Qed.

Lemma get_location_keeps h : keeps a (get_transaction_location (Db := Db) (L := L) h) (ok_is rel (eq (a_location a h))).
Proof.
  apply keeps_wf. intros Ha _. unfold get_transaction_location. eapply keeps_try; [apply keeps_read|]. intros _ _.
  eapply keeps_bind; [apply (keeps_query_row _ _ ((fun tx => (as_i64 (st_block_number tx), st_transaction_index tx)) <$> a_transaction a h))|].
  - intros rows Hrows. cbn [answers] in Hrows. rewrite (tx_rows a Ha h) in Hrows. unfold a_location.
    destruct (a_transaction a h); [apply Permutation_singleton_r in Hrows as ->|apply Permutation_nil_r in Hrows as ->]; done.
  - intros r Hr. unfold a_location. eapply keeps_found; [done| |by destruct (a_transaction a h)].
    intros [bn ti] Hv. apply keeps_ret. cbn. apply fmap_Some in Hv as (tx & Htx & [= -> ->]). rewrite Htx. cbn.
    destruct (tx_in_archive h tx Ha Htx) as (_ & e & i & He & _ & Hw). rewrite wrap_i64, u32_row; [done| |].
    + rewrite (tw_index _ _ _ Hw). apply Hw.
    + rewrite (tw_number _ _ _ Hw). apply (wf_entries a Ha e He).
Qed.

(** The logs of stored receipts. *)
Lemma parsed_logs rs : (forall r log, r ∈ rs -> log ∈ sr_logs r -> encodable log) ->
  mapM parse_stored_log (log_columns <$> (rs ≫= receipt_logs)) = Ok (rs ≫= sr_logs).
Proof.
  induction rs as [|r rs IH]; intros He; [done|]. cbn [mbind list_bind].
  change (list_bind _ _ receipt_logs rs) with (rs ≫= receipt_logs). change (list_bind _ _ sr_logs rs) with (rs ≫= sr_logs).
  rewrite fmap_app. apply mapM_app; [|apply IH; intros x log Hx; apply He; by right].
  unfold receipt_logs. rewrite <-list_fmap_compose. apply mapM_rows.
  intros log Hlog. apply log_row_roundtrip. by apply (He r log); [left|].
Qed.

Lemma get_receipt_keeps h : keeps a (get_receipt (Db := Db) (L := L) h) (ok_is rel (eq (a_receipt a h))).
Proof.
  apply keeps_wf. intros Ha Hlogs. unfold get_receipt. eapply keeps_bind; [apply cached_receipt|].
  intros [r|] Hr; [apply keeps_ret; cbn; auto|]. clear Hr. eapply keeps_try; [apply keeps_read|]. intros _ _.
  eapply keeps_bind; [apply (keeps_query_row _ _ ((fun r => with_logs r []) <$> a_receipt a h))|].
  - intros rows Hrows. cbn [answers] in Hrows. rewrite (selected_receipt a Ha h) in Hrows.
    apply Permutation_option in Hrows as ->. destruct (a_receipt a h) as [r|] eqn:Er; [|done].
    rewrite head_option. cbn [fmap option_fmap option_map]. f_equal. apply lookup_by_Some in Er as [_ Hin].
    destruct (receipt_entry a r Ha Hin) as (e & i & tx & He & _ & Htw & Hw). rewrite (rw_price _ _ _ _ Hw).
    by apply (receipt_row_roundtrip (e_block e) (Z.of_nat i)); [apply (wf_entries a Ha e He)|..].
  - intros res Hres. eapply keeps_found; [done| |by destruct (a_receipt a h)]. intros r' Hr'.
    apply fmap_Some in Hr' as (r & Hr & ->). apply lookup_by_Some in Hr as Hin. destruct Hin as [Hh Hin].
    eapply (keeps_try _ _ (eq (sr_logs r))); [apply keeps_query_map|].
    + intros rows ->. rewrite (tx_log_rows a Ha h), Hr. cbn [from_option].
      pose proof (parsed_logs [r]) as Hp. rewrite !bind_singleton in Hp. apply Hp.
      intros x log ->%list_elem_of_singleton. by apply Hlogs.
    + intros logs <-. assert (Hwl : with_logs (with_logs r []) (sr_logs r) = r) by by destruct r. rewrite Hwl.
      eapply keeps_bind; [apply keeps_insert|by intros _ _; apply keeps_ret].
      intros c Hc. apply insert_receipt_sound; [done|]. by rewrite Hh.
Qed.

Lemma get_logs_keeps n : is_u64 n -> keeps a (get_logs_by_block (Db := Db) (L := L) n) (ok_is rel (eq (a_logs a n))).
Proof.
  intros Hn. apply keeps_wf. intros Ha Hlogs. unfold get_logs_by_block. eapply keeps_try; [apply keeps_read|]. intros _ _.
  apply keeps_query_map. intros rows ->. rewrite (log_rows a Ha n Hn). unfold a_logs.
  destruct (a_entry a n) as [e|] eqn:Ee; [|done]. apply lookup_by_Some in Ee as [_ He]. cbn [from_option].
  apply parsed_logs. intros r log Hr. apply Hlogs, all_receipts_elem. by exists e.
Qed.

End Rules.

(** ** Storing *)
Lemma lookup_grows {A K} `{EqDecision K} (key : A -> K) k l l' x :
  lookup_by key k l = Some x -> lookup_by key k (l ++ l') = Some x.
Proof. rewrite lookup_by_app. by intros ->. Qed.

(** What an archive has, a longer one has. *)
Lemma a_block_grows a e n b : a_block a n = Some b -> a_block (a ++ [e]) n = Some b.
Proof. unfold a_block, a_entry. rewrite !fmap_Some. intros (x & Hx & ->). exists x. split; [|done]. by apply lookup_grows. Qed.

Lemma a_number_grows a e h n : a_number a h = Some n -> a_number (a ++ [e]) h = Some n.
Proof. unfold a_number. rewrite !fmap_Some. intros (x & Hx & ->). exists x. split; [|done]. by apply lookup_grows. Qed.

Lemma a_tx_grows a e h tx : a_transaction a h = Some tx -> a_transaction (a ++ [e]) h = Some tx.
Proof. unfold a_transaction. rewrite all_txs_app. apply lookup_grows. Qed.

Lemma a_receipt_grows a e h r : a_receipt a h = Some r -> a_receipt (a ++ [e]) h = Some r.
Proof. unfold a_receipt. rewrite all_receipts_app. apply lookup_grows. Qed.

(** The new block becomes the latest one. *)
Lemma insert_new_block a e c : archive_wf (a ++ [e]) -> fresh a e -> cache_sound a c ->
  cache_sound (a ++ [e]) (ChainCache.insert_block c (e_block e)).
Proof.
  intros Ha Hf []. assert (He : e ∈ a ++ [e]) by (apply elem_of_app; right; by left).
  unfold ChainCache.insert_block, ChainCache.set_latest_block_number. cbn [latest_block].
  change (sb_number (e_block e)) with (e_number e).
  assert (Hset : match latest_block c with None => true | Some n => n <? e_number e end = true).
  { rewrite cs_latest0. unfold a_latest. destruct (last a) as [x|] eqn:El; [|done]. cbn. apply Z.ltb_lt.
    pose proof (fr_number _ _ Hf) as Hn. eapply Forall_forall in Hn; [exact Hn|]. by apply last_Some_elem_of. }
  rewrite Hset. split; cbn.
  - apply put_sound; [by intros; apply a_block_grows; auto|]. unfold a_block. by rewrite (a_entry_elem _ Ha e He).
  - apply put_sound; [by intros; apply a_number_grows; auto|]. by apply a_number_entry.
  - intros h tx Htx. by apply a_tx_grows; auto.
  - intros h r Hr. by apply a_receipt_grows; auto.
  - unfold a_latest. by rewrite last_snoc.
Qed.

Lemma insert_txs_sound a txs : (forall tx, tx ∈ txs -> a_transaction a (st_hash tx) = Some tx) ->
  forall c, cache_sound a c -> cache_sound a (foldl ChainCache.insert_transaction c txs).
Proof.
  induction txs as [|tx txs IH]; intros Htx c Hc; [done|]. cbn [foldl]. apply IH.
  - intros x Hx. apply Htx. by right.
  - apply insert_tx_sound; [done|]. apply Htx. by left.
Qed.

Lemma insert_rcpts_sound a rs : (forall r, r ∈ rs -> a_receipt a (sr_transaction_hash r) = Some r) ->
  forall c, cache_sound a c -> cache_sound a (foldl ChainCache.insert_receipt c rs).
Proof.
  induction rs as [|r rs IH]; intros Hr c Hc; [done|]. cbn [foldl]. apply IH.
  - intros x Hx. apply Hr. by right.
  - apply insert_receipt_sound; [done|]. apply Hr. by left.
Qed.

Lemma insert_data_sound a e c : archive_wf (a ++ [e]) -> fresh a e -> cache_sound a c ->
  cache_sound (a ++ [e]) (ChainCache.insert_block_with_data c (e_block e) (e_txs e) (e_receipts e)).
Proof.
  intros Ha Hf Hc. pose proof (wf_facts _ Ha) as [_ _ Ht Hr]. unfold ChainCache.insert_block_with_data.
  apply insert_rcpts_sound, insert_txs_sound; [| |by apply insert_new_block].
  - intros r Hin. apply lookup_by_elem; [done|]. apply all_receipts_elem. exists e. split; [|done].
    apply elem_of_app. right. by left.
  - intros tx Hin. apply lookup_by_elem; [done|]. apply all_txs_elem. exists e. split; [|done].
    apply elem_of_app. right. by left.
Qed.

(** Every statement before the commit leaves the committed tables alone. *)
Definition quiet {A} (m : Op Db A) : Prop := forall db, committed (m db).2 = committed db.

Lemma quiet_try {E A B} (m : Op Db (Result E A)) (k : A -> Op Db (Result E B)) :
  quiet m -> (forall x, quiet (k x)) -> quiet (try_bind m k).
Proof.
  intros Hm Hk db. unfold try_bind, mbind, Op_bind. specialize (Hm db). destruct (m db) as [[x|e] db1]; cbn in *; [|done].
  by rewrite Hk.
Qed.

Lemma quiet_execute s : quiet (sql (execute s)).
Proof. intros db. unfold sql. pose proof (execute_committed s db). by destruct (execute s db) as [[] ?]. Qed.

Lemma quiet_transactions txs : forall idx, quiet (insert_transactions idx txs).
Proof. induction txs as [|tx txs IH]; intros idx; [by intros db|]. apply quiet_try; [apply quiet_execute | auto]. Qed.

Lemma quiet_logs n h logs : quiet (insert_logs n h logs).
Proof.
  induction logs as [|log logs IH]; [by intros db|]. apply quiet_try; [|auto]. unfold insert_log.
  destruct (topics_to_vec _); [apply quiet_execute | by intros db].
Qed.

Lemma quiet_receipts n rs : forall idx, quiet (insert_receipts n idx rs).
Proof.
  induction rs as [|r rs IH]; intros idx; [by intros db|]. apply quiet_try; [apply quiet_execute|].
  intros _. apply quiet_try; [apply quiet_logs | auto].
Qed.

(** A store that fails leaves the committed tables. *)
Lemma store_rows_err b txs rs db e db' : store_rows b txs rs db = (Err e, db') -> committed db' = committed db.
Proof.
  unfold store_rows. intros Hs.
  assert (Hq : forall m : Op Db (Result ChainIndexError unit), quiet m -> forall k, 
    (forall db1 db2, (k tt db1 : Result ChainIndexError unit * Db) = (Err e, db2) -> committed db2 = committed db1) ->
    forall db1 db2, try_bind m k db1 = (Err e, db2) -> committed db2 = committed db1).
  { intros m Hm k Hk db1 db2. specialize (Hm db1). unfold try_bind, mbind, Op_bind. destruct (m db1) as [[[]|] db3]; cbn in *.
    - intros Hk'. by rewrite (Hk _ _ Hk').
    - by intros [= _ <-]. }
  revert db db' Hs. repeat (apply Hq; [solve [apply quiet_execute | apply quiet_transactions | apply quiet_receipts]|]).
  intros db db'. unfold sql. destruct (commit db) as [[]db1] eqn:Ec; [done|]. cbn. intros [= _ <-]. by eapply commit_err.
Qed.

(** ** Stores succeed on a reliable engine: no foreign key is violated *)
Definition numbers (t : Tables) : list Z := br_number <$> t_blocks t.

Record refs (t : Tables) : Prop := {
  rf_txs r : r ∈ t_transactions t -> tr_block_number r ∈ numbers t;
  rf_receipts r : r ∈ t_receipts t -> rr_block_number r ∈ numbers t;
  rf_logs r : r ∈ t_logs t -> lr_block_number r ∈ numbers t }.

Lemma number_known t n : existsb (fun b => br_number b =? n) (t_blocks t) = true <-> n ∈ numbers t.
Proof.
  rewrite existsb_exists. unfold numbers. rewrite list_elem_of_fmap. split.
  - intros (b & Hb & Hn). exists b. split; [symmetry; by apply Z.eqb_eq | by apply list_elem_of_In].
  - intros (b & -> & Hb). exists b. split; [by apply list_elem_of_In | apply Z.eqb_refl].
Qed.

Lemma references_refs t : references_ok t = true <-> refs t.
Proof.
  unfold references_ok. rewrite !andb_true_iff, !forallb_forall. split.
  - intros [[Ht Hr] Hl]. split; intros r Hin; apply number_known; [apply Ht | apply Hr | apply Hl];
      by apply list_elem_of_In.
  - intros []. split_and!; intros r Hin%list_elem_of_In; apply number_known; auto.
Qed.

Lemma executes s db : rel -> refs (rewrite_tables s (pending db)) ->
  exists db', sql (execute s) db = (Ok tt, db') /\ pending db' = rewrite_tables s (pending db).
Proof.
  intros Hrel Hr%references_refs. pose proof (rl_execute Db Hrel s db) as He. unfold run_statement in He. rewrite Hr in He.
  destruct (execute s db) as [[[]|] db'] eqn:Ee; [|by discriminate He; eexists].
  assert (Hs : sql (execute s) db = (Ok tt, db')) by (unfold sql; by rewrite Ee).
  exists db'. split; [done|]. by apply (executed s db tt).
Qed.

(** The number [n] is that of a block. *)
Definition based (n : Z) (t : Tables) : Prop := refs t /\ n ∈ numbers t.

Lemma based_child n t s : based n t ->
  match s with
  | ReplaceTransaction row => tr_block_number row = n
  | ReplaceReceipt row => rr_block_number row = n
  | InsertLog row => lr_block_number row = n
  | ReplaceBlock _ => False
  | _ => True
  end -> based n (rewrite_tables s t).
Proof.
  intros [[] Hn] Hs. destruct s; cbn in Hs; try done; subst; (split; [|exact Hn]);
    (split; cbn; [intros r Hin | intros r Hin | intros r Hin]); auto;
    repeat match goal with
    | Hin : _ ∈ filter _ _ |- _ => apply list_elem_of_filter in Hin as [_ Hin]
    | Hin : _ ∈ _ ++ [_] |- _ => apply elem_of_app in Hin as [Hin | ->%list_elem_of_singleton]
    end; auto.
Qed.

Lemma transactions_succeed n txs : rel -> (forall tx, tx ∈ txs -> as_i64 (st_block_number tx) = n) ->
  forall idx db, based n (pending db) ->
  exists db', insert_transactions idx txs db = (Ok tt, db') /\ based n (pending db').
Proof.
  intros Hrel. induction txs as [|tx txs IH]; intros Htx idx db Hb; [by eexists|]. cbn [insert_transactions].
  assert (Hb1 : based n (rewrite_tables (ReplaceTransaction (transaction_row tx idx)) (pending db)))
    by (apply based_child; [done|]; apply Htx; by left).
  destruct (executes _ db Hrel (proj1 Hb1)) as (db1 & He & Hp). rewrite (try_step _ _ _ _ _ He).
  apply IH; [intros x Hx; apply Htx; by right | by rewrite Hp].
Qed.

Lemma logs_succeed number h logs : rel -> forall db, based (as_i64 number) (pending db) ->
  exists db', insert_logs number h logs db = (Ok tt, db') /\ based (as_i64 number) (pending db').
Proof.
  intros Hrel. induction logs as [|log logs IH]; intros db Hb; [by eexists|]. cbn [insert_logs].
  destruct (rl_topics Db Hrel (lg_topics log)) as [b Hlog].
  set (row := mkLogRow (as_i64 number) (vec_to_list h) (vec_to_list (lg_address log)) b (lg_data log)).
  assert (Hb1 : based (as_i64 number) (rewrite_tables (InsertLog row) (pending db))) by by apply based_child.
  destruct (executes _ db Hrel (proj1 Hb1)) as (db1 & He & Hp).
  rewrite (try_step _ _ _ tt db1) by (unfold insert_log; by rewrite Hlog). apply IH. by rewrite Hp.
Qed.

Lemma receipts_succeed number rs : rel -> (forall r, r ∈ rs -> sr_block_number r = number) ->
  forall idx db, based (as_i64 number) (pending db) ->
  exists db', insert_receipts number idx rs db = (Ok tt, db') /\ based (as_i64 number) (pending db').
Proof.
  intros Hrel. induction rs as [|r rs IH]; intros Hr idx db Hb; [by eexists|]. cbn [insert_receipts].
  assert (Hb1 : based (as_i64 number) (rewrite_tables (ReplaceReceipt (receipt_row r idx)) (pending db)))
    by (apply based_child; [done|]; cbn; by rewrite (Hr r (list_elem_of_here _ _))).
  destruct (executes _ db Hrel (proj1 Hb1)) as (db1 & He & Hp). rewrite (try_step _ _ _ _ _ He).
  destruct (logs_succeed number (sr_transaction_hash r) (sr_logs r) Hrel db1) as (db2 & Hl & Hb2); [by rewrite Hp|].
  rewrite (try_step _ _ _ _ _ Hl). apply IH; [intros x Hx; apply Hr; by right | done].
Qed.

Lemma refs_tables a : archive_wf a -> refs (tables_of a).
Proof.
  intros Ha. assert (Hin : forall e, e ∈ a -> as_i64 (sb_number (e_block e)) ∈ numbers (tables_of a)).
  { intros e He. unfold numbers. cbn. rewrite <-!list_fmap_compose. by apply (list_elem_of_fmap_2 (br_number ∘ block_row ∘ e_block)). }
  split; cbn.
  - intros r (tx & -> & Htx)%list_elem_of_fmap. destruct (tx_entry a tx Ha Htx) as (e & i & He & _ & Hw). cbn.
    rewrite (tw_number _ _ _ Hw). auto.
  - intros row (r & -> & Hr)%list_elem_of_fmap. destruct (receipt_entry a r Ha Hr) as (e & i & tx & He & _ & _ & Hw). cbn.
    rewrite (rw_number _ _ _ _ Hw). auto.
  - intros row (r & Hrow & Hr)%list_elem_of_bind. apply list_elem_of_fmap in Hrow as (log & -> & _).
    destruct (receipt_entry a r Ha Hr) as (e & i & tx & He & _ & _ & Hw). cbn. rewrite (rw_number _ _ _ _ Hw). auto.
Qed.

Lemma rows_succeed a e db : rel -> archive_wf a -> entry_wf e -> fresh a e -> pending db = tables_of a ->
  exists db', store_rows (e_block e) (e_txs e) (e_receipts e) db = (Ok tt, db').
Proof.
  intros Hrel Ha He Hf Hp. unfold store_rows. pose proof (deletions_idle a e Ha He Hf) as Hdel. cbn [foldl] in Hdel.
  assert (Hsub : forall s t, refs t -> match s with DeleteLogs _ | DeleteReceipts _ | DeleteTransactions _ => True | _ => False end ->
    refs (rewrite_tables s t)).
  { intros s t [] Hs. destruct s; try done; split; cbn; intros r Hin; try apply list_elem_of_filter in Hin as [_ Hin]; auto. }
  pose proof (refs_tables a Ha) as Hr0. rewrite <-Hp in Hr0. set (n := as_i64 (sb_number (e_block e))) in *.
  pose proof (Hsub (DeleteLogs n) _ Hr0 I) as Hr1. destruct (executes _ _ Hrel Hr1) as (db1 & E1 & P1).
  rewrite (try_step _ _ _ _ _ E1). rewrite <-P1 in Hr1.
  pose proof (Hsub (DeleteReceipts n) _ Hr1 I) as Hr2. destruct (executes _ _ Hrel Hr2) as (db2 & E2 & P2).
  rewrite (try_step _ _ _ _ _ E2). rewrite <-P2 in Hr2.
  pose proof (Hsub (DeleteTransactions n) _ Hr2 I) as Hr3. destruct (executes _ _ Hrel Hr3) as (db3 & E3 & P3).
  rewrite (try_step _ _ _ _ _ E3).
  assert (Hb : based (as_i64 (e_number e)) (rewrite_tables (ReplaceBlock (block_row (e_block e))) (pending db3))).
  { rewrite P3, P2, P1, Hp. unfold e_number in Hdel. fold n in Hdel. rewrite Hdel. pose proof (refs_tables a Ha) as [R1 R2 R3].
    assert (Hmore : forall m, m ∈ numbers (tables_of a) -> m ∈ br_number <$> (block_row <$> (e_block <$> a ++ [e]))).
    { intros m Hm. rewrite !fmap_app. apply elem_of_app. by left. }
    split; [split; unfold numbers; cbn; intros r Hin; auto|]. unfold numbers. cbn. rewrite !fmap_app.
    apply elem_of_app. right. by left. }
  destruct (executes _ db3 Hrel (proj1 Hb)) as (db4 & E4 & P4). rewrite (try_step _ _ _ _ _ E4). rewrite <-P4 in Hb.
  destruct (transactions_succeed (as_i64 (e_number e)) (e_txs e) Hrel) with (idx := 0) (db := db4) as (db5 & E5 & B5).
  { intros tx [i Hi]%list_elem_of_lookup. by rewrite (tw_number _ _ _ (ew_txs _ He i tx Hi)). }
  { done. }
  rewrite (try_step _ _ _ _ _ E5).
  destruct (receipts_succeed (sb_number (e_block e)) (e_receipts e) Hrel) with (idx := 0) (db := db5) as (db6 & E6 & B6).
  { intros r Hr. destruct (entry_receipts e r He Hr) as (i & tx & _ & _ & Hw). apply Hw. }
  { done. }
  rewrite (try_step _ _ _ _ _ E6).
  destruct (executes (ReplaceLatest n) db6 Hrel) as (db7 & E7 & P7);
    [by apply (based_child _ _ (ReplaceLatest n)) in B6 as [? _]|].
  rewrite (try_step _ _ _ _ _ E7). pose proof (rl_commit Db Hrel db7) as Hc. unfold sql.
  destruct (commit db7) as [[[]|] db8]; [by eexists | done].
Qed.

Lemma store_keeps i a e : represents i a -> entry_wf e -> fresh a e ->
  let '(r, i') := store_block (e_block e) (e_txs e) (e_receipts e) i in
  represents i' (if is_ok r then a ++ [e] else a) /\ ok_is rel (fun _ => True) r.
Proof.
  intros [Ht Ha Hl Hc] He Hf. assert (Ha' : archive_wf (a ++ [e])) by by constructor.
  unfold store_block, try_bind, mbind, Op_bind, on_db. unfold sql at 1. pose proof (begin_committed (pi_db i)) as Hb.
  pose proof (fun r : rel => rl_begin Db r (pi_db i)) as Hrb.
  destruct (begin_transaction (pi_db i)) as [[[]|err] db1] eqn:Eb; cbn in *.
  2: { split; [split; [cbn; congruence|done..]|]. intros Hrel. by specialize (Hrb Hrel). }
  apply begin_pending in Eb. rewrite Ht in Eb.
  destruct (store_rows _ _ _ db1) as [[u|err] db2] eqn:Es; cbn.
  - split; [|done]. eapply (rows_stored a e) in Es as [Ht' Henc]; [|done..].
    split; cbn; [done|done| |by apply insert_data_sound].
    intros r log Hr Hlog. rewrite all_receipts_app in Hr. apply elem_of_app in Hr as [Hr|Hr]; [by eapply Hl|].
    unfold all_receipts in Hr. rewrite bind_singleton in Hr. eapply Forall_forall in Henc; [|done].
    eapply Forall_forall in Henc; done.
  - split; [|intros Hrel; destruct (rows_succeed a e db1 Hrel Ha He Hf Eb) as [db' Hs]; congruence].
    apply store_rows_err in Es. split; cbn; [|done..]. rewrite rollback_committed. congruence.
Qed.

#[export] Instance persistent_archive : ArchiveIndex Index ChainIndexError rel represents.
Proof.
  split.
  - apply latest_correct.
  - intros a n Hn i Hi. by apply get_block_keeps.
  - intros a h i Hi. by apply get_by_hash_keeps.
  - intros a h i Hi. by apply get_number_keeps.
  - intros a n Hn i Hi. by apply get_hashes_keeps.
  - intros a h i Hi. by apply get_tx_keeps.
  - intros a h i Hi. by apply get_location_keeps.
  - intros a h i Hi. by apply get_receipt_keeps.
  - intros a n Hn i Hi. by apply get_logs_keeps.
  - intros i a e. apply store_keeps.
Qed.

End Persistent.
