(* ===== verification/IndexTheorems.v ===== *)
(** * The chain index, verified

    A reference database and a small archive, then the theorems on the
    persistent index. *)

From S2P Require Import Prelude Core ExecState Runtime Stf Mempool StorageBackend Server EthTx EthContext Indexing.
From S2P Require Import IndexStore IndexStoreFacts IndexSpec.

Open Scope evolve_scope.

(** ** A reference database for the chain index

    Concrete instances of the parameters of [IndexStore]: an LRU cache as a list,
    a database that keeps its tables in memory, and topics written one after the
    other; a small archive. *)

(** ** An LRU cache: the entries, the one used last first *)
Record RefLru (K V : Type) := mkRefLru { rl_capacity : nat; rl_entries : list (K * V) }.
Arguments mkRefLru {K V} _ _.
Arguments rl_capacity {K V} _.
Arguments rl_entries {K V} _.

Definition without_key {K V} `{EqDecision K} (k : K) (l : list (K * V)) : list (K * V) :=
  filter (fun x => x.1 ≠ k) l.

Definition ref_contents {K V} `{Countable K} (c : RefLru K V) : gmap K V := list_to_map (rl_entries c).

Definition ref_put {K V} `{Countable K} (c : RefLru K V) (k : K) (v : V) : RefLru K V :=
  mkRefLru (rl_capacity c) (take (rl_capacity c) ((k, v) :: without_key k (rl_entries c))).

Definition ref_get {K V} `{Countable K} (c : RefLru K V) (k : K) : option V * RefLru K V :=
  match ref_contents c !! k with
  | Some v => (Some v, mkRefLru (rl_capacity c) ((k, v) :: without_key k (rl_entries c)))
  | None => (None, c)
  end.

#[export] Instance ref_lru : LruCache RefLru := {|
  lru_new K V _ _ n := mkRefLru (Z.to_nat n) [];
  lru_put K V _ _ c k v := ref_put c k v;
  lru_get K V _ _ c k := ref_get c k;
  lru_clear K V _ _ c := mkRefLru (rl_capacity c) [];
  lru_contents K V _ _ c := ref_contents c |}.

Lemma without_key_map {K V} `{Countable K} (k : K) (l : list (K * V)) :
  (list_to_map (without_key k l) : gmap K V) = delete k (list_to_map l).
Proof.
  unfold without_key. induction l as [|[k' v'] l IH]; [symmetry; apply delete_empty|].
  destruct (decide (k' = k)) as [->|Hk].
  - rewrite filter_cons_False by (cbn; auto). rewrite IH. cbn. by rewrite delete_insert_eq.
  - rewrite filter_cons_True by done. cbn. rewrite IH. by rewrite delete_insert_ne by congruence.
Qed.

#[export] Instance ref_lru_laws : LruCacheLaws RefLru.
Proof.
  split; intros K V ??; try done.
  - intros c k v. cbn. unfold ref_put, ref_contents. cbn [rl_entries].
    assert (Hm : (list_to_map ((k, v) :: without_key k (rl_entries c)) : gmap K V) = <[k := v]> (list_to_map (rl_entries c)))
      by (cbn; by rewrite without_key_map, insert_delete_eq).
    rewrite <-Hm. rewrite <-(take_drop (rl_capacity c) ((k, v) :: _)) at 2. rewrite list_to_map_app.
    apply map_union_subseteq_l.
  - intros c k. cbn. unfold ref_get. by destruct (ref_contents c !! k).
  - intros c k. cbn. unfold ref_get. destruct (ref_contents c !! k) as [v|] eqn:Ek; [|done]. cbn.
    unfold ref_contents at 1. cbn. rewrite without_key_map, insert_delete_eq. by apply insert_id.
Qed.

(** ** A database in memory *)
Record RefDb := mkRefDb { rd_committed : Tables; rd_pending : Tables }.

Definition index_le (x y : TxRow) : Prop := tr_transaction_index x <= tr_transaction_index y.
#[export] Instance index_le_dec : RelDecision index_le.
Proof. intros x y. apply Z.le_dec. Defined.

Definition ref_select {R} (q : Query R) (t : Tables) : list R :=
  match q in Query R return list R with
  | SelectLatest => option_list (t_latest t)
  | SelectBlock n => filter (fun r => br_number r = n) (t_blocks t)
  | SelectNumber h => br_number <$> filter (fun r => br_hash r = h) (t_blocks t)
  | SelectHashes n => tr_hash <$> merge_sort index_le (filter (fun r => tr_block_number r = n) (t_transactions t))
  | SelectTransaction h => select_transactions h t
  | SelectLocation h =>
      (fun r => (tr_block_number r, tr_transaction_index r)) <$> filter (fun r => tr_hash r = h) (t_transactions t)
  | SelectReceipt h => select_receipts h t
  | SelectLogsByBlock n => log_columns <$> filter (fun r => lr_block_number r = n) (t_logs t)
  | SelectLogsByTx h => log_columns <$> filter (fun r => lr_transaction_hash r = h) (t_logs t)
  end.

#[export] Instance ref_sqlite : Sqlite RefDb := {|
  committed := rd_committed;
  pending := rd_pending;
  execute_batch b db :=
    match b with
    | CreateSchema => (Ok tt, db)
    | AddRevertReason => (Err (SqliteFailure (Some "duplicate column name: revert_reason"%string)), db)
    end;
  begin_transaction db := (Ok tt, mkRefDb (rd_committed db) (rd_committed db));
  execute s db :=
    match run_statement s (rd_pending db) with
    | Some t => (Ok tt, mkRefDb (rd_committed db) t)
    | None => (Err (SqliteFailure (Some "FOREIGN KEY constraint failed"%string)), db)
    end;
  commit db := (Ok tt, mkRefDb (rd_pending db) (rd_pending db));
  rollback db := mkRefDb (rd_committed db) (rd_committed db);
  pool_get db := (Ok tt, db);
  query R q db := (Ok (ref_select q (rd_committed db)), db) |}.

Lemma sorted_indices (l : list TxRow) : StronglySorted index_le l -> StronglySorted Z.le (tr_transaction_index <$> l).
Proof. induction 1; constructor; [done|]. by apply Forall_fmap. Qed.

#[export] Instance ref_sqlite_laws : SqliteLaws RefDb.
Proof.
  split; try done.
  - intros [] db; done.
  - intros db db' [= <-]. done.
  - intros s db. cbn. by destruct (run_statement s _).
  - intros s db db'. cbn. destruct (run_statement s _); [by intros [= <-] | done].
  - intros db db' [= <-]. done.
  - intros R q db rows. cbn. intros Hr. apply (inj Ok) in Hr as <-. destruct q as [|n0|h0|n|h0|h0|h0|n0|h0]; cbn; try reflexivity.
    exists (merge_sort index_le (filter (fun r => tr_block_number r = n) (t_transactions (rd_committed db)))).
    split_and!; [done|apply merge_sort_Permutation|]. apply sorted_indices, StronglySorted_merge_sort.
    + intros x y z. apply Z.le_trans.
    + intros x y. unfold index_le. lia.
Qed.

(** ** Topics, one after the other *)
Fixpoint split_topics (n : nat) (b : bytes) : option (list B256) :=
  match n with
  | O => Some []
  | S n =>
      match PersistentChainIndex.b256_from_row (take 32 b) 1 with
      | Ok t => cons t <$> split_topics n (drop 32 b)
      | Err _ => None
      end
  end.

Lemma join_topics (t : B256) (l : list B256) :
  mjoin (vec_to_list <$> t :: l) = vec_to_list t ++ mjoin (vec_to_list <$> l).
Proof. done. Qed.

Lemma split_joined (l : list B256) : split_topics (length l) (mjoin (vec_to_list <$> l)) = Some l.
Proof.
  induction l as [|t l IH]; [done|]. rewrite join_topics. cbn [length split_topics].
  assert (Ht : length (vec_to_list t) = 32%nat) by apply length_vec_to_list.
  rewrite take_app_length', drop_app_length' by done. rewrite b256_row. by rewrite IH.
Qed.

Lemma length_joined (l : list B256) : length (mjoin (vec_to_list <$> l)) = (length l * 32)%nat.
Proof.
  induction l as [|t l IH]; [done|]. rewrite join_topics, length_app, length_vec_to_list, IH. cbn [length]. lia.
Qed.

#[export, refine] Instance ref_topics : TopicsJson := {|
  topics_to_vec l := Some (mjoin (vec_to_list <$> l));
  topics_from_slice b := split_topics (length b / 32) b |}.
Proof. intros l b [= <-]. rewrite length_joined, Nat.div_mul by done. apply split_joined. Defined.

Lemma ref_reliable : reliable RefDb.
Proof.
  split; try done. intros s db [t Ht]. cbn in *. by rewrite Ht.
Qed.

(** ** Small entries *)
Abbreviation RefIndex := (PersistentChainIndex RefDb RefLru).

Definition ref_empty : RefDb := mkRefDb (mkTables [] [] [] [] None) (mkTables [] [] [] [] None).

Definition ex_hash (b : byte) : B256 := vreplicate 32 b.

Definition ex_block (number : Z) (hash : byte) (count : Z) : StoredBlock :=
  mkStoredBlock number (ex_hash hash) (ex_hash x00) (ex_hash xaa) (ex_hash xbb) (ex_hash xcc) (1000 + number) 21000
    30000000 count (vreplicate 20 xdd) [].

Definition ex_tx (number : Z) (block_hash : byte) (index : Z) (hash : byte) : StoredTransaction :=
  mkStoredTransaction (ex_hash hash) number (ex_hash block_hash) index (vreplicate 20 x01) (Some (vreplicate 20 x02)) 100
    21000 7 [x2a] 0 27 1 2 0 (Some 1) None None.

Definition ex_log : StoredLog := mkStoredLog (vreplicate 20 x02) [ex_hash xee] [x01; x02].

Definition ex_receipt (number : Z) (block_hash : byte) (index : Z) (hash : byte) (status : Z) (logs : list StoredLog)
    : StoredReceipt :=
  mkStoredReceipt (ex_hash hash) index (ex_hash block_hash) number (vreplicate 20 x01) (Some (vreplicate 20 x02)) 21000
    21000 7 None logs status 0 None.

(** A block with two transactions and one with none. *)
Definition ex_entry1 : Entry :=
  mkEntry (ex_block 1 x11 2) [ex_tx 1 x11 0 x71; ex_tx 1 x11 1 x72]
    [ex_receipt 1 x11 0 x71 1 [ex_log]; ex_receipt 1 x11 1 x72 0 []].
Definition ex_entry2 : Entry := mkEntry (ex_block 2 x12 0) [] [].

(** The index over a database. *)
Definition ref_open (db : RefDb) : option RefIndex :=
  match PersistentChainIndex.new db with Some (Ok i) => Some i | _ => None end.

(** ** Theorems about the chain index

    The persistent index implements an archive for every sequence of requests;
    what happens when a transaction or a block is stored twice. *)

(** ** Requests and answers *)
Inductive Request :=
| AskLatest
| AskBlock (number : Z)
| AskBlockByHash (hash : B256)
| AskNumber (hash : B256)
| AskTransactions (number : Z)
| AskTransaction (hash : B256)
| AskLocation (hash : B256)
| AskReceipt (hash : B256)
| AskLogs (number : Z)
| Store (e : Entry).

Inductive Answer :=
| Latest (o : option Z)
| Block (o : option StoredBlock)
| Number (o : option Z)
| Hashes (l : list B256)
| Transaction (o : option StoredTransaction)
| Location (o : option TxLocation)
| Receipt (o : option StoredReceipt)
| Logs (l : list StoredLog)
| Stored.

(** What an index answers; [None]: an error. *)
Definition ask {I E} `{ChainIndex I E} (i : I) (r : Request) : option Answer * I :=
  let with_answer {A} (f : A -> Answer) (x : Result E A * I) : option Answer * I :=
    (match x.1 with Ok v => Some (f v) | Err _ => None end, x.2) in
  match r with
  | AskLatest => with_answer Latest (latest_block_number i)
  | AskBlock n => with_answer Block (get_block i n)
  | AskBlockByHash h => with_answer Block (get_block_by_hash i h)
  | AskNumber h => with_answer Number (get_block_number i h)
  | AskTransactions n => with_answer Hashes (get_block_transactions i n)
  | AskTransaction h => with_answer Transaction (get_transaction i h)
  | AskLocation h => with_answer Location (get_transaction_location i h)
  | AskReceipt h => with_answer Receipt (get_receipt i h)
  | AskLogs n => with_answer Logs (get_logs_by_block i n)
  | Store e => with_answer (fun _ => Stored) (store_block i (e_block e) (e_txs e) (e_receipts e))
  end.

(** What an archive answers, and the archive after an answer. *)
Definition archive_answer (a : Archive) (r : Request) : Answer :=
  match r with
  | AskLatest => Latest (a_latest a)
  | AskBlock n => Block (a_block a n)
  | AskBlockByHash h => Block (a_block_by_hash a h)
  | AskNumber h => Number (a_number a h)
  | AskTransactions n => Hashes (a_hashes a n)
  | AskTransaction h => Transaction (a_transaction a h)
  | AskLocation h => Location (a_location a h)
  | AskReceipt h => Receipt (a_receipt a h)
  | AskLogs n => Logs (a_logs a n)
  | Store _ => Stored
  end.

Definition archive_next (a : Archive) (r : Request) (answer : option Answer) : Archive :=
  match r, answer with Store e, Some _ => a ++ [e] | _, _ => a end.

(** Numbers are [u64]; stored entries are well formed and fresh. *)
Definition admissible (a : Archive) (r : Request) : Prop :=
  match r with
  | AskBlock n | AskTransactions n | AskLogs n => is_u64 n
  | Store e => entry_wf e /\ fresh a e
  | _ => True
  end.

(** The answers to a sequence of requests are those of the archive; errors
    only come from something that is not reliable. *)
Fixpoint agrees {I E} `{ChainIndex I E} (reliable : Prop) (i : I) (a : Archive) (rs : list Request) : Prop :=
  match rs with
  | [] => True
  | r :: rs => admissible a r ->
      let '(answer, i) := ask i r in
      (match answer with Some x => x = archive_answer a r | None => ~ reliable end) /\
      agrees reliable i (archive_next a r answer) rs
  end.

Section Agreement.
Context {I E : Type} `{ChainIndex I E} (rel : Prop) (R : I -> Archive -> Prop) `{!ArchiveIndex I E rel R}.

Lemma read_agrees {A} (m : I -> Result E A * I) (f : A -> Answer) a v i : serves rel R a m v -> R i a ->
  match (match (m i).1 with Ok x => Some (f x) | Err _ => None end) with Some x => x = f v | None => ~ rel end /\
  R (m i).2 a.
Proof. intros Hs Hi. destruct (Hs i Hi) as [Hi' Ha]. split; [|done]. destruct (m i).1; cbn in *; [by subst | done]. Qed.

Lemma ask_agrees i a r : R i a -> admissible a r ->
  match (ask i r).1 with Some x => x = archive_answer a r | None => ~ rel end /\
  R (ask i r).2 (archive_next a r (ask i r).1).
Proof.
  intros Hi Had. destruct r; cbn [ask archive_answer archive_next fst snd admissible] in *.
  - apply (read_agrees latest_block_number); [apply ai_latest | done].
  - apply (read_agrees (fun i => get_block i number)); [by apply ai_block | done].
  - apply (read_agrees (fun i => get_block_by_hash i hash)); [apply ai_block_by_hash | done].
  - apply (read_agrees (fun i => get_block_number i hash)); [apply ai_number | done].
  - apply (read_agrees (fun i => get_block_transactions i number)); [by apply ai_hashes | done].
  - apply (read_agrees (fun i => get_transaction i hash)); [apply ai_transaction | done].
  - apply (read_agrees (fun i => get_transaction_location i hash)); [apply ai_location | done].
  - apply (read_agrees (fun i => get_receipt i hash)); [apply ai_receipt | done].
  - apply (read_agrees (fun i => get_logs_by_block i number)); [by apply ai_logs | done].
  - destruct Had as [He Hf]. pose proof (ai_store i a e Hi He Hf) as Hs.
    destruct (store_block i _ _ _) as [[u|err] i']; cbn in *; tauto.
Qed.

Lemma requests_agree rs : forall i a, R i a -> agrees rel i a rs.
Proof.
  induction rs as [|r rs IH]; intros i a Hi; cbn [agrees]; [done|]. intros Had.
  destruct (ask_agrees i a r Hi Had) as [Ha Hi']. destruct (ask i r) as [ans i']. split; [done|]. by apply IH.
Qed.

End Agreement.

(** ** Opening an index *)
Section Opening.
Context {Db : Type} {L : Type -> Type -> Type} `{SqliteLaws Db} `{LruCacheLaws L} `{TopicsJson}.

Lemma schema_keeps db r db' : PersistentChainIndex.init_schema db = (r, db') -> committed db' = committed db.
Proof.
  unfold PersistentChainIndex.init_schema, try_bind, mbind, Op_bind, PersistentChainIndex.sql.
  pose proof (batch_committed CreateSchema db) as H1'. destruct (execute_batch CreateSchema db) as [[u|e] db1]; cbn in *;
    [|by intros [= _ <-]].
  pose proof (batch_committed AddRevertReason db1) as H2'.
  destruct (execute_batch AddRevertReason db1) as [[u'|[| |[msg|]]] db2]; cbn in *; try (intros [= _ <-]; congruence).
  destruct (PersistentChainIndex.contains _ _); intros [= _ <-]; congruence.
Qed.

(** An opened and initialised index represents what the tables hold. *)
Lemma opened db a (i i' : PersistentChainIndex Db L) : committed db = tables_of a -> archive_wf a -> logs_encodable a ->
  PersistentChainIndex.new db = Some (Ok i) -> PersistentChainIndex.initialize i = (Ok tt, i') -> represents i' a.
Proof.
  intros Hdb Ha Hl Hnew Hinit. unfold PersistentChainIndex.new, ChainCache.with_defaults, ChainCache.new in Hnew.
  cbn [mbind option_bind] in Hnew. rewrite bool_decide_true in Hnew by done. cbn [mbind option_bind] in Hnew.
  apply (inj Some) in Hnew. destruct (PersistentChainIndex.init_schema db) as [[u|] db1] eqn:Es; [|done].
  apply schema_keeps in Es. apply (inj Ok) in Hnew as <-. rewrite Hdb in Es.
  unfold PersistentChainIndex.initialize in Hinit. apply try_ok in Hinit as (o & i1 & Hload & Hset).
  unfold PersistentChainIndex.load_latest_block_number in Hload. apply try_ok in Hload as (u1 & i2 & Hr & Hq).
  unfold PersistentChainIndex.on_db, PersistentChainIndex.read_conn, PersistentChainIndex.sql in Hr. cbn [pi_db pi_cache] in Hr.
  pose proof (pool_committed db1) as Hp. destruct (pool_get db1) as [[u2|] db2]; [|done]. cbn in Hr, Hp. injection Hr as <- <-.
  unfold mbind, Op_bind, PersistentChainIndex.on_db, PersistentChainIndex.query_row in Hq. cbn [pi_db pi_cache] in Hq.
  pose proof (query_committed _ SelectLatest db2) as Hc. pose proof (query_rows _ SelectLatest db2) as Hrows.
  pose proof (query_error _ SelectLatest db2) as Herr.
  destruct (query SelectLatest db2) as [[rows|e] db3]; cbn in Hc, Hrows, Herr; [|by destruct e].
  specialize (Hrows rows eq_refl). rewrite Hp, Es in Hrows. cbn [answers tables_of t_latest] in Hrows. subst rows.
  assert (Hlatest : o = a_latest a /\ i1 = mkPersistentChainIndex db3 (mkChainCache (lru_new 128) (lru_new 128) (lru_new 4096) (lru_new 4096) None)).
  { destruct (a_latest a) as [n|] eqn:En; cbn in Hq; injection Hq as <- <-; (split; [|done]); [|done].
    by rewrite wrap_i64 by by eapply a_latest_u64. }
  destruct Hlatest as [-> ->]. assert (Ht : committed db3 = tables_of a) by congruence.
  destruct (a_latest a) as [n|] eqn:En; injection Hset as <-; split; try done; split; cbn;
    try (intros ??; by rewrite contents_new, lookup_empty); done.
Qed.

End Opening.

(** C12: an index answers as the archive of its blocks. An index opened on a
    database that holds an archive and initialised answers every sequence of
    reads, mixed with stores, as the archive does: blocks by number and hash,
    transactions, receipts with their logs, locations and the latest number,
    whether from the cache or from the tables; a stored block extends the
    archive, a failed store leaves it, and on a reliable database no request
    fails. The stores are admissible ones: the block and its transactions and
    receipts are well-formed, its number is above those stored before, and the
    hashes of the block and of its transactions are new. *)
Theorem index_implements_archive {Db L} `{SqliteLaws Db} `{LruCacheLaws L} `{TopicsJson} db a
    (i i' : PersistentChainIndex Db L) rs :
  committed db = tables_of a -> archive_wf a -> logs_encodable a ->
  PersistentChainIndex.new db = Some (Ok i) -> PersistentChainIndex.initialize i = (Ok tt, i') ->
  agrees (reliable Db) i' a rs.
Proof. intros Hdb Ha Hl Hn Hi. apply (requests_agree (reliable Db) represents). exact (opened db a i i' Hdb Ha Hl Hn Hi). Qed.

Lemma ex_entry1_wf : entry_wf ex_entry1.
Proof.
  split.
  - by split; vm_compute; split.
  - intros [|[|i]] tx Hi; [apply (inj Some) in Hi as <-..|by destruct i]; by split; vm_compute; split || done.
  - intros [|[|i]] r Hi; [apply (inj Some) in Hi as <-..|by destruct i]; (eexists; split; [done|]); by split; vm_compute; split || done.
  - by_decision.
Qed.

Lemma ex_archive_wf : archive_wf [ex_entry1].
Proof.
  apply (wf_snoc []); [constructor|apply ex_entry1_wf|]. split; [constructor|by intros ?%not_elem_of_nil|].
  by intros tx _ ?%not_elem_of_nil.
Qed.

Lemma ex_entry2_ok : entry_wf ex_entry2 /\ fresh [ex_entry1] ex_entry2.
Proof.
  split.
  - split; [by split; vm_compute; split|done|done|by_decision].
  - split; [by_decision|by_decision|]. by intros tx ?%not_elem_of_nil.
Qed.

Lemma index_implements_archive_witness :
  exists i i' : RefIndex, let db := mkRefDb (tables_of [ex_entry1]) (tables_of [ex_entry1]) in
  committed db = tables_of [ex_entry1] /\ archive_wf [ex_entry1] /\ logs_encodable [ex_entry1] /\
  PersistentChainIndex.new db = Some (Ok i) /\ PersistentChainIndex.initialize i = (Ok tt, i') /\
  agrees (reliable RefDb) i' [ex_entry1]
    [AskLatest; AskReceipt (ex_hash x71); Store ex_entry2; AskBlock 2; AskTransactions 1].
Proof.
  eexists _, _. cbn zeta. split_and!; [reflexivity|apply ex_archive_wf|by intros r log _ _; eexists|reflexivity|reflexivity|].
  eapply (index_implements_archive (mkRefDb (tables_of [ex_entry1]) (tables_of [ex_entry1])));
    [reflexivity|apply ex_archive_wf|by intros r log _ _; eexists|reflexivity|reflexivity].
Defined.

(** ** Stored twice *)

(** The answers of an index on the empty database to a sequence of requests,
    and those of an index opened on it afterwards. *)
Fixpoint asked (i : RefIndex) (rs : list Request) : list (option Answer) * RefIndex :=
  match rs with
  | [] => ([], i)
  | r :: rs => let '(x, i) := ask i r in let '(xs, i) := asked i rs in (x :: xs, i)
  end.

Definition reopened (i : RefIndex) : option RefIndex :=
  i ← ref_open (pi_db i);
  match PersistentChainIndex.initialize i with (Ok _, i) => Some i | _ => None end.

Definition scenario (rs rs' : list Request) : option (list (option Answer) * list (option Answer)) :=
  i ← ref_open ref_empty;
  let '(xs, i) := asked i rs in
  i ← reopened i;
  Some (xs, (asked i rs').1).

(** The same transaction in a later block, where it failed. *)
Definition ex_again : Entry :=
  mkEntry (ex_block 2 x12 1) [ex_tx 2 x12 0 x71] [ex_receipt 2 x12 0 x71 0 []].

(** A transaction that is included a second time, as a resubmitted one is,
    takes the place of the first in the index: it disappears from its block, its
    receipt is the failed one of the second inclusion, and after a restart this
    receipt shows the logs of the first. *)
Theorem included_twice_overwrites :
  scenario [Store ex_entry1; Store ex_again]
    [AskTransactions 1; AskReceipt (ex_hash x71); AskLogs 1] =
  Some ([Some Stored; Some Stored],
        [Some (Hashes [ex_hash x72]); Some (Receipt (Some (ex_receipt 2 x12 0 x71 0 [ex_log]))); Some (Logs [ex_log])]).
Proof. vm_compute. reflexivity. Qed.

(** Another block with the same number and without the transactions. *)
Definition ex_reindexed : Entry := mkEntry (ex_block 1 x22 0) [] [].

(** Re-indexing a block leaves the old one in the cache: its hash still leads
    to a block, with another hash, and its transactions are still found; the
    tables have forgotten them. *)
Example reindexed_block_stale :
  scenario [Store ex_entry1; Store ex_reindexed; AskBlockByHash (ex_hash x11); AskTransaction (ex_hash x71)]
    [AskBlockByHash (ex_hash x11); AskTransaction (ex_hash x71)] =
  Some ([Some Stored; Some Stored; Some (Block (Some (ex_block 1 x22 0))); Some (Transaction (Some (ex_tx 1 x11 0 x71)))],
        [Some (Block None); Some (Transaction None)]).
Proof. vm_compute. reflexivity. Qed.

(** An index that is not initialised takes the block it reads first for the
    latest. *)
Example latest_after_read :
  (i ← ref_open ref_empty;
   let '(_, i) := asked i [Store ex_entry1; Store ex_entry2] in
   i ← ref_open (pi_db i);
   Some (asked i [AskBlock 1; AskLatest]).1) =
  Some [Some (Block (Some (ex_block 1 x11 2))); Some (Latest (Some 1))].
Proof. vm_compute. reflexivity. Qed.
