(* ===== verification/Rpc.v ===== *)
(** * Types of the JSON-RPC interface

    Models [crates/rpc/types/src] with the conversions of
    [crates/rpc/chain-index/src/types.rs] into them, the errors of
    [crates/rpc/eth-jsonrpc/src/error.rs] and the conversion of the errors of the
    index ([provider.rs]). [U64] and [U256] are integers; formatted messages are
    their pieces. *)

From S2P Require Import Prelude Core ExecState Runtime Invoker Stf StorageBackend Mempool Server EthTx EthContext EthGateway.
From S2P Require Import Indexing IndexStore.

Open Scope evolve_scope.

(** ** [log.rs], [transaction.rs], [receipt.rs], [block.rs] *)
Record RpcLog := mkRpcLog {
  rl_address : Address; rl_topics : list B256; rl_data : bytes; rl_block_number : option Z;
  rl_transaction_hash : option B256; rl_transaction_index : option Z; rl_block_hash : option B256;
  rl_log_index : option Z; rl_removed : bool }.

Definition RpcLog_new (address : Address) (topics : list B256) (data : bytes) (block_number : Z) (block_hash tx_hash : B256)
    (tx_index log_index : Z) : RpcLog :=
  mkRpcLog address topics data (Some block_number) (Some tx_hash) (Some tx_index) (Some block_hash) (Some log_index) false.

Definition RpcLog_pending (address : Address) (topics : list B256) (data : bytes) : RpcLog :=
  mkRpcLog address topics data None None None None None false.

Definition event_to_log `{RuntimeDeps} (event : Event) (block_number : Z) (block_hash tx_hash : B256) (tx_index log_index : Z)
    : option RpcLog :=
  let address := account_id_to_address (event_source event) in
  let topic0 := keccak256 (string_bytes (event_name event)) in
  data ← ok (Message.as_bytes (event_contents event));
  Some (RpcLog_new address [topic0] data block_number block_hash tx_hash tx_index log_index).

Record RpcTransaction := mkRpcTransaction {
  rt_hash : B256; rt_nonce : Z; rt_block_hash : option B256; rt_block_number : option Z;
  rt_transaction_index : option Z; rt_from : Address; rt_to : option Address; rt_value : Z; rt_gas : Z;
  rt_gas_price : option Z; rt_max_fee_per_gas : option Z; rt_max_priority_fee_per_gas : option Z; rt_input : bytes;
  rt_v : Z; rt_r : Z; rt_s : Z; rt_tx_type : Z; rt_chain_id : option Z;
  rt_access_list : option (list (Address * list B256)) }.

Record RpcReceipt := mkRpcReceipt {
  rc_transaction_hash : B256; rc_transaction_index : Z; rc_block_hash : B256; rc_block_number : Z; rc_from : Address;
  rc_to : option Address; rc_cumulative_gas_used : Z; rc_gas_used : Z; rc_effective_gas_price : Z;
  rc_contract_address : option Address; rc_logs : list RpcLog; rc_logs_bloom : bytes; rc_tx_type : Z; rc_status : Z;
  rc_revert_reason : option string }.

Inductive BlockTransactions := TxHashes (l : list B256) | TxFull (l : list RpcTransaction).

Record RpcBlock := mkRpcBlock {
  rb_number : Z; rb_hash : B256; rb_parent_hash : B256; rb_nonce : vec byte 8; rb_sha3_uncles : B256;
  rb_logs_bloom : bytes; rb_transactions_root : B256; rb_state_root : B256; rb_receipts_root : B256;
  rb_miner : Address; rb_difficulty : Z; rb_total_difficulty : Z; rb_extra_data : bytes; rb_size : Z;
  rb_gas_limit : Z; rb_gas_used : Z; rb_timestamp : Z; rb_transactions : option BlockTransactions;
  rb_uncles : list B256; rb_base_fee_per_gas : option Z; rb_withdrawals_root : option B256;
  rb_withdrawals : option (list (Z * Z * Address * Z)) }.

Definition empty_uncles_hash : B256 :=
  list_to_vec [x1d; xcc; x4d; xe8; xde; xc7; x5d; x7a; xab; x85; xb5; x67; xb6; xcc; xd4; x1a; xd3; x12; x45; x1b; x94; x8a;
               x74; x13; xf0; xa1; x42; xfd; x40; xd4; x93; x47].

(** ** [types.rs]: conversions *)
Definition to_rpc_block (self : StoredBlock) (transactions : option BlockTransactions) : RpcBlock :=
  {| rb_number := sb_number self;
     rb_hash := sb_hash self;
     rb_parent_hash := sb_parent_hash self;
     rb_nonce := vreplicate 8 x00;
     rb_sha3_uncles := empty_uncles_hash;
     rb_logs_bloom := [];
     rb_transactions_root := sb_transactions_root self;
     rb_state_root := sb_state_root self;
     rb_receipts_root := sb_receipts_root self;
     rb_miner := sb_miner self;
     rb_difficulty := 0;
     rb_total_difficulty := 0;
     rb_extra_data := sb_extra_data self;
     rb_size := 0;
     rb_gas_limit := sb_gas_limit self;
     rb_gas_used := sb_gas_used self;
     rb_timestamp := sb_timestamp self;
     rb_transactions := transactions;
     rb_uncles := [];
     rb_base_fee_per_gas := Some 0;
     rb_withdrawals_root := None;
     rb_withdrawals := None |}.

Definition to_rpc_transaction (self : StoredTransaction) : RpcTransaction :=
  {| rt_hash := st_hash self;
     rt_nonce := st_nonce self;
     rt_block_hash := Some (st_block_hash self);
     rt_block_number := Some (st_block_number self);
     rt_transaction_index := Some (st_transaction_index self);
     rt_from := st_from self;
     rt_to := st_to self;
     rt_value := st_value self;
     rt_gas := st_gas self;
     rt_gas_price := Some (st_gas_price self);
     rt_max_fee_per_gas := st_max_fee_per_gas self;
     rt_max_priority_fee_per_gas := st_max_priority_fee_per_gas self;
     rt_input := st_input self;
     rt_v := st_v self;
     rt_r := st_r self;
     rt_s := st_s self;
     rt_tx_type := st_tx_type self;
     rt_chain_id := st_chain_id self;
     rt_access_list := None |}.

Definition to_rpc_log (self : StoredLog) (block_number : Z) (block_hash tx_hash : B256) (tx_index log_index : Z) : RpcLog :=
  {| rl_address := lg_address self;
     rl_topics := lg_topics self;
     rl_data := lg_data self;
     rl_block_number := Some block_number;
     rl_transaction_hash := Some tx_hash;
     rl_transaction_index := Some tx_index;
     rl_block_hash := Some block_hash;
     rl_log_index := Some log_index;
     rl_removed := false |}.

Definition to_rpc_receipt (self : StoredReceipt) : RpcReceipt :=
  let logs := imap (fun i log => to_rpc_log log (sr_block_number self) (sr_block_hash self) (sr_transaction_hash self)
                                   (sr_transaction_index self) (Z.of_nat i)) (sr_logs self) in
  {| rc_transaction_hash := sr_transaction_hash self;
     rc_transaction_index := sr_transaction_index self;
     rc_block_hash := sr_block_hash self;
     rc_block_number := sr_block_number self;
     rc_from := sr_from self;
     rc_to := sr_to self;
     rc_cumulative_gas_used := sr_cumulative_gas_used self;
     rc_gas_used := sr_gas_used self;
     rc_effective_gas_price := sr_effective_gas_price self;
     rc_contract_address := sr_contract_address self;
     rc_logs := logs;
     rc_logs_bloom := [];
     rc_tx_type := sr_tx_type self;
     rc_status := sr_status self;
     rc_revert_reason := sr_revert_reason self |}.

(** ** [lib.rs] *)
Inductive SyncStatus := NotSyncing (b : bool) | Syncing (starting_block current_block highest_block : Z).
Inductive BlockTag := TagLatest | TagEarliest | TagPending | TagSafe | TagFinalized.
Inductive BlockNumberOrTag := BlockNumber (n : Z) | Tag (tag : BlockTag).
Definition BlockNumberOrTag_default : BlockNumberOrTag := Tag TagLatest.

Inductive FilterAddress := SingleAddress (a : Address) | MultipleAddresses (l : list Address).
Inductive FilterTopic := SingleTopic (t : B256) | MultipleTopics (l : list B256).

Record LogFilter := mkLogFilter {
  lf_from_block : option BlockNumberOrTag; lf_to_block : option BlockNumberOrTag; lf_address : option FilterAddress;
  lf_topics : option (list (option FilterTopic)); lf_block_hash : option B256 }.

Record CallRequest := mkCallRequest {
  cr_from : option Address; cr_to : Address; cr_gas : option Z; cr_gas_price : option Z; cr_max_fee_per_gas : option Z;
  cr_max_priority_fee_per_gas : option Z; cr_value : option Z; cr_data : option bytes; cr_input : option bytes }.

Definition input_data (self : CallRequest) : option bytes :=
  match cr_input self with Some b => Some b | None => cr_data self end.

Record FeeHistory := mkFeeHistory {
  fh_oldest_block : Z; fh_base_fee_per_gas : list Z; fh_gas_used_ratio : list Z; fh_reward : option (list (list Z)) }.

(** ** [error.rs] of [eth-jsonrpc] *)
Inductive Piece := Str (s : string) | Num (n : Z) | Code (e : ErrorCode) | OfGateway (e : GatewayError)
  | OfMempool (e : MempoolError) | OfIndex (e : ChainIndexError).

Inductive RpcError :=
| ParseError (msg : list Piece)
| InvalidParams (msg : list Piece)
| InternalError (msg : list Piece)
| RpcBlockNotFound
| RpcTransactionNotFound
| RpcReceiptNotFound
| AccountNotFound
| ExecutionReverted (msg : list Piece)
| GasEstimationFailed (msg : list Piece)
| NotImplemented (method : string)
| InvalidBlockNumberOrTag
| InvalidAddress (msg : list Piece)
| InvalidTransaction (msg : list Piece).

Module codes.
Definition PARSE_ERROR : Z := -32700.
Definition INVALID_PARAMS : Z := -32602.
Definition INTERNAL_ERROR : Z := -32603.
Definition EXECUTION_REVERTED : Z := -32000.
Definition RESOURCE_NOT_FOUND : Z := -32001.
Definition TRANSACTION_REJECTED : Z := -32003.
Definition METHOD_NOT_SUPPORTED : Z := -32004.
End codes.

Record ErrorObjectOwned := mkErrorObject { eo_code : Z; eo_message : list Piece }.

Definition error_object (err : RpcError) : ErrorObjectOwned :=
  match err with
  | ParseError msg => mkErrorObject codes.PARSE_ERROR msg
  | InvalidParams msg => mkErrorObject codes.INVALID_PARAMS msg
  | InternalError msg => mkErrorObject codes.INTERNAL_ERROR msg
  | RpcBlockNotFound => mkErrorObject codes.RESOURCE_NOT_FOUND [Str "Block not found"]
  | RpcTransactionNotFound => mkErrorObject codes.RESOURCE_NOT_FOUND [Str "Transaction not found"]
  | RpcReceiptNotFound => mkErrorObject codes.RESOURCE_NOT_FOUND [Str "Receipt not found"]
  | AccountNotFound => mkErrorObject codes.RESOURCE_NOT_FOUND [Str "Account not found"]
  | ExecutionReverted msg => mkErrorObject codes.EXECUTION_REVERTED msg
  | GasEstimationFailed msg => mkErrorObject codes.EXECUTION_REVERTED msg
  | NotImplemented method => mkErrorObject codes.METHOD_NOT_SUPPORTED [Str "Method not implemented: "; Str method]
  | InvalidBlockNumberOrTag => mkErrorObject codes.INVALID_PARAMS [Str "Invalid block number or tag"]
  | InvalidAddress msg => mkErrorObject codes.INVALID_PARAMS msg
  | InvalidTransaction msg => mkErrorObject codes.TRANSACTION_REJECTED msg
  end.

(** [From<ChainIndexError> for RpcError] of [provider.rs]. *)
Definition rpc_of_index (err : ChainIndexError) : RpcError :=
  match err with
  | BlockNotFound _ => RpcBlockNotFound
  | BlockHashNotFound _ => RpcBlockNotFound
  | TransactionNotFound _ => RpcTransactionNotFound
  | ReceiptNotFound _ => RpcReceiptNotFound
  | EmptyIndex => RpcBlockNotFound
  | _ => InternalError [OfIndex err]
  end.
