(* ===== verification/Querier.v ===== *)
(** * The state querier

    Models [crates/rpc/chain-index/src/querier.rs]: direct reads of balances,
    nonces, code and storage words from the key layout, and dry runs of the state
    transition function for [eth_call] and [eth_estimateGas]. The JSON of a call
    request, which only names the dry run, is a parameter. [None] stands for a
    panic of executed code. *)

From S2P Require Import Prelude Core Gas Collections ExecState Runtime Invoker Token Stf Mempool StorageBackend Server.
From S2P Require Import EthTx EthContext EthGateway Indexing IndexStore Rpc.

Open Scope evolve_scope.

Definition DEFAULT_RPC_GAS_LIMIT : Z := 30000000.

(** [serde_json::to_vec(&(request, block_height))]. *)
Class CallJson := { call_to_vec : CallRequest -> Z -> option bytes }.

(** [RpcExecutionContext]. *)
Class RpcExecutionContext (X : Type) := {
  simulate_call_tx : X -> (bytes -> SdkResult (option bytes)) -> AccountsCodeStorage -> TxContext -> BlockContext ->
    option TxResult;
  execute_query : X -> (bytes -> SdkResult (option bytes)) -> AccountsCodeStorage -> AccountId -> InvokeRequest ->
    QueryContext -> option TxResult
}.

(** The implementation by a state transition function, with the fuel of its runs. *)
Record RpcStf (B : Type) := mkRpcStf { rx_stf : Stf TxContext B; rx_fuel : nat }.
Arguments mkRpcStf {B} _ _.
Arguments rx_stf {B} _.
Arguments rx_fuel {B} _.

Definition result_of {A} (o : Outcome A) : option A := match o with Done a _ => Some a | _ => None end.

#[global] Instance stf_execution_context {B} `{RuntimeDeps} `{EthCodec} `{Secp256k1} `{AlloyTx TxLegacy} `{AlloyTx TxEip1559}
    `{Stf.Block B TxContext} : RpcExecutionContext (RpcStf B) := {|
  simulate_call_tx self storage codes tx block :=
    result_of (Stf.simulate_transaction (rx_stf self) codes (rx_fuel self) storage tx block);
  execute_query self storage codes to request context :=
    result_of (Stf.query_invoke_request (rx_stf self) codes (rx_fuel self) storage to request context) |}.

Record StorageStateQuerier (X : Type) := mkStorageStateQuerier {
  sq_storage : bytes -> SdkResult (option bytes); sq_token_account_id : AccountId; sq_account_codes : AccountsCodeStorage;
  sq_executor : X; sq_default_gas_limit : Z }.
Arguments mkStorageStateQuerier {X} _ _ _ _ _.
Arguments sq_storage {X} _.
Arguments sq_token_account_id {X} _.
Arguments sq_account_codes {X} _.
Arguments sq_executor {X} _.
Arguments sq_default_gas_limit {X} _.

Record ResolvedCallContext := mkResolvedCallContext {
  rcc_input : bytes; rcc_sender : Address; rcc_sender_account : AccountId; rcc_recipient_account : option AccountId;
  rcc_funds : list FungibleAsset; rcc_gas_limit : Z; rcc_invoke_request : InvokeRequest; rcc_block_ctx : BlockContext;
  rcc_effective_gas_price : Z; rcc_nonce : U64; rcc_tx_hash : B256; rcc_to_address : Address }.

Inductive CallExecutionOutcome := CallSuccess (result : TxResult) | UnknownTarget.

(** [map_err] of a result of the SDK. *)
Definition rpc_err {A} (r : SdkResult A) (what : string) : Result RpcError A :=
  match r with Ok a => Ok a | Err e => Err (InternalError [Str what; Code e]) end.

Definition u256_max : Z := 2 ^ 256 - 1.

Module StorageStateQuerier.
Section Methods.
Context `{RuntimeDeps} `{CollectionCodec} `{!TokenCodec} `{EthCodec} `{Borsh string} `{CallJson}.
Context `{Secp256k1} `{AlloyTx TxLegacy} `{AlloyTx TxEip1559} {X : Type} `{RpcExecutionContext X}.

Abbreviation Querier := (StorageStateQuerier X).

Definition new (storage : bytes -> SdkResult (option bytes)) (token_account_id : AccountId)
    (account_codes : AccountsCodeStorage) (executor : X) : Querier :=
  mkStorageStateQuerier storage token_account_id account_codes executor DEFAULT_RPC_GAS_LIMIT.

(** [Message::from_bytes(value).get] at the types of the values read. *)
Definition get_u64 (value : bytes) : SdkResult U64 := Message.get (Message.from_bytes value).
Definition get_u128 (value : bytes) : SdkResult U128 := Message.get (Message.from_bytes value).
Definition get_string (value : bytes) : SdkResult string := Message.get (Message.from_bytes value).

Definition read_nonce (self : Querier) (account_id : AccountId) : Result RpcError U64 :=
  let key := [ACCOUNT_STORAGE_PREFIX] ++ AccountId.as_bytes account_id ++ [x00] in
  value ← rpc_err (sq_storage self key) "storage read: ";
  match value with
  | Some value => rpc_err (get_u64 value) "decode nonce: "
  | None => Ok (0 : U64)
  end.

Definition read_balance (self : Querier) (account_id : AccountId) : Result RpcError U128 :=
  encoded ← rpc_err (encode_value account_id) "encode account id: ";
  let key := [ACCOUNT_STORAGE_PREFIX] ++ AccountId.as_bytes (sq_token_account_id self) ++ [x01] ++ encoded in
  value ← rpc_err (sq_storage self key) "storage read: ";
  match value with
  | Some value => rpc_err (get_u128 value) "decode balance: "
  | None => Ok (0 : U128)
  end.

Definition read_raw_storage (self : Querier) (key : bytes) : Result RpcError (option bytes) :=
  rpc_err (sq_storage self key) "storage read: ".

Definition read_account_storage (self : Querier) (account_id : AccountId) (key : bytes) : Result RpcError (option bytes) :=
  read_raw_storage self (AccountId.as_bytes account_id ++ key).

Definition read_account_code_identifier (self : Querier) (account_id : AccountId) : Result RpcError (option string) :=
  let key := [ACCOUNT_IDENTIFIER_PREFIX] ++ AccountId.as_bytes account_id in
  value ← read_raw_storage self key;
  match value with
  | Some value => id ← rpc_err (get_string value) "decode account code id: "; Ok (Some id)
  | None => Ok None
  end.

Definition resolve_contract_account_id (self : Querier) (address : Address) : Result RpcError (option AccountId) :=
  rpc_err (lookup_contract_account_id_in_storage (sq_storage self) address) "lookup contract account id: ".

Definition resolve_account_id (self : Querier) (address : Address) : Result RpcError (option AccountId) :=
  found ← rpc_err (lookup_account_id_in_storage (sq_storage self) address) "lookup account id: ";
  match found with
  | Some account_id => Ok (Some account_id)
  | None => resolve_contract_account_id self address
  end.

Definition resolve_sender_account_id (self : Querier) (address : Address) : Result RpcError AccountId :=
  found ← resolve_account_id self address;
  Ok (default (derive_eth_eoa_account_id address) found).

Definition sender_nonce (self : Querier) (address : Address) : Result RpcError U64 :=
  found ← resolve_account_id self address;
  match found with
  | None => Ok (0 : U64)
  | Some account_id => read_nonce self account_id
  end.

Definition call_request_gas_limit (self : Querier) (request : CallRequest) : Z :=
  default (sq_default_gas_limit self) (cr_gas request).

Definition call_request_effective_gas_price (self : Querier) (request : CallRequest) : Z :=
  let effective :=
    match cr_max_fee_per_gas request with
    | Some fee => fee
    | None => default 0 (cr_gas_price request)
    end in
  if effective <=? u128_max then effective else u128_max.

Definition call_request_funds (self : Querier) (request : CallRequest) : Result RpcError (list FungibleAsset) :=
  match cr_value request with
  | None => Ok []
  | Some value =>
      if value =? 0 then Ok []
      else if u128_max <? value then
        Err (InvalidParams [Str "call value exceeds supported native token range"])
      else Ok [mkFungibleAsset (sq_token_account_id self) value]
  end.

Definition input_bytes (request : CallRequest) : bytes := default [] (input_data request).

(** [u32::from_be_bytes] of the first four bytes. *)
Definition call_request_to_invoke_request (input : bytes) : InvokeRequest :=
  let '(function_id, args) :=
    if 4 <=? zlen input then (be_value (take 4 input), drop 4 input) else (0, input) in
  InvokeRequest.new_from_message "eth_dispatch" function_id (Message.from_bytes args).

Definition synthetic_tx_hash (self : Querier) (request : CallRequest) (block_height : Z) : Result RpcError B256 :=
  match call_to_vec request block_height with
  | Some payload => Ok (keccak256 payload)
  | None => Err (InternalError [Str "encode synthetic tx: "])
  end.

Definition resolve_call_context (self : Querier) (request : CallRequest) (block : BlockContext)
    : Result RpcError ResolvedCallContext :=
  let input := input_bytes request in
  let sender := default (vreplicate 20 x00) (cr_from request) in
  sender_account ← resolve_sender_account_id self sender;
  recipient_account ← resolve_account_id self (cr_to request);
  funds ← call_request_funds self request;
  let gas_limit := call_request_gas_limit self request in
  let invoke_request := call_request_to_invoke_request input in
  nonce ← sender_nonce self sender;
  tx_hash ← synthetic_tx_hash self request (block_height block);
  Ok {| rcc_input := input;
        rcc_sender := sender;
        rcc_sender_account := sender_account;
        rcc_recipient_account := recipient_account;
        rcc_funds := funds;
        rcc_gas_limit := gas_limit;
        rcc_invoke_request := invoke_request;
        rcc_block_ctx := block;
        rcc_effective_gas_price := call_request_effective_gas_price self request;
        rcc_nonce := nonce;
        rcc_tx_hash := tx_hash;
        rcc_to_address := cr_to request |}.

Definition build_synthetic_tx (self : Querier) (ctx : ResolvedCallContext) : Result RpcError TxContext :=
  authentication_payload ← rpc_err (Message.new (rcc_sender ctx)) "encode synthetic auth payload: ";
  ok_or
    (TxContext.from_payload (PayloadCustom (rcc_input ctx)) EOA_SECP256K1 {|
       m_tx_hash := rcc_tx_hash ctx;
       m_gas_limit := rcc_gas_limit ctx;
       m_nonce := rcc_nonce ctx;
       m_chain_id := None;
       m_effective_gas_price := rcc_effective_gas_price ctx;
       m_invoke_request := rcc_invoke_request ctx;
       m_funds := rcc_funds ctx;
       m_sender_account := rcc_sender_account ctx;
       m_recipient_account := rcc_recipient_account ctx;
       m_sender_key := vec_to_list (rcc_sender ctx);
       m_authentication_payload := authentication_payload;
       m_sender_eth_address := Some (rcc_sender ctx);
       m_recipient_eth_address := Some (rcc_to_address ctx) |})
    (InternalError [Str "failed to build synthetic tx context"]).

(** [None] inside: no target; outside: a panic. *)
Definition run_query (self : Querier) (ctx : ResolvedCallContext) : option (option TxResult) :=
  match rcc_recipient_account ctx with
  | None => Some None
  | Some target_account =>
      result ← execute_query (sq_executor self) (sq_storage self) (sq_account_codes self) target_account
                 (rcc_invoke_request ctx)
                 (mkQueryContext (Some (rcc_gas_limit ctx)) (rcc_sender_account ctx) (rcc_funds ctx) (rcc_block_ctx ctx));
      Some (Some result)
  end.

Definition run_exec (self : Querier) (ctx : ResolvedCallContext) : option (Result RpcError TxResult) :=
  match build_synthetic_tx self ctx with
  | Err e => Some (Err e)
  | Ok synthetic_tx =>
      result ← simulate_call_tx (sq_executor self) (sq_storage self) (sq_account_codes self) synthetic_tx (rcc_block_ctx ctx);
      Some (Ok result)
  end.

Definition exec_with_query_fallback (self : Querier) (request : CallRequest) (block : BlockContext)
    (map_err : ErrorCode -> RpcError) : option (Result RpcError CallExecutionOutcome) :=
  match resolve_call_context self request block with
  | Err e => Some (Err e)
  | Ok ctx =>
      if bool_decide (rcc_recipient_account ctx = None) then Some (Ok UnknownTarget)
      else
        exec ← run_exec self ctx;
        match exec with
        | Err e => Some (Err e)
        | Ok exec_result =>
            match tx_response exec_result with
            | Ok _ => Some (Ok (CallSuccess exec_result))
            | Err err =>
                if bool_decide (err = ERR_UNKNOWN_FUNCTION) then
                  query ← run_query self ctx;
                  Some match query with
                  | Some query_result =>
                      match tx_response query_result with
                      | Ok _ => Ok (CallSuccess query_result)
                      | Err err => Err (map_err err)
                      end
                  | None => Ok UnknownTarget
                  end
                else Some (Err (map_err err))
            end
        end
  end.

Definition response_bytes (response : InvokeResponse) : Result RpcError bytes :=
  rpc_err (Message.into_bytes (response_message response)) "encode response bytes: ".

(** The last 32 bytes of a value, padded on the left. *)
Definition storage_word (value : bytes) : list byte :=
  if 32 <=? zlen value then drop (length value - 32) value
  else replicate (32 - length value) x00 ++ value.

Definition map_stf_error (err : ErrorCode) (wrap : list Piece -> RpcError) : RpcError :=
  if bool_decide (err = ERR_OUT_OF_GAS) then wrap [Str "out of gas"] else wrap [Code err].

(** ** The trait [StateQuerier] *)

Definition get_balance (self : Querier) (address : Address) : Result RpcError U128 :=
  found ← resolve_account_id self address;
  match found with
  | None => Ok (0 : U128)
  | Some account_id => read_balance self account_id
  end.

Definition get_transaction_count (self : Querier) (address : Address) : Result RpcError U64 :=
  found ← resolve_account_id self address;
  match found with
  | None => Ok (0 : U64)
  | Some account_id => read_nonce self account_id
  end.

Definition get_code (self : Querier) (address : Address) (block : option Z) : Result RpcError bytes :=
  found ← resolve_contract_account_id self address;
  match found with
  | None => Ok []
  | Some account_id =>
      code_id ← read_account_code_identifier self account_id;
      code_id ← ok_or code_id (InternalError [Str "missing account code identifier"]);
      if bool_decide (code_id = ETH_EOA_CODE_ID) then Ok [] else Ok (string_bytes code_id)
  end.

(** The answered word as its bytes. *)
Definition get_storage_at (self : Querier) (address : Address) (position : Z) (block : option Z) : Result RpcError bytes :=
  found ← resolve_account_id self address;
  match found with
  | None => Ok (vec_to_list B256_ZERO)
  | Some account_id =>
      let be_key := be_bytes 32 position in
      value ← read_account_storage self account_id be_key;
      match value with
      | Some value => Ok (storage_word value)
      | None =>
          if position <=? 255 then
            let short_key := [byte_of_Z position] in
            value ← read_account_storage self account_id short_key;
            Ok (from_option storage_word (vec_to_list B256_ZERO) value)
          else Ok (vec_to_list B256_ZERO)
      end
  end.

Definition call (self : Querier) (request : CallRequest) (block : BlockContext) : option (Result RpcError bytes) :=
  outcome ← exec_with_query_fallback self request block (fun e => map_stf_error e ExecutionReverted);
  Some match outcome with
  | Err e => Err e
  | Ok UnknownTarget => Ok []
  | Ok (CallSuccess result) =>
      match tx_response result with
      | Ok response => response_bytes response
      | Err err => Err (InternalError [Str "unexpected execution error after success guard: "; Code err])
      end
  end.

Definition estimate_gas (self : Querier) (request : CallRequest) (block : BlockContext) : option (Result RpcError Z) :=
  outcome ← exec_with_query_fallback self request block (fun e => map_stf_error e GasEstimationFailed);
  Some match outcome with
  | Err e => Err e
  | Ok UnknownTarget => Err (GasEstimationFailed [Str "target account not found"])
  | Ok (CallSuccess result) => Ok (tx_gas_used result)
  end.

End Methods.
End StorageStateQuerier.
