(* ===== verification/Provider.v ===== *)
(** * The state provider of the RPC server

    Models [crates/rpc/chain-index/src/provider.rs]: queries of blocks,
    transactions, receipts and logs over a chain index, state queries over a
    querier, submission of transactions to the mempool through the verifier, and
    cached introspection of account schemas. Requests are handled one after the
    other; the fate of a job in the queue of the verifier is an argument. [None]
    stands for a panic of executed code. *)

From S2P Require Import Prelude Core Gas Collections ExecState Runtime Invoker Token Stf Mempool StorageBackend Server.
From S2P Require Import EthTx EthContext EthGateway Indexing IndexStore Rpc Querier.

Open Scope evolve_scope.

(** ** The traits *)

(** [StateQuerier]. *)
Class StateQuerier (Q : Type) := {
  q_get_balance : Q -> Address -> Result RpcError Z;
  q_get_transaction_count : Q -> Address -> Result RpcError Z;
  q_get_code : Q -> Address -> option Z -> Result RpcError bytes;
  q_get_storage_at : Q -> Address -> Z -> option Z -> Result RpcError bytes;
  q_call : Q -> CallRequest -> BlockContext -> option (Result RpcError bytes);
  q_estimate_gas : Q -> CallRequest -> BlockContext -> option (Result RpcError Z)
}.

#[global] Instance storage_state_querier `{RuntimeDeps} `{CollectionCodec} `{!TokenCodec} `{EthCodec} `{Borsh string} `{CallJson}
    `{Secp256k1} `{AlloyTx TxLegacy} `{AlloyTx TxEip1559} {X} `{RpcExecutionContext X}
    : StateQuerier (StorageStateQuerier X) := {|
  q_get_balance := StorageStateQuerier.get_balance;
  q_get_transaction_count := StorageStateQuerier.get_transaction_count;
  q_get_code := StorageStateQuerier.get_code;
  q_get_storage_at := StorageStateQuerier.get_storage_at;
  q_call := StorageStateQuerier.call;
  q_estimate_gas := StorageStateQuerier.estimate_gas |}.

(** What the provider asks of the account codes. *)
Class SchemaCodes (A Schema : Type) := {
  list_identifiers : A -> list string;
  code_schema : A -> string -> SdkResult (option Schema)
}.

(** ** [IngressVerifier] *)

(** What becomes of a verification job. *)
Inductive Delivery := Answered | QueueClosed | TimedOut | Dropped | TaskFailed.

Definition verify `{RuntimeDeps} `{EthCodec} `{Secp256k1} `{AlloyTx TxLegacy} `{AlloyTx TxEip1559}
    (gateway : EthGateway) (delivery : Delivery) (raw : bytes) : Result RpcError TxContext :=
  match delivery with
  | QueueClosed => Err (InternalError [Str "verifier queue closed"])
  | TimedOut => Err (InternalError [Str "verifier timeout"])
  | Dropped => Err (InternalError [Str "verifier response dropped"])
  | TaskFailed => Err (InvalidTransaction [Str "verify task failed: "])
  | Answered =>
      match EthGateway.decode_and_verify gateway raw with
      | Ok context => Ok context
      | Err e => Err (InvalidTransaction [OfGateway e])
      end
  end.

Definition DEFAULT_PROTOCOL_VERSION : string := "0x1".

Record ChainStateProviderConfig := mkChainStateProviderConfig {
  pc_chain_id : Z; pc_protocol_version : string; pc_gas_price : Z; pc_sync_status : SyncStatus }.

(** The verifier is the gateway its workers share. *)
Record ChainStateProvider (I A Q Schema : Type) `{MempoolTx TxContext} := mkChainStateProvider {
  pv_index : I; pv_config : ChainStateProviderConfig; pv_account_codes : A; pv_mempool : option (Mempool TxContext);
  pv_verifier : option EthGateway; pv_state_querier : option Q; module_ids_cache : option (list string);
  module_schema_cache : gmap string (option Schema); all_schemas_cache : option (list Schema) }.
Arguments mkChainStateProvider {I A Q Schema _} _ _ _ _ _ _ _ _ _.
Arguments pv_index {I A Q Schema _} _.
Arguments pv_config {I A Q Schema _} _.
Arguments pv_account_codes {I A Q Schema _} _.
Arguments pv_mempool {I A Q Schema _} _.
Arguments pv_verifier {I A Q Schema _} _.
Arguments pv_state_querier {I A Q Schema _} _.
Arguments module_ids_cache {I A Q Schema _} _.
Arguments module_schema_cache {I A Q Schema _} _.
Arguments all_schemas_cache {I A Q Schema _} _.

Definition MAX_BLOCK_RANGE : Z := 1000.
Definition MAX_LOGS : Z := 10000.

(** ** The filters of [get_logs_for_block_range] *)
Definition address_matches (addr_filter : FilterAddress) (log : StoredLog) : bool :=
  match addr_filter with
  | SingleAddress addr => bool_decide (lg_address log = addr)
  | MultipleAddresses addrs => bool_decide (lg_address log ∈ addrs)
  end.

(** The loop over the filters of topics, from the [i]-th topic of the log on. *)
Fixpoint topics_match (topics : list (option FilterTopic)) (log_topics : list B256) : bool :=
  match topics with
  | [] => true
  | topic_filter :: topics =>
      match topic_filter with
      | None => topics_match topics (tail log_topics)
      | Some tf =>
          match log_topics with
          | [] => false
          | t :: log_topics =>
              let topic_matches :=
                match tf with
                | SingleTopic x => bool_decide (t = x)
                | MultipleTopics ts => bool_decide (t ∈ ts)
                end in
              if topic_matches then topics_match topics log_topics else false
          end
      end
  end.

Definition log_matches (filter : LogFilter) (log : StoredLog) : bool :=
  from_option (fun f => address_matches f log) true (lf_address filter) &&
  from_option (fun f => topics_match f (lg_topics log)) true (lf_topics filter).

(** The loop over the logs of a receipt: the result so far and the index of
    the next log; [None]: more than [MAX_LOGS] results. *)
Fixpoint collect_logs (filter : LogFilter) (block_num : Z) (block_hash tx_hash : B256) (tx_idx : Z) (logs : list StoredLog)
    (result : list RpcLog) (log_index : Z) : option (list RpcLog * Z) :=
  match logs with
  | [] => Some (result, log_index)
  | stored_log :: logs =>
      if negb (log_matches filter stored_log) then
        collect_logs filter block_num block_hash tx_hash tx_idx logs result (log_index + 1)
      else if MAX_LOGS <=? zlen result then None
      else
        collect_logs filter block_num block_hash tx_hash tx_idx logs
          (result ++ [to_rpc_log stored_log block_num block_hash tx_hash (u32_of tx_idx) log_index]) (log_index + 1)
  end.

Module ChainStateProvider.
Section Methods.
Context `{RuntimeDeps} `{EthCodec} `{Secp256k1} `{AlloyTx TxLegacy} `{AlloyTx TxEip1559}.
Context {I A Q Schema : Type} `{ChainIndex I ChainIndexError} `{SchemaCodes A Schema} `{StateQuerier Q}.

Abbreviation Provider := (ChainStateProvider I A Q Schema).

Definition with_account_codes (index : I) (config : ChainStateProviderConfig) (account_codes : A) : Provider :=
  mkChainStateProvider index config account_codes None None None None ∅ None.

Definition with_mempool_and_gateway (index : I) (config : ChainStateProviderConfig) (account_codes : A)
    (mempool : Mempool TxContext) (gateway : EthGateway) : Provider :=
  mkChainStateProvider index config account_codes (Some mempool) (Some gateway) None None ∅ None.

Definition with_mempool (index : I) (config : ChainStateProviderConfig) (account_codes : A)
    (mempool : Mempool TxContext) : Provider :=
  with_mempool_and_gateway index config account_codes mempool (EthGateway.new (pc_chain_id config)).

Definition with_state_querier (self : Provider) (querier : Q) : Provider :=
  mkChainStateProvider (pv_index self) (pv_config self) (pv_account_codes self) (pv_mempool self) (pv_verifier self)
    (Some querier) (module_ids_cache self) (module_schema_cache self) (all_schemas_cache self).

Definition ensure_rpc_compatibility (self : Provider) : Result string unit :=
  if bool_decide (pv_mempool self = None) then Err "RPC startup requires a mempool-backed provider"%string
  else if bool_decide (pv_verifier self = None) then Err "RPC startup requires an ingress verifier"%string
  else if bool_decide (pv_state_querier self = None) then Err "RPC startup requires a state querier"%string
  else Ok tt.

(** An operation of the index, with its errors converted. *)
Definition on_index {X} (m : I -> Result ChainIndexError X * I) : Op Provider (Result RpcError X) := fun self =>
  let '(r, index) := m (pv_index self) in
  (match r with Ok x => Ok x | Err e => Err (rpc_of_index e) end,
   mkChainStateProvider index (pv_config self) (pv_account_codes self) (pv_mempool self) (pv_verifier self)
     (pv_state_querier self) (module_ids_cache self) (module_schema_cache self) (all_schemas_cache self)).

Definition require_querier : Op Provider (Result RpcError Q) := fun self =>
  (ok_or (pv_state_querier self) (NotImplemented "state_querier not configured"), self).

Definition resolve_state_query_block (block : option Z) : Op Provider (Result RpcError Z) :=
  let? latest := on_index latest_block_number in
  match latest with
  | None => mret (Err RpcBlockNotFound)
  | Some latest =>
      mret match block with
      | None => Ok latest
      | Some number =>
          if number =? latest then Ok number
          else Err (InvalidParams [Str "historical state queries are not supported: requested block "; Num number;
                                   Str ", latest block is "; Num latest])
      end
  end.

Definition resolve_block_context (block : option Z) : Op Provider (Result RpcError BlockContext) :=
  let? number := resolve_state_query_block block in
  let? block := on_index (fun index => get_block index number) in
  match block with
  | None => mret (Err RpcBlockNotFound)
  | Some block => mret (Ok (mkBlockContext number (sb_timestamp block)))
  end.

(** ** The trait [StateProvider] *)

Definition block_number : Op Provider (Result RpcError Z) :=
  let? latest := on_index latest_block_number in mret (ok_or latest RpcBlockNotFound).

(** The loop over the hashes of a block: transactions not found are left out. *)
Fixpoint full_transactions_of (tx_hashes : list B256) : Op Provider (Result RpcError (list RpcTransaction)) :=
  match tx_hashes with
  | [] => mret (Ok [])
  | hash :: tx_hashes =>
      let? tx := on_index (fun index => get_transaction index hash) in
      let? txs := full_transactions_of tx_hashes in
      mret (Ok (from_option (fun tx => to_rpc_transaction tx :: txs) txs tx))
  end.

Definition block_transactions (number : Z) (full_transactions : bool) : Op Provider (Result RpcError BlockTransactions) :=
  let? tx_hashes := on_index (fun index => get_block_transactions index number) in
  if full_transactions then
    let? txs := full_transactions_of tx_hashes in mret (Ok (TxFull txs))
  else mret (Ok (TxHashes tx_hashes)).

Definition get_block_by_number (number : Z) (full_transactions : bool) : Op Provider (Result RpcError (option RpcBlock)) :=
  let? block := on_index (fun index => get_block index number) in
  match block with
  | None => mret (Ok None)
  | Some block =>
      let? transactions := block_transactions number full_transactions in
      mret (Ok (Some (to_rpc_block block (Some transactions))))
  end.

Definition get_block_by_hash (hash : B256) (full_transactions : bool) : Op Provider (Result RpcError (option RpcBlock)) :=
  let? block := on_index (fun index => Indexing.get_block_by_hash index hash) in
  match block with
  | None => mret (Ok None)
  | Some block =>
      let? transactions := block_transactions (sb_number block) full_transactions in
      mret (Ok (Some (to_rpc_block block (Some transactions))))
  end.

Definition get_transaction_by_hash (hash : B256) : Op Provider (Result RpcError (option RpcTransaction)) :=
  let? tx := on_index (fun index => get_transaction index hash) in mret (Ok (to_rpc_transaction <$> tx)).

Definition get_transaction_receipt (hash : B256) : Op Provider (Result RpcError (option RpcReceipt)) :=
  let? receipt := on_index (fun index => get_receipt index hash) in mret (Ok (to_rpc_receipt <$> receipt)).

Definition get_balance (address : Address) (block : option Z) : Op Provider (Result RpcError Z) :=
  do? resolve_state_query_block block in
  let? querier := require_querier in
  mret (q_get_balance querier address).

Definition get_transaction_count (address : Address) (block : option Z) : Op Provider (Result RpcError Z) :=
  do? resolve_state_query_block block in
  let? querier := require_querier in
  mret (q_get_transaction_count querier address).

(** [None]: a panic of the simulated code. *)
Definition call (request : CallRequest) (block : option Z) (self : Provider) : option (Result RpcError bytes) * Provider :=
  match resolve_block_context block self with
  | (Err e, self) => (Some (Err e), self)
  | (Ok block_ctx, self) =>
      match require_querier self with
      | (Err e, self) => (Some (Err e), self)
      | (Ok querier, self) => (q_call querier request block_ctx, self)
      end
  end.

Definition estimate_gas (request : CallRequest) (block : option Z) (self : Provider) : option (Result RpcError Z) * Provider :=
  match resolve_block_context block self with
  | (Err e, self) => (Some (Err e), self)
  | (Ok block_ctx, self) =>
      match require_querier self with
      | (Err e, self) => (Some (Err e), self)
      | (Ok querier, self) => (q_estimate_gas querier request block_ctx, self)
      end
  end.

(** The transactions of one block, from the [tx_idx]-th on. *)
Fixpoint block_logs (filter : LogFilter) (block_num : Z) (block_hash : B256) (tx_idx : Z) (tx_hashes : list B256)
    (result : list RpcLog) (log_index : Z) : Op Provider (Result RpcError (list RpcLog)) :=
  match tx_hashes with
  | [] => mret (Ok result)
  | tx_hash :: tx_hashes =>
      let? receipt := on_index (fun index => get_receipt index tx_hash) in
      match receipt with
      | None => block_logs filter block_num block_hash (tx_idx + 1) tx_hashes result log_index
      | Some receipt =>
          match collect_logs filter block_num block_hash tx_hash tx_idx (sr_logs receipt) result log_index with
          | None =>
              mret (Err (InvalidParams [Str "query returned more than "; Num MAX_LOGS;
                                        Str " results; narrow the filter range"]))
          | Some (result, log_index) => block_logs filter block_num block_hash (tx_idx + 1) tx_hashes result log_index
          end
      end
  end.

(** The blocks of a range of [n] numbers. *)
Fixpoint range_logs (filter : LogFilter) (block_num : Z) (n : nat) (result : list RpcLog)
    : Op Provider (Result RpcError (list RpcLog)) :=
  match n with
  | O => mret (Ok result)
  | S n =>
      let? block := on_index (fun index => get_block index block_num) in
      match block with
      | None => range_logs filter (block_num + 1) n result
      | Some block =>
          let? tx_hashes := on_index (fun index => get_block_transactions index block_num) in
          let? result := block_logs filter block_num (sb_hash block) 0 tx_hashes result 0 in
          range_logs filter (block_num + 1) n result
      end
  end.

Definition get_logs_for_block_range (from_block to_block : Z) (filter : LogFilter)
    : Op Provider (Result RpcError (list RpcLog)) :=
  if to_block <? from_block then
    mret (Err (InvalidParams [Str "fromBlock ("; Num from_block; Str ") is greater than toBlock ("; Num to_block; Str ")"]))
  else
    let range := saturating_add u64_max (saturating_sub to_block from_block) 1 in
    if MAX_BLOCK_RANGE <? range then
      mret (Err (InvalidParams [Str "block range ("; Num range; Str ") exceeds maximum ("; Num MAX_BLOCK_RANGE;
                                Str "); narrow the filter range"]))
    else range_logs filter from_block (Z.to_nat range) [].

Definition resolve_bound (latest : Z) (bound : option BlockNumberOrTag) : Z :=
  match bound with
  | Some (BlockNumber n) => n
  | Some (Tag TagEarliest) => 0
  | Some (Tag _) => latest
  | None => latest
  end.

Definition get_logs (filter : LogFilter) : Op Provider (Result RpcError (list RpcLog)) :=
  latest ← block_number;
  let latest := match latest with Ok n => n | Err _ => 0 end in
  let from_block := resolve_bound latest (lf_from_block filter) in
  let to_block := resolve_bound latest (lf_to_block filter) in
  match lf_block_hash filter with
  | Some block_hash =>
      let? number := on_index (fun index => get_block_number index block_hash) in
      match number with
      | Some number => get_logs_for_block_range number number filter
      | None => mret (Ok [])
      end
  | None => get_logs_for_block_range from_block to_block filter
  end.

(** [None]: a panic of the mempool. *)
Definition send_raw_transaction (delivery : Delivery) (data : bytes) (self : Provider)
    : option (Result RpcError B256 * Provider) :=
  match pv_mempool self with
  | None => Some (Err (NotImplemented "sendRawTransaction: no mempool configured"), self)
  | Some mempool =>
      match pv_verifier self with
      | None => Some (Err (NotImplemented "sendRawTransaction: no verifier configured"), self)
      | Some gateway =>
          match verify gateway delivery data with
          | Err e => Some (Err e, self)
          | Ok tx_context =>
              let hash := tx_id tx_context in
              '(r, mempool) ← Mempool.add mempool tx_context;
              let self :=
                mkChainStateProvider (pv_index self) (pv_config self) (pv_account_codes self) (Some mempool)
                  (pv_verifier self) (pv_state_querier self) (module_ids_cache self) (module_schema_cache self)
                  (all_schemas_cache self) in
              Some match r with
              | Ok _ => (Ok hash, self)
              | Err e => (Err (InvalidTransaction [OfMempool e]), self)
              end
          end
      end
  end.

Definition get_code (address : Address) (block : option Z) : Op Provider (Result RpcError bytes) :=
  let? block := resolve_state_query_block block in
  let? querier := require_querier in
  mret (q_get_code querier address (Some block)).

Definition get_storage_at (address : Address) (position : Z) (block : option Z) : Op Provider (Result RpcError bytes) :=
  let? block := resolve_state_query_block block in
  let? querier := require_querier in
  mret (q_get_storage_at querier address position (Some block)).

(** ** Introspection, with its caches *)
Definition set_caches (ids : option (list string)) (schemas : gmap string (option Schema)) (all : option (list Schema))
    (self : Provider) : Provider :=
  mkChainStateProvider (pv_index self) (pv_config self) (pv_account_codes self) (pv_mempool self) (pv_verifier self)
    (pv_state_querier self) ids schemas all.

Definition list_module_identifiers : Op Provider (Result RpcError (list string)) := fun self =>
  match module_ids_cache self with
  | Some cached => (Ok cached, self)
  | None =>
      let identifiers := list_identifiers (pv_account_codes self) in
      (Ok identifiers, set_caches (Some identifiers) (module_schema_cache self) (all_schemas_cache self) self)
  end.

Definition get_module_schema (id : string) : Op Provider (Result RpcError (option Schema)) := fun self =>
  match module_schema_cache self !! id with
  | Some cached => (Ok cached, self)
  | None =>
      match code_schema (pv_account_codes self) id with
      | Err e => (Err (InternalError [Str "Failed to get schema: "; Code e]), self)
      | Ok schema =>
          (Ok schema, set_caches (module_ids_cache self) (<[id := schema]> (module_schema_cache self))
                        (all_schemas_cache self) self)
      end
  end.

Fixpoint schemas_of (identifiers : list string) : Op Provider (Result RpcError (list Schema)) :=
  match identifiers with
  | [] => mret (Ok [])
  | id :: identifiers =>
      let? maybe_schema := get_module_schema id in
      let? schemas := schemas_of identifiers in
      mret (Ok (from_option (fun schema => schema :: schemas) schemas maybe_schema))
  end.

Definition get_all_schemas : Op Provider (Result RpcError (list Schema)) := fun self =>
  match all_schemas_cache self with
  | Some cached => (Ok cached, self)
  | None =>
      (let? identifiers := list_module_identifiers in
       let? schemas := schemas_of identifiers in
       fun self => (Ok schemas, set_caches (module_ids_cache self) (module_schema_cache self) (Some schemas) self)) self
  end.

Definition protocol_version (self : Provider) : string := pc_protocol_version (pv_config self).
Definition gas_price (self : Provider) : Z := pc_gas_price (pv_config self).
Definition syncing_status (self : Provider) : SyncStatus := pc_sync_status (pv_config self).

End Methods.
End ChainStateProvider.
