(* ===== verification/ProviderFacts.v ===== *)
(** * Facts about the state provider

    Against the interface of the chain index: what an index that represents an
    archive makes the provider answer. The expected answers are computed from
    the archive. *)

From S2P Require Import Prelude Core Gas Collections ExecState Runtime Invoker Stf Mempool StorageBackend Server EthTx.
From S2P Require Import EthContext EthGateway Indexing IndexStore IndexStoreFacts IndexSpec Rpc Provider.

Open Scope evolve_scope.

(** ** Expected answers *)
Fixpoint number {X} (k : Z) (l : list X) : list (Z * X) :=
  match l with [] => [] | x :: l => (k, x) :: number (k + 1) l end.

(** The logs of a block, with the index and hash of their transaction. *)
Fixpoint located_from (i : Z) (rs : list StoredReceipt) : list (Z * B256 * StoredLog) :=
  match rs with
  | [] => []
  | r :: rs => ((fun log => (i, sr_transaction_hash r, log)) <$> sr_logs r) ++ located_from (i + 1) rs
  end.

Definition wanted (filter : LogFilter) (x : Z * (Z * B256 * StoredLog)) : Prop := log_matches filter x.2.2 = true.

#[export] Instance wanted_dec filter x : Decision (wanted filter x).
Proof. apply bool_eq_dec. Defined.

Definition render (n : Z) (h : B256) (x : Z * (Z * B256 * StoredLog)) : RpcLog :=
  to_rpc_log x.2.2 n h x.2.1.2 (u32_of x.2.1.1) x.1.

Definition matching_logs (f : LogFilter) (n : Z) (h : B256) (k : Z) (l : list (Z * B256 * StoredLog)) : list RpcLog :=
  render n h <$> filter (wanted f) (number k l).

(** The logs of a block that match: numbered over the whole block. *)
Definition block_answer (f : LogFilter) (e : Entry) : list RpcLog :=
  matching_logs f (e_number e) (e_hash e) 0 (located_from 0 (e_receipts e)).

(** Those of a range of blocks, in order. *)
Fixpoint blocks_answer (f : LogFilter) (a : Archive) (from : Z) (n : nat) : list RpcLog :=
  match n with
  | O => []
  | S n => from_option (block_answer f) [] (a_entry a from) ++ blocks_answer f a (from + 1) n
  end.

Definition too_many : RpcError :=
  InvalidParams [Str "query returned more than "; Num MAX_LOGS; Str " results; narrow the filter range"].

Definition range_answer (f : LogFilter) (a : Archive) (from to : Z) : Result RpcError (list RpcLog) :=
  if to <? from then
    Err (InvalidParams [Str "fromBlock ("; Num from; Str ") is greater than toBlock ("; Num to; Str ")"])
  else if MAX_BLOCK_RANGE <? to - from + 1 then
    Err (InvalidParams [Str "block range ("; Num (Z.min u64_max (to - from + 1)); Str ") exceeds maximum (";
                        Num MAX_BLOCK_RANGE; Str "); narrow the filter range"])
  else
    let logs := blocks_answer f a from (Z.to_nat (to - from + 1)) in
    if zlen logs <=? MAX_LOGS then Ok logs else Err too_many.

Definition logs_answer (f : LogFilter) (a : Archive) : Result RpcError (list RpcLog) :=
  let latest := default 0 (a_latest a) in
  match lf_block_hash f with
  | Some h => match a_number a h with Some n => range_answer f a n n | None => Ok [] end
  | None => range_answer f a (ChainStateProvider.resolve_bound latest (lf_from_block f))
              (ChainStateProvider.resolve_bound latest (lf_to_block f))
  end.

(** A block with its transactions. *)
Definition block_with_txs (e : Entry) (full : bool) : RpcBlock :=
  to_rpc_block (e_block e)
    (Some (if full then TxFull (to_rpc_transaction <$> e_txs e) else TxHashes (st_hash <$> e_txs e))).

(** ** Numbered logs *)
Lemma number_app {X} (l l' : list X) : forall k, number k (l ++ l') = number k l ++ number (k + zlen l) l'.
Proof.
  induction l as [|x l IH]; intros k; cbn [number app]; [unfold zlen; cbn; f_equal; lia|].
  rewrite IH, zlen_cons. do 2 f_equal. f_equal. lia.
Qed.

Lemma zlen_fmap {X Y} (g : X -> Y) (l : list X) : zlen (g <$> l) = zlen l.
Proof. unfold zlen. by rewrite length_fmap. Qed.

Lemma matching_app f n h k l l' :
  matching_logs f n h k (l ++ l') = matching_logs f n h k l ++ matching_logs f n h (k + zlen l) l'.
Proof. unfold matching_logs. by rewrite number_app, filter_app, fmap_app. Qed.

Lemma matching_cons f n h k x l : matching_logs f n h k (x :: l) =
  if log_matches f x.2 then render n h (k, x) :: matching_logs f n h (k + 1) l else matching_logs f n h (k + 1) l.
Proof.
  destruct (log_matches f x.2) eqn:E; unfold matching_logs; cbn [number].
  - by rewrite filter_cons_True.
  - rewrite filter_cons_False; [done|]. unfold wanted. cbn. congruence.
Qed.

Lemma collect_logs_spec f n h th i logs : forall result k, zlen result <= MAX_LOGS ->
  collect_logs f n h th i logs result k =
  let all := result ++ matching_logs f n h k ((fun log => (i, th, log)) <$> logs) in
  if zlen all <=? MAX_LOGS then Some (all, k + zlen logs) else None.
Proof.
  induction logs as [|log logs IH]; intros result k Hr; cbn [collect_logs].
  { cbn. rewrite app_nil_r. destruct (Z.leb_spec (zlen result) MAX_LOGS); [|lia]. do 2 f_equal. unfold zlen; cbn; lia. }
  rewrite fmap_cons, matching_cons. cbn [snd].
  set (rest := matching_logs f n h (k + 1) ((fun log => (i, th, log)) <$> logs)) in *. pose proof (zlen_nonneg rest).
  replace (k + zlen (log :: logs)) with (k + 1 + zlen logs) by (rewrite zlen_cons; lia).
  destruct (log_matches f log); cbn [negb]; [|by apply IH].
  destruct (Z.leb_spec MAX_LOGS (zlen result)).
  - cbn zeta. rewrite zlen_app, zlen_cons. destruct (Z.leb_spec (zlen result + (1 + zlen rest)) MAX_LOGS); [lia|done].
  - rewrite IH by (rewrite zlen_app; unfold zlen at 2; cbn; lia). cbn zeta. by rewrite <-app_assoc.
Qed.

(** ** Receipts of a block, by position *)
Lemma receipt_at a e i tx : archive_wf a -> e ∈ a -> e_txs e !! i = Some tx -> a_receipt a (st_hash tx) = e_receipts e !! i.
Proof.
  intros Ha He Htx. pose proof (wf_facts a Ha) as Hf. pose proof (wf_entries a Ha e He) as Hwf.
  destruct (e_receipts e !! i) as [r|] eqn:Er.
  - destruct (ew_receipts _ Hwf i r Er) as (tx' & Htx' & Hw). rewrite Htx in Htx'. injection Htx' as <-.
    rewrite <-(rw_tx_hash _ _ _ _ Hw). apply lookup_by_elem; [apply Hf|]. apply all_receipts_elem. exists e.
    split; [done | by eapply list_elem_of_lookup_2].
  - apply lookup_by_none. intros (r & Hh & Hr)%list_elem_of_fmap.
    apply all_receipts_elem in Hr as (e' & He' & [j Hj]%list_elem_of_lookup). pose proof (wf_entries a Ha e' He') as Hwf'.
    destruct (ew_receipts _ Hwf' j r Hj) as (tx' & Htx' & Hw). rewrite (rw_tx_hash _ _ _ _ Hw) in Hh.
    assert (Hsame : tx' = tx).
    { pose proof (lookup_by_elem st_hash (all_txs a) tx (af_txs _ Hf)) as H1'.
      pose proof (lookup_by_elem st_hash (all_txs a) tx' (af_txs _ Hf)) as H2'. rewrite <-Hh in H2'.
      rewrite H1' in H2'; [|apply all_txs_elem; exists e; split; [done | by eapply list_elem_of_lookup_2]].
      symmetry. apply (inj Some), H2'. apply all_txs_elem. exists e'. split; [done | by eapply list_elem_of_lookup_2]. }
    subst tx'. pose proof (ew_txs _ Hwf i tx Htx) as W. pose proof (ew_txs _ Hwf' j tx Htx') as W'.
    assert (e' = e) as ->.
    { pose proof (a_entry_elem a Ha e He) as E1. pose proof (a_entry_elem a Ha e' He') as E2.
      assert (Hn : e_number e' = e_number e) by (unfold e_number; rewrite <-(tw_number _ _ _ W), <-(tw_number _ _ _ W'); done).
      rewrite Hn, E1 in E2. by apply (inj Some) in E2. }
    assert (Z.of_nat j = Z.of_nat i) as Hij by (rewrite <-(tw_index _ _ _ W), <-(tw_index _ _ _ W'); done).
    apply Nat2Z.inj in Hij as ->. congruence.
Qed.

(** ** Requests over an index that represents an archive *)
Section Provider.
Context `{RuntimeDeps} `{EthCodec} `{Secp256k1} `{AlloyTx TxLegacy} `{AlloyTx TxEip1559}.
Context {I A Q Schema : Type} `{ChainIndex I ChainIndexError} `{SchemaCodes A Schema} `{StateQuerier Q}.
Context (rel : Prop) (R : I -> Archive -> Prop) `{!ArchiveIndex I ChainIndexError rel R} (a : Archive) (Ha : archive_wf a).
Import ChainStateProvider.

Abbreviation Provider := (ChainStateProvider I A Q Schema).

(** The result of a request, unless the index fails. *)
Definition returns {X} (m : Op Provider (Result RpcError X)) (v : Result RpcError X) : Prop :=
  forall p, R (pv_index p) a -> R (pv_index (m p).2) a /\ ((m p).1 = v \/ is_err (m p).1 = true /\ ~ rel).

Lemma returns_ret {X} (v : Result RpcError X) : returns (mret v) v.
Proof. intros p Hp. split; [done | by left]. Qed.

Lemma returns_try {X Y} (m : Op Provider (Result RpcError X)) (k : X -> Op Provider (Result RpcError Y)) x v :
  returns m (Ok x) -> returns (k x) v -> returns (try_bind m k) v.
Proof.
  intros Hm Hk p Hp. destruct (Hm p Hp) as [Hp1 Hx]. unfold try_bind, mbind, Op_bind.
  destruct (m p) as [[y|e] p1]; cbn in *.
  - destruct Hx as [Hx|[Hx _]]; [|done]. apply (inj Ok) in Hx as ->. by apply Hk.
  - split; [done|]. destruct Hx as [Hx|[_ Hx]]; [done | by right].
Qed.

Lemma returns_index {X} (m : I -> Result ChainIndexError X * I) x : serves rel R a m x -> returns (on_index m) (Ok x).
Proof.
  intros Hm p Hp. destruct (Hm _ Hp) as [Hi Hx]. unfold on_index. destruct (m (pv_index p)) as [[y|e] i]; cbn in *.
  - split; [done|]. left. by rewrite Hx.
  - split; [done|]. by right.
Qed.

(** ** Logs *)
Lemma block_logs_spec f n h txs : forall rs i result k, zlen result <= MAX_LOGS -> (length rs <= length txs)%nat ->
  (forall j tx, txs !! j = Some tx -> a_receipt a (st_hash tx) = rs !! j) ->
  (forall j r, rs !! j = Some r -> from_option (fun tx => sr_transaction_hash r = st_hash tx) True (txs !! j)) ->
  let all := result ++ matching_logs f n h k (located_from i rs) in
  returns (block_logs f n h i (st_hash <$> txs) result k) (if zlen all <=? MAX_LOGS then Ok all else Err too_many).
Proof.
  induction txs as [|tx txs IH]; intros rs i result k Hres Hlen Hrs Hhash; cbn [block_logs fmap list_fmap].
  { destruct rs; [|cbn in Hlen; lia]. cbn [located_from]. unfold matching_logs. cbn. rewrite app_nil_r.
    destruct (Z.leb_spec (zlen result) MAX_LOGS); [|lia]. apply returns_ret. }
  eapply returns_try; [apply returns_index, ai_receipt|]. rewrite (Hrs 0%nat tx eq_refl). destruct rs as [|r rs]; cbn [lookup list_lookup].
  - apply (IH [] (i + 1) result k); [done|cbn; lia|by intros j x Hx; apply (Hrs (S j))|done].
  - rewrite collect_logs_spec by done. cbn zeta.
    change (located_from i (r :: rs)) with (((fun log => (i, sr_transaction_hash r, log)) <$> sr_logs r) ++ located_from (i + 1) rs).
    rewrite matching_app, app_assoc, zlen_fmap. rewrite (Hhash 0%nat r eq_refl).
    set (here := result ++ matching_logs f n h k ((fun log => (i, st_hash tx, log)) <$> sr_logs r)).
    destruct (Z.leb_spec (zlen here) MAX_LOGS).
    + apply (IH rs (i + 1) here); [done|cbn in Hlen; lia|by intros j x Hx; apply (Hrs (S j))|by intros j x Hx; apply (Hhash (S j))].
    + rewrite (zlen_app here). pose proof (zlen_nonneg (matching_logs f n h (k + zlen (sr_logs r)) (located_from (i + 1) rs))).
      destruct (Z.leb_spec (zlen here + zlen (matching_logs f n h (k + zlen (sr_logs r)) (located_from (i + 1) rs))) MAX_LOGS); [lia|].
      apply returns_ret.
Qed.

Lemma entry_logs_spec f e result : e ∈ a -> zlen result <= MAX_LOGS ->
  let all := result ++ block_answer f e in
  returns (block_logs f (e_number e) (e_hash e) 0 (st_hash <$> e_txs e) result 0) (if zlen all <=? MAX_LOGS then Ok all else Err too_many).
Proof.
  intros He Hres. pose proof (wf_entries a Ha e He) as Hwf. apply block_logs_spec; [done| | |].
  - pose proof (receipt_hashes e Hwf) as Hh. apply (f_equal length) in Hh. rewrite length_fmap, length_take, length_fmap in Hh. lia.
  - intros j tx Htx. by apply receipt_at.
  - intros j r Hr. destruct (ew_receipts _ Hwf j r Hr) as (tx & Htx & Hw). rewrite Htx. apply Hw.
Qed.

Lemma range_logs_spec f n : forall from result, zlen result <= MAX_LOGS -> 0 <= from -> from + Z.of_nat n - 1 <= u64_max ->
  let all := result ++ blocks_answer f a from n in
  returns (range_logs f from n result) (if zlen all <=? MAX_LOGS then Ok all else Err too_many).
Proof.
  induction n as [|n IH]; intros from result Hres H0' Hmax; cbn [range_logs blocks_answer].
  { cbn zeta. rewrite app_nil_r. destruct (Z.leb_spec (zlen result) MAX_LOGS); [|lia]. apply returns_ret. }
  assert (Hu : is_u64 from) by (unfold is_u64; lia).
  eapply returns_try; [apply returns_index; by apply ai_block|]. unfold a_block.
  destruct (a_entry a from) as [e|] eqn:Ee; cbn [fmap option_fmap option_map from_option app].
  2: { apply IH; [done|lia|lia]. }
  destruct (lookup_by_Some _ _ _ _ Ee) as [Hn He].
  eapply returns_try; [apply returns_index; by apply ai_hashes|]. unfold a_hashes. rewrite Ee. cbn [from_option].
  change (sb_hash (e_block e)) with (e_hash e). pose proof (entry_logs_spec f e result He Hres) as Hb. cbn zeta in Hb.
  rewrite Hn in Hb. rewrite app_assoc. set (here := result ++ block_answer f e) in *.
  destruct (Z.leb_spec (zlen here) MAX_LOGS).
  - eapply returns_try; [exact Hb|]. apply IH; [done|lia|lia].
  - cbn zeta. rewrite (zlen_app here). pose proof (zlen_nonneg (blocks_answer f a (from + 1) n)).
    destruct (Z.leb_spec (zlen here + zlen (blocks_answer f a (from + 1) n)) MAX_LOGS); [lia|].
    intros p Hp. destruct (Hb p Hp) as [Hp1 Hx]. unfold try_bind, mbind, Op_bind.
    destruct (block_logs _ _ _ _ _ _ _ p) as [[y|err] p1]; cbn in *; [by destruct Hx as [|[]]|].
    split; [done|]. destruct Hx as [Hx|[_ Hx]]; [left; congruence | by right].
Qed.

Lemma range_spec f from to : is_u64 from -> is_u64 to ->
  returns (get_logs_for_block_range from to f) (range_answer f a from to).
Proof.
  intros Hf Ht. unfold get_logs_for_block_range, range_answer. destruct (Z.ltb_spec to from); [apply returns_ret|].
  unfold is_u64 in *. assert (Hr : saturating_add u64_max (saturating_sub to from) 1 = Z.min u64_max (to - from + 1))
    by (unfold saturating_add, saturating_sub; f_equal; lia).
  rewrite Hr. destruct (Z.ltb_spec MAX_BLOCK_RANGE (to - from + 1)).
  - destruct (Z.ltb_spec MAX_BLOCK_RANGE (Z.min u64_max (to - from + 1))); [apply returns_ret|].
    unfold MAX_BLOCK_RANGE, u64_max in *. lia.
  - assert (Hm : Z.min u64_max (to - from + 1) = to - from + 1) by (unfold MAX_BLOCK_RANGE, u64_max in *; lia).
    rewrite Hm. destruct (Z.ltb_spec MAX_BLOCK_RANGE (to - from + 1)); [lia|].
    apply (range_logs_spec f _ from []); [done|lia|lia].
Qed.

(** Numbers of a filter are [u64]. *)
Definition bound_wf (b : option BlockNumberOrTag) : Prop := match b with Some (BlockNumber n) => is_u64 n | _ => True end.

Lemma resolve_bound_u64 latest b : is_u64 latest -> bound_wf b -> is_u64 (resolve_bound latest b).
Proof. destruct b as [[n|[]]|]; cbn; try done; unfold is_u64, u64_max; lia. Qed.

Lemma block_number_spec : returns block_number (ok_or (a_latest a) RpcBlockNotFound).
Proof. unfold block_number. eapply returns_try; [apply returns_index, ai_latest | apply returns_ret]. Qed.

(** What [get_logs] answers when nothing fails; in every case the index
    still represents the archive. *)
Lemma get_logs_spec f (p : Provider) : bound_wf (lf_from_block f) -> bound_wf (lf_to_block f) -> R (pv_index p) a ->
  R (pv_index (get_logs f p).2) a /\ (rel -> (get_logs f p).1 = logs_answer f a).
Proof.
  intros Hfrom Hto Hp. unfold get_logs, mbind, Op_bind. destruct (block_number_spec p Hp) as [Hp1 Hl].
  destruct (block_number p) as [latest p1]. cbn [fst snd] in *.
  assert (Hmax : forall n, a_latest a = Some n -> is_u64 n).
  { clear -Ha. intros n. destruct Ha as [|a' e _ He _]; [done|]. unfold a_latest. rewrite last_snoc. intros [= <-]. apply He. }
  set (n := match latest with Ok n => n | Err _ => 0 end).
  assert (Hn : is_u64 n /\ (rel -> n = default 0 (a_latest a))).
  { destruct Hl as [->|[He Hr]]; unfold n.
    - destruct (a_latest a) as [m|]; cbn; [by auto|]. split; [unfold is_u64, u64_max; lia | done].
    - destruct latest; [done|]. split; [unfold is_u64, u64_max; lia | done]. }
  destruct Hn as [Hu Hn]. unfold logs_answer. destruct (lf_block_hash f) as [h|].
  - assert (Hret : returns (let? number := on_index (fun index => get_block_number index h) in
        match number with Some number => get_logs_for_block_range number number f | None => mret (Ok []) end)
      match a_number a h with Some m => range_answer f a m m | None => Ok [] end).
    { eapply returns_try; [apply returns_index, ai_number|]. destruct (a_number a h) as [m|] eqn:Em; [|apply returns_ret].
      unfold a_number in Em. apply fmap_Some in Em as (e & [_ He]%lookup_by_Some & ->).
      apply range_spec; apply (wf_entries a Ha e He). }
    destruct (Hret p1 Hp1) as [Hp2 Hv]. split; [done|]. intros Hrel. by destruct Hv as [|[_ []]].
  - destruct (range_spec f (resolve_bound n (lf_from_block f)) (resolve_bound n (lf_to_block f))
      ltac:(by apply resolve_bound_u64) ltac:(by apply resolve_bound_u64) p1 Hp1) as [Hp2 Hv].
    split; [done|]. intros Hrel. rewrite <-(Hn Hrel). by destruct Hv as [|[_ []]].
Qed.

(** ** Blocks *)
Lemma full_txs_spec txs : (forall tx, tx ∈ txs -> a_transaction a (st_hash tx) = Some tx) ->
  returns (full_transactions_of (st_hash <$> txs)) (Ok (to_rpc_transaction <$> txs)).
Proof.
  induction txs as [|tx txs IH]; intros Htx; cbn [full_transactions_of fmap list_fmap]; [apply returns_ret|].
  eapply returns_try; [apply returns_index, ai_transaction|]. rewrite (Htx tx (list_elem_of_here _ _)).
  eapply returns_try; [apply IH; intros x Hx; apply Htx; by right|]. apply returns_ret.
Qed.

Lemma block_txs_spec e full : e ∈ a -> returns (block_transactions (e_number e) full)
  (Ok (if full then TxFull (to_rpc_transaction <$> e_txs e) else TxHashes (st_hash <$> e_txs e))).
Proof.
  intros He. pose proof (wf_facts a Ha) as Hf. unfold block_transactions.
  eapply returns_try; [apply returns_index; apply ai_hashes, (wf_entries a Ha e He)|].
  unfold a_hashes. rewrite (a_entry_elem a Ha e He). cbn [from_option]. destruct full; [|apply returns_ret].
  eapply returns_try; [apply full_txs_spec|apply returns_ret].
  intros tx Htx. apply lookup_by_elem; [apply Hf|]. apply all_txs_elem. by exists e.
Qed.

Lemma by_number_spec n full : is_u64 n ->
  returns (get_block_by_number n full) (Ok ((fun e => block_with_txs e full) <$> a_entry a n)).
Proof.
  intros Hn. unfold get_block_by_number. eapply returns_try; [apply returns_index; by apply ai_block|]. unfold a_block.
  destruct (a_entry a n) as [e|] eqn:Ee; cbn; [|apply returns_ret]. apply lookup_by_Some in Ee as [<- He].
  eapply returns_try; [by apply block_txs_spec|]. apply returns_ret.
Qed.

Lemma by_hash_spec h full :
  returns (get_block_by_hash h full) (Ok ((fun e => block_with_txs e full) <$> lookup_by e_hash h a)).
Proof.
  unfold get_block_by_hash. eapply returns_try; [apply returns_index, ai_block_by_hash|]. unfold a_block_by_hash.
  destruct (lookup_by e_hash h a) as [e|] eqn:Ee; cbn; [|apply returns_ret]. apply lookup_by_Some in Ee as [_ He].
  eapply returns_try; [by apply (block_txs_spec e)|]. apply returns_ret.
Qed.

End Provider.
