(* ===== verification/RpcServer.v ===== *)
(** * The JSON-RPC server

    Models [crates/rpc/eth-jsonrpc/src]: the handlers of [server.rs] over a state
    provider, with the checks they make before they ask it, and the subscription
    registry and log filter of [subscriptions.rs]. Every call of the provider is
    a point where other requests and new blocks may come in between: what they
    do is the argument [meanwhile]. The transport is not modelled. *)

From stdpp Require Import pretty.
From S2P Require Import Prelude Core Gas Collections ExecState Runtime Invoker Stf Mempool StorageBackend Server EthTx.
From S2P Require Import EthContext EthGateway Indexing IndexStore Rpc Provider.

Open Scope evolve_scope.

Definition CLIENT_VERSION : string := "evolve/0.1.0".
Definition DEFAULT_CHAIN_ID : Z := 900901.

Record RpcServerConfig := mkRpcServerConfig { rs_http_addr : string; rs_chain_id : Z }.
Definition RpcServerConfig_default : RpcServerConfig := mkRpcServerConfig "127.0.0.1:8545" DEFAULT_CHAIN_ID.

(** ** The trait [StateProvider]; [None] stands for a panic *)
Class StateProvider (P Schema : Type) := {
  sp_block_number : Op P (Result RpcError Z);
  sp_get_block_by_number : Z -> bool -> Op P (Result RpcError (option RpcBlock));
  sp_get_block_by_hash : B256 -> bool -> Op P (Result RpcError (option RpcBlock));
  sp_get_transaction_by_hash : B256 -> Op P (Result RpcError (option RpcTransaction));
  sp_get_transaction_receipt : B256 -> Op P (Result RpcError (option RpcReceipt));
  sp_get_balance : Address -> option Z -> Op P (Result RpcError Z);
  sp_get_transaction_count : Address -> option Z -> Op P (Result RpcError Z);
  sp_call : CallRequest -> option Z -> P -> option (Result RpcError bytes) * P;
  sp_estimate_gas : CallRequest -> option Z -> P -> option (Result RpcError Z) * P;
  sp_get_logs : LogFilter -> Op P (Result RpcError (list RpcLog));
  sp_send_raw_transaction : Delivery -> bytes -> P -> option (Result RpcError B256 * P);
  sp_get_code : Address -> option Z -> Op P (Result RpcError bytes);
  sp_get_storage_at : Address -> Z -> option Z -> Op P (Result RpcError bytes);
  sp_list_module_identifiers : Op P (Result RpcError (list string));
  sp_get_module_schema : string -> Op P (Result RpcError (option Schema));
  sp_get_all_schemas : Op P (Result RpcError (list Schema));
  sp_protocol_version : Op P (Result RpcError string);
  sp_gas_price : Op P (Result RpcError Z);
  sp_syncing_status : Op P (Result RpcError SyncStatus)
}.

#[global] Instance chain_state_provider {I A Q Schema} `{RuntimeDeps} `{EthCodec} `{Secp256k1} `{AlloyTx TxLegacy}
    `{AlloyTx TxEip1559} `{ChainIndex I ChainIndexError} `{SchemaCodes A Schema} `{StateQuerier Q}
    : StateProvider (ChainStateProvider I A Q Schema) Schema := {|
  sp_block_number := ChainStateProvider.block_number;
  sp_get_block_by_number := ChainStateProvider.get_block_by_number;
  sp_get_block_by_hash := ChainStateProvider.get_block_by_hash;
  sp_get_transaction_by_hash := ChainStateProvider.get_transaction_by_hash;
  sp_get_transaction_receipt := ChainStateProvider.get_transaction_receipt;
  sp_get_balance := ChainStateProvider.get_balance;
  sp_get_transaction_count := ChainStateProvider.get_transaction_count;
  sp_call := ChainStateProvider.call;
  sp_estimate_gas := ChainStateProvider.estimate_gas;
  sp_get_logs := ChainStateProvider.get_logs;
  sp_send_raw_transaction := ChainStateProvider.send_raw_transaction;
  sp_get_code := ChainStateProvider.get_code;
  sp_get_storage_at := ChainStateProvider.get_storage_at;
  sp_list_module_identifiers := ChainStateProvider.list_module_identifiers;
  sp_get_module_schema := ChainStateProvider.get_module_schema;
  sp_get_all_schemas := ChainStateProvider.get_all_schemas;
  sp_protocol_version self := (Ok (ChainStateProvider.protocol_version self), self);
  sp_gas_price self := (Ok (ChainStateProvider.gas_price self), self);
  sp_syncing_status self := (Ok (ChainStateProvider.syncing_status self), self) |}.

(** The provider without a chain. *)
Record NoopStateProvider := mkNoop {}.

#[global] Instance noop_state_provider {Schema} : StateProvider NoopStateProvider Schema := {|
  sp_block_number := mret (Ok 0);
  sp_get_block_by_number _ _ := mret (Ok None);
  sp_get_block_by_hash _ _ := mret (Ok None);
  sp_get_transaction_by_hash _ := mret (Ok None);
  sp_get_transaction_receipt _ := mret (Ok None);
  sp_get_balance _ _ := mret (Ok 0);
  sp_get_transaction_count _ _ := mret (Ok 0);
  sp_call _ _ self := (Some (Err (NotImplemented "eth_call")), self);
  sp_estimate_gas _ _ self := (Some (Err (NotImplemented "eth_estimateGas")), self);
  sp_get_logs _ := mret (Ok []);
  sp_send_raw_transaction _ _ self := Some (Err (NotImplemented "sendRawTransaction"), self);
  sp_get_code _ _ := mret (Ok []);
  sp_get_storage_at _ _ _ := mret (Ok (vec_to_list B256_ZERO));
  sp_list_module_identifiers := mret (Ok []);
  sp_get_module_schema _ := mret (Ok None);
  sp_get_all_schemas := mret (Ok []);
  sp_protocol_version := mret (Ok "0x0"%string);
  sp_gas_price := mret (Ok 0);
  sp_syncing_status := mret (Ok (NotSyncing false)) |}.

Definition MAX_RAW_TX_SIZE : Z := 128 * 1024.
Definition MAX_FEE_HISTORY_BLOCKS : Z := 1024.
Definition MAX_SHA3_INPUT : Z := 128 * 1024.

Module EthRpcServer.
Section Methods.
Context `{Keccak} {P Schema : Type} `{StateProvider P Schema} (config : RpcServerConfig) (meanwhile : P -> P).

(** [map_err(ErrorObjectOwned::from)]. *)
Definition rpc {A} (m : Op P (Result RpcError A)) : Op P (Result ErrorObjectOwned A) := fun p =>
  let '(r, p) := m p in (match r with Ok a => Ok a | Err e => Err (error_object e) end, p).

(** Others run. *)
Definition await : Op P (Result ErrorObjectOwned unit) := fun p => (Ok tt, meanwhile p).

Definition resolve_block_number (block : option BlockNumberOrTag) : Op P (Result RpcError (option Z)) :=
  match block with
  | None => mret (Ok None)
  | Some (BlockNumber n) => mret (Ok (Some n))
  | Some (Tag tag) =>
      match tag with
      | TagLatest | TagSafe | TagFinalized => let? n := sp_block_number in mret (Ok (Some n))
      | TagEarliest => mret (Ok (Some 0))
      | TagPending => let? n := sp_block_number in mret (Ok (Some n))
      end
  end.

Definition chain_id : Z := rs_chain_id config.

Definition block_number : Op P (Result ErrorObjectOwned Z) := rpc sp_block_number.

Definition get_balance (address : Address) (block : option BlockNumberOrTag) : Op P (Result ErrorObjectOwned Z) :=
  let? block_num := rpc (resolve_block_number block) in
  do? await in
  rpc (sp_get_balance address block_num).

Definition get_transaction_count (address : Address) (block : option BlockNumberOrTag) : Op P (Result ErrorObjectOwned Z) :=
  let? block_num := rpc (resolve_block_number block) in
  do? await in
  rpc (sp_get_transaction_count address block_num).

Definition get_block_by_number (block : BlockNumberOrTag) (full_transactions : bool)
    : Op P (Result ErrorObjectOwned (option RpcBlock)) :=
  let? block_num := rpc (resolve_block_number (Some block)) in
  do? await in
  match block_num with
  | Some n => rpc (sp_get_block_by_number n full_transactions)
  | None => mret (Ok None)
  end.

Definition get_block_by_hash (hash : B256) (full_transactions : bool) : Op P (Result ErrorObjectOwned (option RpcBlock)) :=
  rpc (sp_get_block_by_hash hash full_transactions).

Definition get_transaction_by_hash (hash : B256) : Op P (Result ErrorObjectOwned (option RpcTransaction)) :=
  rpc (sp_get_transaction_by_hash hash).

Definition get_transaction_receipt (hash : B256) : Op P (Result ErrorObjectOwned (option RpcReceipt)) :=
  rpc (sp_get_transaction_receipt hash).

(** The end of a request that runs code. *)
Definition rpc_run {A} (x : option (Result RpcError A) * P) : option (Result ErrorObjectOwned A) * P :=
  ((fun r => match r with Ok a => Ok a | Err e => Err (error_object e) end) <$> x.1, x.2).

Definition call (request : CallRequest) (block : option BlockNumberOrTag) (p : P)
    : option (Result ErrorObjectOwned bytes) * P :=
  match rpc (resolve_block_number block) p with
  | (Err e, p) => (Some (Err e), p)
  | (Ok block_num, p) => rpc_run (sp_call request block_num (meanwhile p))
  end.

Definition estimate_gas (request : CallRequest) (block : option BlockNumberOrTag) (p : P)
    : option (Result ErrorObjectOwned Z) * P :=
  match rpc (resolve_block_number block) p with
  | (Err e, p) => (Some (Err e), p)
  | (Ok block_num, p) => rpc_run (sp_estimate_gas request block_num (meanwhile p))
  end.

Definition gas_price : Op P (Result ErrorObjectOwned Z) := rpc sp_gas_price.

Definition send_raw_transaction (delivery : Delivery) (data : bytes) (p : P) : option (Result ErrorObjectOwned B256 * P) :=
  if bool_decide (data = []) then Some (Err (error_object (InvalidTransaction [Str "empty transaction"])), p)
  else if MAX_RAW_TX_SIZE <? zlen data then
    Some (Err (error_object (InvalidTransaction [Str "transaction exceeds maximum size of "; Num MAX_RAW_TX_SIZE;
                                                 Str " bytes"])), p)
  else
    '(r, p) ← sp_send_raw_transaction delivery data p;
    Some (match r with Ok h => Ok h | Err e => Err (error_object e) end, p).

Definition get_logs (filter : LogFilter) : Op P (Result ErrorObjectOwned (list RpcLog)) := rpc (sp_get_logs filter).

Definition syncing : Op P (Result ErrorObjectOwned SyncStatus) := rpc sp_syncing_status.

Definition protocol_version : Op P (Result ErrorObjectOwned string) := rpc sp_protocol_version.

Definition get_code (address : Address) (block : option BlockNumberOrTag) : Op P (Result ErrorObjectOwned bytes) :=
  let? block_num := rpc (resolve_block_number block) in
  do? await in
  rpc (sp_get_code address block_num).

Definition get_storage_at (address : Address) (position : Z) (block : option BlockNumberOrTag)
    : Op P (Result ErrorObjectOwned bytes) :=
  let? block_num := rpc (resolve_block_number block) in
  do? await in
  rpc (sp_get_storage_at address position block_num).

(** The ratios, which are all [0.0], as integers. *)
Definition fee_history (block_count : Z) : Result ErrorObjectOwned FeeHistory :=
  if (block_count =? 0) || (MAX_FEE_HISTORY_BLOCKS <? block_count) then
    Err (error_object (InvalidParams [Str "block count must be between 1 and "; Num MAX_FEE_HISTORY_BLOCKS]))
  else
    let count := Z.to_nat block_count in
    Ok (mkFeeHistory 0 (replicate (count + 1) 0) (replicate count 0) None).

Definition max_priority_fee_per_gas : Result ErrorObjectOwned Z := Ok 0.

Definition transaction_count (b : RpcBlock) : Z :=
  match rb_transactions b with
  | Some (TxHashes h) => zlen h
  | Some (TxFull f) => zlen f
  | None => 0
  end.

Definition get_block_transaction_count_by_number (block : BlockNumberOrTag) : Op P (Result ErrorObjectOwned (option Z)) :=
  let? block_data := get_block_by_number block false in
  mret (Ok (transaction_count <$> block_data)).

Definition get_block_transaction_count_by_hash (hash : B256) : Op P (Result ErrorObjectOwned (option Z)) :=
  let? block_data := get_block_by_hash hash false in
  mret (Ok (transaction_count <$> block_data)).

Definition sha3 (data : bytes) : Result ErrorObjectOwned B256 :=
  if MAX_SHA3_INPUT <? zlen data then
    Err (error_object (InvalidParams [Str "input exceeds maximum allowed size of "; Num MAX_SHA3_INPUT; Str " bytes"]))
  else Ok (keccak256 data).

Definition client_version : Result ErrorObjectOwned string := Ok CLIENT_VERSION.

Definition version : Result ErrorObjectOwned string := Ok (pretty (Z.to_N (rs_chain_id config))).
Definition listening : Result ErrorObjectOwned bool := Ok true.
Definition peer_count : Result ErrorObjectOwned Z := Ok 0.

Definition list_modules : Op P (Result ErrorObjectOwned (list string)) := rpc sp_list_module_identifiers.

Definition get_module_schema (id : string) : Op P (Result ErrorObjectOwned (option Schema)) := rpc (sp_get_module_schema id).

Definition get_all_schemas : Op P (Result ErrorObjectOwned (list Schema)) := rpc sp_get_all_schemas.

End Methods.
End EthRpcServer.

(** ** [subscriptions.rs] *)
Inductive SubscriptionKind := NewHeads | SubLogs | NewPendingTransactions | SubSyncing.

#[export] Instance SubscriptionKind_eq_dec : EqDecision SubscriptionKind.
Proof. solve_decision. Defined.

Record LogSubscriptionParams := mkLogSubscriptionParams {
  ls_address : option FilterAddress; ls_topics : option (list (option FilterTopic)) }.

Record Subscription := mkSubscription {
  sub_id : Z; sub_kind : SubscriptionKind; sub_params : option LogSubscriptionParams }.

(** The channels, which belong to the transport, are left out. *)
Record SubscriptionManager := mkSubscriptionManager { next_id : Z; subscriptions : gmap Z Subscription }.

Module SubscriptionManager.

Definition new : SubscriptionManager := mkSubscriptionManager 1 ∅.

Definition subscribe (self : SubscriptionManager) (kind : SubscriptionKind) (params : option LogSubscriptionParams)
    : Z * SubscriptionManager :=
  let id := next_id self in
  (id, mkSubscriptionManager (wrap64 (id + 1)) (<[id := mkSubscription id kind params]> (subscriptions self))).

Definition unsubscribe (self : SubscriptionManager) (id : Z) : bool * SubscriptionManager :=
  (bool_decide (is_Some (subscriptions self !! id)),
   mkSubscriptionManager (next_id self) (delete id (subscriptions self))).

Definition get (self : SubscriptionManager) (id : Z) : option Subscription := subscriptions self !! id.
Definition subscription_count (self : SubscriptionManager) : Z := Z.of_nat (size (subscriptions self)).

(** [log.topics.get(i)] of the filters from the [i]-th on. *)
Fixpoint topics_match (i : nat) (topic_filters : list (option FilterTopic)) (log : RpcLog) : bool :=
  match topic_filters with
  | [] => true
  | filter :: topic_filters =>
      match filter with
      | None => topics_match (S i) topic_filters log
      | Some filter =>
          let log_topic := rl_topics log !! i in
          let matches :=
            match filter with
            | SingleTopic t => bool_decide (log_topic = Some t)
            | MultipleTopics ts => from_option (fun lt => bool_decide (lt ∈ ts)) false log_topic
            end in
          if matches then topics_match (S i) topic_filters log else false
      end
  end.

Definition log_matches_filter (log : RpcLog) (params : option LogSubscriptionParams) : bool :=
  match params with
  | None => true
  | Some params =>
      from_option (fun f => match f with
                            | SingleAddress addr => bool_decide (rl_address log = addr)
                            | MultipleAddresses addrs => bool_decide (rl_address log ∈ addrs)
                            end) true (ls_address params) &&
      from_option (fun f => topics_match 0 f log) true (ls_topics params)
  end.

End SubscriptionManager.

(** The kinds of [eth_subscribe]. *)
Definition subscription_kind (kind : string) : option SubscriptionKind :=
  if bool_decide (kind = "newHeads"%string) then Some NewHeads
  else if bool_decide (kind = "logs"%string) then Some SubLogs
  else if bool_decide (kind = "newPendingTransactions"%string) then Some NewPendingTransactions
  else if bool_decide (kind = "syncing"%string) then Some SubSyncing
  else None.

(** [kind.chars().take(n)] of a UTF-8 string: a byte of the form [10xxxxxx]
    continues the character before it. *)
Fixpoint take_chars (n : nat) (s : string) : string :=
  match s with
  | EmptyString => EmptyString
  | String c s' =>
      if Z.land (Z.of_N (Ascii.N_of_ascii c)) 192 =? 128 then String c (take_chars n s')
      else match n with O => EmptyString | S n => String c (take_chars n s') end
  end.

(** [eth_subscribe]. [params] is what [serde_json] makes of the parameters:
    a filter or its error message. [accepted] says whether [pending.accept()]
    succeeds, which comes after the registration. The result is the rejection
    or failure, or the id and the filter the streaming task is started with. *)
Inductive SubscribeOutcome :=
| Rejected (e : ErrorObjectOwned)
| Failed (e : ErrorObjectOwned)
| Disconnected
| Streaming (id : Z) (kind : SubscriptionKind) (filter : option LogSubscriptionParams).

Definition log_params_of (kind : SubscriptionKind) (params : option (Result string LogSubscriptionParams))
    : Result ErrorObjectOwned (option LogSubscriptionParams) :=
  if bool_decide (kind = SubLogs) then
    match params with
    | None => Ok None
    | Some (Ok p) => Ok (Some p)
    | Some (Err e) => Err (mkErrorObject (-32602) [Str "Invalid log filter params: "; Str e])
    end
  else Ok None.

Definition eth_subscribe (self : SubscriptionManager) (kind : string)
    (params : option (Result string LogSubscriptionParams)) (accepted : bool) : SubscribeOutcome * SubscriptionManager :=
  match subscription_kind kind with
  | None => (Rejected (mkErrorObject (-32602) [Str "Unknown subscription type: "; Str (take_chars 64 kind)]), self)
  | Some k =>
      match log_params_of k params with
      | Err e => (Failed e, self)
      | Ok log_params =>
          let '(sub_id, self) := SubscriptionManager.subscribe self k log_params in
          (if accepted then Streaming sub_id k log_params else Disconnected, self)
      end
  end.

(** ** The streaming tasks

    A task sees a sequence of turns of its [select!]: the client closes, or the
    broadcast channel delivers a result; a delivery carries whether the sink
    takes a message sent for it. The result is what the client receives. *)
Inductive RecvResult (A : Type) := Received (a : A) | Lagged (n : Z) | ChannelClosed.
Arguments Received {A} _.
Arguments Lagged {A} _.
Arguments ChannelClosed {A}.

Inductive Turn (A : Type) := SinkClosed | Recv (result : RecvResult A) (send_ok : bool).
Arguments SinkClosed {A}.
Arguments Recv {A} _ _.

Fixpoint stream_new_heads (turns : list (Turn RpcBlock)) : list RpcBlock :=
  match turns with
  | [] | SinkClosed :: _ | Recv ChannelClosed _ :: _ => []
  | Recv (Received block) send_ok :: turns => if send_ok then block :: stream_new_heads turns else []
  | Recv (Lagged _) _ :: turns => stream_new_heads turns
  end.

Fixpoint stream_logs (filter : option LogSubscriptionParams) (turns : list (Turn RpcLog)) : list RpcLog :=
  match turns with
  | [] | SinkClosed :: _ | Recv ChannelClosed _ :: _ => []
  | Recv (Received log) send_ok :: turns =>
      if negb (SubscriptionManager.log_matches_filter log filter) then stream_logs filter turns
      else if send_ok then log :: stream_logs filter turns else []
  | Recv (Lagged _) _ :: turns => stream_logs filter turns
  end.

Fixpoint stream_pending_transactions (turns : list (Turn B256)) : list B256 :=
  match turns with
  | [] | SinkClosed :: _ | Recv ChannelClosed _ :: _ => []
  | Recv (Received hash) send_ok :: turns => if send_ok then hash :: stream_pending_transactions turns else []
  | Recv (Lagged _) _ :: turns => stream_pending_transactions turns
  end.

Fixpoint stream_sync_status (turns : list (Turn SyncStatus)) : list SyncStatus :=
  match turns with
  | [] | SinkClosed :: _ | Recv ChannelClosed _ :: _ => []
  | Recv (Received status) send_ok :: turns => if send_ok then status :: stream_sync_status turns else []
  | Recv (Lagged _) _ :: turns => stream_sync_status turns
  end.
