(* ===== verification/RpcTheorems.v ===== *)
(** * The RPC layer

    What the RPC layer answers, against the executed code and the archive of
    blocks: the facts first, then the theorems. *)

From S2P Require Import Prelude Core Gas Collections ExecState ExecStateFacts Runtime Invoker Token Codec Stf.
From S2P Require Import InvokerFacts Isolation CollectionFacts TokenFacts TokenExample Mempool StorageBackend Server.
From S2P Require Import EthTx EthContext EthGateway EthEoa EthExample EoaFacts Indexing IndexStore IndexStoreFacts.
From S2P Require Import IndexSpec IndexTheorems Rpc Querier Provider ProviderFacts RpcServer.

Open Scope evolve_scope.

(** ** Facts about the RPC layer

    The reads of the querier against the key layout of the executed code, and
    the log filter of subscriptions against the one of [eth_getLogs]. *)

(** The storage of one account. *)
Definition account_store (storage : bytes -> SdkResult (option bytes)) (a : AccountId) : Isolation.Store :=
  fun k => storage (account_storage_key a k).

Section Querier.
Context `{RuntimeDeps} `{CollectionCodec} `{!TokenCodec} `{EthCodec} `{Borsh string} `{CallJson}.
Context `{Secp256k1} `{AlloyTx TxLegacy} `{AlloyTx TxEip1559} {X : Type} `{RpcExecutionContext X}.

(** A read of a value that is absent or decodes. *)
Lemma rpc_read_u128 (storage : bytes -> SdkResult (option bytes)) k what (o : option Z) :
  read (V := U128) storage k = Ok o ->
  (value ← rpc_err (storage k) "storage read: ";
   match value with
   | Some value => rpc_err (StorageStateQuerier.get_u128 value) what
   | None => Ok (0 : U128)
   end) = Ok (default 0 o : U128).
Proof.
  unfold read. destruct (storage k) as [[b|]|]; cbn; [|by intros [= <-]|done].
  unfold StorageStateQuerier.get_u128, Message.get, Message.from_bytes. cbn.
  destruct (decode_value b); cbn; [by intros [= <-] | done].
Qed.

Lemma read_balance_spec (q : StorageStateQuerier X) bal supply a k :
  token_rep (account_store (sq_storage q) (sq_token_account_id q)) bal supply ->
  Map.make_key Token.balances a = Ok k ->
  StorageStateQuerier.read_balance q a = Ok (default 0 (bal !! a) : U128).
Proof.
  intros Hr Hk. pose proof (rep_balances _ _ _ Hr _ _ Hk) as Hv. unfold StorageStateQuerier.read_balance.
  unfold Map.make_key in Hk. destruct (encode_value a) as [b|]; [|done]. apply (inj Ok) in Hk as <-. cbn.
  by apply rpc_read_u128.
Qed.

(** A storage word is never read from the storage of an account: the key it
    reads starts with the account, not with the prefix of account storage. *)
Lemma word_key_other a k b k' :
  head (AccountId.as_bytes a) ≠ Some ACCOUNT_STORAGE_PREFIX -> AccountId.as_bytes a ++ k ≠ account_storage_key b k'.
Proof.
  intros Hh E. apply Hh. destruct a as [v]. unfold AccountId.as_bytes in *. cbn [account_id_bytes] in *.
  inv_vec v. intros x l E Hh. unfold account_storage_key in E. cbn in *. congruence.
Qed.

End Querier.

(** ** Log filters *)

Definition params_of (f : LogFilter) : LogSubscriptionParams := mkLogSubscriptionParams (lf_address f) (lf_topics f).

Lemma drop_tail {A} (l : list A) : forall i, drop (S i) l = tail (drop i l).
Proof. induction l as [|x l IH]; intros [|i]; cbn [drop tail]; [done..|]. apply IH. Qed.

Lemma topics_filters_agree log fs : forall i,
  SubscriptionManager.topics_match i fs log = topics_match fs (drop i (rl_topics log)).
Proof.
  induction fs as [|[t|] fs IH]; intros i; cbn [SubscriptionManager.topics_match topics_match]; [done| |].
  - destruct (drop i (rl_topics log)) as [|x l] eqn:E.
    + assert (rl_topics log !! i = None) as ->
        by (apply lookup_ge_None; apply (f_equal length) in E; rewrite length_drop in E; cbn in E; lia).
      by destruct t.
    + assert (rl_topics log !! i = Some x) as Hi
        by (rewrite <-(Nat.add_0_r i), <-lookup_drop, E; done).
      rewrite Hi, IH, drop_tail, E. cbn [tail from_option].
      destruct t; [|done]. by rewrite (bool_decide_ext (Some x = Some t) (x = t)) by (split; congruence).
  - by rewrite IH, drop_tail.
Qed.

Lemma filters_agree f log n h th i k :
  SubscriptionManager.log_matches_filter (to_rpc_log log n h th i k) (Some (params_of f)) = log_matches f log.
Proof.
  unfold SubscriptionManager.log_matches_filter, log_matches. cbn.
  assert (forall fs, SubscriptionManager.topics_match 0 fs (to_rpc_log log n h th i k) = topics_match fs (lg_topics log)) as Ht
    by (intros fs; apply topics_filters_agree).
  destruct (lf_address f) as [[]|], (lf_topics f) as [fs|]; cbn; by rewrite ?Ht.
Qed.

Definition any_log : LogFilter := mkLogFilter None None None None None.

(** A stored log where it stands in the chain, and its RPC form. *)
Record PlacedLog := mkPlacedLog {
  pl_log : StoredLog; pl_number : Z; pl_block_hash : B256; pl_tx_hash : B256; pl_tx_index : Z; pl_log_index : Z }.

Definition placed_rpc (x : PlacedLog) : RpcLog :=
  to_rpc_log (pl_log x) (pl_number x) (pl_block_hash x) (pl_tx_hash x) (pl_tx_index x) (pl_log_index x).

(** What a channel delivers to a client that stays connected, and the logs
    among it: those before the channel closes that are not lost to lagging. *)
Definition delivery (r : RecvResult PlacedLog) : Turn RpcLog :=
  Recv (match r with Received x => Received (placed_rpc x) | Lagged n => Lagged n | ChannelClosed => ChannelClosed end) true.

Fixpoint heard {A} (rx : list (RecvResult A)) : list A :=
  match rx with
  | [] | ChannelClosed :: _ => []
  | Received a :: rx => a :: heard rx
  | Lagged _ :: rx => heard rx
  end.

(** ** Theorems about the RPC layer

    Logs by query and by subscription, balances, storage words, and the tag
    [latest] while blocks arrive. *)

(** ** Over an index that represents an archive *)
Section Server.
Context `{RuntimeDeps} `{CollectionCodec} `{!TokenCodec} `{EthCodec} `{Borsh string} `{CallJson}.
Context `{Secp256k1} `{AlloyTx TxLegacy} `{AlloyTx TxEip1559} {X : Type} `{RpcExecutionContext X}.
Context {I A Schema : Type} `{ChainIndex I ChainIndexError} `{SchemaCodes A Schema}.
Context (rel : Prop) (R : I -> Archive -> Prop) `{!ArchiveIndex I ChainIndexError rel R}.

Abbreviation Q := (StorageStateQuerier X).
Abbreviation P := (ChainStateProvider I A Q Schema).

(** [map_err] of the server. *)
Definition rpc_result {B} (r : Result RpcError B) : Result ErrorObjectOwned B :=
  match r with Ok b => Ok b | Err e => Err (error_object e) end.

(** C16: On a reliable index, [eth_getLogs] answers exactly the logs of the
    stored blocks of the range that match the filter, in order, each with its
    index over the whole block; it refuses reversed ranges, ranges of more than
    1000 blocks and answers of more than 10000 logs. *)
Theorem get_logs_exact a f (p : P) :
  archive_wf a -> rel -> R (pv_index p) a -> bound_wf (lf_from_block f) -> bound_wf (lf_to_block f) ->
  (EthRpcServer.get_logs f p).1 = rpc_result (logs_answer f a) /\ R (pv_index (EthRpcServer.get_logs f p).2) a.
Proof.
  intros Ha Hrel Hp Hf Ht. destruct (get_logs_spec rel R a Ha f p Hf Ht Hp) as [Hk Hl]. specialize (Hl Hrel).
  unfold EthRpcServer.get_logs, EthRpcServer.rpc. cbn [sp_get_logs chain_state_provider].
  destruct (ChainStateProvider.get_logs f p) as [r p']. cbn in *. by subst.
Qed.

(** ** State queries *)

(** The latest block, as the provider sees it. *)
Lemma state_block_spec a (p : P) block : rel -> R (pv_index p) a ->
  (ChainStateProvider.resolve_state_query_block block p).1 =
    match a_latest a with
    | None => Err RpcBlockNotFound
    | Some latest =>
        match block with
        | None => Ok latest
        | Some n => if n =? latest then Ok n
                    else Err (InvalidParams [Str "historical state queries are not supported: requested block "; Num n;
                                             Str ", latest block is "; Num latest])
        end
    end /\
  pv_state_querier (ChainStateProvider.resolve_state_query_block block p).2 = pv_state_querier p.
Proof.
  intros Hrel Hp. destruct (ai_latest a (pv_index p) Hp) as [_ Hl].
  unfold ChainStateProvider.resolve_state_query_block, ChainStateProvider.on_index, try_bind, mbind, Op_bind.
  destruct (latest_block_number (pv_index p)) as [[o|e] i]; cbn in *; [|tauto]. subst o. by destruct (a_latest a).
Qed.

Lemma balance_steps a (p : P) (q : Q) address block : rel -> R (pv_index p) a -> pv_state_querier p = Some q ->
  (ChainStateProvider.get_balance address block p).1 =
  match (ChainStateProvider.resolve_state_query_block block p).1 with
  | Ok _ => q_get_balance q address
  | Err e => Err e
  end.
Proof.
  intros Hrel Hp Hq. destruct (state_block_spec a p block Hrel Hp) as [_ Hs].
  unfold ChainStateProvider.get_balance, try_bind, mbind, Op_bind.
  destruct (ChainStateProvider.resolve_state_query_block block p) as [[n|e] p1]; cbn in *; [|done].
  by rewrite Hs, Hq.
Qed.

(** C24: [eth_getBalance] of the current state answers the balance that the
    token account records for the account of the address: the layout of keys
    that the querier reads without running code is the one that the code of the
    token writes. *)
Theorem rpc_balance_is_token_balance a (meanwhile : P -> P) (p : P) (q : Q) address x k bal supply latest :
  rel -> R (pv_index (meanwhile p)) a -> a_latest a = Some latest -> pv_state_querier (meanwhile p) = Some q ->
  StorageStateQuerier.resolve_account_id q address = Ok (Some x) -> Map.make_key Token.balances x = Ok k ->
  token_rep (account_store (sq_storage q) (sq_token_account_id q)) bal supply ->
  (EthRpcServer.get_balance meanwhile address None p).1 = Ok (default 0 (bal !! x)).
Proof.
  intros Hrel Hp Hlat Hq Hx Hk Hrep. pose proof (balance_steps a (meanwhile p) q address None Hrel Hp Hq) as Hb.
  destruct (state_block_spec a (meanwhile p) None Hrel Hp) as [Hs _]. rewrite Hs, Hlat in Hb.
  cbn [q_get_balance storage_state_querier] in Hb. unfold StorageStateQuerier.get_balance in Hb. rewrite Hx in Hb.
  cbn in Hb. rewrite (read_balance_spec q bal supply x k Hrep Hk) in Hb.
  unfold EthRpcServer.get_balance, EthRpcServer.rpc, EthRpcServer.await, try_bind, mbind, Op_bind. cbn.
  destruct (ChainStateProvider.get_balance address None (meanwhile p)) as [r p']. cbn in *. by subst.
Qed.

(** [eth_getBalance] at [latest] fails when a block is stored after the
    server has resolved the tag and before the provider reads the state: the
    number it resolved is then refused as historical. *)
Theorem latest_tag_race a e (meanwhile : P -> P) (p : P) (q : Q) address latest :
  rel -> R (pv_index p) a -> a_latest a = Some latest -> latest ≠ e_number e ->
  (forall p', R (pv_index p') a -> R (pv_index (meanwhile p')) (a ++ [e]) /\ pv_state_querier (meanwhile p') = Some q) ->
  (EthRpcServer.get_balance meanwhile address (Some (Tag TagLatest)) p).1 =
  Err (mkErrorObject codes.INVALID_PARAMS
         [Str "historical state queries are not supported: requested block "; Num latest;
          Str ", latest block is "; Num (e_number e)]).
Proof.
  intros Hrel Hp Hlat Hne Hm. destruct (block_number_spec rel R a p Hp) as [Hp1 Hn]. rewrite Hlat in Hn.
  destruct Hn as [Hn|[_ ?]]; [|done]. unfold EthRpcServer.get_balance, EthRpcServer.rpc, EthRpcServer.await,
    EthRpcServer.resolve_block_number, try_bind, mbind, Op_bind. cbn [sp_block_number sp_get_balance chain_state_provider].
  destruct (ChainStateProvider.block_number p) as [r p1]. cbn in Hn, Hp1. subst r. cbn.
  destruct (Hm p1 Hp1) as [Hp2 Hq]. pose proof (balance_steps (a ++ [e]) (meanwhile p1) q address (Some latest) Hrel Hp2 Hq) as Hb.
  destruct (state_block_spec (a ++ [e]) (meanwhile p1) (Some latest) Hrel Hp2) as [Hs _]. rewrite Hs in Hb.
  unfold a_latest in Hb. rewrite last_snoc in Hb. cbn in Hb. destruct (Z.eqb_spec latest (e_number e)); [done|].
  destruct (ChainStateProvider.get_balance address (Some latest) (meanwhile p1)) as [r p3]. cbn in *. by subst.
Qed.

(** [eth_getStorageAt] never shows what an account stores: on two states
    that differ only in what accounts have stored, and that resolve the address
    alike, it answers the same word. (The identifiers that start with the byte
    of the storage prefix are the exception: there it reads the storage of
    another account.) *)
Theorem storage_at_ignores_storage (q q' : Q) address x position block :
  StorageStateQuerier.resolve_account_id q address = Ok (Some x) ->
  StorageStateQuerier.resolve_account_id q' address = Ok (Some x) ->
  head (AccountId.as_bytes x) ≠ Some ACCOUNT_STORAGE_PREFIX ->
  (forall k, (forall b k', k ≠ account_storage_key b k') -> sq_storage q k = sq_storage q' k) ->
  StorageStateQuerier.get_storage_at q address position block = StorageStateQuerier.get_storage_at q' address position block.
Proof.
  intros Hx Hx' Hh Hs. unfold StorageStateQuerier.get_storage_at. rewrite Hx, Hx'. cbn.
  assert (Hread : forall k, StorageStateQuerier.read_account_storage q x k = StorageStateQuerier.read_account_storage q' x k).
  { intros k. unfold StorageStateQuerier.read_account_storage, StorageStateQuerier.read_raw_storage.
    rewrite Hs; [done|]. intros b k'. by apply word_key_other. }
  rewrite !Hread. done.
Qed.

End Server.

(** C25: the filter of a log subscription is the filter of [eth_getLogs]. Of the
    logs its channel delivers before it closes, wherever they stand in the
    chain, a client that subscribed with the addresses and topics of a filter
    and stays connected is sent exactly those that [eth_getLogs] selects for
    the filter, in order; what it misses by lagging changes nothing for the
    others. (Outside tests the channel is given no logs yet.) *)
Theorem subscription_filters_as_get_logs f (rx : list (RecvResult PlacedLog)) :
  stream_logs (Some (params_of f)) (delivery <$> rx) =
  placed_rpc <$> filter (fun x => log_matches f (pl_log x) = true) (heard rx).
Proof.
  induction rx as [|[x|n|] rx IH]; [done| |exact IH|done].
  rewrite fmap_cons. cbn [stream_logs delivery heard]. unfold placed_rpc at 1. rewrite filters_agree.
  destruct (log_matches f (pl_log x)) eqn:E; cbn [negb].
  - rewrite filter_cons_True by done. rewrite fmap_cons. by f_equal.
  - by rewrite filter_cons_False by congruence.
Qed.

(** ** The theorems at work *)
Import Reference.

#[export] Instance no_json : CallJson := {| call_to_vec _ _ := Some [] |}.
#[export] Instance no_schemas : SchemaCodes unit unit := {| list_identifiers _ := []; code_schema _ _ := Ok None |}.

(** The chain of [TokenExample], where the address [victim] belongs to [alice];
    and the same chain after [alice] has stored a word in slot [7]. *)
Definition written (k v : bytes) (storage : bytes -> SdkResult (option bytes)) (key : bytes) : SdkResult (option bytes) :=
  if bool_decide (key = k) then Ok (Some v) else storage key.

Definition rpc_storage : bytes -> SdkResult (option bytes) :=
  written (account_storage_key RUNTIME_ACCOUNT_ID (addr_to_id_key victim)) (AccountId.as_bytes alice) (token_base None).

Definition slot_storage : bytes -> SdkResult (option bytes) :=
  written (account_storage_key alice [x07]) [x4d] rpc_storage.

Definition rpc_querier (storage : bytes -> SdkResult (option bytes)) : StorageStateQuerier (RpcStf (list TxContext)) :=
  StorageStateQuerier.new storage token_account eth_codes (mkRpcStf eth_stf 10).

Definition rpc_provider (index : RefIndex) :
    ChainStateProvider RefIndex unit (StorageStateQuerier (RpcStf (list TxContext))) unit :=
  ChainStateProvider.with_state_querier
    (ChainStateProvider.with_account_codes index (mkChainStateProviderConfig 1 DEFAULT_PROTOCOL_VERSION 0 (NotSyncing false)) tt)
    (rpc_querier rpc_storage).

Definition rpc_db : RefDb := mkRefDb (tables_of [ex_entry1]) (tables_of [ex_entry1]).

Definition rpc_index : RefIndex :=
  match PersistentChainIndex.new rpc_db with
  | Some (Ok i) => (PersistentChainIndex.initialize i).2
  | _ => mkPersistentChainIndex rpc_db (mkChainCache (lru_new 0) (lru_new 0) (lru_new 0) (lru_new 0) None)
  end.

Lemma rpc_index_represents : represents rpc_index [ex_entry1].
Proof.
  eapply (opened rpc_db); [reflexivity|apply ex_archive_wf|by intros r log _ _; eexists|reflexivity|reflexivity].
Qed.

Definition topic_filter (block_hash : option B256) : LogFilter :=
  mkLogFilter None None (Some (SingleAddress (lg_address ex_log))) (Some [Some (SingleTopic (ex_hash xee))]) block_hash.

Lemma get_logs_exact_witness :
  (EthRpcServer.get_logs (topic_filter None) (rpc_provider rpc_index)).1 = rpc_result (logs_answer (topic_filter None) [ex_entry1]).
Proof.
  apply (get_logs_exact (reliable RefDb) represents [ex_entry1] (topic_filter None) (rpc_provider rpc_index));
    [apply ex_archive_wf | apply ref_reliable | apply rpc_index_represents | done | done].
Defined.

Lemma rpc_token_rep : token_rep (account_store rpc_storage token_account) {[alice := 100]} (Some 100).
Proof.
  eapply token_rep_proper; [|apply (token_rep_base None)]. intros k. unfold account_store, rpc_storage, written.
  rewrite bool_decide_false by (intros [? _]%account_storage_key_inj; done).
  unfold own, view. cbn [overlay base_storage ExecutionState.new token_state]. rewrite lookup_empty.
  by destruct (token_base None _) as [[]|].
Qed.

Lemma rpc_balance_is_token_balance_witness :
  (EthRpcServer.get_balance id victim None (rpc_provider rpc_index)).1 = Ok 100.
Proof.
  assert (E : default 0 (({[alice := 100]} : gmap AccountId Z) !! alice) = 100) by by rewrite lookup_singleton_eq.
  rewrite <-E.
  apply (rpc_balance_is_token_balance (reliable RefDb) represents [ex_entry1] id (rpc_provider rpc_index)
           (rpc_querier rpc_storage) victim alice balance_key {[alice := 100]} (Some 100) 1);
    [apply ref_reliable | apply rpc_index_represents | done | done | by vm_compute | by vm_compute | apply rpc_token_rep].
Defined.

(** The index takes in the next block. *)
Definition next_block (p : ChainStateProvider RefIndex unit (StorageStateQuerier (RpcStf (list TxContext))) unit) :
    ChainStateProvider RefIndex unit (StorageStateQuerier (RpcStf (list TxContext))) unit :=
  rpc_provider (store_block (pv_index p) (e_block ex_entry2) (e_txs ex_entry2) (e_receipts ex_entry2)).2.

Lemma next_block_represents p : represents (pv_index p) [ex_entry1] ->
  represents (pv_index (next_block p)) ([ex_entry1] ++ [ex_entry2]).
Proof.
  intros Hp. pose proof (ai_store (pv_index p) [ex_entry1] ex_entry2 Hp (proj1 ex_entry2_ok) (proj2 ex_entry2_ok)) as Hs.
  unfold next_block. destruct (store_block _ _ _ _) as [[u|e] i]; cbn in *; [apply Hs|]. destruct Hs as [_ Hs].
  destruct (Hs ref_reliable).
Qed.

Lemma latest_tag_race_witness :
  (EthRpcServer.get_balance next_block victim (Some (Tag TagLatest)) (rpc_provider rpc_index)).1 =
  Err (mkErrorObject codes.INVALID_PARAMS
         [Str "historical state queries are not supported: requested block "; Num 1; Str ", latest block is "; Num 2]).
Proof.
  apply (latest_tag_race (reliable RefDb) represents [ex_entry1] ex_entry2 next_block (rpc_provider rpc_index)
           (rpc_querier rpc_storage) victim 1);
    [apply ref_reliable | apply rpc_index_represents | done | done |].
  intros p Hp. split; [by apply next_block_represents | done].
Defined.

(** [alice] has stored a word in slot [7]; the query still answers the same as
    before: the zero word. *)
Lemma storage_at_ignores_storage_witness :
  slot_storage (account_storage_key alice [x07]) = Ok (Some [x4d]) /\
  StorageStateQuerier.get_storage_at (rpc_querier slot_storage) victim 7 None =
  StorageStateQuerier.get_storage_at (rpc_querier rpc_storage) victim 7 None /\
  StorageStateQuerier.get_storage_at (rpc_querier rpc_storage) victim 7 None = Ok (vec_to_list B256_ZERO).
Proof.
  split_and!; [by vm_compute | | by vm_compute].
  apply (storage_at_ignores_storage (rpc_querier slot_storage) (rpc_querier rpc_storage) victim alice);
    [by vm_compute | by vm_compute | by vm_compute |].
  intros k Hk. cbn. unfold slot_storage, written at 1. by rewrite bool_decide_false by apply Hk.
Defined.

(** A second log of a block: [eth_getLogs] numbers it over the block, the
    receipt of its transaction starts again. *)
Definition two_logs : Entry :=
  mkEntry (ex_block 1 x11 2) [ex_tx 1 x11 0 x71; ex_tx 1 x11 1 x72]
    [ex_receipt 1 x11 0 x71 1 [ex_log]; ex_receipt 1 x11 1 x72 1 [ex_log]].

Example receipt_log_index_restarts :
  rl_log_index <$> block_answer any_log two_logs = [Some 0; Some 1] /\
  (fun r => rl_log_index <$> rc_logs (to_rpc_receipt r)) <$> e_receipts two_logs = [[Some 0]; [Some 0]].
Proof. by vm_compute. Qed.

(** Every subscription stays in the registry: nothing a client does removes
    it, and one that never came about because the connection was gone remains. *)
Example subscriptions_leak :
  SubscriptionManager.subscription_count
    (eth_subscribe (eth_subscribe SubscriptionManager.new "logs" None true).2 "newHeads" None false).2 = 2.
Proof. by vm_compute. Qed.
