(* ===== verification/Executor.v ===== *)
(** * The executor of the external consensus node

    Models [crates/rpc/evnode/src]: the executor service ([service.rs]) that the
    consensus node drives, with its errors ([error.rs]), its implementation by
    the state transition function ([testapp_impl.rs]), and the sink that commits
    and indexes its blocks, with the start and the end of the node
    ([runner.rs]). Requests are handled one after the other, as the execution
    lock makes them; what others do to the shared mempool while a block is
    executed is an argument. [None] stands for a panic of the executed code. *)

From S2P Require Import Prelude Core Gas ExecState ExecStateFacts Commit Runtime Invoker Stf.
From S2P Require Import StorageBackend Mempool Server EthTx EthContext Indexing.

Open Scope evolve_scope.

(** ** [error.rs]: formatted messages are their pieces. *)
Inductive Text := Words (s : string) | Number (n : Z) | Hex (b : bytes) | Failure (e : ErrorCode).

Inductive EvnodeError :=
| InvalidArgument (msg : list Text)
| NotFound (msg : list Text)
| Internal (msg : list Text)
| Unimplemented (msg : list Text)
| Unavailable (msg : list Text)
| ChainNotInitialized
| ChainAlreadyInitialized
| StorageError (msg : list Text)
| TransactionError (msg : list Text)
| GenesisError (msg : list Text).

Definition display (err : EvnodeError) : list Text :=
  match err with
  | InvalidArgument msg => Words "invalid argument: " :: msg
  | NotFound msg => Words "not found: " :: msg
  | Internal msg => Words "internal error: " :: msg
  | Unimplemented msg => Words "not implemented: " :: msg
  | Unavailable msg => Words "unavailable: " :: msg
  | ChainNotInitialized => [Words "chain not initialized"]
  | ChainAlreadyInitialized => [Words "chain already initialized"]
  | StorageError msg => Words "storage error: " :: msg
  | TransactionError msg => Words "transaction error: " :: msg
  | GenesisError msg => Words "genesis error: " :: msg
  end.

(** The codes of [tonic] that the service uses. *)
Inductive Code := CInvalidArgument | CNotFound | CInternal | CUnimplemented | CUnavailable | CFailedPrecondition.

Record Status := mkStatus { status_code : Code; status_message : list Text }.

Definition status_of (err : EvnodeError) : Status :=
  match err with
  | InvalidArgument msg => mkStatus CInvalidArgument msg
  | NotFound msg => mkStatus CNotFound msg
  | Internal msg => mkStatus CInternal msg
  | Unimplemented msg => mkStatus CUnimplemented msg
  | Unavailable msg => mkStatus CUnavailable msg
  | ChainNotInitialized => mkStatus CFailedPrecondition [Words "chain not initialized"]
  | ChainAlreadyInitialized => mkStatus CFailedPrecondition [Words "chain already initialized"]
  | StorageError msg => mkStatus CInternal (Words "storage error: " :: msg)
  | TransactionError msg => mkStatus CInvalidArgument (Words "transaction error: " :: msg)
  | GenesisError msg => mkStatus CInternal (Words "genesis error: " :: msg)
  end.

(** ** [service.rs] *)

(** What is hashed: the base root, then a tag, the lengths as [u32] and the
    bytes of every change. *)
Definition change_bytes (change : CoreStateChange) : bytes :=
  match change with
  | CoreSet key value => x01 :: le_bytes 4 (zlen key) ++ key ++ le_bytes 4 (zlen value) ++ value
  | CoreRemove key => x02 :: le_bytes 4 (zlen key) ++ key
  end.

Definition state_root_data (base_state_root : B256) (changes : list CoreStateChange) : bytes :=
  vec_to_list base_state_root ++ mjoin (change_bytes <$> changes).

Definition compute_state_root `{Keccak} (base_state_root : B256) (changes : list CoreStateChange) : B256 :=
  if bool_decide (changes = []) then base_state_root else keccak256 (state_root_data base_state_root changes).

Definition DEFAULT_MAX_GAS : Z := 30000000.
Definition DEFAULT_MAX_BYTES : Z := 128 * 1024.

Abbreviation ExecutorBlock := (Server.Block TxContext).

(** The trait of the state transition function. *)
Class EvnodeStfExecutor (X : Type) := {
  execute_block : X -> (bytes -> SdkResult (option bytes)) -> AccountsCodeStorage -> ExecutorBlock ->
    option (BlockResult * ExecutionState);
  run_genesis : X -> (bytes -> SdkResult (option bytes)) -> AccountsCodeStorage -> Z -> Z ->
    option (Result EvnodeError (list CoreStateChange * B256))
}.

Record ExecutorServiceConfig := mkExecutorServiceConfig { max_gas : Z; max_bytes : Z }.
Definition ExecutorServiceConfig_default : ExecutorServiceConfig :=
  mkExecutorServiceConfig DEFAULT_MAX_GAS DEFAULT_MAX_BYTES.

Record ExecutorState := mkExecutorState {
  initialized : bool; es_chain_id : string; es_initial_height : Z; current_height : Z;
  genesis_time : Z; last_state_root : B256; finalized_height : Z; pending_changes : list CoreStateChange }.

Definition ExecutorState_new : ExecutorState := mkExecutorState false "" 1 0 0 B256_ZERO 0 [].

Record BlockExecutedInfo := mkBlockExecutedInfo {
  info_height : Z; info_timestamp : Z; info_state_changes : list CoreStateChange;
  info_block_result : BlockResult; info_state_root : B256; info_transactions : list TxContext }.

(** The callback for executed blocks: it persists the changes in the storage
    it shares with the service and returns the committed root. *)
Class OnBlockExecuted (K S : Type) := {
  on_block : K -> S -> BlockExecutedInfo -> Result EvnodeError B256 * K * S
}.

(** The service. [on_state_change] is the callback for state changes, as the
    calls it has received. *)
Record ExecutorServiceImpl (X S K : Type) `{MempoolTx TxContext} := mkExecutorServiceImpl {
  ex_stf : X; ex_storage : S; ex_codes : AccountsCodeStorage; ex_mempool : option (Mempool TxContext);
  ex_config : ExecutorServiceConfig; ex_state : ExecutorState;
  on_state_change : option (list (list CoreStateChange)); on_block_executed : option K }.
Arguments mkExecutorServiceImpl {X S K _} _ _ _ _ _ _ _ _.
Arguments ex_stf {X S K _} _.
Arguments ex_storage {X S K _} _.
Arguments ex_codes {X S K _} _.
Arguments ex_mempool {X S K _} _.
Arguments ex_config {X S K _} _.
Arguments ex_state {X S K _} _.
Arguments on_state_change {X S K _} _.
Arguments on_block_executed {X S K _} _.

(** The messages of the protocol; a timestamp has its seconds as [i64]. *)
Record InitChainRequest := mkInitChainRequest {
  ic_genesis_time : option Z; ic_initial_height : Z; ic_chain_id : string }.
Record ExecuteTxsRequest := mkExecuteTxsRequest {
  et_txs : list bytes; et_block_height : Z; et_timestamp : option Z; et_prev_state_root : bytes }.
Record ExecuteTxsResponse := mkExecuteTxsResponse { updated_state_root : bytes; resp_max_bytes : Z }.
Record FilterTxsRequest := mkFilterTxsRequest { ft_txs : list bytes; ft_max_bytes : Z; ft_max_gas : Z }.
Inductive FilterStatus := FilterOk | FilterRemove | FilterPostpone.

Module ExecutorServiceImpl.
Section Methods.
Context `{RuntimeDeps} `{EthCodec} `{Secp256k1} `{AlloyTx TxLegacy} `{AlloyTx TxEip1559}.
Context {X S K : Type} `{EvnodeStfExecutor X} `{Storage S} `{OnBlockExecuted K S}.

Abbreviation Service := (ExecutorServiceImpl X S K).

Definition new (stf : X) (storage : S) (codes : AccountsCodeStorage) (config : ExecutorServiceConfig) : Service :=
  mkExecutorServiceImpl stf storage codes None config ExecutorState_new None None.

Definition with_mempool (stf : X) (storage : S) (codes : AccountsCodeStorage) (config : ExecutorServiceConfig)
    (mempool : Mempool TxContext) : Service :=
  mkExecutorServiceImpl stf storage codes (Some mempool) config ExecutorState_new None None.

Definition with_state_change_callback (self : Service) : Service :=
  mkExecutorServiceImpl (ex_stf self) (ex_storage self) (ex_codes self) (ex_mempool self) (ex_config self)
    (ex_state self) (Some []) (on_block_executed self).

Definition with_on_block_executed (self : Service) (callback : K) : Service :=
  mkExecutorServiceImpl (ex_stf self) (ex_storage self) (ex_codes self) (ex_mempool self) (ex_config self)
    (ex_state self) (on_state_change self) (Some callback).

(** Updates through interior mutability. *)
Definition set_state (self : Service) (state : ExecutorState) : Service :=
  mkExecutorServiceImpl (ex_stf self) (ex_storage self) (ex_codes self) (ex_mempool self) (ex_config self)
    state (on_state_change self) (on_block_executed self).
Definition set_mempool (self : Service) (mempool : option (Mempool TxContext)) : Service :=
  mkExecutorServiceImpl (ex_stf self) (ex_storage self) (ex_codes self) mempool (ex_config self)
    (ex_state self) (on_state_change self) (on_block_executed self).
Definition set_committed (self : Service) (storage : S) (k : K) : Service :=
  mkExecutorServiceImpl (ex_stf self) storage (ex_codes self) (ex_mempool self) (ex_config self)
    (ex_state self) (on_state_change self) (Some k).

Definition take_pending_changes (self : Service) : list CoreStateChange * Service :=
  let st := ex_state self in
  (pending_changes st,
   set_state self (mkExecutorState (initialized st) (es_chain_id st) (es_initial_height st) (current_height st)
                     (genesis_time st) (last_state_root st) (finalized_height st) [])).

Definition ensure_initialized (self : Service) : Result EvnodeError unit :=
  if initialized (ex_state self) then Ok tt else Err ChainNotInitialized.

(** [t.seconds as u64] of an [i64]. *)
Definition timestamp_to_unix (ts : option Z) : Z := from_option wrap64 0 ts.

Definition decode_tx (raw : bytes) : Result EvnodeError TxContext :=
  match TxContext.decode raw with
  | Ok tx => Ok tx
  | Err e => Err (TransactionError [Words "failed to decode transaction: "; Failure e])
  end.

Definition estimate_tx_gas (tx : TxContext) : Z := tx_gas_limit tx.

Definition handle_state_changes (self : Service) (changes : list CoreStateChange) : Service :=
  let st := ex_state self in
  mkExecutorServiceImpl (ex_stf self) (ex_storage self) (ex_codes self) (ex_mempool self) (ex_config self)
    (mkExecutorState (initialized st) (es_chain_id st) (es_initial_height st) (current_height st)
       (genesis_time st) (last_state_root st) (finalized_height st) (pending_changes st ++ changes))
    ((fun calls => calls ++ [changes]) <$> on_state_change self) (on_block_executed self).

(** An accepted root is the last one. *)
Definition resolve_prev_state_root (self : Service) (prev_state_root : bytes) : Result EvnodeError B256 :=
  let last_state_root := last_state_root (ex_state self) in
  if bool_decide (prev_state_root = []) then Ok last_state_root
  else if negb (zlen prev_state_root =? 32) then
    Err (InvalidArgument [Words "prev_state_root must be "; Number 32; Words " bytes, got ";
                          Number (zlen prev_state_root)])
  else if bool_decide (prev_state_root ≠ vec_to_list last_state_root) then
    Err (InvalidArgument [Words "prev_state_root mismatch: expected "; Hex (vec_to_list last_state_root); Words ", got ";
                          Hex prev_state_root])
  else Ok last_state_root.

Definition init_chain (self : Service) (req : InitChainRequest) : option (Result Status bytes * Service) :=
  if initialized (ex_state self) then Some (Err (status_of ChainAlreadyInitialized), self)
  else if ic_initial_height req =? 0 then
    Some (Err (status_of (InvalidArgument [Words "initial_height must be > 0"])), self)
  else
    let time := timestamp_to_unix (ic_genesis_time req) in
    genesis ← run_genesis (ex_stf self) (storage_get (ex_storage self)) (ex_codes self) (ic_initial_height req) time;
    Some match genesis with
    | Err e => (Err (mkStatus CInternal (Words "genesis failed: " :: display e)), self)
    | Ok (changes, _) =>
        let state_root := compute_state_root B256_ZERO changes in
        let self := handle_state_changes self changes in
        let st := ex_state self in
        (Ok (vec_to_list state_root),
         set_state self (mkExecutorState true (ic_chain_id req) (ic_initial_height req) (ic_initial_height req)
                           time state_root (finalized_height st) (pending_changes st)))
    end.

(** Transactions that cannot be encoded are left out. *)
Definition get_txs (self : Service) : Result Status (list bytes) * Service :=
  match ensure_initialized self with
  | Err e => (Err (status_of e), self)
  | Ok _ =>
      match ex_mempool self with
      | Some pool =>
          let '(selected, _, pool) := Mempool.propose pool (max_gas (ex_config self)) 0 in
          (Ok (omap (fun tx => ok (TxContext.encode tx)) selected), set_mempool self (Some pool))
      | None => (Ok [], self)
      end
  end.

(** The block of [execute_txs]. *)
Definition executor_block (self : Service) (req : ExecuteTxsRequest) : ExecutorBlock :=
  let transactions := omap (fun raw => match decode_tx raw with Ok tx => Some tx | Err _ => None end) (et_txs req) in
  Server.BlockBuilder.build
    (Server.BlockBuilder.transactions
      (Server.BlockBuilder.gas_limit
        (Server.BlockBuilder.timestamp (Server.BlockBuilder.number Server.BlockBuilder.new (et_block_height req))
           (timestamp_to_unix (et_timestamp req)))
        (max_gas (ex_config self)))
      transactions).

(** Persisting the changes: by the callback for blocks, or as pending ones. *)
Definition persist (self : Service) (info : BlockExecutedInfo) : Result EvnodeError B256 * Service :=
  match on_block_executed self with
  | Some k =>
      let '(r, k, storage) := on_block k (ex_storage self) info in
      (r, set_committed self storage k)
  | None => (Ok (info_state_root info), handle_state_changes self (info_state_changes info))
  end.

(** [drained] orders the hash set in [finalize]; [meanwhile] is what others do
    to the mempool while the block is executed and persisted. *)
Definition execute_txs (drained : gset Hash -> list Hash) (meanwhile : Mempool TxContext -> Mempool TxContext)
    (self : Service) (req : ExecuteTxsRequest) : option (Result Status ExecuteTxsResponse * Service) :=
  match ensure_initialized self with
  | Err e => Some (Err (status_of e), self)
  | Ok _ =>
      if et_block_height req =? 0 then
        Some (Err (status_of (InvalidArgument [Words "block_height must be > 0"])), self)
      else
        match resolve_prev_state_root self (et_prev_state_root req) with
        | Err e => Some (Err (status_of e), self)
        | Ok prev_state_root =>
            let block := executor_block self req in
            '(result, exec_state) ← execute_block (ex_stf self) (storage_get (ex_storage self)) (ex_codes self) block;
            Some match ExecutionState.into_changes exec_state with
            | Err e => (Err (mkStatus CInternal [Words "failed to get state changes: "; Failure e]), self)
            | Ok changes =>
                let projected_state_root := compute_state_root prev_state_root changes in
                let executed_tx_count := length (tx_results result) in
                let executed_hashes := c_tx_hash <$> take executed_tx_count (Server.transactions block) in
                let info := mkBlockExecutedInfo (et_block_height req) (Server.timestamp block) changes result
                              projected_state_root (Server.transactions block) in
                match persist self info with
                | (Err e, self) => (Err (status_of e), self)
                | (Ok root, self) =>
                    let self := set_mempool self
                      ((fun pool => Mempool.finalize_draining drained (meanwhile pool) executed_hashes) <$>
                         ex_mempool self) in
                    let st := ex_state self in
                    (Ok (mkExecuteTxsResponse (vec_to_list root) (max_bytes (ex_config self))),
                     set_state self (mkExecutorState (initialized st) (es_chain_id st) (es_initial_height st)
                                       (et_block_height req) (genesis_time st) root (finalized_height st)
                                       (pending_changes st)))
                end
            end
        end
  end.

Definition set_final (self : Service) (block_height : Z) : Result Status unit * Service :=
  match ensure_initialized self with
  | Err e => (Err (status_of e), self)
  | Ok _ =>
      let st := ex_state self in
      let current := current_height st in
      if current <? block_height then
        (Err (status_of (InvalidArgument [Words "cannot finalize height "; Number block_height;
                                          Words " > current height "; Number current])), self)
      else
        (Ok tt, set_state self (mkExecutorState (initialized st) (es_chain_id st) (es_initial_height st) current
                                  (genesis_time st) (last_state_root st) block_height (pending_changes st)))
  end.

Definition get_execution_info (self : Service) : Z := max_gas (ex_config self).

(** The sums are plain [u64] additions. *)
Fixpoint filter_loop (effective_max_bytes effective_max_gas cumulative_bytes cumulative_gas : Z) (txs : list bytes)
    : list FilterStatus :=
  match txs with
  | [] => []
  | raw_tx :: txs =>
      let tx_bytes := zlen raw_tx in
      match decode_tx raw_tx with
      | Err _ => FilterRemove :: filter_loop effective_max_bytes effective_max_gas cumulative_bytes cumulative_gas txs
      | Ok tx =>
          let tx_gas := estimate_tx_gas tx in
          let would_exceed_bytes := effective_max_bytes <? wrap64 (cumulative_bytes + tx_bytes) in
          let would_exceed_gas := effective_max_gas <? wrap64 (cumulative_gas + tx_gas) in
          if would_exceed_bytes || would_exceed_gas
          then FilterPostpone ::
                 filter_loop effective_max_bytes effective_max_gas cumulative_bytes cumulative_gas txs
          else FilterOk ::
                 filter_loop effective_max_bytes effective_max_gas (wrap64 (cumulative_bytes + tx_bytes))
                   (wrap64 (cumulative_gas + tx_gas)) txs
      end
  end.

Definition filter_txs (self : Service) (req : FilterTxsRequest) : Result Status (list FilterStatus) :=
  match ensure_initialized self with
  | Err e => Err (status_of e)
  | Ok _ =>
      let effective_max_bytes := if 0 <? ft_max_bytes req then ft_max_bytes req else max_bytes (ex_config self) in
      let effective_max_gas := if 0 <? ft_max_gas req then ft_max_gas req else max_gas (ex_config self) in
      Ok (filter_loop effective_max_bytes effective_max_gas 0 0 (ft_txs req))
  end.

End Methods.
End ExecutorServiceImpl.

(** ** [testapp_impl.rs]: the executor of a state transition function

    [genesis] is the genesis program of the application. *)
Record StfExecutor := mkStfExecutor {
  se_stf : Stf TxContext ExecutorBlock;
  se_genesis : EnvView -> EnvProg (SdkResult unit);
  se_fuel : nat }.

Section StfExecutor.
Context `{RuntimeDeps} `{EthCodec} `{Secp256k1} `{AlloyTx TxLegacy} `{AlloyTx TxEip1559}.

#[global] Instance stf_executor : EvnodeStfExecutor StfExecutor := {|
  execute_block self storage codes block :=
    match Stf.apply_block (se_stf self) codes (se_fuel self) storage block with
    | Done result w => Some (result, w_storage w)
    | _ => None
    end;
  run_genesis self storage codes initial_height genesis_time :=
    match Stf.system_exec codes (se_fuel self) storage (mkBlockContext initial_height genesis_time)
            (se_genesis self) with
    | Done (Err e) _ => Some (Err (GenesisError [Words "genesis execution failed: "; Failure e]))
    | Done (Ok _) w =>
        Some match ExecutionState.into_changes (w_storage w) with
        | Err e => Err (GenesisError [Words "failed to get genesis state changes: "; Failure e])
        | Ok changes => Ok (changes, compute_state_root B256_ZERO changes)
        end
    | _ => None
    end |}.

End StfExecutor.

(** ** [runner.rs]: the commit sink *)
Record ExternalConsensusSinkConfig := mkSinkConfig {
  sink_initial_height : Z; sink_chain_id : Z; sink_max_gas : Z; indexing_enabled : bool }.

(** The worker of the sink between two blocks. *)
Record ExternalConsensusCommitSink (I : Type) := mkSink {
  sink_config : ExternalConsensusSinkConfig; sink_index : option I; sink_parent_hash : B256;
  sink_height : Z }.
Arguments mkSink {I} _ _ _ _.
Arguments sink_config {I} _.
Arguments sink_index {I} _.
Arguments sink_parent_hash {I} _.
Arguments sink_height {I} _.

Module ExternalConsensusCommitSink.
Section Methods.
Context `{RuntimeDeps} `{EthCodec} `{Secp256k1} `{AlloyTx TxLegacy} `{AlloyTx TxEip1559} `{Sha256}.
Context `{Borsh InvokeRequest} {I E S : Type} `{ChainIndex I E} `{Storage S}.

(** Failures of the index are logged. *)
Definition resolve_initial_parent_hash (chain_index : I) (initial_height : Z) : B256 * I :=
  match get_block chain_index initial_height with
  | (Ok (Some block), index) => (sb_hash block, index)
  | (_, index) =>
      match latest_block_number index with
      | (Err _, index) => (B256_ZERO, index)
      | (Ok None, index) => (B256_ZERO, index)
      | (Ok (Some latest_height), index) =>
          match get_block index latest_height with
          | (Ok (Some block), index) => (sb_hash block, index)
          | (_, index) => (B256_ZERO, index)
          end
      end
  end.

Definition spawn (chain_index : option I) (config : ExternalConsensusSinkConfig) : ExternalConsensusCommitSink I :=
  match chain_index with
  | None => mkSink config None B256_ZERO (sink_initial_height config)
  | Some index =>
      let '(parent_hash, index) := resolve_initial_parent_hash index (sink_initial_height config) in
      mkSink config (Some index) parent_hash (sink_initial_height config)
  end.

(** One block: batch, commit, index. *)
Definition commit_block (self : ExternalConsensusCommitSink I) (storage : S) (info : BlockExecutedInfo)
    : Result EvnodeError B256 * ExternalConsensusCommitSink I * S :=
  let operations := state_changes_to_operations (info_state_changes info) in
  match storage_batch storage operations with
  | (Err err, storage) => (Err (StorageError [Words "storage batch failed: "; Failure err]), self, storage)
  | (Ok _, storage) =>
      match storage_commit storage with
      | (Err err, storage) => (Err (StorageError [Words "storage commit failed: "; Failure err]), self, storage)
      | (Ok commit_hash, storage) =>
          let committed_state_root := commit_bytes commit_hash in
          let parent_hash := sink_parent_hash self in
          let config := sink_config self in
          let block_hash := Server.compute_block_hash (info_height info) (info_timestamp info) parent_hash in
          let metadata := Server.metadata_new block_hash parent_hash committed_state_root (info_timestamp info)
                            (sink_max_gas config) (vreplicate 20 x00) (sink_chain_id config) in
          let block :=
            Server.BlockBuilder.build
              (Server.BlockBuilder.transactions
                (Server.BlockBuilder.timestamp
                  (Server.BlockBuilder.number Server.BlockBuilder.new (info_height info)) (info_timestamp info))
                (info_transactions info)) in
          let '(stored_block, stored_txs, stored_receipts) :=
            build_index_data block (info_block_result info) metadata in
          let index :=
            if indexing_enabled config
            then (fun index => (store_block index stored_block stored_txs stored_receipts).2) <$> sink_index self
            else sink_index self in
          (Ok committed_state_root, mkSink config index block_hash (info_height info), storage)
      end
  end.

#[global] Instance sink_callback : OnBlockExecuted (ExternalConsensusCommitSink I) S := {| on_block := commit_block |}.

End Methods.
End ExternalConsensusCommitSink.

(** ** [runner.rs]: start and end of the node

    The state of the chain at the start: what was saved, or what genesis leaves.
    [None] stands for the [expect]s. *)
Section Node.
Context {G S : Type} `{Borsh (Server.ChainState G)} `{Storage S}.

Definition bootstrap (run_genesis : S -> option (G * list CoreStateChange)) (storage : S) : option (G * Z * S) :=
  match Server.load_chain_state storage with
  | Some state => Some (Server.genesis_result state, Server.cs_height state, storage)
  | None =>
      '(genesis_result, changes) ← run_genesis storage;
      value ← to_vec (Server.mkChainState 1 genesis_result);
      let operations := state_changes_to_operations changes ++ [OperationSet Server.CHAIN_STATE_KEY value] in
      match storage_batch storage operations with
      | (Err _, _) => None
      | (Ok _, storage) =>
          match storage_commit storage with
          | (Err _, _) => None
          | (Ok _, storage) => Some (genesis_result, 1, storage)
          end
      end
  end.

(** A failure to save is logged. *)
Definition shutdown (genesis_result : G) (height : Z) (storage : S) : S :=
  (Server.save_chain_state storage (Server.mkChainState height genesis_result)).2.

End Node.
