(* ===== verification/ExecutorFacts.v ===== *)
(** * Facts about the executor of the external consensus node

    What the index data of a block says of its transactions, and what the
    requests of the consensus node do to the chain, its roots and the mempool. *)

From S2P Require Import Prelude Core Gas ExecState ExecStateFacts Commit Runtime Invoker Stf InvokerFacts CallFacts.
From S2P Require Import StfFacts Chain Heap Mempool MempoolFacts MempoolSpec StorageBackend Server ServerFacts EthTx.
From S2P Require Import EthContext EthGateway EthFacts Indexing Executor.

Open Scope evolve_scope.

(** ** Facts about index data

    The index pairs the transactions of a block with the results by position:
    right when the results are those of the first transactions, and wrong as
    soon as a transaction in between was skipped. *)

Section Indexing.
Context `{RuntimeDeps} `{Sha256} {Tx : Type} `{Transaction Tx} `{Indexable Tx} `{Borsh InvokeRequest}.

Definition gas_of (results : list TxResult) : Z := foldr (fun r n => tx_gas_used r + n) 0 results.

Lemma gas_of_cons r results : gas_of (r :: results) = tx_gas_used r + gas_of results.
Proof. done. Qed.

Lemma index_loop_spec number hash cid (pairs : list (Tx * TxResult)) : forall idx cum,
  let out := index_loop number hash cid idx cum pairs in
  length out.1 = length pairs /\ length out.2 = length pairs /\
  forall i tx r, pairs !! i = Some (tx, r) ->
    out.1 !! i = Some (build_stored_transaction tx (compute_identifier tx) number hash (u32_of (idx + Z.of_nat i)) cid
                         (ethereum_tx_fields tx)) /\
    out.2 !! i = Some (build_stored_receipt tx r (compute_identifier tx) number hash (u32_of (idx + Z.of_nat i))
                         (wrap64 (cum + gas_of (take (S i) pairs.*2))) (ethereum_tx_fields tx)).
Proof.
  induction pairs as [|[tx r] pairs IH]; intros idx cum; cbn [index_loop]; [done|].
  specialize (IH (idx + 1) (wrap64 (cum + tx_gas_used r))).
  destruct (index_loop _ _ _ _ _ pairs) as [stxs rcpts]. cbn [fst snd length] in *.
  destruct IH as (Hl & Hl' & Hi). split_and!; [by rewrite Hl | by rewrite Hl' |].
  intros [|i] tx' r' Hp; [|specialize (Hi i tx' r' Hp)].
  - injection Hp as <- <-. cbn [fmap list_fmap snd take]. rewrite gas_of_cons. cbn [gas_of foldr].
    by rewrite !Z.add_0_r.
  - rewrite fmap_cons. cbn [snd]. rewrite firstn_cons, gas_of_cons.
    replace (idx + Z.of_nat (S i)) with (idx + 1 + Z.of_nat i) by lia. destruct Hi as [Hi1 Hi2].
    split; [exact Hi1|]. etrans; [exact Hi2|]. do 2 f_equal. unfold wrapping. rewrite Zplus_mod_idemp_l. f_equal. lia.
Qed.

Lemma gas_of_take results n : Forall (fun r => 0 <= tx_gas_used r) results -> 0 <= gas_of (take n results) <= gas_of results.
Proof.
  intros Hr. revert n. induction Hr as [|r results Hr0 Hr IH]; intros [|n]; cbn [take gas_of foldr]; try lia.
  - specialize (IH 0%nat). cbn in IH. unfold gas_of in *. lia.
  - specialize (IH n). unfold gas_of in *. lia.
Qed.

End Indexing.

(** ** Facts about the executor of the external consensus node

    The bytes of a state root determine the changes; requests that are refused
    change nothing, and executed ones extend the chain of blocks and of roots;
    the proposal of a node, executed by it, leaves the mempool. *)

(** ** State roots *)

(** Lengths that a [u32] holds. *)
Definition change_fits (c : CoreStateChange) : Prop :=
  match c with
  | CoreSet key value => zlen key < 2 ^ 32 /\ zlen value < 2 ^ 32
  | CoreRemove key => zlen key < 2 ^ 32
  end.

Lemma sized_inj k k' r r' : zlen k < 2 ^ 32 -> zlen k' < 2 ^ 32 ->
  le_bytes 4 (zlen k) ++ k ++ r = le_bytes 4 (zlen k') ++ k' ++ r' -> k = k' /\ r = r'.
Proof.
  intros Hk Hk' He. apply app_inj_1 in He as [Hl Hr]; [|by rewrite !length_le_bytes].
  apply app_inj_1 in Hr; [done|].
  apply (f_equal le_value) in Hl. rewrite !le_value_bytes in Hl.
  change (256 ^ Z.of_nat 4) with (2 ^ 32) in Hl. unfold zlen in *. rewrite !Z.mod_small in Hl by lia. lia.
Qed.

Lemma change_bytes_inj c c' r r' : change_fits c -> change_fits c' ->
  change_bytes c ++ r = change_bytes c' ++ r' -> c = c' /\ r = r'.
Proof.
  destruct c as [k v|k], c' as [k' v'|k']; cbn [change_fits change_bytes app]; intros Hc Hc' He;
    apply (inj2 cons) in He as [Ht He]; try discriminate Ht; rewrite <-!app_assoc in He.
  - apply sized_inj in He as [-> He]; [|tauto..]. by apply sized_inj in He as [-> ->]; [|tauto..].
  - by apply sized_inj in He as [-> ->].
Qed.

Lemma state_root_data_inj r r' cs cs' : Forall change_fits cs -> Forall change_fits cs' ->
  state_root_data r cs = state_root_data r' cs' -> r = r' /\ cs = cs'.
Proof.
  intros Hcs Hcs' He. unfold state_root_data in He.
  apply app_inj_1 in He as [Hr He]; [|by rewrite !length_vec_to_list]. split; [by apply vec_to_list_inj2|]. clear Hr.
  revert cs' Hcs' He. induction Hcs as [|c cs Hc Hcs IH]; intros [|c' cs'] Hcs' He; cbn in He.
  - done.
  - destruct c'; done.
  - destruct c; done.
  - apply Forall_cons in Hcs' as [Hc' Hcs']. apply change_bytes_inj in He as [-> He]; [|done..].
    f_equal. by apply IH.
Qed.

(** ** Requests over the in-memory storage with the commit sink *)
Section Service.
Context `{RuntimeDeps} `{EthCodec} `{Secp256k1} `{AlloyTx TxLegacy} `{AlloyTx TxEip1559} `{Sha256}.
Context `{Borsh InvokeRequest} {I E : Type} `{ChainIndex I E} (drained : gset Hash -> list Hash).

Abbreviation Sink := (ExternalConsensusCommitSink I).
Abbreviation Service := (ExecutorServiceImpl StfExecutor (gmap bytes bytes) Sink).
Abbreviation execute_txs := (ExecutorServiceImpl.execute_txs drained).

(** What a client can ask for. *)
Inductive Call :=
| CallInit (req : InitChainRequest)
| CallGetTxs
| CallExecute (meanwhile : Mempool TxContext -> Mempool TxContext) (req : ExecuteTxsRequest)
| CallSetFinal (block_height : Z)
| CallTakePending.

(** The answer to a call: the root of an executed block. *)
Definition serve_one (self : Service) (c : Call) : option (option (ExecuteTxsRequest * bytes) * Service) :=
  match c with
  | CallInit req => '(_, self) ← ExecutorServiceImpl.init_chain self req; Some (None, self)
  | CallGetTxs => Some (None, (ExecutorServiceImpl.get_txs self).2)
  | CallExecute meanwhile req =>
      '(r, self) ← execute_txs meanwhile self req;
      Some (match r with Ok resp => Some (req, updated_state_root resp) | Err _ => None end, self)
  | CallSetFinal h => Some (None, (ExecutorServiceImpl.set_final self h).2)
  | CallTakePending => Some (None, (ExecutorServiceImpl.take_pending_changes self).2)
  end.

(** The executed requests of a run, with the roots answered. *)
Fixpoint serve (self : Service) (calls : list Call) : option (list (ExecuteTxsRequest * bytes) * Service) :=
  match calls with
  | [] => Some ([], self)
  | c :: calls =>
      '(a, self) ← serve_one self c;
      '(log, self) ← serve self calls;
      Some (from_option (fun x => x :: log) log a, self)
  end.

(** The request built on the root, and so on; the last root. *)
Fixpoint linked (root : bytes) (log : list (ExecuteTxsRequest * bytes)) (last : bytes) : Prop :=
  match log with
  | [] => last = root
  | (req, next) :: log => (et_prev_state_root req = [] \/ et_prev_state_root req = root) /\ linked next log last
  end.

(** A service in operation, and what stays the same of it. *)
Record operating (self : Service) : Prop := {
  op_initialized : initialized (ex_state self) = true;
  op_sink : is_Some (on_block_executed self) }.

Record same_setup (self self' : Service) : Prop := {
  ss_stf : ex_stf self' = ex_stf self;
  ss_codes : ex_codes self' = ex_codes self;
  ss_config : ex_config self' = ex_config self }.

Definition root_of (self : Service) : bytes := vec_to_list (last_state_root (ex_state self)).

Definition produced (self : Service) (req : ExecuteTxsRequest) : option (BlockResult * ExecutionState * gmap bytes bytes) :=
  produce_block (se_stf (ex_stf self)) (ex_codes self) (se_fuel (ex_stf self)) (ex_storage self)
    (ExecutorServiceImpl.executor_block self req).

Lemma resolve_ok self prev r : ExecutorServiceImpl.resolve_prev_state_root (S := gmap bytes bytes) (K := Sink) self prev = Ok r ->
  r = last_state_root (ex_state self) /\ (prev = [] \/ prev = root_of self).
Proof.
  unfold ExecutorServiceImpl.resolve_prev_state_root. case_bool_decide; [intros Hr; apply (inj Ok) in Hr; split; [done | by left]|].
  destruct (negb _); [done|]. case_bool_decide; [done|]. intros Hr. apply (inj Ok) in Hr. split; [done | by right].
Qed.

(** A refused request changes nothing; an executed one produces its block. *)
Lemma execute_spec meanwhile self req r self' : operating self ->
  execute_txs meanwhile self req = Some (r, self') ->
  match r with
  | Err _ => self' = self
  | Ok resp => exists result s, produced self req = Some (result, s, ex_storage self') /\
      (et_prev_state_root req = [] \/ et_prev_state_root req = root_of self) /\
      updated_state_root resp = root_of self' /\ operating self' /\ same_setup self self' /\
      current_height (ex_state self') = et_block_height req /\
      ex_mempool self' = (fun pool => Mempool.finalize_draining drained (meanwhile pool)
        (c_tx_hash <$> take (length (tx_results result)) (Server.transactions (ExecutorServiceImpl.executor_block self req))))
          <$> ex_mempool self
  end.
Proof.
  intros [Hi [k Hk]]. unfold ExecutorServiceImpl.execute_txs, ExecutorServiceImpl.ensure_initialized, produced, produce_block.
  rewrite Hi. destruct (_ =? 0); [by intros [= <- <-]|].
  destruct (ExecutorServiceImpl.resolve_prev_state_root _ _) as [root|] eqn:Er; [|by intros [= <- <-]].
  apply resolve_ok in Er as [-> Hprev]. cbn [execute_block stf_executor].
  change (storage_get (ex_storage self)) with (MockStorage.get (ex_storage self)).
  destruct (Stf.apply_block _ _ _ _ _) as [result w| |]; [|done|done]. cbn [mbind option_bind].
  destruct (ExecutionState.into_changes _) as [changes|]; [|by intros [= <- <-]].
  unfold ExecutorServiceImpl.persist. rewrite Hk. cbn [on_block ExternalConsensusCommitSink.sink_callback].
  unfold ExternalConsensusCommitSink.commit_block. cbn [storage_batch mock_storage MockStorage.batch storage_commit mock_commit].
  destruct (build_index_data _ _ _) as [[sb stxs] rcpts]. intros [= <- <-].
  exists result, (w_storage w). cbn. by split_and!.
Qed.

(** A request on the last root whose block can be produced is executed. *)
Lemma execute_complete meanwhile self req result s storage' : operating self -> et_block_height req ≠ 0 ->
  et_prev_state_root req = [] \/ et_prev_state_root req = root_of self ->
  produced self req = Some (result, s, storage') ->
  exists resp self', execute_txs meanwhile self req = Some (Ok resp, self') /\ ex_storage self' = storage'.
Proof.
  intros [Hi [k Hk]] Hh Hprev. unfold ExecutorServiceImpl.execute_txs, ExecutorServiceImpl.ensure_initialized, produced, produce_block.
  rewrite Hi. destruct (Z.eqb_spec (et_block_height req) 0); [done|].
  assert (Hr : ExecutorServiceImpl.resolve_prev_state_root self (et_prev_state_root req) = Ok (last_state_root (ex_state self))).
  { unfold ExecutorServiceImpl.resolve_prev_state_root. case_bool_decide; [done|]. destruct Hprev as [|Hprev]; [done|].
    rewrite Hprev. unfold root_of, zlen. rewrite length_vec_to_list. cbn [Z.eqb negb]. by rewrite bool_decide_false by auto. }
  rewrite Hr. cbn [execute_block stf_executor].
  change (storage_get (ex_storage self)) with (MockStorage.get (ex_storage self)).
  destruct (Stf.apply_block _ _ _ _ _) as [result' w| |]; [|done|done].
  destruct (ExecutionState.into_changes _) as [changes|] eqn:Ec; [|done]. cbn [MockStorage.batch].
  intros [= -> <- <-]. cbn [mbind option_bind]. rewrite Ec.
  unfold ExecutorServiceImpl.persist. rewrite Hk. cbn [on_block ExternalConsensusCommitSink.sink_callback].
  unfold ExternalConsensusCommitSink.commit_block. cbn [storage_batch mock_storage MockStorage.batch storage_commit mock_commit].
  destruct (build_index_data _ _ _) as [[sb stxs] rcpts]. by eexists _, _.
Qed.

(** The other calls touch neither storage nor root. *)
Lemma serve_one_other self c a self' : operating self -> serve_one self c = Some (a, self') ->
  match a with
  | Some _ => exists meanwhile req, c = CallExecute meanwhile req
  | None => operating self' /\ same_setup self self' /\ ex_storage self' = ex_storage self /\
      root_of self' = root_of self
  end.
Proof.
  intros Hop. pose proof Hop as [Hi Hk]. destruct c as [req| |meanwhile req|h|]; cbn [serve_one].
  - unfold ExecutorServiceImpl.init_chain. rewrite Hi. cbn. by intros [= <- <-].
  - intros [= <- <-]. unfold ExecutorServiceImpl.get_txs, ExecutorServiceImpl.ensure_initialized. rewrite Hi.
    destruct (ex_mempool self); [|done]. destruct (Mempool.propose _ _ _) as [[? ?] ?]. by split_and!.
  - destruct (execute_txs meanwhile self req) as [[r self1]|] eqn:Ee; [|done]. cbn [mbind option_bind].
    intros [= <- <-]. apply execute_spec in Ee; [|done]. destruct r; [by eexists _, _|]. by subst.
  - intros [= <- <-]. unfold ExecutorServiceImpl.set_final, ExecutorServiceImpl.ensure_initialized. rewrite Hi.
    destruct (_ <? _); [done|]. by split_and!.
  - intros [= <- <-]. by split_and!.
Qed.

Lemma block_setup self self' req : same_setup self self' ->
  ExecutorServiceImpl.executor_block self' req = ExecutorServiceImpl.executor_block self req.
Proof. intros [_ _ Hc]. unfold ExecutorServiceImpl.executor_block. by rewrite Hc. Qed.

Lemma same_setup_trans self self1 self2 : same_setup self self1 -> same_setup self1 self2 -> same_setup self self2.
Proof. intros [] []. split; congruence. Qed.

(** Runs from a service in operation build one chain. *)
Lemma serve_builds calls : forall self log self', operating self -> serve self calls = Some (log, self') ->
  operating self' /\ same_setup self self' /\
  produce_blocks (se_stf (ex_stf self)) (ex_codes self) (se_fuel (ex_stf self)) (ex_storage self)
    ((fun x => ExecutorServiceImpl.executor_block self x.1) <$> log) = Some (ex_storage self') /\
  linked (root_of self) log (root_of self').
Proof.
  induction calls as [|c calls IH]; intros self log self' Hop; cbn [serve].
  { intros [= <- <-]. by split_and!. }
  destruct (serve_one self c) as [[a self1]|] eqn:E1; [|done]. cbn [mbind option_bind].
  destruct (serve self1 calls) as [[log1 self2]|] eqn:E2; [|done]. cbn [mbind option_bind].
  intros [= <- <-]. pose proof (serve_one_other _ _ _ _ Hop E1) as Ho. destruct a as [[req root]|]; cbn [from_option].
  - destruct Ho as (meanwhile & req' & ->). cbn [serve_one] in E1.
    destruct (execute_txs meanwhile self req') as [[r self1']|] eqn:Ee; [|done]. cbn [mbind option_bind] in E1.
    destruct r as [resp|]; [|done]. injection E1 as <- <- <-.
    apply execute_spec in Ee as (result & s & Hp & Hprev & Hr & Hop1 & Hs & _); [|done].
    destruct (IH _ _ _ Hop1 E2) as (Hop2 & Hs2 & Hc & Hl). split_and!; [done|by eapply same_setup_trans| |].
    + rewrite fmap_cons. cbn [produce_blocks fst]. unfold produced in Hp. rewrite Hp. cbn [mbind option_bind].
      rewrite <-Hc. destruct Hs as [Hs1 Hs2' Hs3]. rewrite Hs1, Hs2'. f_equal.
      apply list_fmap_ext. intros i x _. symmetry. by apply block_setup.
    + cbn [linked]. rewrite Hr. done.
  - destruct Ho as (Hop1 & Hs & Hst & Hroot). destruct (IH _ _ _ Hop1 E2) as (Hop2 & Hs2 & Hc & Hl).
    split_and!; [done|by eapply same_setup_trans| |by rewrite <-Hroot].
    rewrite <-Hc. pose proof Hs as [Hs1 Hs2' Hs3]. rewrite Hs1, Hs2', Hst. f_equal.
    apply list_fmap_ext. intros i x _. symmetry. by apply block_setup.
Qed.

End Service.

(** ** The filter *)
Section Filter.
Context `{RuntimeDeps} `{EthCodec} `{Secp256k1} `{AlloyTx TxLegacy} `{AlloyTx TxEip1559}.

(** The gas a transaction asks for; nothing if it cannot be decoded. *)
Definition raw_gas (raw : bytes) : Z :=
  match ExecutorServiceImpl.decode_tx raw with Ok tx => tx_gas_limit tx | Err _ => 0 end.

Definition accepted (txs : list bytes) (statuses : list FilterStatus) : list bytes :=
  omap (fun x => match x.2 with FilterOk => Some x.1 | _ => None end) (zip txs statuses).

Definition total (f : bytes -> Z) (txs : list bytes) : Z := foldr (fun raw n => f raw + n) 0 txs.

(** The status of a transaction after those accepted before it. *)
Definition status_after (max_b max_g : Z) (before : list bytes) (raw : bytes) : FilterStatus :=
  match ExecutorServiceImpl.decode_tx raw with
  | Err _ => FilterRemove
  | Ok tx => if (max_b <? total zlen before + zlen raw) || (max_g <? total raw_gas before + tx_gas_limit tx)
             then FilterPostpone else FilterOk
  end.

(** The sums stay within [u64]. *)
Definition no_overflow (max_b max_g : Z) (raw : bytes) : Prop :=
  max_b + zlen raw <= u64_max /\ 0 <= raw_gas raw /\ max_g + raw_gas raw <= u64_max.

Lemma total_app f l l' : total f (l ++ l') = total f l + total f l'.
Proof. unfold total. induction l; cbn [foldr app]; lia. Qed.

Lemma total_snoc f l raw : total f (l ++ [raw]) = total f l + f raw.
Proof. rewrite total_app. unfold total at 2. cbn [foldr]. lia. Qed.

Lemma filter_loop_spec max_b max_g txs : forall before,
  Forall (no_overflow max_b max_g) txs -> 0 <= total zlen before <= max_b -> 0 <= total raw_gas before <= max_g ->
  let statuses := ExecutorServiceImpl.filter_loop max_b max_g (total zlen before) (total raw_gas before) txs in
  length statuses = length txs /\
  (forall i raw, txs !! i = Some raw ->
     statuses !! i = Some (status_after max_b max_g (before ++ accepted (take i txs) (take i statuses)) raw)) /\
  total zlen (before ++ accepted txs statuses) <= max_b /\ total raw_gas (before ++ accepted txs statuses) <= max_g.
Proof.
  induction txs as [|raw txs IH]; intros before Hno Hb Hg; cbn [ExecutorServiceImpl.filter_loop].
  { rewrite app_nil_r. split_and!; [done|done|lia|lia]. }
  apply Forall_cons in Hno as [(Hn1 & Hn2 & Hn3) Hno]. pose proof (Zle_0_nat (length raw)) as Hlen. fold (zlen raw) in Hlen.
  assert (Hstep : forall st, st ≠ FilterOk -> status_after max_b max_g before raw = st ->
    let statuses := st :: ExecutorServiceImpl.filter_loop max_b max_g (total zlen before) (total raw_gas before) txs in
    length statuses = length (raw :: txs) /\
    (forall i raw', (raw :: txs) !! i = Some raw' -> statuses !! i =
       Some (status_after max_b max_g (before ++ accepted (take i (raw :: txs)) (take i statuses)) raw')) /\
    total zlen (before ++ accepted (raw :: txs) statuses) <= max_b /\
    total raw_gas (before ++ accepted (raw :: txs) statuses) <= max_g).
  { intros st Hst Hs. destruct (IH before Hno Hb Hg) as (Hl & Hi & Htb & Htg). cbn [length]. split_and!.
    - by rewrite Hl.
    - intros [|i] raw' Hraw.
      + injection Hraw as <-. cbn. by rewrite app_nil_r, Hs.
      + etrans; [exact (Hi i raw' Hraw)|]. by destruct st.
    - by destruct st.
    - by destruct st. }
  unfold raw_gas in Hn2, Hn3. unfold status_after in Hstep.
  destruct (ExecutorServiceImpl.decode_tx raw) as [tx|] eqn:Ed; [|by apply Hstep].
  unfold ExecutorServiceImpl.estimate_tx_gas.
  assert (Hw : forall x, 0 <= x <= u64_max -> wrap64 x = x)
    by (intros x Hx; unfold wrapping; apply Z.mod_small; unfold u64_max in Hx; lia).
  rewrite !Hw by lia.
  destruct ((max_b <? total zlen before + zlen raw) || (max_g <? total raw_gas before + tx_gas_limit tx)) eqn:Eo;
    [by apply Hstep|]. clear Hstep.
  pose proof Eo as Eo'. apply orb_false_iff in Eo' as [Eb%Z.ltb_ge Eg%Z.ltb_ge].
  assert (Hz : total zlen (before ++ [raw]) = total zlen before + zlen raw) by apply total_snoc.
  assert (Hgas : total raw_gas (before ++ [raw]) = total raw_gas before + tx_gas_limit tx)
    by (rewrite total_snoc; unfold raw_gas at 2; by rewrite Ed).
  destruct (IH (before ++ [raw]) Hno) as (Hl & Hi & Htb & Htg); [lia|lia|].
  rewrite Hz, Hgas in Hl, Hi, Htb, Htg. rewrite <-!app_assoc in Htb, Htg. cbn [length]. split_and!; [by rewrite Hl| |done|done].
  intros [|i] raw' Hraw.
  - injection Hraw as <-. cbn [take]. unfold status_after. by rewrite app_nil_r, Ed, Eo.
  - etrans; [exact (Hi i raw' Hraw)|]. by rewrite <-app_assoc.
Qed.

End Filter.

(** ** Proposals that come back as blocks *)
Section Cycle.
Context `{RuntimeDeps} `{EthCodec} `{Secp256k1} `{AlloyTx TxLegacy} `{AlloyTx TxEip1559} `{Sha256}.
Context `{Borsh InvokeRequest} {I E : Type} `{ChainIndex I E}.
Context (drained : gset Hash -> list Hash) (Hdrained : forall s, drained s ≡ₚ elements s).

Abbreviation Service := (ExecutorServiceImpl StfExecutor (gmap bytes bytes) (ExternalConsensusCommitSink I)).

(** [c'] is what the executor decodes when [c] was proposed. *)
Definition resent (c c' : TxContext) : Prop :=
  exists b, TxContext.encode c = Ok b /\ TxContext.decode b = Ok c' /\
    c_tx_hash c' = c_tx_hash c /\ c_gas_limit c' = c_gas_limit c.

Lemma new_hash e fee c : TxContext.new e fee = Some c ->
  c_payload c = PayloadEoa e /\ c_tx_hash c = TxEnvelope.tx_hash e /\ c_gas_limit c = TxEnvelope.gas_limit e.
Proof.
  unfold TxContext.new. destruct (TxEnvelope.to e); [|done]. cbn [mbind option_bind].
  destruct (head _); [|done]. cbn [mbind option_bind].
  destruct (ok _); [|done]. cbn [mbind option_bind]. by intros <-%(inj Some).
Qed.

(** Contexts of canonically encoded transactions and of custom payloads come
    back. *)
Lemma resent_plain raw e fee c : TxEnvelope.decode raw = Ok e -> TxEnvelope.encode e = raw ->
  TxContext.new e fee = Some c -> exists c', resent c c'.
Proof.
  intros Hd Hraw Hc. pose proof (decode_signed _ _ Hd) as [_ Hh].
  pose proof (decode_encode _ _ Hd) as Hde. rewrite Hraw, Hd in Hde. apply (inj Ok) in Hde.
  destruct (new_hash _ _ _ Hc) as (Hp & Hhash & Hgas).
  assert (exists c', TxContext.new e 0 = Some c') as [c' Hc'].
  { revert Hc. unfold TxContext.new. destruct (TxEnvelope.to e); [|done]. cbn [mbind option_bind].
    destruct (head _); [|done]. cbn [mbind option_bind]. destruct (ok _); [|done]. by eexists. }
  destruct (new_hash _ _ _ Hc') as (Hp' & Hhash' & Hgas').
  exists c', raw. split_and!; try congruence.
  - unfold TxContext.encode. by rewrite Hp, Hraw.
  - assert (He : TxContext.encode c = Ok raw) by (unfold TxContext.encode; by rewrite Hp, Hraw).
    rewrite (eoa_roundtrip c e raw raw Hp Hd He), <-Hde, Hc'. done.
Qed.

Lemma resent_custom c raw : constructed c -> c_payload c = PayloadCustom raw -> is_ok (TxContext.encode c) = true ->
  resent c c.
Proof.
  intros Hc%constructed_formed Hp He. destruct (TxContext.encode c) as [b|] eqn:Eb; [|done].
  exists b. split_and!; try done. by eapply custom_roundtrip.
Qed.

Lemma resent_proposal selected : Forall (fun c => exists c', resent c c') selected ->
  exists txs, omap (fun raw => match ExecutorServiceImpl.decode_tx raw with Ok tx => Some tx | Err _ => None end)
                (omap (fun tx => ok (TxContext.encode tx)) selected) = txs /\ Forall2 resent selected txs.
Proof.
  induction 1 as [|c selected (c' & b & He & Hd & Hr) _ IH]; [by exists []|].
  destruct IH as (txs & Ht & HF). exists (c' :: txs). cbn [omap list_omap]. rewrite He. cbn [ok omap list_omap].
  unfold ExecutorServiceImpl.decode_tx at 1. rewrite Hd. split; [by f_equal|].
  constructor; [|done]. by exists b.
Qed.

Lemma resent_ids selected txs : Forall2 resent selected txs -> c_tx_hash <$> txs = tx_id <$> selected.
Proof. induction 1 as [|c c' l l' (b & _ & _ & Hh & _) _ IH]; [done|]. cbn. by rewrite Hh, IH. Qed.

Lemma resent_limits selected txs : Forall2 resent selected txs -> forall g, limits_from g txs = limits_from g selected.
Proof.
  induction 1 as [|c c' l l' (b & _ & _ & _ & Hg) _ IH]; intros g; [done|].
  unfold limits_from in *. cbn [foldl tx_gas_limit TxContext.context_transaction]. by rewrite Hg, IH.
Qed.

(** The executor runs what it proposed, and what it ran leaves the pool. *)
Record cycle_result (self self' : Service) (l arrivals : list TxContext) (req : ExecuteTxsRequest)
    (selected txs l' : list TxContext) (result : BlockResult) : Prop := {
  cr_resent : Forall2 resent selected txs;
  cr_produced : exists s, produced self req = Some (result, s, ex_storage self');
  cr_in_order : exists w1 w2,
    in_order (se_stf (ex_stf self)) (ex_codes self) (se_fuel (ex_stf self))
      (block_context (ExecutorServiceImpl.executor_block self req)) w1
      (take (length (tx_results result)) txs) (tx_results result) w2;
  cr_arrivals : l `prefix_of` l' /\ l' ⊆ l ++ arrivals;
  cr_pool : exists pool', ex_mempool self' = Some pool' /\ in_flight pool' = ∅ /\
    producing drained pool' (without (tx_id <$> take (length (tx_results result)) selected) l') }.

Lemma get_txs_ok (self : Service) raws self1 pool : operating self -> ex_mempool self = Some pool ->
  ExecutorServiceImpl.get_txs self = (Ok raws, self1) ->
  let p := Mempool.propose pool (max_gas (ex_config self)) 0 in
  raws = omap (fun tx => ok (TxContext.encode tx)) p.1.1 /\ self1 = ExecutorServiceImpl.set_mempool self (Some p.2).
Proof.
  intros [Hi _] Hp. unfold ExecutorServiceImpl.get_txs, ExecutorServiceImpl.ensure_initialized. rewrite Hi, Hp.
  destruct (Mempool.propose _ _ _) as [[selected gas] pool1]. by intros [= <- <-].
Qed.

Lemma cycle_spec (self self1 self' : Service) pool l arrivals raws req resp :
  operating self -> ex_mempool self = Some pool -> producing drained pool l -> in_flight pool = ∅ ->
  Forall (fun c => (exists c', resent c c') /\ is_u64 (c_gas_limit c)) l ->
  config_wf (storage_gas_config (se_stf (ex_stf self))) -> 0 < max_gas (ex_config self) ->
  ExecutorServiceImpl.get_txs self = (Ok raws, self1) -> et_txs req = raws ->
  ExecutorServiceImpl.execute_txs drained (arrive arrivals) self1 req = Some (Ok resp, self') ->
  exists txs l' result,
    cycle_result self self' l arrivals req (Mempool.propose pool (max_gas (ex_config self)) 0).1.1 txs l' result.
Proof using Hdrained.
  intros Hop Hpool Hp Hfly Hl Hcfg Hlim Hget Hreq Hex.
  destruct (get_txs_ok _ _ _ _ Hop Hpool Hget) as [Hraws ->].
  destruct (Mempool.propose pool _ 0) as [[selected gas] pool1] eqn:Eprop. cbn [fst snd] in *.
  destruct (after_proposal drained Hdrained _ _ arrivals _ _ _ _ _ Hp Hfly Eprop) as (l' & Hp2 & Hpre & Hsub & Hfly2 & Hin).
  assert (Hsel : Forall (fun c => (exists c', resent c c') /\ is_u64 (c_gas_limit c)) selected).
  { apply Forall_forall. intros c Hc. eapply Forall_forall in Hl; [done | by apply Hin]. }
  apply Forall_and in Hsel as [Hres Hu]. destruct (resent_proposal selected Hres) as (txs & Htxs & HF).
  set (self1 := ExecutorServiceImpl.set_mempool self (Some pool1)) in *.
  apply execute_spec in Hex as (result & s & Hprod & _ & _ & _ & _ & _ & Hmp); [|by destruct Hop].
  assert (Hb : Server.transactions (ExecutorServiceImpl.executor_block self1 req) = txs)
    by (cbn; by rewrite Hreq, Hraws, Htxs).
  rewrite Hb in Hmp. cbn [self1 ex_mempool ExecutorServiceImpl.set_mempool fmap option_fmap option_map] in Hmp.
  rewrite fmap_take, (resent_ids _ _ HF), <-fmap_take in Hmp.
  exists txs, l', result. split; [done|by exists s| |done|].
  - change (produced self1 req) with (produced self req) in Hprod. unfold produced, produce_block in Hprod.
    destruct (Stf.apply_block _ _ _ _ _) as [result' w| |] eqn:Ea; [|done|done].
    destruct (ExecutionState.into_changes _); [|done]. cbn [MockStorage.batch] in Hprod. injection Hprod as -> _ _.
    apply apply_block_in_order in Ea as (w1 & w2 & _ & Ho & _); [|done| |].
    + exists w1, w2. cbn [block_txs Server.block_trait] in Ho. change (ExecutorServiceImpl.executor_block self req)
        with (ExecutorServiceImpl.executor_block self1 req) in Ho. by rewrite Hb in Ho.
    + cbn [block_txs Server.block_trait]. change (ExecutorServiceImpl.executor_block self req)
        with (ExecutorServiceImpl.executor_block self1 req). rewrite Hb. clear -HF Hu.
      induction HF as [|c c' ? ? (b & _ & _ & _ & Hg) _ IH]; [done|]. apply Forall_cons in Hu as [Hc Hu].
      constructor; [|by apply IH]. cbn. by rewrite Hg.
    + cbn [block_txs Server.block_trait]. change (ExecutorServiceImpl.executor_block self req)
        with (ExecutorServiceImpl.executor_block self1 req). rewrite Hb, (resent_limits _ _ HF).
      assert (Hg : forall tx : TxContext, mp_gas_limit tx = tx_gas_limit tx) by done.
      exact (proposal_fits drained Hdrained Hg _ _ _ _ _ _ _ Hp Hlim Eprop).
  - eexists. split; [exact Hmp|]. split; [done|]. apply producing_finalize; [done|]. rewrite Hfly2.
    intros h. rewrite !elem_of_list_to_set, fmap_take. apply subseteq_take.
Qed.

(** What is not executed under its own hash stays in the pool. *)
Lemma pool_remove_keeps (pool : Mempool TxContext) x h : h ≠ x -> by_hash (Mempool.remove pool x).2 !! h = by_hash pool !! h.
Proof.
  intros Hx. unfold Mempool.remove. destruct (by_hash pool !! x) as [tx|]; [|done]. cbn [snd].
  assert (Hd : delete x (by_hash pool) !! h = by_hash pool !! h) by (apply lookup_delete_ne; congruence).
  destruct (sender_key tx); [|done]. destruct (by_sender _ !! _); [|done]. by case_bool_decide.
Qed.

Lemma finalize_keeps (pool : Mempool TxContext) executed h : h ∉ executed ->
  by_hash (Mempool.finalize_draining drained pool executed) !! h = by_hash pool !! h.
Proof.
  intros Hh. unfold Mempool.finalize_draining. cbn [by_hash]. unfold Mempool.remove_many.
  revert pool Hh. induction executed as [|x executed IH]; intros pool Hh; [done|].
  apply not_elem_of_cons in Hh as [Hx Hh]. cbn [foldl]. rewrite IH by done. by apply pool_remove_keeps.
Qed.

End Cycle.
