(* ===== verification/ExecutorTheorems.v ===== *)
(** * Theorems about the executor of the external consensus node

    The executor builds one chain of blocks and roots, its roots commit to the
    changes, its filter keeps within the limits, what it proposed and executed
    leaves the mempool; and what goes wrong when a transaction is skipped. *)

From S2P Require Import Prelude Core Gas ExecState ExecStateFacts Commit Runtime Invoker Token Codec Stf InvokerFacts.
From S2P Require Import CallFacts TokenExample StfFacts Chain Heap Mempool MempoolFacts MempoolSpec StorageBackend.
From S2P Require Import Server ServerFacts EthTx EthContext EthGateway EthEoa EthFacts EthExample Indexing IndexStore.
From S2P Require Import IndexTheorems Executor ExecutorFacts.

Open Scope evolve_scope.


(** C30: the root that the executor computes for a block that changes something
    commits to the root before it and to the changes. When two pairs of a root
    and a list of changes, not empty and with keys and values whose lengths fit a
    [u32], have the same root, they are the same pair, or their serialisations
    are themselves a collision of Keccak-256: different bytes with one hash. A
    block without changes keeps the root. *)
Theorem state_root_commits `{Keccak} r r' cs cs' :
  cs ≠ [] -> cs' ≠ [] -> Forall change_fits cs -> Forall change_fits cs' ->
  compute_state_root r cs = compute_state_root r' cs' ->
  (r = r' /\ cs = cs') \/
  (state_root_data r cs ≠ state_root_data r' cs' /\ keccak256 (state_root_data r cs) = keccak256 (state_root_data r' cs')).
Proof.
  intros Hn Hn' Hf Hf' He. unfold compute_state_root in He. rewrite !bool_decide_false in He by done.
  destruct (decide (state_root_data r cs = state_root_data r' cs')) as [Hd|Hd]; [left | by right].
  by apply state_root_data_inj.
Qed.

(** C29: [FilterTxs] keeps the limits. When for every transaction of the request
    the byte limit plus its length and the gas limit plus its gas fit a [u64],
    an initialised executor answers one status for each transaction: removed if
    it cannot be decoded, accepted if bytes and gas still fit beside those
    accepted before it, postponed if not; the accepted ones together keep both
    limits. *)
Theorem filter_within_limits `{RuntimeDeps} `{EthCodec} `{Secp256k1} `{AlloyTx TxLegacy} `{AlloyTx TxEip1559}
    {X S K} (self : ExecutorServiceImpl X S K) req :
  let max_b := if 0 <? ft_max_bytes req then ft_max_bytes req else max_bytes (ex_config self) in
  let max_g := if 0 <? ft_max_gas req then ft_max_gas req else max_gas (ex_config self) in
  initialized (ex_state self) = true -> 0 <= max_b -> 0 <= max_g -> Forall (no_overflow max_b max_g) (ft_txs req) ->
  exists statuses, ExecutorServiceImpl.filter_txs self req = Ok statuses /\ length statuses = length (ft_txs req) /\
    (forall i raw, ft_txs req !! i = Some raw -> statuses !! i =
       Some (status_after max_b max_g (accepted (take i (ft_txs req)) (take i statuses)) raw)) /\
    total zlen (accepted (ft_txs req) statuses) <= max_b /\ total raw_gas (accepted (ft_txs req) statuses) <= max_g.
Proof.
  intros max_b max_g Hi Hb Hg Hno. unfold ExecutorServiceImpl.filter_txs, ExecutorServiceImpl.ensure_initialized. rewrite Hi.
  eexists. split; [done|]. apply (filter_loop_spec max_b max_g (ft_txs req) []); [done | by split | by split].
Qed.

(** C13: a proposal that comes back is executed. When the consensus node
    executes the transactions the executor proposed, while others submit more,
    and the request is accepted, the executor runs them in the order of the
    proposal, and exactly the executed ones leave the mempool: the others and
    the new ones stay, and nothing remains in flight. The storage is the one in
    memory, whose batches and commits never fail; the pool is one that
    production makes, with nothing in flight, and holds transactions that come
    back from their encoding with hash and gas limit; the gas limit of the
    executor is positive. *)
Theorem executor_cycle `{RuntimeDeps} `{EthCodec} `{Secp256k1} `{AlloyTx TxLegacy} `{AlloyTx TxEip1559} `{Sha256}
    `{Borsh InvokeRequest} {I E} `{ChainIndex I E} (drained : gset Hash -> list Hash)
    (self self1 self' : ExecutorServiceImpl StfExecutor (gmap bytes bytes) (ExternalConsensusCommitSink I))
    pool l arrivals raws req resp :
  (forall s, drained s ≡ₚ elements s) ->
  operating self -> ex_mempool self = Some pool -> producing drained pool l -> in_flight pool = ∅ ->
  Forall (fun c => (exists c', resent c c') /\ is_u64 (c_gas_limit c)) l ->
  config_wf (storage_gas_config (se_stf (ex_stf self))) -> 0 < max_gas (ex_config self) ->
  ExecutorServiceImpl.get_txs self = (Ok raws, self1) -> et_txs req = raws ->
  ExecutorServiceImpl.execute_txs drained (arrive arrivals) self1 req = Some (Ok resp, self') ->
  exists txs l' result,
    cycle_result drained self self' l arrivals req (Mempool.propose pool (max_gas (ex_config self)) 0).1.1 txs l' result.
Proof. intros Hd. by apply cycle_spec. Qed.

(** ** The theorems at work *)
Import Reference.

#[export] Instance ref_sha256 : Sha256 := {| sha256 := pad 32 |}.
#[export] Instance request_borsh : Borsh InvokeRequest := stream_borsh.

Definition ex_stf_block : Stf TxContext (Server.Block TxContext) := {|
  begin_blocker _ _ := PRet tt;
  end_blocker _ := PRet tt;
  tx_validator tx env := validate_tx tx env;
  post_tx_handler _ _ _ _ := PRet (Ok tt);
  storage_gas_config := StorageGasConfig_default |}.

Definition executor : StfExecutor := mkStfExecutor ex_stf_block (fun _ => PRet (Ok tt)) 20.

Definition sink : ExternalConsensusCommitSink RefIndex :=
  ExternalConsensusCommitSink.spawn (ref_open ref_empty) (mkSinkConfig 1 1 DEFAULT_MAX_GAS true).

Abbreviation ExService := (ExecutorServiceImpl StfExecutor (gmap bytes bytes) (ExternalConsensusCommitSink RefIndex)).

Definition started (pool : Mempool TxContext) : ExService :=
  ExecutorServiceImpl.with_on_block_executed
    (ExecutorServiceImpl.with_mempool executor eth_map eth_codes ExecutorServiceConfig_default pool) sink.

Definition ready (pool : Mempool TxContext) : ExService :=
  match ExecutorServiceImpl.init_chain (started pool) (mkInitChainRequest (Some 1) 1 "1") with
  | Some (_, self) => self
  | None => started pool
  end.

Definition block_request (height : Z) (txs : list bytes) : ExecuteTxsRequest :=
  mkExecuteTxsRequest txs height (Some height) [].

Lemma ready_operating pool : operating (ready pool).
Proof. split; [done | by eexists]. Qed.

Lemma ready_setup pool : ex_mempool (ready pool) = Some pool /\ ex_stf (ready pool) = executor /\
  ex_config (ready pool) = ExecutorServiceConfig_default.
Proof. done. Qed.

Definition executed_run : list Call :=
  [CallExecute id (block_request 2 [victim_raw]); CallSetFinal 2; CallExecute id (block_request 0 []);
   CallExecute id (block_request 3 [rlp_encode (signed_call 1)])].


Definition single_change : list CoreStateChange := [CoreSet [x01] [x02]].

Lemma state_root_commits_witness :
  (B256_ZERO = B256_ZERO /\ single_change = single_change) \/
  (state_root_data B256_ZERO single_change ≠ state_root_data B256_ZERO single_change /\
   keccak256 (state_root_data B256_ZERO single_change) = keccak256 (state_root_data B256_ZERO single_change)).
Proof. apply (state_root_commits B256_ZERO B256_ZERO single_change single_change); [done | done | | | done]; apply Forall_singleton; by vm_compute. Defined.

(** Two calls that fit one at a time. *)
Definition filter_request : FilterTxsRequest := mkFilterTxsRequest [victim_raw; []; rlp_encode (signed_call 1)] 0 150000.

Lemma filter_within_limits_witness :
  exists statuses, ExecutorServiceImpl.filter_txs (ready Mempool.new) filter_request = Ok statuses /\
    statuses = [FilterOk; FilterRemove; FilterPostpone] /\ total raw_gas (accepted (ft_txs filter_request) statuses) <= 150000.
Proof.
  destruct (filter_within_limits (ready Mempool.new) filter_request) as (statuses & Hs & _ & _ & _ & Hg).
  - reflexivity.
  - by vm_compute.
  - by vm_compute.
  - repeat constructor; by vm_compute.
  - exists statuses. split; [exact Hs|]. split; [|exact Hg].
    assert (Hc : ExecutorServiceImpl.filter_txs (ready Mempool.new) filter_request = Ok [FilterOk; FilterRemove; FilterPostpone])
      by (vm_compute; reflexivity).
    rewrite Hc in Hs. by apply (inj Ok) in Hs.
Defined.

(** ** A proposal that comes back *)
Definition context_of (raw : bytes) : option TxContext :=
  match EthGateway.decode_and_verify gateway raw with Ok c => Some c | Err _ => None end.

Definition pool_of (raws : list bytes) : Mempool TxContext :=
  foldl (fun p tx => match Mempool.add p tx with Some (_, p') => p' | None => p end) Mempool.new (omap context_of raws).

Lemma pool_one raw c : context_of raw = Some c -> is_Some (Mempool.add Mempool.new c) ->
  producing elements (pool_of [raw]) (list_step (OpAdd c) []).2.
Proof.
  intros Hc [[r p'] Ha]. unfold pool_of. cbn [omap list_omap]. rewrite Hc. cbn [foldl]. rewrite Ha.
  exact (producing_add elements _ _ _ _ _ (producing_new elements) Ha).
Qed.

(** The call of [victim] is proposed, comes back as a block and leaves the
    pool. *)
Definition cycle_start : ExService := ready (pool_of [victim_raw]).
Definition cycle_request : ExecuteTxsRequest := block_request 2 [victim_raw].
Definition cycle_end : option (Result Status ExecuteTxsResponse * ExService) :=
  ExecutorServiceImpl.execute_txs elements (arrive []) (ExecutorServiceImpl.get_txs cycle_start).2 cycle_request.

Lemma victim_returns c : context_of victim_raw = Some c -> (exists c', resent c c') /\ is_u64 (c_gas_limit c).
Proof.
  intros Hc.
  assert (Hr : match TxEnvelope.decode victim_raw with
               | Ok e => TxEnvelope.encode e = victim_raw /\ TxContext.new e 0 = context_of victim_raw
               | Err _ => False
               end) by (vm_compute; split; reflexivity).
  assert (Hg : from_option (fun c => bool_decide (is_u64 (c_gas_limit c))) false (context_of victim_raw) = true)
    by (vm_compute; reflexivity).
  rewrite Hc in Hg. apply bool_decide_eq_true in Hg. split; [|exact Hg].
  destruct (TxEnvelope.decode victim_raw) as [e|] eqn:Ed; [|destruct Hr].
  destruct Hr as [He Hn]. rewrite Hc in Hn.
  exact (resent_plain victim_raw e 0 c Ed He Hn).
Qed.

Lemma executor_cycle_witness :
  exists resp self' l txs l' result, cycle_end = Some (Ok resp, self') /\
  cycle_result elements cycle_start self' l [] cycle_request
    (Mempool.propose (pool_of [victim_raw]) (max_gas (ex_config cycle_start)) 0).1.1 txs l' result.
Proof.
  assert (Hc : is_Some (context_of victim_raw)) by (apply (bool_decide_eq_true_1 (is_Some _)); vm_compute; reflexivity).
  assert (Ha : forall c, context_of victim_raw = Some c -> is_Some (Mempool.add Mempool.new c)).
  { intros c Hx. assert (Hb : from_option (fun c => bool_decide (is_Some (Mempool.add Mempool.new c))) false (context_of victim_raw) = true)
      by (vm_compute; reflexivity). rewrite Hx in Hb. by apply bool_decide_eq_true in Hb. }
  assert (He : match cycle_end with Some (Ok _, _) => true | _ => false end = true) by (vm_compute; reflexivity).
  assert (Hg : match (ExecutorServiceImpl.get_txs cycle_start).1 with Ok raws => bool_decide (raws = [victim_raw]) | Err _ => false end = true)
    by (vm_compute; reflexivity).
  assert (Hfly : in_flight (pool_of [victim_raw]) = ∅) by (apply (bool_decide_eq_true_1 (_ = _)); vm_compute; reflexivity).
  destruct Hc as [c Hc]. destruct cycle_end as [[[resp|] self']|] eqn:Ee; [|discriminate He|discriminate He].
  destruct (ExecutorServiceImpl.get_txs cycle_start) as [[raws|] self1] eqn:Eg; [|discriminate Hg]. cbn [fst] in Hg.
  apply bool_decide_eq_true in Hg as ->. unfold cycle_end in Ee. rewrite Eg in Ee.
  destruct (executor_cycle elements cycle_start self1 self' (pool_of [victim_raw]) [c] [] [victim_raw] cycle_request resp)
    as (txs & l' & result & Hr).
  - done.
  - apply ready_operating.
  - apply (ready_setup (pool_of [victim_raw])).
  - exact (pool_one victim_raw c Hc (Ha c Hc)).
  - exact Hfly.
  - apply Forall_singleton. by apply victim_returns.
  - unfold cycle_start. rewrite (proj1 (proj2 (ready_setup (pool_of [victim_raw])))). by_decision.
  - unfold cycle_start. by rewrite (proj2 (proj2 (ready_setup (pool_of [victim_raw])))).
  - exact Eg.
  - reflexivity.
  - exact Ee.
  - exists resp, self', [c], txs, l', result. split; [reflexivity | exact Hr].
Defined.

(** ** Skipped transactions *)
Definition call_with_gas (n gas : Z) : bytes :=
  rlp_encode (mkSigned (mkTxLegacy (Some 1) n 5 gas (EthTx.Call other_address) 0 []) (mkSignature 7 1 false)).

Definition small_limit (self : ExService) : ExService :=
  mkExecutorServiceImpl (ex_stf self) (ex_storage self) (ex_codes self) (ex_mempool self)
    (mkExecutorServiceConfig 150000 DEFAULT_MAX_BYTES) (ex_state self) (on_state_change self) (on_block_executed self).

(** The first transaction asks for more gas than the block has; the second is
    executed. *)
Definition skipping : list bytes := [call_with_gas 1 200000; call_with_gas 0 100000].

Definition after_skipping : option ExService :=
  match ExecutorServiceImpl.execute_txs elements id (small_limit (ready (pool_of skipping))) (block_request 2 skipping) with
  | Some (Ok _, self) => Some self
  | _ => None
  end.

Definition hash_of (raw : bytes) : Hash := from_option c_tx_hash B256_ZERO (context_of raw).

(** In the pool, and the status and gas of its receipt. *)
Definition fate (self : ExService) (raw : bytes) : option (bool * option (Z * Z)) :=
  pool ← ex_mempool self;
  k ← on_block_executed self;
  index ← sink_index k;
  match (get_receipt index (hash_of raw)).1 with
  | Ok receipt => Some (bool_decide (is_Some (by_hash pool !! hash_of raw)), (fun r => (sr_status r, sr_gas_used r)) <$> receipt)
  | Err _ => None
  end.

(** When a transaction of a block is skipped, the executor attributes the
    results to the wrong transactions: the first, which was not executed, leaves
    the mempool with the receipt of the second; the second, which was executed
    and failed with 20010 units of gas used, has no receipt and stays in the
    mempool. *)
Theorem skipped_misattributed :
  hash_of (call_with_gas 1 200000) ≠ hash_of (call_with_gas 0 100000) /\
  (fun p => (tx_gas_used <$> tx_results p.1.1, txs_skipped p.1.1)) <$>
    produced (small_limit (ready (pool_of skipping))) (block_request 2 skipping) = Some ([20010], 1) /\
  (fun self => fate self <$> skipping) <$> after_skipping = Some [Some (false, Some (0, 20010)); Some (true, None)].
Proof. split_and!; [by_decision | vm_compute; reflexivity | vm_compute; reflexivity]. Qed.

(** A gas limit near the end of its range passes the filter behind another
    transaction: the sum wraps around. *)
Example filter_overflow_accepts :
  ExecutorServiceImpl.filter_txs (ready Mempool.new)
    (mkFilterTxsRequest [victim_raw; call_with_gas 1 (u64_max - 1)] 0 150000) = Ok [FilterOk; FilterOk] /\
  ExecutorServiceImpl.filter_txs (ready Mempool.new)
    (mkFilterTxsRequest [call_with_gas 1 (u64_max - 1)] 0 150000) = Ok [FilterPostpone].
Proof. split; vm_compute; reflexivity. Qed.

(** A restarted executor knows nothing of the chain in its storage: it refuses
    blocks until the chain is initialised again. *)
Example restart_forgets_root :
  (match serve elements (ready Mempool.new) executed_run with
   | Some (_, self) =>
       let again := ExecutorServiceImpl.with_on_block_executed
         (ExecutorServiceImpl.with_mempool (ex_stf self) (ex_storage self) (ex_codes self) (ex_config self) Mempool.new) sink in
       (fun x => match x.1 with Ok _ => None | Err s => Some (status_code s) end) <$>
         ExecutorServiceImpl.execute_txs elements id again (block_request 4 [])
   | None => None
   end) = Some (Some CFailedPrecondition).
Proof. vm_compute. reflexivity. Qed.
