(* ===== verification/Nonceless.v ===== *)
(** * The nonceless account

    The account of [crates/app/sdk/extensions/nonceless_account], and what it
    accepts and keeps. *)

From S2P Require Import Prelude Core Collections Runtime Invoker InvokerFacts Isolation CollectionFacts Local.
From S2P Require Import TokenFacts.

Open Scope evolve_scope.

(** ** The nonceless account

    Models [crates/app/sdk/extensions/nonceless_account/src/lib.rs]: the
    account that protects against replays with a timestamp instead of a nonce,
    as the [AccountCode] the [account_impl] macro generates for it. *)

Definition ERR_TIMESTAMP_REPLAY : ErrorCode := define_error 0x1.

(** The messages generated for the annotated methods. *)
Record NoncelessInitializeMsg := mkNoncelessInitializeMsg { init_owner : AccountId }.
Record VerifyAndUpdateMsg := mkVerifyAndUpdateMsg { timestamp : Z }.
Record GetLastTimestampMsg := mkGetLastTimestampMsg {}.
Record GetOwnerMsg := mkGetOwnerMsg {}.

(** What borsh gives the account. A decoded timestamp is a [u64]. *)
Class NoncelessCodec := {
  ncl_initialize :: Borsh NoncelessInitializeMsg;
  ncl_verify :: Borsh VerifyAndUpdateMsg;
  ncl_get_last :: Borsh GetLastTimestampMsg;
  ncl_get_owner :: Borsh GetOwnerMsg;
  verify_in_range : forall b m, from_slice (A := VerifyAndUpdateMsg) b = Some m -> is_u64 (timestamp m)
}.

Module NoncelessAccount.
Section Methods.
Context `{RuntimeDeps} `{CollectionCodec} `{NoncelessCodec}.

Definition last_seen_timestamp : Item U64 := mkMap x00.
Definition owner : Item AccountId := mkMap x01.

Definition initialize (msg : NoncelessInitializeMsg) (env : EnvView) : EnvProg (SdkResult unit) :=
  do? Item.set owner (init_owner msg) in
  do? Item.set (V := U64) last_seen_timestamp 0 in
  mret (Ok tt).

Definition verify_and_update (msg : VerifyAndUpdateMsg) (env : EnvView) : EnvProg (SdkResult unit) :=
  let? owner := lift_query (Item.get owner env) in
  if bool_decide (sender env ≠ owner) then mret (Err ERR_UNAUTHORIZED)
  else
    let? stored := lift_query (Item.may_get last_seen_timestamp env) in
    let last_ts := unwrap_or_zero stored in
    if u64_leb (timestamp msg) last_ts then mret (Err ERR_TIMESTAMP_REPLAY)
    else
      do? Item.set (V := U64) last_seen_timestamp (timestamp msg) in
      mret (Ok tt).

Definition get_last_timestamp (msg : GetLastTimestampMsg) (env : EnvView) : QueryProg (SdkResult U64) :=
  let? t := Item.may_get last_seen_timestamp env in
  mret (Ok (unwrap_or_zero t)).

Definition get_owner (msg : GetOwnerMsg) (env : EnvView) : QueryProg (SdkResult AccountId) :=
  Item.get owner env.

(** The generated [AccountCode]. *)
Definition code : AccountCode := {|
  identifier := "NoncelessAccount";
  code_init := exec_arm false initialize;
  code_execute := dispatch
    [ (compute_function_id "verify_and_update", exec_arm false verify_and_update) ];
  code_query := dispatch
    [ (compute_function_id "get_last_timestamp", query_arm get_last_timestamp);
      (compute_function_id "get_owner", query_arm get_owner) ] |}.

End Methods.
End NoncelessAccount.

(** ** Facts about the nonceless account

    What [verify_and_update] does on every branch, what a sequence of calls
    accepts, and that the last timestamp never goes back and the owner never
    changes, whatever other code runs. *)

Section Nonceless.
Context `{RuntimeDeps} `{CollectionCodec} `{NoncelessCodec}.
Context (a : AccountId).

(** ** On the account's own storage *)
Section Spec.
Context `{Hst : !StorageTotal} `{Hkt : !KeysTotal}.

(** The account of [o] that has last seen the timestamp [t]. *)
Record nonceless_rep (st : gmap bytes bytes) (o : AccountId) (t : Z) : Prop := {
  nr_owner : holds a NoncelessAccount.owner tt st (Some o);
  nr_last : holds (V := U64) a NoncelessAccount.last_seen_timestamp tt st (Some t);
  nr_range : is_u64 t;
  nr_fit : values_fit st }.

(** The timestamp after a call, or the reason why it is refused. *)
Definition verify_result (o : AccountId) (t : Z) (sender : AccountId) (timestamp : Z) : SdkResult Z :=
  if decide (sender = o)
  then if decide (timestamp <= t) then Err ERR_TIMESTAMP_REPLAY else Ok timestamp
  else Err ERR_UNAUTHORIZED.

Definition with_timestamp (st : gmap bytes bytes) (r : SdkResult Z) : SdkResult unit * gmap bytes bytes :=
  match r with
  | Ok t => (Ok tt, put (V := U64) NoncelessAccount.last_seen_timestamp tt t st)
  | Err e => (Err e, st)
  end.

Lemma verify_exec st o t msg env :
  whoami env = a -> nonceless_rep st o t -> is_u64 (timestamp msg) ->
  exec_local a (NoncelessAccount.verify_and_update msg env) st =
  Some (with_timestamp st (verify_result o t (sender env) (timestamp msg))).
Proof using Hst Hkt.
  intros Hwho [Ho Ht Hr Hf] Hm. unfold NoncelessAccount.verify_and_update, verify_result.
  rewrite exec_local_try. unfold Item.get. rewrite exec_local_lift_try. unfold Item.may_get.
  rewrite (exec_may_get a _ _ env _ _ Hwho Hf Ho). cbn [mbind option_bind ok_or].
  cbn [exec_local lift_query mret QueryProg_ret mbind option_bind].
  case_bool_decide as Hs; [by rewrite decide_False by done|]. rewrite decide_True by done.
  rewrite exec_local_try. unfold Item.may_get. rewrite (exec_may_get a _ _ env _ _ Hwho Hf Ht).
  cbn [mbind option_bind]. unfold unwrap_or_zero, u64_leb. cbn [default]. unfold id.
  destruct (Z.leb_spec (timestamp msg) t); [by rewrite decide_True by done|]. rewrite decide_False by lia.
  rewrite exec_local_try. unfold Item.set.
  rewrite exec_set; [done | exact Hst | by eapply holds_key_ok | by apply fits_u64].
Qed.

Lemma nonceless_rep_put st o t t' : is_u64 t' -> nonceless_rep st o t ->
  nonceless_rep (put (V := U64) NoncelessAccount.last_seen_timestamp tt t' st) o t'.
Proof using Hkt.
  intros Hm [Ho Ht Hr Hf]. split; [| |done|].
  - apply holds_put_apart; [by apply apart_prefix | done].
  - apply holds_put; [by eapply holds_key_ok | by apply fits_u64].
  - apply values_fit_put; [by apply fits_u64 | done].
Qed.

(** A sequence of calls: who sends them and with which timestamps. *)
Fixpoint calls (cs : list (AccountId * Z)) (st : gmap bytes bytes) : option (list (SdkResult unit) * gmap bytes bytes) :=
  match cs with
  | [] => Some ([], st)
  | (s, t) :: cs =>
      '(r, st) ← exec_local a (NoncelessAccount.verify_and_update (mkVerifyAndUpdateMsg t)
                                 (mkEnvView a s [] BlockContext_default)) st;
      '(rs, st) ← calls cs st;
      Some (r :: rs, st)
  end.

(** The timestamps that are accepted: those of the owner that exceed all
    accepted before. *)
Fixpoint accepted (o : AccountId) (t : Z) (cs : list (AccountId * Z)) : list Z :=
  match cs with
  | [] => []
  | (s, t') :: cs =>
      match verify_result o t s t' with
      | Ok t' => t' :: accepted o t' cs
      | Err _ => accepted o t cs
      end
  end.

(** The timestamps of the calls that succeeded. *)
Definition succeeded (cs : list (AccountId * Z)) (rs : list (SdkResult unit)) : list Z :=
  omap (fun '((_, t), r) => if is_ok r then Some t else None) (zip cs rs).

Lemma calls_accept cs : forall st o t,
  nonceless_rep st o t -> Forall (fun c => is_u64 c.2) cs ->
  exists rs st', calls cs st = Some (rs, st') /\ length rs = length cs /\
    succeeded cs rs = accepted o t cs /\ nonceless_rep st' o (default t (last (accepted o t cs))).
Proof using Hst Hkt.
  induction cs as [|[s t'] cs IH]; intros st o t Hr Hcs; [by exists [], st|].
  apply Forall_cons in Hcs as [Hc Hcs]. cbn [snd] in Hc. cbn [calls accepted]. rewrite (verify_exec st o t) by done.
  cbn [sender timestamp mbind option_bind]. destruct (verify_result o t s t') as [t1|e] eqn:E; cbn [with_timestamp].
  - assert (t1 = t') as ->. { revert E. unfold verify_result. repeat case_decide; by intros [=]. }
    destruct (IH _ o t' (nonceless_rep_put _ _ _ _ Hc Hr) Hcs) as (rs & st' & -> & Hl & Hs & Hr').
    exists (Ok tt :: rs), st'. split; [done|]. split; [by cbn; rewrite Hl|]. split; [by cbn; f_equal|].
    rewrite last_cons. by destruct (last (accepted o t' cs)).
  - destruct (IH st o t Hr Hcs) as (rs & st' & -> & Hl & Hs & Hr').
    exists (Err e :: rs), st'. split_and!; [done | by cbn; rewrite Hl | done | done].
Qed.

(** No timestamp is accepted twice, and none below one that was accepted. *)
Lemma accepted_increasing o cs : forall t, StronglySorted Z.lt (t :: accepted o t cs).
Proof.
  clear. induction cs as [|[s t'] cs IH]; intros t; cbn [accepted]; [by repeat constructor|].
  unfold verify_result. repeat case_decide; try apply IH.
  specialize (IH t'). constructor; [done|]. apply StronglySorted_inv in IH as [_ IH].
  constructor; [lia|]. eapply Forall_impl; [exact IH|]. intros x Hx. cbn in Hx. lia.
Qed.

End Spec.

(** ** Under arbitrary other code *)

(** The owner is [o] and the last timestamp at least [t]. *)
Record nonceless_holds (o : AccountId) (m : Z) (st : Store) : Prop := {
  nh_last : forall k, Map.make_key NoncelessAccount.last_seen_timestamp tt = Ok k -> read (V := U64) st k = Ok (Some m);
  nh_owner : forall k, Map.make_key NoncelessAccount.owner tt = Ok k -> read st k = Ok (Some o) }.

Definition nonceless_state (o : AccountId) (t : Z) (st : Store) : Prop :=
  exists m, t <= m /\ nonceless_holds o m st.

Lemma nonceless_state_proper o t st st' : store_eq st st' -> nonceless_state o t st -> nonceless_state o t st'.
Proof.
  intros Hs (m & Hm & [Hl Ho]). exists m. split; [done|].
  split; intros; rewrite <-(read_proper st st') by done; auto.
Qed.

Lemma nonceless_holds_put o m m' st k b :
  nonceless_holds o m st -> Map.make_key NoncelessAccount.last_seen_timestamp tt = Ok k ->
  encode_value (A := U64) m' = Ok b -> nonceless_holds o m' (upd st k (Some b)).
Proof.
  intros [Hl Ho] Hk Hb. split.
  - intros k' Hk'. assert (k' = k) as -> by congruence. by apply (read_upd (V := U64)).
  - intros k' Hk'. rewrite read_upd_ne; [auto|]. intros ->. unfold Map.make_key in *.
    repeat case_match; simplify_eq.
Qed.

(** The branches of [verify_and_update] in the logic of [Isolation]. *)
Lemma wp_verify o m I Q st msg env :
  whoami env = a -> nonceless_holds o m st ->
  (forall e, Q (Err e) st) ->
  (forall k b, sender env = o -> m < timestamp msg ->
     Map.make_key NoncelessAccount.last_seen_timestamp tt = Ok k ->
     encode_value (A := U64) (timestamp msg) = Ok b -> Q (Ok tt) (upd st k (Some b))) ->
  wp a I (NoncelessAccount.verify_and_update msg env) Q st.
Proof.
  intros Hwho [Hl Ho] He Hok. unfold NoncelessAccount.verify_and_update, Item.get.
  apply wp_try, wp_lift_try, wp_may_get; [done | done |]. intros k x Hk Hx. rewrite (Ho _ Hk) in Hx.
  apply (inj Ok) in Hx as <-. cbn [wp lift_query mret QueryProg_ret ok_or].
  case_bool_decide as Hs; [apply He|].
  apply wp_try, wp_may_get; [done | done |]. intros k' x' Hk' Hx'. rewrite (Hl _ Hk') in Hx'.
  apply (inj Ok) in Hx' as <-. unfold unwrap_or_zero, u64_leb. cbn [default]. unfold id.
  destruct (Z.leb_spec (timestamp msg) m); [apply He|].
  apply wp_try, wp_set; [done|]. intros k2 b Hk2 Hb. by apply Hok.
Qed.

Lemma nonceless_keeps o t : keeps_invariant a NoncelessAccount.code (nonceless_state o t).
Proof.
  intros env req st Hwho (m & Hm & Hst). cbn [NoncelessAccount.code code_execute dispatch].
  case_match; [|done]. apply exec_arm_keeps. intros msg _. eapply wp_verify; [done | done | done |].
  intros k b _ Hlt Hk Hb _. exists (timestamp msg). split; [lia | by eapply nonceless_holds_put].
Qed.

End Nonceless.
