(* ===== verification/Scheduler.v ===== *)
(** * The scheduler

    The scheduler of [crates/app/sdk/extensions/scheduler] with its block hooks,
    and what they do when the state transition function runs them. *)

From S2P Require Import Prelude Core Gas Collections ExecState ExecStateFacts Runtime Invoker Stf InvokerFacts.
From S2P Require Import CallFacts Isolation CollectionFacts Local.

Open Scope evolve_scope.

(** ** The scheduler and its block hooks

    Models [crates/app/sdk/extensions/scheduler/src]: the [Scheduler] account
    of [lib.rs], which runs [do_begin_block] and [do_end_block] on the accounts
    it lists, and the begin and end blockers of [server.rs], which a chain
    gives to its state transition function to run the scheduler in every
    block. *)

(** ** The interfaces of the scheduled accounts *)
Record BeginBlockAccountInterfaceRef := mkBeginBlockAccountInterfaceRef { begin_block_ref : AccountId }.
Record EndBlockAccountInterfaceRef := mkEndBlockAccountInterfaceRef { end_block_ref : AccountId }.
Record SchedulerRef := mkSchedulerRef { scheduler_ref : AccountId }.

Record DoBeginBlockMsg := mkDoBeginBlockMsg {}.
Record DoEndBlockMsg := mkDoEndBlockMsg {}.

(** The messages generated for the methods of the scheduler. *)
Record SchedulerInitializeMsg := mkSchedulerInitializeMsg {
  si_begin_block_accounts : list AccountId; si_end_block_accounts : list AccountId }.
Record UpdateBeginBlockersMsg := mkUpdateBeginBlockersMsg { new_begin_blockers : list AccountId }.
Record UpdateEndBlockersMsg := mkUpdateEndBlockersMsg { new_end_blockers : list AccountId }.
Record ScheduleBeginBlockMsg := mkScheduleBeginBlockMsg {}.
Record ScheduleEndBlockMsg := mkScheduleEndBlockMsg {}.

Class SchedulerCodec := {
  sch_begin_refs :: Borsh (list BeginBlockAccountInterfaceRef);
  sch_end_refs :: Borsh (list EndBlockAccountInterfaceRef);
  sch_do_begin_block :: Borsh DoBeginBlockMsg;
  sch_do_end_block :: Borsh DoEndBlockMsg;
  sch_initialize :: Borsh SchedulerInitializeMsg;
  sch_update_begin :: Borsh UpdateBeginBlockersMsg;
  sch_update_end :: Borsh UpdateEndBlockersMsg;
  sch_schedule_begin :: Borsh ScheduleBeginBlockMsg;
  sch_schedule_end :: Borsh ScheduleEndBlockMsg
}.

#[export] Instance DoBeginBlockMsg_invokable `{Keccak} : InvokableMessage DoBeginBlockMsg :=
  {| FUNCTION_IDENTIFIER := compute_function_id "do_begin_block"; FUNCTION_IDENTIFIER_NAME := "do_begin_block" |}.
#[export] Instance DoEndBlockMsg_invokable `{Keccak} : InvokableMessage DoEndBlockMsg :=
  {| FUNCTION_IDENTIFIER := compute_function_id "do_end_block"; FUNCTION_IDENTIFIER_NAME := "do_end_block" |}.
#[export] Instance ScheduleBeginBlockMsg_invokable `{Keccak} : InvokableMessage ScheduleBeginBlockMsg :=
  {| FUNCTION_IDENTIFIER := compute_function_id "schedule_begin_block";
     FUNCTION_IDENTIFIER_NAME := "schedule_begin_block" |}.
#[export] Instance ScheduleEndBlockMsg_invokable `{Keccak} : InvokableMessage ScheduleEndBlockMsg :=
  {| FUNCTION_IDENTIFIER := compute_function_id "schedule_end_block";
     FUNCTION_IDENTIFIER_NAME := "schedule_end_block" |}.

Module Scheduler.
Section Methods.
Context `{RuntimeDeps} `{CollectionCodec} `{SchedulerCodec}.

Definition begin_block_accounts : Item (list BeginBlockAccountInterfaceRef) := mkMap x00.
Definition end_block_accounts : Item (list EndBlockAccountInterfaceRef) := mkMap x01.

(** The methods of the generated references. *)
Definition do_begin_block (self : BeginBlockAccountInterfaceRef) : EnvProg (SdkResult unit) :=
  exec_account (Resp := unit) (begin_block_ref self) mkDoBeginBlockMsg [].
Definition do_end_block (self : EndBlockAccountInterfaceRef) : EnvProg (SdkResult unit) :=
  exec_account (Resp := unit) (end_block_ref self) mkDoEndBlockMsg [].

Definition initialize (msg : SchedulerInitializeMsg) (env : EnvView) : EnvProg (SdkResult unit) :=
  do? Item.set begin_block_accounts (mkBeginBlockAccountInterfaceRef <$> si_begin_block_accounts msg) in
  do? Item.set end_block_accounts (mkEndBlockAccountInterfaceRef <$> si_end_block_accounts msg) in
  mret (Ok tt).

Definition update_begin_blockers (msg : UpdateBeginBlockersMsg) (env : EnvView) : EnvProg (SdkResult unit) :=
  if bool_decide (sender env ≠ RUNTIME_ACCOUNT_ID) then mret (Err ERR_UNAUTHORIZED)
  else
    do? Item.set begin_block_accounts (mkBeginBlockAccountInterfaceRef <$> new_begin_blockers msg) in
    mret (Ok tt).

Definition update_end_blockers (msg : UpdateEndBlockersMsg) (env : EnvView) : EnvProg (SdkResult unit) :=
  if bool_decide (sender env ≠ RUNTIME_ACCOUNT_ID) then mret (Err ERR_UNAUTHORIZED)
  else
    do? Item.set end_block_accounts (mkEndBlockAccountInterfaceRef <$> new_end_blockers msg) in
    mret (Ok tt).

(** [for account in accounts { method(account, env)?; }] *)
Fixpoint for_each {A} (method : A -> EnvProg (SdkResult unit)) (accounts : list A) : EnvProg (SdkResult unit) :=
  match accounts with
  | [] => mret (Ok tt)
  | account :: accounts => do? method account in for_each method accounts
  end.

(** [.unwrap()] of the stored list. *)
Definition unwrap_list {A} (o : option (list A)) (k : list A -> EnvProg (SdkResult unit))
    : EnvProg (SdkResult unit) :=
  match o with Some l => k l | None => PPanic end.

Definition schedule_begin_block (msg : ScheduleBeginBlockMsg) (env : EnvView) : EnvProg (SdkResult unit) :=
  if bool_decide (sender env ≠ RUNTIME_ACCOUNT_ID) then mret (Err ERR_UNAUTHORIZED)
  else
    let? o := lift_query (Item.may_get begin_block_accounts env) in
    unwrap_list o (fun accounts => for_each do_begin_block accounts).

Definition schedule_end_block (msg : ScheduleEndBlockMsg) (env : EnvView) : EnvProg (SdkResult unit) :=
  if bool_decide (sender env ≠ RUNTIME_ACCOUNT_ID) then mret (Err ERR_UNAUTHORIZED)
  else
    let? o := lift_query (Item.may_get end_block_accounts env) in
    unwrap_list o (fun accounts => for_each do_end_block accounts).

(** The generated [AccountCode]. *)
Definition code : AccountCode := {|
  identifier := "Scheduler";
  code_init := exec_arm false initialize;
  code_execute := dispatch
    [ (compute_function_id "update_begin_blockers", exec_arm false update_begin_blockers);
      (compute_function_id "update_end_blockers", exec_arm false update_end_blockers);
      (compute_function_id "schedule_begin_block", exec_arm false schedule_begin_block);
      (compute_function_id "schedule_end_block", exec_arm false schedule_end_block) ];
  code_query := dispatch [] |}.

End Methods.
End Scheduler.

(** ** The hooks of the state transition function ([server.rs]) *)
Record SchedulerBeginBlocker := mkSchedulerBeginBlocker { sbb_scheduler_id : AccountId }.
Record SchedulerEndBlocker := mkSchedulerEndBlocker { seb_scheduler_id : AccountId }.

Section Hooks.
Context `{RuntimeDeps} `{CollectionCodec} `{SchedulerCodec}.

Definition must_get_scheduler (scheduler_id : AccountId) : SchedulerRef := mkSchedulerRef scheduler_id.

(** The methods of [SchedulerRef]. *)
Definition ref_schedule_begin_block (self : SchedulerRef) : EnvProg (SdkResult unit) :=
  exec_account (Resp := unit) (scheduler_ref self) mkScheduleBeginBlockMsg [].
Definition ref_schedule_end_block (self : SchedulerRef) : EnvProg (SdkResult unit) :=
  exec_account (Resp := unit) (scheduler_ref self) mkScheduleEndBlockMsg [].

(** [Result::unwrap]. *)
Definition unwrap {A} (m : EnvProg (SdkResult A)) : EnvProg A :=
  r ← m; match r with Ok x => mret x | Err _ => PPanic end.

Definition begin_block {B} (self : SchedulerBeginBlocker) (_block : B) (env : EnvView) : EnvProg unit :=
  unwrap (ref_schedule_begin_block (must_get_scheduler (sbb_scheduler_id self))).

Definition end_block (self : SchedulerEndBlocker) (env : EnvView) : EnvProg unit :=
  unwrap (ref_schedule_end_block (must_get_scheduler (seb_scheduler_id self))).

End Hooks.

(** ** Facts about the scheduler

    What a call of an ordinary account comes down to, and with it what the
    hooks of the scheduler do when the state transition function runs them. *)

(** ** Running programs in sequence *)
Section Run.
Context `{RuntimeDeps} (codes : AccountsCodeStorage).

Lemma run_bind {R S} fuel inv (p : EnvProg R) (f : R -> EnvProg S) w :
  Invoker.run codes fuel inv (p ≫= f) w = (Invoker.run codes fuel inv p ≫= fun r => Invoker.run codes fuel inv (f r)) w.
Proof.
  unfold Invoker.run, Invoker.run_env. revert w.
  induction p as [x| |to data k IH|to data fs k IH|name data k IH|k IH]; intros w; cbn; try done;
    unfold mbind, M_bind in *; case_match; try done; apply IH.
Qed.

Lemma run_try {R S} fuel inv (p : EnvProg (SdkResult R)) (f : R -> EnvProg (SdkResult S)) w :
  Invoker.run codes fuel inv (try_bind p f) w =
  try_bind (Invoker.run codes fuel inv p) (fun r => Invoker.run codes fuel inv (f r)) w.
Proof.
  unfold try_bind. rewrite run_bind. unfold mbind, M_bind. destruct (Invoker.run codes fuel inv p w) as [[r|e] w'| |]; done.
Qed.

(** Reading own storage: the value, and a state that reads like the old one. *)
Lemma run_may_get {K V} `{Borsh K, Borsh V, !StorageTotal} (m : Map K V) key fuel inv st o n w :
  holds (inv_whoami inv) m key st o -> values_fit st -> local_world (inv_whoami inv) st n w ->
  exists w0, Invoker.run codes (S fuel) inv (lift_query (Map.may_get m key (Invoker.env_view inv))) w = Done (Ok o) w0 /\
             w_storage w0 ≈ w_storage w /\ w_gas w0 = w_gas w.
Proof.
  intros Hh Hf Hw. set (p := lift_query _).
  assert (He : exec_local (inv_whoami inv) p st = Some (Ok o, st)) by (by apply exec_may_get).
  assert (Hread : m_readonly (Invoker.run codes (S fuel) inv p)).
  { unfold p, Invoker.run, Invoker.run_env. clear. set (q := Map.may_get _ _ _). clearbody q.
    induction q as [x| |to data k IH]; cbn [lift_query run_prog]; auto with sound.
    apply m_readonly_bind; [apply do_query_readonly | exact IH]. }
  specialize (Hread w). revert He Hread. unfold p. clear p.
  assert (Hq : forall {R} (q : QueryProg R) w r st', local_world (inv_whoami inv) st n w ->
            exec_local (inv_whoami inv) (lift_query q) st = Some (r, st') ->
            exists w0, Invoker.run codes (S fuel) inv (lift_query q) w = Done r w0 /\ w_gas w0 = w_gas w).
  { clear. intros R q. induction q as [x| |to data k IH]; intros w r st' Hw He; cbn in He; [|done|].
    - simplify_eq. by exists w.
    - case_decide as Hto; [|done]. subst to. destruct (local_query _ st data) as [resp|] eqn:Eq; [|done]. cbn in He.
      destruct (do_query_local codes (inv_whoami inv) inv fuel st n w data resp Hw Eq) as (w1 & Hdq & Hw1).
      unfold Invoker.run, Invoker.run_env in *. cbn [lift_query run_prog]. unfold mbind, M_bind. rewrite Hdq.
      destruct (IH _ w1 r st' Hw1 He) as (w0 & -> & Hg). exists w0. split; [done|].
      by rewrite Hg, (lw_gas _ _ _ _ Hw1), (lw_gas _ _ _ _ Hw). }
  intros He Hr. destruct (Hq _ _ w _ _ Hw He) as (w0 & Hrun & Hg). rewrite Hrun in Hr. by exists w0.
Qed.

(** ** A call of an ordinary account *)
Lemma do_exec_call fuel inv to cid c data w :
  to ≠ RUNTIME_ACCOUNT_ID -> to ≠ STORAGE_ACCOUNT_ID -> inv_call_depth inv < MAX_CALL_DEPTH ->
  lookup_code codes cid = Ok (Some c) ->
  (get_account_code_identifier_for_account (w_storage w) to).1 = Ok (Some cid) ->
  exists w0, w_storage w0 ≈ w_storage w /\ w_gas w0 = w_gas w /\
    let callee := Invoker.branch_exec inv to [] in
    match Invoker.run codes fuel callee (code_execute c (Invoker.env_view callee) data) w0 with
    | Done (Err e) w' => exists s, s ≈ w_storage w /\
        Invoker.do_exec codes (S fuel) inv to data [] w = Done (Err e) (mkWorld s (w_gas w'))
    | o => Invoker.do_exec codes (S fuel) inv to data [] w = o
    end.
Proof.
  intros Hrt Hst Hd Hc Hid.
  set (w1 := mkWorld (ExecutionState.checkpoint (w_storage w)).2 (w_gas w)).
  assert (H1 : w_storage w1 ≈ w_storage w) by apply checkpoint_equiv.
  pose proof (get_code_identifier_equiv (w_storage w1) to) as Heq.
  pose proof (get_code_identifier_proper _ _ to H1) as Hid1. rewrite Hid in Hid1.
  destruct (get_account_code_identifier_for_account (w_storage w1) to) as [r s1] eqn:Eg. cbn in Hid1, Heq. subst r.
  set (w0 := mkWorld s1 (w_gas w)). exists w0. split; [by etrans|]. split; [done|]. cbv zeta.
  set (callee := Invoker.branch_exec inv to []).
  assert (Hx : Invoker.exec_without_transfers codes (Invoker.do_query codes fuel) (Invoker.do_exec codes fuel) inv to data [] w1 =
               Invoker.run codes fuel callee (code_execute c (Invoker.env_view callee) data) w0).
  { unfold Invoker.exec_without_transfers. rewrite !bool_decide_false by done.
    unfold Invoker.account_code_id, try_bind. unfold mbind at 1 2, M_bind, on_storage. rewrite Eg.
    unfold mret, M_ret, ok_or, with_code, mbind, Result_bind. by rewrite Hc. }
  assert (Hb : Invoker.do_exec codes (S fuel) inv to data [] w =
    match Invoker.run codes fuel callee (code_execute c (Invoker.env_view callee) data) w0 with
    | Done resp w' =>
        (if is_err resp
         then _ ← Invoker.restore_checkpoint (ExecutionState.checkpoint (w_storage w)).1; mret resp else mret resp) w'
    | Panicked why => Panicked why
    | OutOfFuel => OutOfFuel
    end).
  { cbn [Invoker.do_exec]. unfold Invoker.do_exec_body. rewrite (proj2 (Z.leb_gt _ _) Hd), <-Hx. done. }
  rewrite Hb.
  assert (Hev : forall w', evolves w0 w' -> evolves w w').
  { intros w' He. etrans; [|exact He]. etrans; [by apply (ev_observe w (w_storage w1))|].
    pose proof (get_code_identifier_sound to w1) as Hs. unfold on_storage in Hs. by rewrite Eg in Hs. }
  pose proof (run_sound codes fuel callee (code_execute c (Invoker.env_view callee) data) w0) as Hs.
  destruct (Invoker.run _ _ _ _ w0) as [[resp|e] w'| |]; [done | |done..].
  destruct (restore_checkpoint_rollback _ _ (Hev _ Hs)) as (s & Hr & Hseq & _).
  exists s. split; [done|]. change (is_err (Err e)) with true. cbv beta iota delta [mbind M_bind]. by rewrite Hr.
Qed.

End Run.

(** ** The hooks *)

(** Borsh encodes the messages without fields. *)
Class SchedulerTotal `{SchedulerCodec} : Prop := {
  do_begin_encodes : is_Some (to_vec mkDoBeginBlockMsg);
  do_end_encodes : is_Some (to_vec mkDoEndBlockMsg);
  schedule_begin_encodes : is_Some (to_vec mkScheduleBeginBlockMsg);
  schedule_end_encodes : is_Some (to_vec mkScheduleEndBlockMsg)
}.

Lemma request_of {A} `{Borsh A, InvokableMessage A} (m : A) :
  is_Some (to_vec m) -> exists req, InvokeRequest.new m = Ok req /\
    InvokeRequest.get req = Ok m /\ function req = FUNCTION_IDENTIFIER A.
Proof.
  intros [b Hb]. destruct (InvokeRequest.new m) as [req|e] eqn:E.
  - exists req. split; [done|]. by apply InvokeRequest_get_new.
  - unfold InvokeRequest.new, Message.new, encode_value in E. by rewrite Hb in E.
Qed.

Section Hooks.
Context `{RuntimeDeps} `{CollectionCodec} `{SchedulerCodec}.
Context `{Hst : !StorageTotal} `{Hkt : !KeysTotal} `{Hsc : !SchedulerTotal}.
Context (codes : AccountsCodeStorage) (s : AccountId).

(** The names of the scheduler's methods hash to different identifiers. *)
Definition methods_distinct : Prop :=
  NoDup (compute_function_id <$> ["update_begin_blockers"; "update_end_blockers";
                                  "schedule_begin_block"; "schedule_end_block"]).

(** The scheduler's account, with the lists [begins] and [ends]. *)
Record scheduler_world (begins : list BeginBlockAccountInterfaceRef) (ends : list EndBlockAccountInterfaceRef)
    (w : World) : Prop := {
  sw_ordinary : s ≠ RUNTIME_ACCOUNT_ID /\ s ≠ STORAGE_ACCOUNT_ID;
  sw_lookup : lookup_code codes (identifier Scheduler.code) = Ok (Some Scheduler.code);
  sw_code : (get_account_code_identifier_for_account (w_storage w) s).1 = Ok (Some (identifier Scheduler.code));
  sw_store : exists st, values_fit st /\ local_world s st 0 w /\
    holds s Scheduler.begin_block_accounts tt st (Some begins) /\
    holds s Scheduler.end_block_accounts tt st (Some ends) }.

(** Call [accounts] in order with [request], as [inv]; stop at the first that
    fails or does not answer with the unit. *)
Fixpoint call_each (fuel : nat) (inv : Invoker) (request : InvokeRequest) (accounts : list AccountId)
    : M (SdkResult unit) :=
  match accounts with
  | [] => mret (Ok tt)
  | account :: accounts =>
      let? resp := Invoker.do_exec codes fuel inv account request [] in
      do? mret (InvokeResponse.get (A := unit) resp) in
      call_each fuel inv request accounts
  end.

Lemma exec_account_run {Msg R} `{Borsh Msg, InvokableMessage Msg, Borsh R} (m : Msg) req fuel inv to w :
  InvokeRequest.new m = Ok req ->
  Invoker.run codes fuel inv (exec_account (Resp := R) to m []) w =
  match Invoker.do_exec codes fuel inv to req [] w with
  | Done (Ok resp) w' => Done (InvokeResponse.get resp) w'
  | Done (Err e) w' => Done (Err e) w'
  | Panicked why => Panicked why
  | OutOfFuel => OutOfFuel
  end.
Proof using.
  intros Hreq. unfold exec_account. rewrite Hreq. unfold Invoker.run, Invoker.run_env, do_exec. cbn.
  unfold mbind, M_bind. destruct (Invoker.do_exec codes fuel inv to req [] w) as [[resp|e] w1| |]; done.
Qed.

Lemma for_each_run {A Msg} `{Borsh Msg, InvokableMessage Msg} (id : A -> AccountId) (m : Msg) req fuel inv accounts :
  InvokeRequest.new m = Ok req -> forall w,
  Invoker.run codes fuel inv (Scheduler.for_each (fun r => exec_account (Resp := unit) (id r) m []) accounts) w =
  call_each fuel inv req (id <$> accounts) w.
Proof using.
  intros Hreq. induction accounts as [|r accounts IH]; intros w; [done|].
  cbn [Scheduler.for_each]. rewrite fmap_cons. cbn [call_each]. rewrite run_try.
  unfold try_bind, mbind, M_bind. rewrite (exec_account_run m req) by done.
  destruct (Invoker.do_exec codes fuel inv (id r) req [] w) as [[resp|e] w1| |]; [|done..].
  unfold mret, M_ret. destruct (InvokeResponse.get resp) as [[]|e]; [apply IH | done].
Qed.

(** A guarded method of the scheduler, called by the runtime. *)
Lemma scheduled_run {A Msg} `{Borsh (list A), Borsh Msg, InvokableMessage Msg} (id : A -> AccountId) (m : Msg) (req : InvokeRequest)
    (item : Item (list A)) accounts st fuel inv w :
  InvokeRequest.new m = Ok req -> inv_sender inv = RUNTIME_ACCOUNT_ID ->
  values_fit st -> holds (inv_whoami inv) item tt st (Some accounts) -> local_world (inv_whoami inv) st 0 w ->
  exists w0, w_storage w0 ≈ w_storage w /\ w_gas w0 = w_gas w /\
    let env := Invoker.env_view inv in
    Invoker.run codes (S fuel) inv
      (if bool_decide (sender env ≠ RUNTIME_ACCOUNT_ID) then mret (Err ERR_UNAUTHORIZED)
       else let? o := lift_query (Item.may_get item env) in
            Scheduler.unwrap_list o (fun accounts =>
              Scheduler.for_each (fun r => exec_account (Resp := unit) (id r) m []) accounts)) w =
    call_each (S fuel) inv req (id <$> accounts) w0.
Proof using Hst.
  intros Hreq Hs Hf Hh Hw. destruct (run_may_get codes item tt fuel inv st _ 0 w Hh Hf Hw) as (w0 & Hrun & Hw0 & Hg).
  exists w0. split; [done|]. split; [done|]. cbv zeta. rewrite bool_decide_false by (cbn; congruence).
  rewrite run_try. unfold try_bind, mbind, M_bind. unfold Item.may_get. rewrite Hrun.
  cbn [Scheduler.unwrap_list]. by apply for_each_run.
Qed.

(** A dispatch arm runs its method and encodes what it returns. *)
Lemma exec_arm_run {Msg R} `{Borsh Msg, Borsh R} (method : Msg -> EnvView -> EnvProg (SdkResult R)) (m : Msg) req fuel inv w :
  InvokeRequest.get req = Ok m -> inv_funds inv = [] ->
  Invoker.run codes fuel inv (exec_arm false method (Invoker.env_view inv) req) w =
  match Invoker.run codes fuel inv (method m (Invoker.env_view inv)) w with
  | Done (Ok r) w' => Done (InvokeResponse.new r) w'
  | Done (Err e) w' => Done (Err e) w'
  | Panicked why => Panicked why
  | OutOfFuel => OutOfFuel
  end.
Proof using.
  intros Hget Hf. unfold exec_arm. rewrite Hget. cbn [mret EnvProg_ret try_bind mbind EnvProg_bind].
  rewrite bool_decide_true by done. cbn [negb andb]. rewrite run_try. unfold try_bind, mbind, M_bind.
  destruct (Invoker.run _ _ _ _ w) as [[r|e] w'| |]; done.
Qed.

(** What becomes of the hooks' result in the call of the scheduler. *)
Definition hook_outcome (o : Outcome (SdkResult unit)) : Outcome unit :=
  match o with
  | Done (Ok _) w => Done tt w
  | Done (Err _) _ => Panicked CodePanic
  | Panicked why => Panicked why
  | OutOfFuel => OutOfFuel
  end.

(** A method of the scheduler that runs hooks, called through its reference
    and unwrapped. *)
Lemma hook_run {Msg} `{Borsh Msg, InvokableMessage Msg} (m : Msg) (req hook : InvokeRequest)
    (method : Msg -> EnvView -> EnvProg (SdkResult unit)) accounts fuel inv w :
  InvokeRequest.new m = Ok req -> inv_call_depth inv < MAX_CALL_DEPTH -> s ≠ RUNTIME_ACCOUNT_ID -> s ≠ STORAGE_ACCOUNT_ID ->
  lookup_code codes (identifier Scheduler.code) = Ok (Some Scheduler.code) ->
  (get_account_code_identifier_for_account (w_storage w) s).1 = Ok (Some (identifier Scheduler.code)) ->
  (forall env, code_execute Scheduler.code env req = exec_arm false method env req) ->
  let callee := Invoker.branch_exec inv s [] in
  (forall w1, w_storage w1 ≈ w_storage w -> w_gas w1 = w_gas w -> exists w0, w_storage w0 ≈ w_storage w1 /\ w_gas w0 = w_gas w1 /\
     Invoker.run codes fuel callee (method m (Invoker.env_view callee)) w1 = call_each fuel callee hook accounts w0) ->
  exists w0, w_storage w0 ≈ w_storage w /\ w_gas w0 = w_gas w /\
    Invoker.run codes (S fuel) inv (unwrap (exec_account (Resp := unit) s m [])) w =
    hook_outcome (call_each fuel callee hook accounts w0).
Proof using Hkt.
  intros Hreq Hd Hr Hs Hl Hc Hx callee Hm.
  destruct (InvokeRequest_get_new _ _ Hreq) as [Hget _].
  destruct (do_exec_call codes fuel inv s _ _ req w Hr Hs Hd Hl Hc) as (w1 & Hw1 & Hg1 & Hcall). cbv zeta in Hcall.
  destruct (Hm w1 Hw1 Hg1) as (w0 & Hw0 & Hg0 & Hrun). exists w0. split; [by etrans|]. split; [by etrans|].
  unfold unwrap. rewrite run_bind. unfold mbind, M_bind. rewrite (exec_account_run m req) by done.
  fold callee in Hcall. rewrite (Hx _), (exec_arm_run method m) in Hcall by done. rewrite Hrun in Hcall.
  destruct (call_each fuel callee hook accounts w0) as [[[]|e] w2|why|]; cbn [hook_outcome].
  - destruct (InvokeResponse.new tt) as [resp|e] eqn:Er.
    + rewrite Hcall, (InvokeResponse_get_new _ _ Er). done.
    + unfold InvokeResponse.new, Message.new, encode_value in Er. by rewrite unit_encodes in Er.
  - destruct Hcall as (s' & _ & ->). done.
  - by rewrite Hcall.
  - by rewrite Hcall.
Qed.

(** The arms of the two methods. *)
Lemma dispatch_schedule_begin req env :
  methods_distinct -> function req = FUNCTION_IDENTIFIER ScheduleBeginBlockMsg ->
  code_execute Scheduler.code env req = exec_arm false Scheduler.schedule_begin_block env req.
Proof using.
  clear Hst Hkt Hsc. intros Hd Hf. cbn [Scheduler.code code_execute dispatch]. rewrite Hf. cbn [FUNCTION_IDENTIFIER ScheduleBeginBlockMsg_invokable].
  unfold methods_distinct in Hd. cbn in Hd. rewrite !NoDup_cons in Hd. destruct Hd as (Hd1 & Hd2 & _).
  rewrite !(proj2 (Z.eqb_neq _ _)) by (intros E; rewrite E in *; set_solver). by rewrite Z.eqb_refl.
Qed.

Lemma dispatch_schedule_end req env :
  methods_distinct -> function req = FUNCTION_IDENTIFIER ScheduleEndBlockMsg ->
  code_execute Scheduler.code env req = exec_arm false Scheduler.schedule_end_block env req.
Proof using.
  clear Hst Hkt Hsc. intros Hd Hf. cbn [Scheduler.code code_execute dispatch]. rewrite Hf. cbn [FUNCTION_IDENTIFIER ScheduleEndBlockMsg_invokable].
  unfold methods_distinct in Hd. cbn in Hd. rewrite !NoDup_cons in Hd. destruct Hd as (Hd1 & Hd2 & Hd3 & _).
  rewrite !(proj2 (Z.eqb_neq _ _)) by (intros E; rewrite E in *; set_solver). by rewrite Z.eqb_refl.
Qed.

End Hooks.
