(* ===== verification/ExtensionTheorems.v ===== *)
(** * Theorems on the extensions: the scheduler and the nonceless account *)

From S2P Require Import Prelude Core Gas Collections ExecState ExecStateFacts Commit Runtime Invoker Codec Stf Example.
From S2P Require Import InvokerFacts CallFacts Isolation CollectionFacts Local TokenExample StfFacts Chain.
From S2P Require Import CollectionTheorems Nonceless Scheduler.

Open Scope evolve_scope.

Section Scheduler.
Context `{RuntimeDeps} `{CollectionCodec} `{SchedulerCodec}.
Context `{Hst : !StorageTotal} `{Hkt : !KeysTotal} `{Hsc : !SchedulerTotal}.
Context (codes : AccountsCodeStorage) (s : AccountId).

(** C26: the block hooks of a chain with a scheduler. At the beginning of a
    block the scheduler calls [do_begin_block] on every account it lists, in
    order, each call in the state the one before left and sent by the
    scheduler, and at the end likewise [do_end_block]; when one of them fails,
    or does not answer with the unit, the block does not go on: the node
    panics. *)
Theorem scheduler_runs_hooks {B} begins ends fuel block (b : B) w :
  methods_distinct -> scheduler_world codes s begins ends w ->
  exists begin_request end_request w1 w2,
    InvokeRequest.new mkDoBeginBlockMsg = Ok begin_request /\ InvokeRequest.new mkDoEndBlockMsg = Ok end_request /\
    w_storage w1 ≈ w_storage w /\ w_storage w2 ≈ w_storage w /\
    Stf.run codes (S (S fuel)) (Invoker.new_for_begin_block block) (begin_block (mkSchedulerBeginBlocker s) b) w =
    hook_outcome (call_each codes (S fuel) (Invoker.branch_exec (Invoker.new_for_begin_block block) s [])
                    begin_request (begin_block_ref <$> begins) w1) /\
    Stf.run codes (S (S fuel)) (Invoker.new_for_end_block block) (end_block (mkSchedulerEndBlocker s)) w =
    hook_outcome (call_each codes (S fuel) (Invoker.branch_exec (Invoker.new_for_end_block block) s [])
                    end_request (end_block_ref <$> ends) w2).
Proof.
  intros Hids [(Hr & Hs) Hl Hc (st & Hf & Hw & Hb & He)].
  destruct (request_of mkDoBeginBlockMsg do_begin_encodes) as (breq & Hbreq & _).
  destruct (request_of mkDoEndBlockMsg do_end_encodes) as (ereq & Hereq & _).
  destruct (request_of mkScheduleBeginBlockMsg schedule_begin_encodes) as (sb & Hsb & _ & Hsbf).
  destruct (request_of mkScheduleEndBlockMsg schedule_end_encodes) as (se & Hse & _ & Hsef).
  destruct (hook_run codes s mkScheduleBeginBlockMsg sb breq Scheduler.schedule_begin_block (begin_block_ref <$> begins)
              (S fuel) (Invoker.new_for_begin_block block) w) as (w1 & Hw1 & _ & Hrun1); try done.
  { intros env. by apply dispatch_schedule_begin. }
  { intros w' Hw' Hg'. eapply (scheduled_run codes begin_block_ref mkDoBeginBlockMsg); [done | done | exact Hf | exact Hb |].
    eapply local_world_equiv; [exact Hw' | by rewrite Hg'; apply Hw | done]. }
  destruct (hook_run codes s mkScheduleEndBlockMsg se ereq Scheduler.schedule_end_block (end_block_ref <$> ends)
              (S fuel) (Invoker.new_for_end_block block) w) as (w2 & Hw2 & _ & Hrun2); try done.
  { intros env. by apply dispatch_schedule_end. }
  { intros w' Hw' Hg'. eapply (scheduled_run codes end_block_ref mkDoEndBlockMsg); [done | done | exact Hf | exact He |].
    eapply local_world_equiv; [exact Hw' | by rewrite Hg'; apply Hw | done]. }
  by exists breq, ereq, w1, w2.
Qed.

End Scheduler.

Section Nonceless.
Context `{RuntimeDeps} `{CollectionCodec} `{NoncelessCodec}.

Section Chain.
Context {Tx B : Type} `{Transaction Tx} `{Block B Tx}.
Context (self : Stf Tx B) (codes : AccountsCodeStorage) (fuel : nat) (a : AccountId).

(** C20: timestamps protect against replays. On every chain with arbitrary other
    accounts and codes in which no transaction is sent as the account itself,
    the account keeps its owner and its last timestamp never goes back; and once
    it has passed a timestamp, [verify_and_update] refuses every message with
    that timestamp or an earlier one, and every message of anybody but the
    owner, and changes nothing. *)
Theorem nonceless_replay_protected kappa o t storage blocks storage' :
  account_chain self codes fuel a NoncelessAccount.code kappa (nonceless_state o t) storage blocks ->
  produce_blocks self codes fuel storage blocks = Some storage' ->
  let st := own a (ExecutionState.new (MockStorage.get storage')) in
  nonceless_state o t st /\
  forall msg env I, whoami env = a -> timestamp msg <= t \/ sender env ≠ o ->
    wp a I (NoncelessAccount.verify_and_update msg env) (fun r st' => is_ok r = false /\ st' = st) st.
Proof.
  intros Hc Hp st.
  assert (Hs : nonceless_state o t st).
  { eapply account_chain_keeps; [intros f g; apply nonceless_state_proper | apply nonceless_keeps | exact Hc | exact Hp]. }
  split; [done|]. intros msg env I Hwho Hbad. destruct Hs as (m & Hm & Hh).
  eapply wp_verify; [done | exact Hh | done |]. intros k b Ho Hlt _ _. destruct Hbad; [lia | done].
Qed.

End Chain.

(** The calls of the account, in sequence: exactly the owner's calls whose
    timestamp exceeds all accepted before succeed; the accepted timestamps
    increase strictly, and the account stores the last one. *)
Theorem nonceless_accepts `{!StorageTotal} `{!KeysTotal} a cs st o t :
  nonceless_rep a st o t -> Forall (fun c => is_u64 c.2) cs ->
  exists rs st', calls a cs st = Some (rs, st') /\ length rs = length cs /\
    succeeded cs rs = accepted o t cs /\ StronglySorted Z.lt (t :: accepted o t cs) /\
    nonceless_rep a st' o (default t (last (accepted o t cs))).
Proof.
  intros Hr Hcs. destruct (calls_accept a cs st o t Hr Hcs) as (rs & st' & Hc & Hl & Hs & Hr').
  exists rs, st'. split_and!; try done. apply accepted_increasing.
Qed.

End Nonceless.

(** ** The theorems at work *)
Import Reference.

(** *** A chain with a nonceless account *)
#[export] Instance nonceless_initialize_stream : BorshStream NoncelessInitializeMsg.
Proof. refine (iso init_owner (fun a => Some (mkNoncelessInitializeMsg a)) (fun _ => true) _). by_iso. Defined.

#[export] Instance verify_stream : BorshStream VerifyAndUpdateMsg.
Proof. refine (iso (H := u64_stream) timestamp (fun t => Some (mkVerifyAndUpdateMsg t)) (fun _ => true) _). by_iso. Defined.

#[export] Instance nonceless_codec : NoncelessCodec.
Proof.
  refine {| ncl_initialize := stream_borsh; ncl_verify := stream_borsh;
            ncl_get_last := @stream_borsh _ (unit_stream mkGetLastTimestampMsg (fun a => ltac:(by destruct a)));
            ncl_get_owner := @stream_borsh _ (unit_stream mkGetOwnerMsg (fun a => ltac:(by destruct a))) |}.
  intros b m. cbn. unfold stream_from_slice. cbn [deserialize_reader verify_stream iso]. unfold iso_deserialize.
  cbn [deserialize_reader u64_stream uint]. destruct (uint_deserialize 8 b) as [[z [|]]|] eqn:E; try done. intros [= <-].
  apply uint_range in E. change (256 ^ Z.of_nat 8) with (2 ^ 64) in E. cbn. unfold is_u64, u64_max. lia.
Defined.

Definition nonceless_codes : AccountsCodeStorage := {|
  lookup_code id := Ok (if bool_decide (id = "NoncelessAccount") then Some NoncelessAccount.code else None) |}.

Definition nonceless_account : AccountId := token_account.

(** The account of [alice], which has seen the timestamp 1000. *)
Definition nonceless_map : gmap bytes bytes :=
  list_to_map (omap (fun e => pair e.1 <$> e.2)
    [ (get_account_code_identifier_for_account_key nonceless_account, to_vec "NoncelessAccount");
      (account_number_key, to_vec (AccountId.from_u64 65543));
      (account_storage_key nonceless_account (key_of (Map.make_key NoncelessAccount.last_seen_timestamp tt)), to_vec (1000 : U64));
      (account_storage_key nonceless_account (key_of (Map.make_key NoncelessAccount.owner tt)), to_vec alice) ]).

Definition verify_tx (t : Z) : TokenTx := mkTokenTx (request "verify_and_update" (mkVerifyAndUpdateMsg t)).

(** [alice] sends 1500, sends it again, and sends 2000. *)
Definition nonceless_blocks : list (list TokenTx) := [[verify_tx 1500; verify_tx 1500]; [verify_tx 2000]].

Lemma nonceless_chain :
  account_chain token_stf nonceless_codes 10 nonceless_account NoncelessAccount.code 65543 (nonceless_state alice 1000)
    nonceless_map nonceless_blocks.
Proof.
  split.
  - split_and!; by_decision.
  - reflexivity.
  - split; [split | done |].
    + vm_compute. reflexivity.
    + intros last. assert (next_id (ExecutionState.new (MockStorage.get nonceless_map)) = Ok (AccountId.from_u64 65543))
        as -> by (vm_compute; reflexivity).
      intros Hl. apply (inj Ok) in Hl as <-. split; [left; by vm_compute | by vm_compute].
    + exists 1000. split; [done|]. split; intros k Hk; apply (inj Ok) in Hk as <-; vm_compute; reflexivity.
  - apply Forall_true. intros block. apply Forall_true. intros tx w x w'. intros [= <- _]. by_decision.
  - apply chain_bounded_ok. vm_compute. reflexivity.
  - by_decision.
Qed.

Lemma nonceless_replay_protected_witness :
  match produce_blocks token_stf nonceless_codes 10 nonceless_map nonceless_blocks with
  | Some storage =>
      let st := own nonceless_account (ExecutionState.new (MockStorage.get storage)) in
      nonceless_state alice 1000 st /\
      wp nonceless_account (nonceless_state alice 1000)
        (NoncelessAccount.verify_and_update (mkVerifyAndUpdateMsg 1000) (mkEnvView nonceless_account alice [] (mkBlockContext 1 1)))
        (fun r st' => is_ok r = false /\ st' = st) st
  | None => False
  end.
Proof.
  assert (Hc : bool_decide (is_Some (produce_blocks token_stf nonceless_codes 10 nonceless_map nonceless_blocks)) = true)
    by (vm_compute; reflexivity).
  apply bool_decide_eq_true in Hc as [storage Hc]. rewrite Hc.
  destruct (nonceless_replay_protected token_stf nonceless_codes 10 nonceless_account 65543 alice 1000
              nonceless_map nonceless_blocks storage nonceless_chain Hc) as [Hst Hold].
  split; [exact Hst|]. apply Hold; [reflexivity | left; vm_compute; discriminate].
Defined.

(** *** A chain with a scheduler

    A hash that tells the names of the scheduler's methods apart: the first
    eight bytes are the FNV-1a hash of the input. *)
Definition fnv_keccak : Keccak := {| keccak256 b := pad 32 (be_bytes 8 (fnv1a_loop FNV_OFFSET_BASIS b)) |}.

Definition fnv_deps : RuntimeDeps := {|
  deps_codec := codec; deps_unicode := ascii_only; deps_keccak := fnv_keccak; deps_transfer := stream_borsh |}.

#[export] Instance begin_ref_stream : BorshStream BeginBlockAccountInterfaceRef.
Proof. refine (iso begin_block_ref (fun a => Some (mkBeginBlockAccountInterfaceRef a)) (fun _ => true) _). by_iso. Defined.

#[export] Instance end_ref_stream : BorshStream EndBlockAccountInterfaceRef.
Proof. refine (iso end_block_ref (fun a => Some (mkEndBlockAccountInterfaceRef a)) (fun _ => true) _). by_iso. Defined.

#[export] Instance scheduler_initialize_stream : BorshStream SchedulerInitializeMsg.
Proof.
  refine (iso (H := pair_stream (H := list_stream) (H0 := list_stream)) (fun m => (si_begin_block_accounts m, si_end_block_accounts m))
            (fun p => Some (mkSchedulerInitializeMsg p.1 p.2)) (fun _ => true) _). by_iso.
Defined.

#[export] Instance update_begin_stream : BorshStream UpdateBeginBlockersMsg.
Proof. refine (iso (H := list_stream) new_begin_blockers (fun a => Some (mkUpdateBeginBlockersMsg a)) (fun _ => true) _). by_iso. Defined.

#[export] Instance update_end_stream : BorshStream UpdateEndBlockersMsg.
Proof. refine (iso (H := list_stream) new_end_blockers (fun a => Some (mkUpdateEndBlockersMsg a)) (fun _ => true) _). by_iso. Defined.

#[export] Instance scheduler_codec : SchedulerCodec := {|
  sch_begin_refs := @stream_borsh _ list_stream;
  sch_end_refs := @stream_borsh _ list_stream;
  sch_do_begin_block := @stream_borsh _ (unit_stream mkDoBeginBlockMsg (fun a => ltac:(by destruct a)));
  sch_do_end_block := @stream_borsh _ (unit_stream mkDoEndBlockMsg (fun a => ltac:(by destruct a)));
  sch_initialize := stream_borsh;
  sch_update_begin := stream_borsh;
  sch_update_end := stream_borsh;
  sch_schedule_begin := @stream_borsh _ (unit_stream mkScheduleBeginBlockMsg (fun a => ltac:(by destruct a)));
  sch_schedule_end := @stream_borsh _ (unit_stream mkScheduleEndBlockMsg (fun a => ltac:(by destruct a))) |}.

#[export] Instance scheduler_total : SchedulerTotal.
Proof. split; by eexists. Qed.

(** An account that records the sender of every call. *)
Definition recorder : AccountCode := {|
  identifier := "recorder";
  code_init _ _ := PRet empty_response;
  code_execute env req := do? store (Message.from_bytes (AccountId.as_bytes (sender env))) in PRet empty_response;
  code_query _ _ := QRet empty_response |}.

Definition scheduler_codes : AccountsCodeStorage := {|
  lookup_code id := Ok (if bool_decide (id = "Scheduler") then Some (Scheduler.code (H := fnv_deps))
                        else if bool_decide (id = "recorder") then Some recorder else None) |}.

Definition scheduler_account : AccountId := AccountId.from_u64 70000.
Definition begins : list BeginBlockAccountInterfaceRef := mkBeginBlockAccountInterfaceRef <$> [alice; bob].
Definition ends : list EndBlockAccountInterfaceRef := mkEndBlockAccountInterfaceRef <$> [bob].

(** The scheduler's own storage: two hooks at the beginning, one at the end. *)
Definition scheduler_store : gmap bytes bytes :=
  list_to_map (omap (fun e => pair e.1 <$> e.2)
    [ (key_of (Map.make_key Scheduler.begin_block_accounts tt), to_vec begins);
      (key_of (Map.make_key Scheduler.end_block_accounts tt), to_vec ends) ]).

(** The committed storage, without the accounts in [missing]. *)
Definition scheduler_base (missing : list AccountId) (key : bytes) : SdkResult (option bytes) :=
  Ok (if bool_decide (take 33 key = [ACCOUNT_STORAGE_PREFIX] ++ AccountId.as_bytes scheduler_account)
      then scheduler_store !! drop 33 key
      else if bool_decide (key = get_account_code_identifier_for_account_key scheduler_account) then to_vec "Scheduler"
      else if existsb (fun a => bool_decide (key = get_account_code_identifier_for_account_key a))
                (filter (fun a => a ∉ missing) [alice; bob]) then to_vec "recorder"
      else None).

Definition scheduler_state (missing : list AccountId) : World :=
  mkWorld (ExecutionState.new (scheduler_base missing)) Infinite.

Lemma scheduler_world_example missing :
  (get_account_code_identifier_for_account (w_storage (scheduler_state missing)) scheduler_account).1 = Ok (Some "Scheduler") ->
  scheduler_world (H := fnv_deps) scheduler_codes scheduler_account begins ends (scheduler_state missing).
Proof.
  intros Hcode. split; [split; by_decision | reflexivity | exact Hcode |]. exists scheduler_store. split_and!.
  - apply map_Forall_to_list. by_decision.
  - split; [done | | by_decision]. intros k. unfold own, view. cbn [overlay w_storage scheduler_state ExecutionState.new base_storage].
    rewrite lookup_empty. unfold scheduler_base, account_storage_key. rewrite app_assoc, bool_decide_true.
    + rewrite drop_app_length'; [by destruct (scheduler_store !! k) | done].
    + by rewrite take_app_length'.
  - eexists. split; [reflexivity|]. split; [vm_compute; discriminate|]. by eexists.
  - eexists. split; [reflexivity|]. split; [vm_compute; discriminate|]. by eexists.
Qed.

(** What became of a run, without the world it ended in. *)
Definition ended {A} (o : Outcome A) : option PanicReason + bool :=
  match o with Done _ _ => inr true | Panicked why => inl (Some why) | OutOfFuel => inr false end.

(** The hooks of a block run; with one of the listed accounts missing, the
    block panics instead. *)
Lemma scheduler_runs_hooks_witness :
  let ctx := Invoker.new_for_begin_block (mkBlockContext 1 1) in
  let run missing := Stf.run (H := fnv_deps) scheduler_codes 10 ctx
                       (begin_block (H := fnv_deps) (mkSchedulerBeginBlocker scheduler_account) tt) (scheduler_state missing) in
  ended (run []) = inr true /\ ended (run [bob]) = inl (Some CodePanic) /\
  forall missing, missing = [] \/ missing = [bob] -> exists req w,
    run missing = hook_outcome (call_each (H := fnv_deps) scheduler_codes 9 (Invoker.branch_exec ctx scheduler_account [])
                                  req [alice; bob] w).
Proof.
  intros ctx run. split; [vm_compute; reflexivity|]. split; [vm_compute; reflexivity|]. intros missing Hm.
  destruct (scheduler_runs_hooks (H := fnv_deps) scheduler_codes scheduler_account begins ends 8 (mkBlockContext 1 1) tt
              (scheduler_state missing)) as (breq & ereq & w1 & w2 & _ & _ & _ & _ & Hb & _).
  - by_decision.
  - apply scheduler_world_example. destruct Hm as [-> | ->]; vm_compute; reflexivity.
  - exists breq, w1. exact Hb.
Defined.
