(* ===== verification/Genesis.v ===== *)
(** * Genesis

    Models [crates/app/genesis/src]: the types of a genesis file and of its
    transactions ([types.rs], [file.rs], [error.rs]), the registry that encodes
    messages ([registry.rs]), validation and the resolution of references
    ([file.rs]), and the execution of the transactions with the storage of the
    consensus parameters ([lib.rs]).

    Reading a file and the derived JSON decoders are serde's; the hand-written
    decoders of senders and recipients are modelled on JSON values. *)

From Stdlib Require Import Ascii.
From stdpp Require Import pretty.
From S2P Require Import Prelude Core Gas ExecState Runtime Invoker Stf.

Open Scope evolve_scope.

(** ** What the crates [hex] and [serde_json] give *)

(** [hex::encode] writes lower-case digits, two for each byte, which
    [hex::decode] reads back. *)
Definition is_hex_digit (c : Ascii.ascii) : bool :=
  let n := Z.of_N (Ascii.N_of_ascii c) in (48 <=? n) && (n <=? 57) || (97 <=? n) && (n <=? 102).

Class Hex := {
  hex_encode : bytes -> string;
  hex_decode : string -> option bytes;
  hex_decode_encode : forall b, hex_decode (hex_encode b) = Some b;
  hex_encode_digits : forall b, forallb is_hex_digit (String.list_ascii_of_string (hex_encode b)) = true
}.

(** [serde_json::Number] and [serde_json::Value]; an object iterates over its
    entries in a fixed order. *)
Inductive Number := PosInt (n : Z) | NegInt (n : Z) | Float (repr : string).

Definition as_u64 (n : Number) : option Z :=
  match n with PosInt n => Some n | _ => None end.

#[warnings="-register-all"]
Inductive Value :=
| JNull
| JBool (b : bool)
| JNumber (n : Number)
| JString (s : string)
| JArray (arr : list Value)
| JObject (obj : list (string * Value)).

(** [str::starts_with('$')], [&s[1..]] after it, [str::strip_prefix('$')] and
    [str::trim_start_matches("0x")]. *)
Definition strip_dollar (s : string) : option string :=
  match s with String "$"%char s => Some s | _ => None end.

Fixpoint trim_0x (s : string) : string :=
  match s with String "0"%char (String "x"%char s) => trim_0x s | _ => s end.

(** [<[u8; 32]>::try_from(bytes)]. *)
Definition array32 (b : bytes) : option (vec byte 32) :=
  match decide (length b = 32%nat) with
  | left H => Some (eq_rect _ (vec byte) (list_to_vec b) _ H)
  | right _ => None
  end.

(** ** Errors ([error.rs]) *)
Inductive GenesisError :=
| ParseError (msg : string)
| InvalidReference (id : string) (index : Z)
| CircularReference (id : string)
| DuplicateId (msg : string)
| Failed (msg : string)
| TransactionFailed (index : Z) (id : option string) (error : string)
| UnknownMessageType (msg_type : string)
| EncodeError (msg : string).

(** [format!("{:?}", e)] of an error code, without the feature that decodes it. *)
Definition debug_error (e : ErrorCode) : string :=
  ("ErrorCode { id: " +:+ pretty (Z.to_N (err_id e)) +:+ ", arg: " +:+ pretty (Z.to_N (err_arg e)) +:+ " }")%string.

(** ** Types ([types.rs]) *)
Definition DEFAULT_BLOCK_GAS_LIMIT : Z := 30000000.

Record ConsensusParams := mkConsensusParams { params_block_gas_limit : Z }.

Definition ConsensusParams_default : ConsensusParams := mkConsensusParams DEFAULT_BLOCK_GAS_LIMIT.

Record GenesisTx := mkGenesisTx {
  gt_id : option string; gt_sender : AccountId; gt_recipient : AccountId; gt_request : InvokeRequest }.

Definition GenesisTx_new (sender recipient : AccountId) (request : InvokeRequest) : GenesisTx :=
  mkGenesisTx None sender recipient request.
Definition GenesisTx_with_id (id : string) (sender recipient : AccountId) (request : InvokeRequest) : GenesisTx :=
  mkGenesisTx (Some id) sender recipient request.

(** ** The registry ([registry.rs]) *)
Record MessageTypeInfo := mkMessageTypeInfo {
  mi_type_name : string; mi_description : string; mi_schema : option Value }.

Class MessageRegistry (R : Type) := {
  encode_message : R -> string -> Value -> Result GenesisError InvokeRequest;
  list_message_types : R -> list MessageTypeInfo
}.

Definition MessageEncoder : Type := Value -> Result GenesisError InvokeRequest.

Record SimpleRegistry := mkSimpleRegistry { encoders : gmap string (MessageEncoder * MessageTypeInfo) }.

Module SimpleRegistry.

Definition new : SimpleRegistry := mkSimpleRegistry ∅.

Definition register (self : SimpleRegistry) (type_name description : string) (encoder : MessageEncoder) : SimpleRegistry :=
  mkSimpleRegistry (<[type_name := (encoder, mkMessageTypeInfo type_name description None)]> (encoders self)).

Definition register_with_schema (self : SimpleRegistry) (type_name description : string) (schema : Value)
    (encoder : MessageEncoder) : SimpleRegistry :=
  mkSimpleRegistry (<[type_name := (encoder, mkMessageTypeInfo type_name description (Some schema))]> (encoders self)).

Definition encode_message (self : SimpleRegistry) (msg_type : string) (value : Value) : Result GenesisError InvokeRequest :=
  '(encoder, _) ← ok_or (encoders self !! msg_type) (UnknownMessageType msg_type);
  encoder value.

Definition list_message_types (self : SimpleRegistry) : list MessageTypeInfo :=
  (fun e => e.2.2) <$> map_to_list (encoders self).

End SimpleRegistry.

#[export] Instance SimpleRegistry_registry : MessageRegistry SimpleRegistry := {|
  encode_message := SimpleRegistry.encode_message; list_message_types := SimpleRegistry.list_message_types |}.

(** [register_message!]: the encoder of a message type, from its JSON decoder. *)
Definition message_encoder {Msg} `{Borsh Msg, InvokableMessage Msg} (from_value : Value -> Result string Msg)
    : MessageEncoder := fun value =>
  match from_value value with
  | Err e => Err (EncodeError e)
  | Ok msg =>
      match InvokeRequest.new msg with
      | Ok request => Ok request
      | Err e => Err (EncodeError (debug_error e))
      end
  end.

(** ** The file ([file.rs]) *)
Inductive SenderSpec := SenderSystem | SenderReference (r : string) | SenderAccountId (id : AccountId).
Inductive RecipientSpec := RecipientRuntime | RecipientReference (r : string) | RecipientAccountId (id : AccountId).

Definition default_sender : SenderSpec := SenderSystem.

Record GenesisTxJson := mkGenesisTxJson {
  tj_id : option string;
  tj_sender : SenderSpec;
  tj_recipient : RecipientSpec;
  tj_msg_type : string;
  tj_msg : Value }.

Record GenesisFile := mkGenesisFile {
  gf_chain_id : string;
  gf_genesis_time : Z;
  gf_consensus_params : ConsensusParams;
  gf_transactions : list GenesisTxJson }.

(** [SYSTEM_ACCOUNT_ID] of [lib.rs]. *)
Definition SYSTEM_ACCOUNT_ID : AccountId := AccountId.from_u64 0.

Section File.
Context `{Hex}.

(** The bytes of a hexadecimal account identifier. *)
Definition decode_account (s : string) : option AccountId :=
  b ← hex_decode (trim_0x s); AccountId.from_bytes <$> array32 b.

Definition SenderSpec_serialize (self : SenderSpec) : Value :=
  match self with
  | SenderSystem => JString "system"
  | SenderReference r => JString r
  | SenderAccountId id => JString (hex_encode (AccountId.as_bytes id))
  end.

Definition SenderSpec_deserialize (value : Value) : Result string SenderSpec :=
  match value with
  | JString s =>
      if bool_decide (s = "system") then Ok SenderSystem
      else if bool_decide (is_Some (strip_dollar s)) then Ok (SenderReference s)
      else
        match decode_account s with
        | Some id => Ok (SenderAccountId id)
        | None => Ok (SenderReference s)
        end
  | JNumber n =>
      v ← ok_or (as_u64 n) "invalid account ID number";
      Ok (SenderAccountId (AccountId.from_u64 v))
  | _ => Err "expected string or number for sender"
  end.

Definition RecipientSpec_serialize (self : RecipientSpec) : Value :=
  match self with
  | RecipientRuntime => JString "runtime"
  | RecipientReference r => JString r
  | RecipientAccountId id => JString (hex_encode (AccountId.as_bytes id))
  end.

Definition RecipientSpec_deserialize (value : Value) : Result string RecipientSpec :=
  match value with
  | JString s =>
      if bool_decide (s = "runtime") then Ok RecipientRuntime
      else if bool_decide (is_Some (strip_dollar s)) then Ok (RecipientReference s)
      else
        match decode_account s with
        | Some id => Ok (RecipientAccountId id)
        | None => Ok (RecipientReference s)
        end
  | JNumber n =>
      v ← ok_or (as_u64 n) "invalid account ID number";
      Ok (RecipientAccountId (AccountId.from_u64 v))
  | _ => Err "expected string or number for recipient"
  end.

(** [GenesisFile::validate], from transaction [idx]. *)
Definition check_reference (seen_ids : gmap string Z) (idx : Z) (r : string) : Result GenesisError unit :=
  match strip_dollar r with
  | Some ref_id => if bool_decide (is_Some (seen_ids !! ref_id)) then Ok tt else Err (InvalidReference ref_id idx)
  | None => Ok tt
  end.

Fixpoint validate_loop (idx : Z) (seen_ids : gmap string Z) (txs : list GenesisTxJson) : Result GenesisError unit :=
  match txs with
  | [] => Ok tt
  | tx :: txs =>
      seen_ids ←
        match tj_id tx with
        | Some id =>
            match seen_ids !! id with
            | Some prev_idx =>
                Err (DuplicateId ("'" +:+ id +:+ "' at index " +:+ pretty (Z.to_N idx) +:+
                                  " (first seen at " +:+ pretty (Z.to_N prev_idx) +:+ ")")%string)
            | None => Ok (<[id := idx]> seen_ids)
            end
        | None => Ok seen_ids
        end;
      _ ← match tj_sender tx with SenderReference r => check_reference seen_ids idx r | _ => Ok tt end;
      _ ← match tj_recipient tx with RecipientReference r => check_reference seen_ids idx r | _ => Ok tt end;
      validate_loop (idx + 1) seen_ids txs
  end.

Definition validate (self : GenesisFile) : Result GenesisError unit := validate_loop 0 ∅ (gf_transactions self).

Fixpoint resolve_references_in_value (id_to_account : gmap string AccountId) (value : Value) : Result GenesisError Value :=
  match value with
  | JString s =>
      match strip_dollar s with
      | Some ref_id =>
          account_id ← ok_or (id_to_account !! ref_id) (InvalidReference ref_id 0);
          Ok (JString (hex_encode (AccountId.as_bytes account_id)))
      | None => Ok (JString s)
      end
  | JArray arr =>
      resolved ← (fix go arr :=
        match arr with
        | [] => Ok []
        | v :: arr => rv ← resolve_references_in_value id_to_account v; resolved ← go arr; Ok (rv :: resolved)
        end) arr;
      Ok (JArray resolved)
  | JObject obj =>
      resolved ← (fix go obj :=
        match obj with
        | [] => Ok []
        | (k, v) :: obj => rv ← resolve_references_in_value id_to_account v; resolved ← go obj; Ok ((k, rv) :: resolved)
        end) obj;
      Ok (JObject resolved)
  | other => Ok other
  end.

(** The account a reference stands for: the one of an earlier transaction, or
    a hexadecimal identifier. *)
Definition resolve_reference (id_to_account : gmap string AccountId) (idx : Z) (what r : string)
    : Result GenesisError AccountId :=
  match strip_dollar r with
  | Some ref_id => ok_or (id_to_account !! ref_id) (InvalidReference ref_id idx)
  | None => ok_or (decode_account r) (ParseError ("invalid " +:+ what +:+ ": " +:+ r)%string)
  end.

Definition resolve_sender (id_to_account : gmap string AccountId) (idx : Z) (spec : SenderSpec)
    : Result GenesisError AccountId :=
  match spec with
  | SenderSystem => Ok SYSTEM_ACCOUNT_ID
  | SenderReference r => resolve_reference id_to_account idx "sender" r
  | SenderAccountId id => Ok id
  end.

Definition resolve_recipient (id_to_account : gmap string AccountId) (idx : Z) (spec : RecipientSpec)
    : Result GenesisError AccountId :=
  match spec with
  | RecipientRuntime => Ok RUNTIME_ACCOUNT_ID
  | RecipientReference r => resolve_reference id_to_account idx "recipient" r
  | RecipientAccountId id => Ok id
  end.

Section Transactions.
Context {R : Type} `{MessageRegistry R} (registry : R).

(** The loop of [to_transactions], from transaction [idx]. *)
Fixpoint to_transactions_loop (idx : Z) (id_to_account : gmap string AccountId) (next_account_id : AccountId)
    (txs : list GenesisTxJson) : Result GenesisError (list GenesisTx) :=
  match txs with
  | [] => Ok []
  | tx_json :: txs =>
      sender ← resolve_sender id_to_account idx (tj_sender tx_json);
      recipient ← resolve_recipient id_to_account idx (tj_recipient tx_json);
      resolved_msg ← resolve_references_in_value id_to_account (tj_msg tx_json);
      request ← encode_message registry (tj_msg_type tx_json) resolved_msg;
      match tj_id tx_json with
      | Some id =>
          rest ← to_transactions_loop (idx + 1) (<[id := next_account_id]> id_to_account)
                   (AccountId.increase next_account_id) txs;
          Ok (GenesisTx_with_id id sender recipient request :: rest)
      | None =>
          rest ← to_transactions_loop (idx + 1) id_to_account next_account_id txs;
          Ok (GenesisTx_new sender recipient request :: rest)
      end
  end.

Definition to_transactions (self : GenesisFile) : Result GenesisError (list GenesisTx) :=
  _ ← validate self;
  to_transactions_loop 0 ∅ (AccountId.from_u64 1) (gf_transactions self).

End Transactions.
End File.

(** ** Execution ([lib.rs]) *)
Record GenesisResult := mkGenesisResult {
  gr_index : Z; gr_id : option string; gr_success : bool; gr_error : option string }.

Section Apply.
Context `{RuntimeDeps} `{Borsh ConsensusParams}.
Context (codes : AccountsCodeStorage) (fuel : nat).

(** The closure run by [system_exec]: execute the transactions until one
    fails, and record what became of each. *)
Fixpoint genesis_loop (idx : Z) (txs : list GenesisTx) : EnvProg (list GenesisResult) :=
  match txs with
  | [] => mret []
  | tx :: txs =>
      result ← do_exec (gt_recipient tx) (gt_request tx) [];
      let success := is_ok result in
      let error := match result with Ok _ => None | Err e => Some (debug_error e) end in
      let recorded := mkGenesisResult idx (gt_id tx) success error in
      if success then results ← genesis_loop (idx + 1) txs; mret (recorded :: results)
      else mret [recorded]
  end.

(** The world of the outcome holds the state that is returned with the results;
    on an error it is dropped. *)
Definition apply_genesis (storage : bytes -> SdkResult (option bytes)) (consensus_params : ConsensusParams)
    (txs : list GenesisTx) : Outcome (Result GenesisError (list GenesisResult)) :=
  let genesis_block := mkBlockContext 0 0 in
  match Stf.system_exec codes fuel storage genesis_block
          (fun _env => results ← genesis_loop 0 txs; mret (Ok results)) with
  | Done (Err e) w => Done (Err (Failed (debug_error e))) w
  | Done (Ok results) w =>
      match List.find (fun r => negb (gr_success r)) results with
      | Some failed =>
          Done (Err (TransactionFailed (gr_index failed) (gr_id failed) (default "" (gr_error failed)))) w
      | None =>
          match to_vec consensus_params with
          | None => Done (Err (Failed "failed to serialize consensus params")) w
          | Some params_bytes =>
              match ExecutionState.set (w_storage w) CONSENSUS_PARAMS_KEY (Message.from_bytes params_bytes) with
              | (Ok _, state) => Done (Ok results) (mkWorld state (w_gas w))
              | (Err e, state) =>
                  Done (Err (Failed ("failed to store consensus params: " +:+ debug_error e))) (mkWorld state (w_gas w))
              end
          end
      end
  | Panicked why => Panicked why
  | OutOfFuel => OutOfFuel
  end.

Definition read_consensus_params (storage : bytes -> SdkResult (option bytes)) : Result GenesisError ConsensusParams :=
  match storage CONSENSUS_PARAMS_KEY with
  | Err e => Err (Failed ("failed to read consensus params: " +:+ debug_error e))
  | Ok None => Err (Failed "consensus params not found in state")
  | Ok (Some b) => ok_or (from_slice b) (Failed "failed to deserialize consensus params")
  end.

End Apply.
