(* ===== verification/GenesisTheorems.v ===== *)
(** * Genesis, verified

    Facts about validation, references and the execution of a genesis, then the
    theorems. *)

From Stdlib Require Import Ascii.
From S2P Require Import Prelude Core Gas ExecState ExecStateFacts Commit Runtime Invoker Codec Stf Example InvokerFacts.
From S2P Require Import CallFacts Isolation TokenExample StfFacts Chain CallTheorems BlockTheorems Scheduler Genesis.

Open Scope evolve_scope.

(** ** Facts about genesis

    What validation accepts, which accounts references resolve to, what the
    execution of a genesis does, and that the consensus parameters it stores
    survive every later block. *)

(** ** Validation *)

(** The reference a sender or a recipient makes to a named transaction. *)
Definition sender_ref (spec : SenderSpec) : option string :=
  match spec with SenderReference r => strip_dollar r | _ => None end.
Definition recipient_ref (spec : RecipientSpec) : option string :=
  match spec with RecipientReference r => strip_dollar r | _ => None end.

(** The names the transactions give. *)
Definition named (txs : list GenesisTxJson) : list string := omap tj_id txs.

Lemma check_reference_ok seen idx r :
  check_reference seen idx r = Ok tt <-> forall id, strip_dollar r = Some id -> id ∈ dom seen.
Proof.
  unfold check_reference. destruct (strip_dollar r) as [id|]; [|by split; [intros _ ? [=]|]].
  case_bool_decide as Hs.
  - split; [|done]. intros _ ? [= <-]. by apply elem_of_dom.
  - split; [done|]. intros Hid. destruct Hs. by apply elem_of_dom, Hid.
Qed.

(** Every reference is to a name given so far, its own included, and no name
    is given twice. *)
Definition refers_back (seen : gset string) (txs : list GenesisTxJson) : Prop := forall j tx id,
  txs !! j = Some tx -> sender_ref (tj_sender tx) = Some id \/ recipient_ref (tj_recipient tx) = Some id ->
  id ∈ seen \/ id ∈ named (take (S j) txs).

Definition new_names (seen : gset string) (txs : list GenesisTxJson) : Prop :=
  NoDup (named txs) /\ forall id, id ∈ named txs -> id ∉ seen.

Definition tx_refs_ok (seen : gset string) (tx : GenesisTxJson) : Prop := forall id,
  sender_ref (tj_sender tx) = Some id \/ recipient_ref (tj_recipient tx) = Some id -> id ∈ seen.

Lemma refers_back_cons seen tx txs :
  refers_back seen (tx :: txs) <->
  tx_refs_ok (seen ∪ list_to_set (option_list (tj_id tx))) tx /\
  refers_back (seen ∪ list_to_set (option_list (tj_id tx))) txs.
Proof.
  assert (Hn : forall l, named (tx :: l) = option_list (tj_id tx) ++ named l) by (intros l; unfold named; cbn; by destruct (tj_id tx)).
  split.
  - intros Hr. split.
    + intros id Hid. specialize (Hr 0%nat tx id eq_refl Hid). cbn [take] in Hr. rewrite Hn in Hr.
      cbn in Hr. rewrite app_nil_r in Hr. set_solver.
    + intros j tx' id Hj Hid. specialize (Hr (S j) tx' id Hj Hid).
      change (take (S (S j)) (tx :: txs)) with (tx :: take (S j) txs) in Hr. rewrite Hn in Hr. set_solver.
  - intros [Ht Hr] [|j] tx' id Hj Hid.
    + injection Hj as <-. specialize (Ht id Hid). cbn [take]. rewrite Hn. set_solver.
    + specialize (Hr j tx' id Hj Hid). change (take (S (S j)) (tx :: txs)) with (tx :: take (S j) txs). rewrite Hn. set_solver.
Qed.

Lemma new_names_cons seen tx txs :
  new_names seen (tx :: txs) <->
  (forall id, tj_id tx = Some id -> id ∉ seen) /\ new_names (seen ∪ list_to_set (option_list (tj_id tx))) txs.
Proof.
  unfold new_names, named. cbn [omap list_omap]. destruct (tj_id tx) as [id|]; cbn [option_list].
  - rewrite NoDup_cons. split.
    + intros [[Hn Hd] Hs]. split; [intros ? [= <-]; set_solver|]. split; [done|]. set_solver.
    + intros [Hi [Hd Hs]]. specialize (Hi id eq_refl). split; [split; [set_solver | done]|]. set_solver.
  - split; [intros [Hd Hs]; split; [done|]; split; [done | set_solver] | intros [_ [Hd Hs]]; split; [done | set_solver]].
Qed.

Lemma refs_checked seen idx tx :
  (_ ← match tj_sender tx with SenderReference r => check_reference seen idx r | _ => Ok tt end;
   match tj_recipient tx with RecipientReference r => check_reference seen idx r | _ => Ok tt end) = Ok tt <->
  tx_refs_ok (dom seen) tx.
Proof.
  set (A := match tj_sender tx with SenderReference _ => _ | _ => _ end).
  set (B := match tj_recipient tx with RecipientReference _ => _ | _ => _ end).
  assert (HA : A = Ok tt <-> forall id, sender_ref (tj_sender tx) = Some id -> id ∈ dom seen).
  { unfold A, sender_ref. destruct (tj_sender tx); [by split | apply check_reference_ok | by split]. }
  assert (HB : B = Ok tt <-> forall id, recipient_ref (tj_recipient tx) = Some id -> id ∈ dom seen).
  { unfold B, recipient_ref. destruct (tj_recipient tx); [by split | apply check_reference_ok | by split]. }
  assert ((_ ← A; B) = Ok tt <-> A = Ok tt /\ B = Ok tt) as ->.
  { destruct A as [[]|]; [by split; [|intros [_ ?]] | by split; [|intros [? _]]]. }
  rewrite HA, HB. unfold tx_refs_ok. firstorder.
Qed.

Lemma validate_loop_ok txs : forall idx seen,
  validate_loop idx seen txs = Ok tt <-> new_names (dom seen) txs /\ refers_back (dom seen) txs.
Proof.
  induction txs as [|tx txs IH]; intros idx seen.
  { split; [|done]. intros _. split; [split; [constructor | set_solver]|]. by intros [|j]. }
  cbn [validate_loop]. rewrite new_names_cons, refers_back_cons.
  assert (Hstep : forall seen', dom seen' = dom seen ∪ list_to_set (option_list (tj_id tx)) ->
    (_ ← match tj_sender tx with SenderReference r => check_reference seen' idx r | _ => Ok tt end;
     _ ← match tj_recipient tx with RecipientReference r => check_reference seen' idx r | _ => Ok tt end;
     validate_loop (idx + 1) seen' txs) = Ok tt <->
    new_names (dom seen ∪ list_to_set (option_list (tj_id tx))) txs /\
    tx_refs_ok (dom seen ∪ list_to_set (option_list (tj_id tx))) tx /\
    refers_back (dom seen ∪ list_to_set (option_list (tj_id tx))) txs).
  { intros seen' Hd. rewrite <-Hd, <-(refs_checked seen' idx tx).
    specialize (IH (idx + 1) seen'). destruct (match tj_sender tx with SenderReference _ => _ | _ => _ end) as [[]|]; cbn [mbind Result_bind].
    - destruct (match tj_recipient tx with RecipientReference _ => _ | _ => _ end) as [[]|]; cbn [mbind Result_bind]; [|naive_solver].
      rewrite IH. naive_solver.
    - naive_solver. }
  destruct (tj_id tx) as [id|] eqn:Eid; cbn [option_list] in *.
  - destruct (seen !! id) as [prev|] eqn:Es; cbn [mbind Result_bind].
    + split; [done|]. intros [[Hi _] _]. destruct (Hi id eq_refl). apply elem_of_dom. by eexists.
    + rewrite Hstep by (rewrite dom_insert_L; set_solver).
      assert (forall id', Some id = Some id' -> id' ∉ dom seen) by (intros ? [= <-]; by apply not_elem_of_dom).
      split; [by intros (? & ? & ?) | by intros [[_ ?] [? ?]]].
  - cbn [mbind Result_bind]. rewrite Hstep by (clear; set_solver).
    split; [by intros (? & ? & ?) | by intros [[_ ?] [? ?]]].
Qed.

Lemma validate_ok file :
  validate file = Ok tt <-> NoDup (named (gf_transactions file)) /\ refers_back ∅ (gf_transactions file).
Proof.
  unfold validate. rewrite validate_loop_ok, dom_empty_L. unfold new_names.
  split; [by intros [[? _] ?] | intros [? ?]; split; [split; [done | by intros ? _ ?%elem_of_empty] | done]].
Qed.

Lemma named_length j txs : (length (named (take j txs)) <= length txs)%nat.
Proof.
  unfold named. revert j. induction txs as [|tx txs IH]; intros [|j]; cbn; try lia.
  specialize (IH j). destruct (tj_id tx); cbn; lia.
Qed.

(** ** References *)
Section References.
Context `{Hex} {R : Type} `{MessageRegistry R} (registry : R).

(** The accounts the names stand for after [txs]. *)
Fixpoint known (accounts : gmap string AccountId) (next : AccountId) (txs : list GenesisTxJson)
    : gmap string AccountId :=
  match txs with
  | [] => accounts
  | tx :: txs =>
      match tj_id tx with
      | Some id => known (<[id := next]> accounts) (AccountId.increase next) txs
      | None => known accounts next txs
      end
  end.

(** A genesis transaction is what its description in the file means, with the
    accounts known before it. *)
Record resolves (accounts : gmap string AccountId) (idx : Z) (tx : GenesisTxJson) (gtx : GenesisTx) : Prop := {
  rs_id : gt_id gtx = tj_id tx;
  rs_sender : resolve_sender accounts idx (tj_sender tx) = Ok (gt_sender gtx);
  rs_recipient : resolve_recipient accounts idx (tj_recipient tx) = Ok (gt_recipient gtx);
  rs_request : exists msg, resolve_references_in_value accounts (tj_msg tx) = Ok msg /\
                           encode_message registry (tj_msg_type tx) msg = Ok (gt_request gtx) }.

Lemma to_transactions_loop_lookup txs : forall idx accounts next out j tx,
  to_transactions_loop registry idx accounts next txs = Ok out -> txs !! j = Some tx ->
  exists gtx, out !! j = Some gtx /\ resolves (known accounts next (take j txs)) (idx + Z.of_nat j) tx gtx.
Proof.
  induction txs as [|tx0 txs IH]; intros idx accounts next out j tx Hl Hj; [done|]. cbn [to_transactions_loop] in Hl.
  destruct (resolve_sender _ _ _) as [snd|] eqn:Es; [|done]. destruct (resolve_recipient _ _ _) as [rcp|] eqn:Er; [|done].
  destruct (resolve_references_in_value _ _) as [msg|] eqn:Em; [|done]. cbn [mbind Result_bind] in Hl.
  destruct (encode_message _ _ _) as [req|] eqn:Ee; [|done].
  cbn [mbind Result_bind] in Hl.
  assert (Hhd : forall gtx, gt_id gtx = tj_id tx0 -> gt_sender gtx = snd -> gt_recipient gtx = rcp -> gt_request gtx = req ->
            resolves accounts (idx + Z.of_nat 0) tx0 gtx).
  { intros gtx ? <- <- <-. rewrite Z.add_0_r. split; [done | done | done |]. by exists msg. }
  destruct (tj_id tx0) as [id|] eqn:Eid;
    (destruct (to_transactions_loop _ _ _ _ txs) as [rest|] eqn:El; [|done]); cbn [mbind Result_bind] in Hl; apply (inj Ok) in Hl as <-;
    (destruct j as [|j]; [apply (inj Some) in Hj as <-; eexists; split; [done | by apply Hhd]|]);
    (destruct (IH _ _ _ _ _ _ El Hj) as (gtx & Hg & Hr); exists gtx; split; [done|]); cbn [take known]; rewrite Eid;
    replace (idx + Z.of_nat (S j)) with (idx + 1 + Z.of_nat j) by lia; exact Hr.
Qed.

Lemma to_transactions_length txs : forall idx accounts next out,
  to_transactions_loop registry idx accounts next txs = Ok out -> length out = length txs.
Proof.
  induction txs as [|tx0 txs IH]; intros idx accounts next out Hl; cbn [to_transactions_loop] in Hl; [by apply (inj Ok) in Hl as <-|].
  destruct (resolve_sender _ _ _) as [snd|]; [|done]. destruct (resolve_recipient _ _ _) as [rcp|]; [|done].
  destruct (resolve_references_in_value _ _) as [msg|]; [|done]. cbn [mbind Result_bind] in Hl.
  destruct (encode_message _ _ _) as [req|]; [|done].
  cbn [mbind Result_bind] in Hl.
  destruct (tj_id tx0); (destruct (to_transactions_loop _ _ _ _ txs) as [rest|] eqn:El; [|done]); apply (inj Ok) in Hl as <-;
    cbn; f_equal; by eapply IH.
Qed.

(** The names stand for consecutive numbers. *)
Lemma known_other txs : forall accounts next id, id ∉ named txs -> known accounts next txs !! id = accounts !! id.
Proof.
  induction txs as [|tx txs IH]; intros accounts next id Hid; [done|]. cbn [known].
  unfold named in Hid. cbn [omap list_omap] in Hid. destruct (tj_id tx) as [id'|]; [|by apply IH].
  rewrite IH, lookup_insert_ne; [done | set_solver | set_solver].
Qed.

Lemma known_lookup txs : forall accounts next i id,
  NoDup (named txs) -> named txs !! i = Some id ->
  known accounts next txs !! id = Some (Nat.iter i AccountId.increase next).
Proof.
  induction txs as [|tx txs IH]; intros accounts next i id Hnd Hi; [done|]. cbn [known].
  unfold named in *. cbn [omap list_omap] in *. destruct (tj_id tx) as [id'|]; [|by apply IH].
  apply NoDup_cons in Hnd as [Hn Hnd]. destruct i as [|i].
  - injection Hi as ->. rewrite known_other by done. by rewrite lookup_insert_eq.
  - rewrite (IH _ _ i) by done. by rewrite <-Nat.iter_succ_r.
Qed.

End References.

Lemma iter_increase_value i a :
  be_value (AccountId.as_bytes a) + Z.of_nat i < 2 ^ 256 ->
  be_value (AccountId.as_bytes (Nat.iter i AccountId.increase a)) = be_value (AccountId.as_bytes a) + Z.of_nat i.
Proof.
  induction i as [|i IH]; intros Hb; [cbn; lia|].
  rewrite Nat.iter_succ, AccountId_increase_value, IH by lia. rewrite Z.mod_small; [lia|].
  pose proof (AccountId_value_range a). lia.
Qed.

(** ** Execution *)
Section Execution.
Context `{RuntimeDeps} `{Borsh ConsensusParams}.
Context (codes : AccountsCodeStorage) (fuel : nat).

(** Every transaction succeeds, each on the state the one before left, called
    by [inv]. *)
Inductive executed (inv : Invoker) : list GenesisTx -> World -> World -> Prop :=
| executed_nil w : executed inv [] w w
| executed_cons tx txs resp w w1 w2 :
    Invoker.do_exec codes fuel inv (gt_recipient tx) (gt_request tx) [] w = Done (Ok resp) w1 ->
    executed inv txs w1 w2 -> executed inv (tx :: txs) w w2.

Definition success_results (idx : Z) (txs : list GenesisTx) : list GenesisResult :=
  imap (fun i tx => mkGenesisResult (idx + Z.of_nat i) (gt_id tx) true None) txs.

Lemma success_results_cons idx tx txs :
  success_results idx (tx :: txs) = mkGenesisResult idx (gt_id tx) true None :: success_results (idx + 1) txs.
Proof.
  unfold success_results. rewrite imap_cons, Z.add_0_r. f_equal. apply imap_ext. intros i x _. cbn.
  by replace (idx + 1 + Z.of_nat i) with (idx + Z.of_nat (S i)) by lia.
Qed.

(** The first transaction that fails. *)
Record failed_at (inv : Invoker) (idx : Z) (txs : list GenesisTx) (w : World) (i : Z) (id : option string) (error : string)
    (results : list GenesisResult) : Prop := {
  fa_split : exists pre tx post w1 w2 e,
    txs = pre ++ tx :: post /\ executed inv pre w w1 /\
    Invoker.do_exec codes fuel inv (gt_recipient tx) (gt_request tx) [] w1 = Done (Err e) w2 /\
    i = idx + zlen pre /\ id = gt_id tx /\ error = debug_error e /\
    results = success_results idx pre ++ [mkGenesisResult i id false (Some error)] }.

Lemma genesis_loop_run inv txs : forall idx w results w',
  Invoker.run codes fuel inv (genesis_loop idx txs) w = Done results w' ->
  (executed inv txs w w' /\ results = success_results idx txs) \/
  (exists i id error, failed_at inv idx txs w i id error results).
Proof.
  induction txs as [|tx txs IH]; intros idx w results w' Hrun.
  { left. injection Hrun as <- <-. split; [constructor | done]. }
  cbn [genesis_loop] in Hrun. unfold do_exec in Hrun. rewrite run_bind in Hrun. unfold mbind at 1, M_bind at 1 in Hrun.
  unfold Invoker.run at 1, Invoker.run_env at 1 in Hrun. cbn [run_prog] in Hrun. unfold mbind at 1, M_bind at 1 in Hrun.
  destruct (Invoker.do_exec codes fuel inv (gt_recipient tx) (gt_request tx) [] w) as [[resp|e] w1| |] eqn:Ed; [| |done..].
  - unfold mret at 1, M_ret at 1 in Hrun. cbn [is_ok] in Hrun. rewrite run_bind in Hrun. unfold mbind, M_bind in Hrun.
    destruct (Invoker.run codes fuel inv (genesis_loop (idx + 1) txs) w1) as [rs w2| |] eqn:Er; [|done..].
    injection Hrun as <- <-. destruct (IH _ _ _ _ Er) as [[He ->]|(i & id & error & [Hf])].
    + left. split; [by econstructor | by rewrite success_results_cons].
    + right. exists i, id, error. split. destruct Hf as (pre & tx' & post & v1 & v2 & e & -> & Hx & Hd & -> & -> & -> & ->).
      exists (tx :: pre), tx', post, v1, v2, e. split_and!; try done; [by econstructor | rewrite zlen_cons; lia |].
      by rewrite success_results_cons.
  - unfold mret at 1, M_ret at 1 in Hrun. cbn [is_ok] in Hrun. injection Hrun as <- <-. right.
    exists idx, (gt_id tx), (debug_error e). split. exists [], tx, txs, w, w1, e.
    split_and!; try done; [constructor | change (zlen []) with 0; lia].
Qed.

Lemma find_success idx txs : List.find (fun r => negb (gr_success r)) (success_results idx txs) = None.
Proof. revert idx. induction txs as [|tx txs IH]; intros idx; [done|]. rewrite success_results_cons. apply IH. Qed.

Lemma find_failed idx txs r :
  gr_success r = false -> List.find (fun r => negb (gr_success r)) (success_results idx txs ++ [r]) = Some r.
Proof.
  intros Hr. revert idx. induction txs as [|tx txs IH]; intros idx; [cbn; by rewrite Hr|].
  rewrite success_results_cons. apply IH.
Qed.

(** The invoker of genesis: the runtime's, at height 0. *)
Definition genesis_invoker : Invoker := Invoker.new_for_begin_block (mkBlockContext 0 0).
Definition genesis_world (storage : bytes -> SdkResult (option bytes)) : World :=
  mkWorld (ExecutionState.new storage) Infinite.

(** What [apply_genesis] returns, and why. *)
Definition genesis_post (storage : bytes -> SdkResult (option bytes)) (params : ConsensusParams) (txs : list GenesisTx)
    (r : Result GenesisError (list GenesisResult)) (w : World) : Prop :=
  match r with
  | Ok results => exists w1 b,
      executed genesis_invoker txs (genesis_world storage) w1 /\ results = success_results 0 txs /\
      to_vec params = Some b /\
      ExecutionState.set (ExecutionState.pop_events (w_storage w1)).2 CONSENSUS_PARAMS_KEY (Message.from_bytes b) =
      (Ok tt, w_storage w)
  | Err (TransactionFailed i id error) =>
      exists results, failed_at genesis_invoker 0 txs (genesis_world storage) i id error results
  | Err (Failed _) => exists w1,
      executed genesis_invoker txs (genesis_world storage) w1 /\
      (forall b, to_vec params = Some b -> exists e s,
         ExecutionState.set (ExecutionState.pop_events (w_storage w1)).2 CONSENSUS_PARAMS_KEY (Message.from_bytes b) = (Err e, s))
  | Err _ => False
  end.

Lemma apply_genesis_spec storage params txs r w :
  apply_genesis codes fuel storage params txs = Done r w -> genesis_post storage params txs r w.
Proof.
  unfold apply_genesis, Stf.system_exec, Stf.on_fresh_state, Stf.run. fold (genesis_world storage) genesis_invoker.
  unfold try_bind, mbind, M_bind. rewrite run_bind. unfold mbind, M_bind.
  destruct (Invoker.run codes fuel genesis_invoker (genesis_loop 0 txs) (genesis_world storage)) as [rs w1| |] eqn:Er; [|done..].
  unfold Invoker.run at 1, Invoker.run_env at 1. cbn [run_prog mret EnvProg_ret]. unfold mret, M_ret, Stf.pop_events, on_storage.
  destruct (ExecutionState.pop_events (w_storage w1)) as [evs s1] eqn:Ep.
  destruct (genesis_loop_run _ _ _ _ _ _ Er) as [[Hx ->]|(i & id & error & Hf)].
  - rewrite find_success. cbn [w_storage w_gas]. destruct (to_vec params) as [b|] eqn:Eb.
    + destruct (ExecutionState.set s1 CONSENSUS_PARAMS_KEY (Message.from_bytes b)) as [[[]|e] s2] eqn:Es; intros [= <- <-]; cbn [genesis_post w_storage].
      * exists w1, b. rewrite Ep. by split_and!.
      * exists w1. rewrite Ep. split; [done|]. intros b' Hb. assert (b' = b) as -> by congruence. by exists e, s2.
    + intros [= <- <-]. cbn [genesis_post]. exists w1. split; [done|]. congruence.
  - destruct Hf as [(pre & tx & post & v1 & v2 & e & -> & Hx & Hd & -> & -> & -> & ->)].
    rewrite find_failed by done. intros [= <- <-]. cbn.
    eexists. split. exists pre, tx, post, v1, v2, e. by split_and!.
Qed.

End Execution.

(** ** The consensus parameters *)
Section Params.
Context `{RuntimeDeps} `{Borsh ConsensusParams}.

Lemma executed_evolves codes fuel inv txs w w' : executed codes fuel inv txs w w' -> evolves w w'.
Proof.
  induction 1 as [w|tx txs resp w w1 w2 Hd _ IH]; [done|].
  pose proof (m_atomic_sound _ (do_exec_atomic codes fuel inv (gt_recipient tx) (gt_request tx) []) w) as Hs.
  rewrite Hd in Hs. by etrans.
Qed.

(** After genesis the state reads the parameters under their key. *)
Lemma genesis_params_view codes fuel storage params txs results w :
  apply_genesis codes fuel storage params txs = Done (Ok results) w ->
  base_storage (w_storage w) = storage /\
  exists b, to_vec params = Some b /\ view (w_storage w) CONSENSUS_PARAMS_KEY = Ok (Some b).
Proof.
  intros Hg. destruct (apply_genesis_spec _ _ _ _ _ _ _ Hg) as (w1 & b & Hx & _ & Hb & Hset).
  apply executed_evolves, evolves_extends in Hx as (Hbase & _). cbn in Hbase.
  destruct (set_cases (ExecutionState.pop_events (w_storage w1)).2 CONSENSUS_PARAMS_KEY (Message.from_bytes b))
    as [[e He]|(s' & He & Hw)]; rewrite He in Hset; [done|].
  injection Hset as <-. destruct Hw as [Hb' Ho _ _]. split; [by rewrite Hb'|]. exists b. split; [done|].
  unfold view. by rewrite Ho, lookup_insert_eq.
Qed.

Context {Tx B : Type} `{Transaction Tx} `{Block B Tx}.
Context (self : Stf Tx B) (codes : AccountsCodeStorage) (fuel : nat).

(** Gas limits are machine integers. *)
Definition block_wf (block : B) : Prop :=
  is_u64 (block_gas_limit block) /\ Forall (fun tx => is_u64 (tx_gas_limit tx)) (block_txs block).

(** Blocks leave every key outside the protocol's alone. *)
Lemma produce_blocks_other blocks : forall storage storage' k,
  config_wf (storage_gas_config self) -> Forall block_wf blocks -> ~ protocol_key k ->
  produce_blocks self codes fuel storage blocks = Some storage' -> storage' !! k = storage !! k.
Proof.
  induction blocks as [|block blocks IH]; intros storage storage' k Hc Hb Hk Hp; [by injection Hp as <-|].
  apply Forall_cons in Hb as [[Hl Ht] Hb]. cbn [produce_blocks] in Hp. unfold produce_block in Hp.
  pose proof (apply_block_spec self codes fuel (MockStorage.get storage) block Hl Ht Hc) as Hs.
  destruct (Stf.apply_block _ _ _ _ block) as [r w| |]; [|done..].
  destruct (ExecutionState.into_changes (w_storage w)) as [changes|] eqn:Ec; [|done].
  cbn [MockStorage.batch mbind option_bind] in Hp. rewrite (IH _ _ _ Hc Hb Hk Hp).
  pose proof (bp_adv _ _ _ _ Hs) as Ha.
  assert (Hbase : base_storage (w_storage w) = MockStorage.get storage).
  { by rewrite (advances_base _ _ Ha). }
  pose proof (commit_lookup _ _ _ k Ec Hbase) as Hv. rewrite (advances_protocol_keys _ _ _ Ha Hk) in Hv.
  unfold view in Hv. cbn in Hv. rewrite lookup_empty in Hv. by injection Hv.
Qed.

End Params.

(** ** Senders and recipients in JSON *)
Section Specs.
Context `{Hex}.

Definition all_hex (s : string) : bool := forallb is_hex_digit (String.list_ascii_of_string s).

Lemma trim_0x_hex s : all_hex s = true -> trim_0x s = s.
Proof.
  destruct s as [|c [|d s]]; [done | by destruct c as [[] [] [] [] [] [] [] []]|].
  cbn. intros Hs. apply andb_true_iff in Hs as [_ [Hd _]%andb_true_iff].
  destruct (decide (d = "x"%char)) as [->|Hne]; [done|].
  destruct c as [[] [] [] [] [] [] [] []]; try done.
  destruct d as [[] [] [] [] [] [] [] []]; done.
Qed.

Lemma strip_dollar_hex s : all_hex s = true -> strip_dollar s = None.
Proof.
  destruct s as [|c s]; [done|]. cbn. intros [Hc _]%andb_true_iff. by destruct c as [[] [] [] [] [] [] [] []].
Qed.

Lemma array32_list (v : vec byte 32) : array32 (vec_to_list v) = Some v.
Proof.
  unfold array32. destruct (decide _) as [Hl|Hl]; [|destruct Hl; apply length_vec_to_list].
  f_equal. apply vec_to_list_inj2.
  assert (He : forall n (Hn : length (vec_to_list v) = n),
            vec_to_list (eq_rect _ (vec byte) (list_to_vec (vec_to_list v)) n Hn) = vec_to_list v).
  { intros n <-. apply vec_to_list_to_vec. }
  apply He.
Qed.

Lemma decode_account_encode id : decode_account (hex_encode (AccountId.as_bytes id)) = Some id.
Proof.
  unfold decode_account. rewrite trim_0x_hex by apply hex_encode_digits. rewrite hex_decode_encode. cbn [mbind option_bind].
  unfold AccountId.as_bytes. rewrite array32_list. by destruct id.
Qed.

Lemma hex_not_word id w : all_hex w = false -> bool_decide (hex_encode (AccountId.as_bytes id) = w) = false.
Proof.
  intros Hw. apply bool_decide_eq_false. intros He. pose proof (hex_encode_digits (AccountId.as_bytes id)) as Hd.
  unfold all_hex in Hw. congruence.
Qed.

Lemma sender_roundtrip v spec :
  SenderSpec_deserialize v = Ok spec -> SenderSpec_deserialize (SenderSpec_serialize spec) = Ok spec.
Proof.
  assert (Hid : forall id, SenderSpec_deserialize (SenderSpec_serialize (SenderAccountId id)) = Ok (SenderAccountId id)).
  { intros id. cbn [SenderSpec_serialize SenderSpec_deserialize]. rewrite hex_not_word by done.
    rewrite strip_dollar_hex by apply hex_encode_digits. cbn. by rewrite decode_account_encode. }
  destruct v as [| |n|s| |]; cbn [SenderSpec_deserialize]; try done.
  - destruct (as_u64 n); cbn; [|done]. intros [= <-]. apply Hid.
  - destruct (bool_decide (s = "system")) eqn:E1; [by intros [= <-]|].
    destruct (bool_decide (is_Some (strip_dollar s))) eqn:E2.
    + intros [= <-]. cbn. by rewrite E1, E2.
    + destruct (decode_account s) as [id|] eqn:E3; intros [= <-]; [apply Hid|]. cbn. by rewrite E1, E2, E3.
Qed.

Lemma recipient_roundtrip v spec :
  RecipientSpec_deserialize v = Ok spec -> RecipientSpec_deserialize (RecipientSpec_serialize spec) = Ok spec.
Proof.
  assert (Hid : forall id, RecipientSpec_deserialize (RecipientSpec_serialize (RecipientAccountId id)) = Ok (RecipientAccountId id)).
  { intros id. cbn [RecipientSpec_serialize RecipientSpec_deserialize]. rewrite hex_not_word by done.
    rewrite strip_dollar_hex by apply hex_encode_digits. cbn. by rewrite decode_account_encode. }
  destruct v as [| |n|s| |]; cbn [RecipientSpec_deserialize]; try done.
  - destruct (as_u64 n); cbn; [|done]. intros [= <-]. apply Hid.
  - destruct (bool_decide (s = "runtime")) eqn:E1; [by intros [= <-]|].
    destruct (bool_decide (is_Some (strip_dollar s))) eqn:E2.
    + intros [= <-]. cbn. by rewrite E1, E2.
    + destruct (decode_account s) as [id|] eqn:E3; intros [= <-]; [apply Hid|]. cbn. by rewrite E1, E2, E3.
Qed.

End Specs.

(** ** Theorems on genesis *)

Section Genesis.
Context `{RuntimeDeps} `{Borsh ConsensusParams}.

(** C21: genesis is all or nothing. When [apply_genesis] returns a state, every
    transaction has succeeded, each on the state the one before left, and the
    state holds the consensus parameters as well; when it reports a failed
    transaction, that is the first one that fails, with its position, its name
    and its error, and the ones before it have succeeded; it reports any other
    failure only when the parameters cannot be stored. All calls are made by
    the runtime account, whatever senders the file gives. *)
Theorem genesis_all_or_nothing codes fuel storage params txs r w :
  apply_genesis codes fuel storage params txs = Done r w -> genesis_post codes fuel storage params txs r w.
Proof. apply apply_genesis_spec. Qed.

(** Every node that syncs reads the consensus parameters of genesis. Once
    the state of a successful genesis is committed, [read_consensus_params]
    gives exactly the parameters back, after any number of blocks with
    arbitrary transactions, accounts and hooks. *)
Theorem genesis_params_survive {Tx B} `{Transaction Tx} `{Block B Tx} (self : Stf Tx B) codes fuel
    storage params txs results w changes storage1 block_codes block_fuel blocks storage2 :
  config_wf (storage_gas_config self) -> Forall block_wf blocks ->
  apply_genesis codes fuel (MockStorage.get storage) params txs = Done (Ok results) w ->
  ExecutionState.into_changes (w_storage w) = Ok changes ->
  MockStorage.batch storage (state_changes_to_operations changes) = (Ok tt, storage1) ->
  produce_blocks self block_codes block_fuel storage1 blocks = Some storage2 ->
  read_consensus_params (MockStorage.get storage2) = Ok params.
Proof.
  intros Hc Hb Hg Hch Hcommit Hp. destruct (genesis_params_view _ _ _ _ _ _ _ Hg) as (Hbase & b & Hvec & Hv).
  pose proof (commit_lookup _ _ _ CONSENSUS_PARAMS_KEY Hch Hbase) as Hl. rewrite Hv in Hl.
  injection Hcommit as <-. unfold read_consensus_params, MockStorage.get.
  rewrite (produce_blocks_other self block_codes block_fuel blocks _ _ _ Hc Hb CONSENSUS_not_protocol Hp).
  apply (inj Ok) in Hl. rewrite Hl. cbn. by rewrite (from_slice_to_vec _ _ Hvec).
Qed.

End Genesis.

(** What validation accepts: the genesis files in which no name is given
    twice and every sender and recipient that refers to a named transaction
    refers to an earlier one or to the transaction itself. *)
Theorem validate_spec file :
  validate file = Ok tt <-> NoDup (named (gf_transactions file)) /\ refers_back ∅ (gf_transactions file).
Proof. apply validate_ok. Qed.

Section References.
Context `{Hex} {R : Type} `{MessageRegistry R} (registry : R).

(** The names of a genesis file stand for the accounts 1, 2, 3 and so on, in
    the order in which they are given; a reference in a recipient resolves to
    the account of an earlier name. *)
Lemma reference_number file txs j tx id :
  to_transactions registry file = Ok txs ->
  zlen (gf_transactions file) < 2 ^ 64 - 1 ->
  gf_transactions file !! j = Some tx -> recipient_ref (tj_recipient tx) = Some id ->
  exists gtx i, txs !! j = Some gtx /\ named (take j (gf_transactions file)) !! i = Some id /\
    gt_recipient gtx = AccountId.from_u64 (1 + Z.of_nat i).
Proof.
  unfold to_transactions. intros Ht Hlen Hj Hr. destruct (validate file) as [[]|] eqn:Hv; [|done].
  apply validate_ok in Hv as [Hnd _]. cbn [mbind Result_bind] in Ht.
  destruct (to_transactions_loop_lookup registry _ _ _ _ _ _ _ Ht Hj) as (gtx & Hg & [_ _ Hrec _]).
  assert (Hnd' : NoDup (named (take j (gf_transactions file)))).
  { rewrite <-(take_drop j (gf_transactions file)) in Hnd. unfold named in *. rewrite omap_app in Hnd.
    by apply NoDup_app in Hnd as [? _]. }
  destruct (tj_recipient tx) as [|r|]; cbn in Hr; try done.
  cbn [resolve_recipient] in Hrec. unfold resolve_reference in Hrec. rewrite Hr in Hrec.
  destruct (decide (id ∈ named (take j (gf_transactions file)))) as [Hin|Hin].
  - apply list_elem_of_lookup in Hin as [i Hi]. exists gtx, i. split; [done|]. split; [done|].
    rewrite (known_lookup _ _ _ _ _ Hnd' Hi) in Hrec. cbn in Hrec. apply (inj Ok) in Hrec as <-.
    apply AccountId_value_inj. apply lookup_lt_Some in Hi.
    pose proof (named_length j (gf_transactions file)).
    unfold zlen in Hlen. rewrite iter_increase_value; rewrite !AccountId_from_u64_value; unfold is_u64, u64_max; lia.
  - rewrite known_other in Hrec by done. by rewrite lookup_empty in Hrec.
Qed.

(** C39: references to recipients in a genesis file are resolved to the wrong
    accounts. The names stand for the accounts 1, 2, 3, ..., the first one for
    the account of the storage itself, while the runtime numbers the accounts it
    creates from 65535: in a file with fewer than 65534 transactions, the
    recipient a reference is resolved to is never an account that the runtime
    creates. *)
Theorem genesis_references_misresolved file txs j tx id :
  to_transactions registry file = Ok txs ->
  zlen (gf_transactions file) < INITIAL_ACCOUNT_NUMBER - 1 ->
  gf_transactions file !! j = Some tx -> recipient_ref (tj_recipient tx) = Some id ->
  exists gtx i, txs !! j = Some gtx /\ named (take j (gf_transactions file)) !! i = Some id /\
    gt_recipient gtx = AccountId.from_u64 (1 + Z.of_nat i) /\ (i = 0%nat -> gt_recipient gtx = STORAGE_ACCOUNT_ID) /\
    forall (D : RuntimeDeps) s account s',
      (forall next, next_id s = Ok next -> INITIAL_ACCOUNT_NUMBER <= value next) ->
      next_account_number s = (Ok account, s') -> gt_recipient gtx ≠ account.
Proof.
  intros Ht Hlen Hj Hr. destruct (reference_number file txs j tx id) as (gtx & i & Hg & Hi & He); try done.
  { unfold INITIAL_ACCOUNT_NUMBER in Hlen. lia. }
  exists gtx, i. split_and!; try done; [by intros ->|]. intros C s account s' Hs Hnext Heq.
  assert (Hb : value (AccountId.from_u64 (1 + Z.of_nat i)) < INITIAL_ACCOUNT_NUMBER).
  { apply lookup_lt_Some in Hi.
    pose proof (named_length j (gf_transactions file)).
    unfold zlen, INITIAL_ACCOUNT_NUMBER in *. unfold value. rewrite AccountId_from_u64_value; unfold is_u64, u64_max; lia. }
  rewrite <-He, Heq in Hb. specialize (Hs account). apply Z.lt_nge in Hb. apply Hb, Hs.
  revert Hnext. unfold next_account_number, next_id.
  destruct (ExecutionState.get s account_number_key) as [[o|e] s1]; cbn; [|done].
  destruct (from_option _ _ o) as [last|]; [|done]. destruct (Message.new _) as [m|]; [|done].
  destruct (ExecutionState.set s1 _ m) as [[]]; [|done]. by intros [= -> _].
Qed.

End References.

(** What a sender or a recipient of a genesis file is decoded to survives
    being written back and read again. *)
Theorem spec_roundtrip `{Hex} :
  (forall v spec, SenderSpec_deserialize v = Ok spec -> SenderSpec_deserialize (SenderSpec_serialize spec) = Ok spec) /\
  (forall v spec, RecipientSpec_deserialize v = Ok spec -> RecipientSpec_deserialize (RecipientSpec_serialize spec) = Ok spec).
Proof. split; [apply sender_roundtrip | apply recipient_roundtrip]. Qed.

(** ** The theorems at work *)
Import Reference.

(** *** A hexadecimal codec *)
Definition hex_char (d : Z) : ascii := ascii_of_N (Z.to_N (if d <? 10 then 48 + d else 87 + d)).
Definition hex_value (c : ascii) : option Z :=
  let n := Z.of_N (N_of_ascii c) in
  if (48 <=? n) && (n <=? 57) then Some (n - 48)
  else if (97 <=? n) && (n <=? 102) then Some (n - 87)
  else if (65 <=? n) && (n <=? 70) then Some (n - 55) else None.

Fixpoint hex_write (b : bytes) : string :=
  match b with
  | [] => EmptyString
  | x :: b => String (hex_char (Z_of_byte x / 16)) (String (hex_char (Z_of_byte x mod 16)) (hex_write b))
  end.

Fixpoint hex_read (s : string) : option bytes :=
  match s with
  | EmptyString => Some []
  | String c (String d s) =>
      hi ← hex_value c; lo ← hex_value d; b ← hex_read s; Some (byte_of_Z (16 * hi + lo) :: b)
  | _ => None
  end.

#[export] Instance hex : Hex.
Proof.
  refine {| hex_encode := hex_write; hex_decode := hex_read |}.
  - induction b as [|x b IH]; [done|]. cbn [hex_write hex_read].
    replace (hex_value (hex_char (Z_of_byte x / 16))) with (Some (Z_of_byte x / 16)) by (by destruct x).
    replace (hex_value (hex_char (Z_of_byte x mod 16))) with (Some (Z_of_byte x mod 16)) by (by destruct x).
    cbn [mbind option_bind]. rewrite IH. cbn [mbind option_bind]. do 2 f_equal.
    rewrite <-Z.div_mod by done. apply byte_of_Z_of_byte.
  - induction b as [|x b IH]; [done|]. cbn [hex_write String.list_ascii_of_string forallb]. rewrite IH. by destruct x.
Defined.

#[export] Instance params_stream : BorshStream ConsensusParams.
Proof. refine (iso (H := uint 8) params_block_gas_limit (fun n => Some (mkConsensusParams n)) (fun _ => true) _). by_iso. Defined.
#[export] Instance params_borsh : Borsh ConsensusParams := stream_borsh.

(** *** A file that creates an account and calls it by its name *)
Definition create_cell : CreateAccountRequest := mkCreateAccountRequest "cell" (Message.from_bytes []).

Definition registry : SimpleRegistry :=
  SimpleRegistry.register
    (SimpleRegistry.register SimpleRegistry.new "cell/create" "create a cell" (message_encoder (fun _ => Ok create_cell)))
    "cell/store" "store a value" (fun _ => Ok (call 1)).

Definition named_cell : GenesisTxJson := mkGenesisTxJson (Some "alice") SenderSystem RecipientRuntime "cell/create" JNull.
Definition call_cell (r : string) : GenesisTxJson :=
  mkGenesisTxJson None SenderSystem (RecipientReference r) "cell/store" JNull.

Definition genesis_file (txs : list GenesisTxJson) : GenesisFile := mkGenesisFile "test" 0 ConsensusParams_default txs.

Definition resolved (file : GenesisFile) : list GenesisTx :=
  match to_transactions registry file with Ok txs => txs | Err _ => [] end.

Definition result_of {A} (o : Outcome A) : option A := match o with Done r _ => Some r | _ => None end.

(** A reference of a transaction to itself passes validation, although only
    earlier ones can be resolved. *)
Example self_reference_validates :
  let file := genesis_file [mkGenesisTxJson (Some "alice") SenderSystem (RecipientReference "$alice") "cell/create" JNull] in
  validate file = Ok tt /\ to_transactions registry file = Err (InvalidReference "alice" 0).
Proof. split; vm_compute; reflexivity. Qed.

Lemma genesis_references_misresolved_witness :
  let file := genesis_file [named_cell; call_cell "$alice"] in
  (exists gtx i, resolved file !! 1%nat = Some gtx /\ named (take 1 (gf_transactions file)) !! i = Some "alice" /\
     gt_recipient gtx = AccountId.from_u64 (1 + Z.of_nat i) /\ (i = 0%nat -> gt_recipient gtx = STORAGE_ACCOUNT_ID)) /\
  result_of (apply_genesis codes 10 (fun _ => Ok None) ConsensusParams_default (resolved file)) =
  Some (Err (TransactionFailed 1 None (debug_error ERR_ENCODING))).
Proof.
  intros file. split; [|vm_compute; reflexivity].
  assert (Ht : to_transactions registry file = Ok (resolved file)) by (vm_compute; reflexivity).
  destruct (genesis_references_misresolved registry file (resolved file) 1 (call_cell "$alice") "alice" Ht)
    as (gtx & i & H1 & H2 & H3 & H4 & _); [vm_compute; reflexivity | reflexivity | reflexivity |].
  by exists gtx, i.
Defined.

Lemma spec_roundtrip_witness : SenderSpec_deserialize (SenderSpec_serialize (SenderAccountId alice)) = Ok (SenderAccountId alice).
Proof. exact (proj1 spec_roundtrip (JNumber (PosInt 65541)) (SenderAccountId alice) eq_refl). Defined.

(** *** Executing a genesis *)
Definition genesis_txs (fns : list Z) : list GenesisTx :=
  (fun fn => GenesisTx_with_id "tx" SYSTEM_ACCOUNT_ID cell_account (call fn)) <$> fns.

(** The second call fails and the third is not made. *)
Lemma genesis_all_or_nothing_witness :
  match apply_genesis codes 10 base ConsensusParams_default (genesis_txs [1; 2; 1]) with
  | Done r w => r = Err (TransactionFailed 1 (Some "tx") (debug_error ERR_UNAUTHORIZED)) /\
                genesis_post codes 10 base ConsensusParams_default (genesis_txs [1; 2; 1]) r w
  | _ => False
  end.
Proof.
  assert (Hc : result_of (apply_genesis codes 10 base ConsensusParams_default (genesis_txs [1; 2; 1])) =
               Some (Err (TransactionFailed 1 (Some "tx") (debug_error ERR_UNAUTHORIZED)))) by (vm_compute; reflexivity).
  destruct (apply_genesis codes 10 base ConsensusParams_default (genesis_txs [1; 2; 1])) as [r w| |] eqn:E;
    [|discriminate Hc..].
  apply (inj Some) in Hc. split; [exact Hc|].
  exact (genesis_all_or_nothing codes 10 base ConsensusParams_default (genesis_txs [1; 2; 1]) r w E).
Defined.

(** The committed storage: the cell's account. *)
Definition genesis_map : gmap bytes bytes :=
  list_to_map (omap (fun e => pair e.1 <$> e.2) [(get_account_code_identifier_for_account_key cell_account, to_vec "cell")]).

(** The storage after genesis. *)
Definition committed (o : Outcome (Result GenesisError (list GenesisResult))) : option (gmap bytes bytes) :=
  match o with
  | Done (Ok _) w =>
      match ExecutionState.into_changes (w_storage w) with
      | Ok changes => Some (MockStorage.batch genesis_map (state_changes_to_operations changes)).2
      | Err _ => None
      end
  | _ => None
  end.

Lemma genesis_params_survive_witness :
  match o ← committed (apply_genesis codes 10 (MockStorage.get genesis_map) (mkConsensusParams 12345) (genesis_txs [1; 1]));
        produce_blocks stf codes 10 o [three_txs; three_txs] with
  | Some storage => read_consensus_params (MockStorage.get storage) = Ok (mkConsensusParams 12345)
  | None => False
  end.
Proof.
  assert (Hc : bool_decide (is_Some (o ← committed (apply_genesis codes 10 (MockStorage.get genesis_map) (mkConsensusParams 12345) (genesis_txs [1; 1]));
        produce_blocks stf codes 10 o [three_txs; three_txs])) = true) by (vm_compute; reflexivity).
  apply bool_decide_eq_true in Hc. unfold committed in *.
  destruct (apply_genesis codes 10 (MockStorage.get genesis_map) (mkConsensusParams 12345) (genesis_txs [1; 1]))
    as [[results|] w| |] eqn:E; [|destruct Hc; discriminate..].
  destruct (ExecutionState.into_changes (w_storage w)) as [changes|] eqn:Ec; [|destruct Hc; discriminate].
  cbn [mbind option_bind] in *. destruct Hc as [storage Hp]. rewrite Hp.
  refine (genesis_params_survive stf codes 10 genesis_map (mkConsensusParams 12345) (genesis_txs [1; 1]) results w changes _
            codes 10 [three_txs; three_txs] storage stf_config _ E Ec eq_refl Hp).
  repeat constructor; try (vm_compute; discriminate); apply three_txs_limits.
Defined.
