(* ===== verification/FixedPoint.v ===== *)
(** * Fixed-point arithmetic

    Models [crates/app/sdk/math/src/uq64_64.rs]: unsigned numbers with 64
    integer and 64 fractional bits, a wrapper around [FixedU128<U64>] of the
    crate [fixed]. The operations of the crate are parameters, with what its
    documentation says of them: they are exact up to rounding down while the
    result fits 128 bits; beyond that they panic when overflow checks are
    enabled and wrap around otherwise. *)

From S2P Require Import Prelude Core.

Open Scope evolve_scope.

Definition ERR_DIVISION_BY_ZERO : ErrorCode := define_error 0x1.

(** The value of the fraction's unit. *)
Definition SCALE : Z := 2 ^ 64.

(** What an operation with the exact result [z] gives; [None] is a panic. *)
Definition checked (z : Z) (r : option Z) : Prop :=
  if (0 <=? z) && (z <=? u128_max) then r = Some z else r = None \/ r = Some (wrap128 z).

(** [FixedU128<U64>], represented by its bits. *)
Class FixedU128 := {
  from_num : Z -> option Z;
  fixed_add : Z -> Z -> option Z;
  fixed_sub : Z -> Z -> option Z;
  fixed_mul : Z -> Z -> option Z;
  fixed_div : Z -> Z -> option Z;
  from_num_spec : forall n, checked (n * SCALE) (from_num n);
  add_spec : forall a b, checked (a + b) (fixed_add a b);
  sub_spec : forall a b, checked (a - b) (fixed_sub a b);
  mul_spec : forall a b, checked (a * b / SCALE) (fixed_mul a b);
  div_spec : forall a b, b ≠ 0 -> checked (a * SCALE / b) (fixed_div a b);
  div_zero : forall a, fixed_div a 0 = None
}.

(** [int], [frac]: clear the fractional or the integer bits. *)
Definition fixed_int (a : Z) : Z := Z.shiftl (Z.shiftr a 64) 64.
Definition fixed_frac (a : Z) : Z := Z.land a (Z.ones 64).

Record UQ64x64 := mkUQ64x64 { bits : Z }.

#[export] Instance UQ64x64_eq_dec : EqDecision UQ64x64.
Proof. solve_decision. Defined.

Module UQ64x64.

Definition ZERO : UQ64x64 := mkUQ64x64 0.
Definition ONE : UQ64x64 := mkUQ64x64 (Z.shiftl 1 64).
Definition TWO : UQ64x64 := mkUQ64x64 (Z.shiftl 2 64).
Definition THREE : UQ64x64 := mkUQ64x64 (Z.shiftl 3 64).
Definition FOUR : UQ64x64 := mkUQ64x64 (Z.shiftl 4 64).
Definition FIVE : UQ64x64 := mkUQ64x64 (Z.shiftl 5 64).
Definition TEN : UQ64x64 := mkUQ64x64 (Z.shiftl 10 64).
Definition HUNDRED : UQ64x64 := mkUQ64x64 (Z.shiftl 100 64).
Definition THOUSAND : UQ64x64 := mkUQ64x64 (Z.shiftl 1000 64).

Definition new (raw_value : Z) : UQ64x64 := mkUQ64x64 raw_value.

Section Methods.
Context `{FixedU128}.

Definition from_u64 (value : Z) : option UQ64x64 := mkUQ64x64 <$> from_num value.
Definition from_u128 (value : Z) : option UQ64x64 := mkUQ64x64 <$> from_num value.

Definition from_fraction (numerator denominator : Z) : option (SdkResult UQ64x64) :=
  if denominator =? 0 then Some (Err ERR_DIVISION_BY_ZERO)
  else
    num ← from_num numerator;
    den ← from_num denominator;
    q ← fixed_div num den;
    Some (Ok (mkUQ64x64 q)).

Definition integer_part (self : UQ64x64) : Z := Z.shiftr (fixed_int (bits self)) 64.
Definition frac_raw (self : UQ64x64) : Z := wrap64 (fixed_frac (bits self)).
Definition to_bits (self : UQ64x64) : Z := bits self.

Definition checked_div (self rhs : UQ64x64) : option (SdkResult UQ64x64) :=
  zero ← from_num 0;
  if bits rhs =? zero then Some (Err ERR_DIVISION_BY_ZERO)
  else q ← fixed_div (bits self) (bits rhs); Some (Ok (mkUQ64x64 q)).

Definition checked_div_from_u128 (value : Z) (divisor : UQ64x64) : option (SdkResult UQ64x64) :=
  zero ← from_num 0;
  if bits divisor =? zero then Some (Err ERR_DIVISION_BY_ZERO)
  else num ← from_num value; q ← fixed_div num (bits divisor); Some (Ok (mkUQ64x64 q)).

(** [from_fraction(..).unwrap()]. *)
Definition unwrap (r : option (SdkResult UQ64x64)) : option UQ64x64 :=
  r ← r; match r with Ok x => Some x | Err _ => None end.

Definition percentage (value : Z) : option UQ64x64 := unwrap (from_fraction value 100).
Definition bps (value : Z) : option UQ64x64 := unwrap (from_fraction value 10000).

Definition add (self rhs : UQ64x64) : option UQ64x64 := mkUQ64x64 <$> fixed_add (bits self) (bits rhs).
Definition sub (self rhs : UQ64x64) : option UQ64x64 := mkUQ64x64 <$> fixed_sub (bits self) (bits rhs).
Definition mul (self rhs : UQ64x64) : option UQ64x64 := mkUQ64x64 <$> fixed_mul (bits self) (bits rhs).
Definition div (self rhs : UQ64x64) : option UQ64x64 := mkUQ64x64 <$> fixed_div (bits self) (bits rhs).

(** The operations with a [u128] on either side. *)
Definition mul_u128 (self : UQ64x64) (rhs : Z) : option UQ64x64 :=
  num ← from_num rhs; mkUQ64x64 <$> fixed_mul (bits self) num.
Definition u128_mul (self : Z) (rhs : UQ64x64) : option UQ64x64 :=
  num ← from_num self; mkUQ64x64 <$> fixed_mul num (bits rhs).
Definition div_u128 (self : UQ64x64) (rhs : Z) : option UQ64x64 :=
  if rhs =? 0 then None else den ← from_num rhs; mkUQ64x64 <$> fixed_div (bits self) den.
Definition checked_div_u128 (self : UQ64x64) (rhs : Z) : option (SdkResult UQ64x64) :=
  if rhs =? 0 then Some (Err ERR_DIVISION_BY_ZERO)
  else den ← from_num rhs; q ← fixed_div (bits self) den; Some (Ok (mkUQ64x64 q)).
Definition u128_div (self : Z) (rhs : UQ64x64) : option UQ64x64 :=
  zero ← from_num 0;
  if bits rhs =? zero then None
  else num ← from_num self; mkUQ64x64 <$> fixed_div num (bits rhs).

End Methods.
End UQ64x64.

(** ** Theorems on fixed-point numbers *)

Lemma checked_fits z r : 0 <= z <= u128_max -> checked z r -> r = Some z.
Proof. intros [H1 H2]. unfold checked. by rewrite (proj2 (Z.leb_le _ _) H1), (proj2 (Z.leb_le _ _) H2). Qed.

Lemma checked_overflow z r : u128_max < z -> checked z r -> r = None \/ r = Some (wrap128 z).
Proof. intros Hz. unfold checked. rewrite (proj2 (Z.leb_gt _ _) Hz), andb_false_r. done. Qed.

Lemma integer_part_bits n : 0 <= n -> UQ64x64.integer_part (mkUQ64x64 n) = n / SCALE.
Proof.
  intros Hn. unfold UQ64x64.integer_part, fixed_int. cbn [bits].
  rewrite Z.shiftr_shiftl_l by lia. change (64 - 64) with 0. rewrite Z.shiftl_0_r. apply Z.shiftr_div_pow2. lia.
Qed.

Lemma frac_raw_bits n : 0 <= n -> UQ64x64.frac_raw (mkUQ64x64 n) = n mod SCALE.
Proof.
  intros Hn. unfold UQ64x64.frac_raw, fixed_frac, wrap64. cbn [bits]. rewrite Z.land_ones by lia.
  change (2 ^ 64) with SCALE. apply Z.mod_mod. done.
Qed.

Section Fixed.
Context `{FixedU128}.

Lemma from_num_u64 n : is_u64 n -> from_num n = Some (n * SCALE).
Proof.
  intros Hn. apply checked_fits; [|apply from_num_spec].
  unfold is_u64, u64_max, u128_max, SCALE in *. lia.
Qed.

Lemma fraction_bits n d : is_u64 n -> is_u64 d -> d ≠ 0 ->
  UQ64x64.from_fraction n d = Some (Ok (mkUQ64x64 (n * SCALE / d))).
Proof.
  intros Hn Hd Hd0. unfold UQ64x64.from_fraction. rewrite (proj2 (Z.eqb_neq _ _) Hd0), !from_num_u64 by done.
  cbn [mbind option_bind]. assert (Hq : n * SCALE * SCALE / (d * SCALE) = n * SCALE / d).
  { apply Z.div_mul_cancel_r; unfold SCALE; lia. }
  rewrite (checked_fits (n * SCALE * SCALE / (d * SCALE)) (fixed_div (n * SCALE) (d * SCALE))); [by rewrite Hq| |].
  - rewrite Hq. unfold is_u64, u64_max, u128_max, SCALE in *. split; [apply Z.div_pos; lia|].
    transitivity (n * 2 ^ 64); [|lia]. apply Z.div_le_upper_bound; nia.
  - apply div_spec. unfold SCALE. lia.
Qed.

(** Fractions of machine integers are exact up to rounding down.
    [from_fraction] never panics, fails only for the denominator zero, and
    gives the largest multiple of 2^-64 that does not exceed the fraction; its
    integer part is the quotient, its fractional part what remains. *)
Theorem fraction_rounds_down n d :
  is_u64 n -> is_u64 d ->
  UQ64x64.from_fraction n 0 = Some (Err ERR_DIVISION_BY_ZERO) /\
  (d ≠ 0 -> exists q, UQ64x64.from_fraction n d = Some (Ok q) /\
     UQ64x64.to_bits q * d <= n * SCALE < (UQ64x64.to_bits q + 1) * d /\
     UQ64x64.integer_part q = n / d /\
     UQ64x64.frac_raw q = (n mod d) * SCALE / d).
Proof.
  intros Hn Hd. split; [done|]. intros Hd0. exists (mkUQ64x64 (n * SCALE / d)). split; [by apply fraction_bits|].
  assert (0 < d) by (unfold is_u64 in *; lia). assert (0 <= n * SCALE / d).
  { apply Z.div_pos; [|done]. unfold is_u64, SCALE in *. lia. }
  pose proof (Z.div_mod (n * SCALE) d ltac:(lia)) as Hdm. pose proof (Z.mod_pos_bound (n * SCALE) d ltac:(lia)) as Hm.
  split; [unfold UQ64x64.to_bits; cbn [bits]; lia|].
  assert (Hsplit : n * SCALE / d = n / d * SCALE + n mod d * SCALE / d).
  { rewrite (Z.div_mod n d) at 1 by lia. rewrite Z.mul_add_distr_r.
    replace (d * (n / d) * SCALE) with (n / d * SCALE * d) by lia. rewrite Z.add_comm, Z.div_add by lia. lia. }
  assert (Hfrac : 0 <= n mod d * SCALE / d < SCALE).
  { pose proof (Z.mod_pos_bound n d ltac:(lia)). split; [apply Z.div_pos; unfold SCALE in *; lia|].
    apply Z.div_lt_upper_bound; unfold SCALE in *; nia. }
  rewrite integer_part_bits, frac_raw_bits by done. rewrite Hsplit. split.
  - rewrite Z.div_add_l by done. rewrite (Z.div_small (n mod d * SCALE / d)) by done. lia.
  - rewrite Z.add_comm, Z.mod_add by done. by apply Z.mod_small.
Qed.

(** Multiplying an amount by a fraction that is at most one. *)
Lemma mul_fraction amount n d :
  is_u64 amount -> is_u64 n -> is_u64 d -> 0 < d -> n <= d ->
  UQ64x64.u128_mul amount (mkUQ64x64 (n * SCALE / d)) = Some (mkUQ64x64 (amount * (n * SCALE / d))).
Proof.
  intros Ha Hn Hd Hd0 Hle. unfold UQ64x64.u128_mul. rewrite from_num_u64 by done. cbn [mbind option_bind bits].
  assert (Hq : 0 <= n * SCALE / d <= SCALE).
  { unfold is_u64, SCALE in *. split; [apply Z.div_pos; lia | apply Z.div_le_upper_bound; nia]. }
  assert (He : amount * SCALE * (n * SCALE / d) / SCALE = amount * (n * SCALE / d)).
  { replace (amount * SCALE * (n * SCALE / d)) with (amount * (n * SCALE / d) * SCALE) by lia. by apply Z.div_mul. }
  rewrite (checked_fits (amount * SCALE * (n * SCALE / d) / SCALE) (fixed_mul (amount * SCALE) (n * SCALE / d)));
    [by rewrite He | | apply mul_spec].
  rewrite He. unfold is_u64, u64_max, u128_max, SCALE in *. nia.
Qed.

(** C31: a fee in basis points is taken to within one unit. For every amount of
    64 bits and every rate of at most 10000 basis points, making the rate and
    multiplying do not overflow, and the integer part of the fee is the exact
    product rounded down, or one less. Nothing is claimed of rates above 10000.
    *)
Theorem bps_fee_within_one amount rate :
  is_u64 amount -> 0 <= rate <= 10000 ->
  exists r fee, UQ64x64.bps rate = Some r /\ UQ64x64.u128_mul amount r = Some fee /\
    amount * rate / 10000 - 1 <= UQ64x64.integer_part fee <= amount * rate / 10000.
Proof.
  intros Ha Hr. exists (mkUQ64x64 (rate * SCALE / 10000)), (mkUQ64x64 (amount * (rate * SCALE / 10000))).
  assert (is_u64 rate /\ is_u64 10000) as [Hr64 Hd64] by (unfold is_u64, u64_max; lia).
  split_and!; [unfold UQ64x64.bps; by rewrite fraction_bits | apply mul_fraction; [done | done | done | lia | lia] |..];
    rewrite integer_part_bits by (unfold is_u64, SCALE in *; apply Z.mul_nonneg_nonneg; [lia | apply Z.div_pos; lia]).
  all: pose proof (Z.div_mod (rate * SCALE) 10000 ltac:(lia)); pose proof (Z.mod_pos_bound (rate * SCALE) 10000 ltac:(lia)).
  all: pose proof (Z.div_mod (amount * rate) 10000 ltac:(lia)); pose proof (Z.mod_pos_bound (amount * rate) 10000 ltac:(lia)).
  all: set (q := rate * SCALE / 10000) in *; set (x := amount * rate / 10000) in *.
  - apply Z.div_le_lower_bound; [done|]. unfold is_u64, u64_max, SCALE in *. nia.
  - apply Z.lt_succ_r. apply Z.div_lt_upper_bound; [done|]. unfold is_u64, u64_max, SCALE in *. nia.
Qed.

(** An amount of 2^64 or more does not become a fixed-point number: the
    conversion panics or drops all but the lowest 64 bits. *)
Theorem from_u128_overflows n :
  SCALE <= n <= u128_max ->
  UQ64x64.from_u128 n = None \/ UQ64x64.from_u128 n = Some (mkUQ64x64 (n mod SCALE * SCALE)).
Proof.
  intros Hn. unfold UQ64x64.from_u128. destruct (checked_overflow (n * SCALE) (from_num n)) as [-> | ->].
  - unfold u128_max, SCALE in *. lia.
  - apply from_num_spec.
  - by left.
  - right. cbn. do 2 f_equal. unfold wrap128. change (2 ^ 128) with (SCALE * SCALE).
    rewrite Z.mul_mod_distr_r; unfold SCALE; lia.
Qed.

End Fixed.

(** ** The theorems at work

    The operations of a build with overflow checks. *)
Definition panicking (z : Z) : option Z := if (0 <=? z) && (z <=? u128_max) then Some z else None.

Lemma panicking_checked z : checked z (panicking z).
Proof. unfold checked, panicking. destruct ((0 <=? z) && (z <=? u128_max)); [done | by left]. Qed.

#[export] Instance panicking_fixed : FixedU128.
Proof.
  refine {| from_num n := panicking (n * SCALE);
            fixed_add a b := panicking (a + b);
            fixed_sub a b := panicking (a - b);
            fixed_mul a b := panicking (a * b / SCALE);
            fixed_div a b := if b =? 0 then None else panicking (a * SCALE / b) |};
    [intros; apply panicking_checked..| |done].
  intros a b Hb. rewrite (proj2 (Z.eqb_neq _ _) Hb). apply panicking_checked.
Defined.

Lemma fraction_rounds_down_witness :
  exists q, UQ64x64.from_fraction 7 2 = Some (Ok q) /\ UQ64x64.integer_part q = 3 /\ UQ64x64.frac_raw q = SCALE / 2.
Proof.
  destruct (fraction_rounds_down 7 2) as [_ Hq]; [by_decision | by_decision |].
  destruct (Hq ltac:(done)) as (q & Hf & _ & Hi & Hr). exists q. by split_and!.
Defined.

(** Three basis points of 10000 are 2: the rate is rounded down first. *)
Lemma bps_fee_within_one_witness :
  exists r fee, UQ64x64.bps 3 = Some r /\ UQ64x64.u128_mul 10000 r = Some fee /\
    2 <= UQ64x64.integer_part fee <= 3.
Proof. exact (bps_fee_within_one 10000 3 ltac:(by_decision) ltac:(by_decision)). Defined.

Example three_basis_points : (fee ← (r ← UQ64x64.bps 3; UQ64x64.u128_mul 10000 r); Some (UQ64x64.integer_part fee)) = Some 2.
Proof. vm_compute. reflexivity. Qed.

Lemma from_u128_overflows_witness :
  UQ64x64.from_u128 (SCALE + 5) = None \/ UQ64x64.from_u128 (SCALE + 5) = Some (mkUQ64x64 (5 * SCALE)).
Proof. exact (from_u128_overflows (SCALE + 5) ltac:(by_decision)). Defined.
