(* ===== verification/Schema.v ===== *)
(** * Schemas and messages

    The account schemas of the SDK, and the protobuf messages of the gRPC
    server, which carry them. *)

From S2P Require Import Prelude.

Open Scope evolve_scope.

(** ** Account schemas

    Models [crates/app/sdk/core/src/schema.rs]: the description of an account
    module that the servers show to clients, with its builders, and the induction
    principle of the descriptions of types. *)

Inductive TypeSchema :=
| Primitive (name : string)
| Array (element : TypeSchema)
| Optional (inner : TypeSchema)
| Tuple (elements : list TypeSchema)
| Struct (name : string) (fields : list FieldSchema)
| Enum (name : string) (variants : list VariantSchema)
| SchemaAccountId
| SchemaUnit
| Opaque (rust_type : string)
with FieldSchema := mkFieldSchema (field_name : string) (field_ty : TypeSchema)
with VariantSchema := mkVariantSchema (variant_name : string) (variant_fields : list FieldSchema).

Inductive FunctionKind := KindInit | KindExec | KindQuery.

Record FunctionSchema := mkFunctionSchema {
  fs_name : string; fs_function_id : Z; fs_kind : FunctionKind; fs_params : list FieldSchema; fs_return_type : TypeSchema;
  fs_payable : bool }.

Record AccountSchema := mkAccountSchema {
  as_name : string; as_identifier : string; as_init : option FunctionSchema; as_exec_functions : list FunctionSchema;
  as_query_functions : list FunctionSchema }.

Module AccountSchema.

Definition new (name identifier : string) : AccountSchema := mkAccountSchema name identifier None [] [].

Definition with_init (self : AccountSchema) (init : FunctionSchema) : AccountSchema :=
  mkAccountSchema (as_name self) (as_identifier self) (Some init) (as_exec_functions self) (as_query_functions self).

Definition with_exec (self : AccountSchema) (func : FunctionSchema) : AccountSchema :=
  mkAccountSchema (as_name self) (as_identifier self) (as_init self) (as_exec_functions self ++ [func])
    (as_query_functions self).

Definition with_query (self : AccountSchema) (func : FunctionSchema) : AccountSchema :=
  mkAccountSchema (as_name self) (as_identifier self) (as_init self) (as_exec_functions self)
    (as_query_functions self ++ [func]).

End AccountSchema.

Module FunctionSchema.

Definition new (name : string) (function_id : Z) (kind : FunctionKind) (return_type : TypeSchema) : FunctionSchema :=
  mkFunctionSchema name function_id kind [] return_type false.

Definition with_param (self : FunctionSchema) (name : string) (ty : TypeSchema) : FunctionSchema :=
  mkFunctionSchema (fs_name self) (fs_function_id self) (fs_kind self) (fs_params self ++ [mkFieldSchema name ty])
    (fs_return_type self) (fs_payable self).

Definition with_payable (self : FunctionSchema) (payable : bool) : FunctionSchema :=
  mkFunctionSchema (fs_name self) (fs_function_id self) (fs_kind self) (fs_params self) (fs_return_type self) payable.

End FunctionSchema.

(** ** Induction through the lists *)
Definition field_holds (P : TypeSchema -> Prop) (f : FieldSchema) : Prop :=
  match f with mkFieldSchema _ ty => P ty end.
Definition variant_holds (P : TypeSchema -> Prop) (v : VariantSchema) : Prop :=
  match v with mkVariantSchema _ fields => Forall (field_holds P) fields end.

Section Induction.
Context (P : TypeSchema -> Prop).
Hypothesis HPrimitive : forall name, P (Primitive name).
Hypothesis HArray : forall element, P element -> P (Array element).
Hypothesis HOptional : forall inner, P inner -> P (Optional inner).
Hypothesis HTuple : forall elements, Forall P elements -> P (Tuple elements).
Hypothesis HStruct : forall name fields, Forall (field_holds P) fields -> P (Struct name fields).
Hypothesis HEnum : forall name variants, Forall (variant_holds P) variants -> P (Enum name variants).
Hypothesis HAccountId : P SchemaAccountId.
Hypothesis HUnit : P SchemaUnit.
Hypothesis HOpaque : forall rust_type, P (Opaque rust_type).

Lemma TypeSchema_induction ty : P ty.
Proof.
  revert ty; fix IH 1; intros [name|element|inner|elements|name fields|name variants| | |rust_type].
  - apply HPrimitive.
  - apply HArray, IH.
  - apply HOptional, IH.
  - apply HTuple; induction elements as [|e elements IHe]; constructor; [apply IH | exact IHe].
  - apply HStruct; induction fields as [|[n ty] fields IHf]; constructor; [apply IH | exact IHf].
  - apply HEnum; induction variants as [|[n fields] variants IHv]; constructor; [|exact IHv]; cbn.
    induction fields as [|[m ty] fields IHf]; constructor; [apply IH | exact IHf].
  - exact HAccountId.
  - exact HUnit.
  - apply HOpaque.
Qed.

End Induction.

(** ** The protobuf messages

    Models the messages of [crates/rpc/grpc/src/generated/evolve.v1.rs]: a message
    field is an option, a repeated field a list, an enumeration field the [i32] on
    the wire. Integers are in the range of their type. *)

Module proto.

Record H256 := mkH256 { h256_data : bytes }.
Record Address := mkAddress { address_data : bytes }.
Record U256 := mkU256 { u256_data : bytes }.

(** [block_id::Id] and [BlockId]. *)
Inductive Id := IdNumber (n : Z) | IdTag (t : Z).
Record BlockId := mkBlockId { bi_id : option Id }.

Record BlockHeader := mkBlockHeader {
  bh_number : Z; bh_hash : option H256; bh_parent_hash : option H256; bh_state_root : option H256;
  bh_transactions_root : option H256; bh_receipts_root : option H256; bh_miner : option Address; bh_gas_limit : Z;
  bh_gas_used : Z; bh_timestamp : Z; bh_extra_data : bytes; bh_base_fee_per_gas : option U256; bh_logs_bloom : bytes }.

Record AccessListItem := mkAccessListItem { al_address : option Address; al_storage_keys : list H256 }.

Record Transaction := mkTransaction {
  tx_hash : option H256; tx_nonce : Z; tx_block_hash : option H256; tx_block_number : option Z;
  tx_transaction_index : option Z; tx_from : option Address; tx_to : option Address; tx_value : option U256; tx_gas : Z;
  tx_gas_price : option U256; tx_max_fee_per_gas : option U256; tx_max_priority_fee_per_gas : option U256;
  tx_input : bytes; tx_tx_type : Z; tx_chain_id : option Z; tx_v : Z; tx_r : option U256; tx_s : option U256;
  tx_access_list : list AccessListItem }.

Record TransactionHashes := mkTransactionHashes { th_hashes : list H256 }.
Record Transactions := mkTransactions { txs_transactions : list Transaction }.

(** [block::Transactions]. *)
Inductive BlockTransactions := TxHashes (h : TransactionHashes) | FullTransactions (t : Transactions).

Record Block := mkBlock { bl_header : option BlockHeader; bl_size : Z; bl_transactions : option BlockTransactions }.

Record Log := mkLog {
  log_address : option Address; log_topics : list H256; log_data : bytes; log_block_number : option Z;
  log_transaction_hash : option H256; log_transaction_index : option Z; log_block_hash : option H256;
  log_log_index : option Z; log_removed : bool }.

Record Receipt := mkReceipt {
  re_transaction_hash : option H256; re_transaction_index : Z; re_block_hash : option H256; re_block_number : Z;
  re_from : option Address; re_to : option Address; re_cumulative_gas_used : Z; re_gas_used : Z;
  re_effective_gas_price : option U256; re_contract_address : option Address; re_logs : list Log; re_logs_bloom : bytes;
  re_tx_type : Z; re_status : Z }.

Record TopicFilter := mkTopicFilter { tf_topics : list H256 }.

Record LogFilter := mkLogFilter {
  lf_from_block : option BlockId; lf_to_block : option BlockId; lf_addresses : list Address; lf_topics : list TopicFilter;
  lf_block_hash : option H256 }.

Record CallRequest := mkCallRequest {
  cr_from : option Address; cr_to : option Address; cr_gas : option Z; cr_gas_price : option U256;
  cr_max_fee_per_gas : option U256; cr_max_priority_fee_per_gas : option U256; cr_value : option U256;
  cr_data : option bytes }.

Record SyncProgress := mkSyncProgress { sp_starting_block : Z; sp_current_block : Z; sp_highest_block : Z }.

(** [sync_status::Status]. *)
Inductive Status := NotSyncing (b : bool) | Progress (p : SyncProgress).
Record SyncStatus := mkSyncStatus { ss_status : option Status }.

(** [TypeSchema] with [type_schema::Kind]; the messages of its fields are
    declared with it. *)
Inductive TypeSchema := mkTypeSchema (kind : option Kind)
with Kind :=
| Primitive (name : string)
| ArrayElement (element : TypeSchema)
| OptionalInner (inner : TypeSchema)
| Tuple (t : TupleSchema)
| StructType (s : StructSchema)
| EnumType (e : EnumSchema)
| AccountId (b : bool)
| Unit (b : bool)
| Opaque (rust_type : string)
with TupleSchema := mkTupleSchema (elements : list TypeSchema)
with StructSchema := mkStructSchema (struct_name : string) (struct_fields : list FieldSchema)
with EnumSchema := mkEnumSchema (enum_name : string) (variants : list VariantSchema)
with FieldSchema := mkFieldSchema (field_name : string) (ty : option TypeSchema)
with VariantSchema := mkVariantSchema (variant_name : string) (variant_fields : list FieldSchema).

Record FunctionSchema := mkFunctionSchema {
  fs_name : string; fs_function_id : Z; fs_kind : Z; fs_params : list FieldSchema; fs_return_type : option TypeSchema;
  fs_payable : bool }.

Record AccountSchema := mkAccountSchema {
  as_name : string; as_identifier : string; as_init : option FunctionSchema; as_exec_functions : list FunctionSchema;
  as_query_functions : list FunctionSchema }.

(** ** Enumerations *)
Inductive BlockTag := TagUnspecified | TagLatest | TagEarliest | TagPending | TagSafe | TagFinalized.
Inductive FunctionKind := KindUnspecified | KindInit | KindExec | KindQuery.

(** [as i32] and [try_from]. *)
Definition BlockTag_as_i32 (tag : BlockTag) : Z :=
  match tag with
  | TagUnspecified => 0 | TagLatest => 1 | TagEarliest => 2 | TagPending => 3 | TagSafe => 4 | TagFinalized => 5
  end.

Definition BlockTag_try_from (t : Z) : option BlockTag :=
  match t with
  | 0 => Some TagUnspecified | 1 => Some TagLatest | 2 => Some TagEarliest | 3 => Some TagPending | 4 => Some TagSafe
  | 5 => Some TagFinalized | _ => None
  end.

Definition BlockTag_as_str_name (self : BlockTag) : string :=
  match self with
  | TagUnspecified => "BLOCK_TAG_UNSPECIFIED"
  | TagLatest => "BLOCK_TAG_LATEST"
  | TagEarliest => "BLOCK_TAG_EARLIEST"
  | TagPending => "BLOCK_TAG_PENDING"
  | TagSafe => "BLOCK_TAG_SAFE"
  | TagFinalized => "BLOCK_TAG_FINALIZED"
  end.

Definition BlockTag_from_str_name (value : string) : option BlockTag :=
  if bool_decide (value = "BLOCK_TAG_UNSPECIFIED"%string) then Some TagUnspecified
  else if bool_decide (value = "BLOCK_TAG_LATEST"%string) then Some TagLatest
  else if bool_decide (value = "BLOCK_TAG_EARLIEST"%string) then Some TagEarliest
  else if bool_decide (value = "BLOCK_TAG_PENDING"%string) then Some TagPending
  else if bool_decide (value = "BLOCK_TAG_SAFE"%string) then Some TagSafe
  else if bool_decide (value = "BLOCK_TAG_FINALIZED"%string) then Some TagFinalized
  else None.

Definition FunctionKind_as_i32 (kind : FunctionKind) : Z :=
  match kind with KindUnspecified => 0 | KindInit => 1 | KindExec => 2 | KindQuery => 3 end.

Definition FunctionKind_as_str_name (self : FunctionKind) : string :=
  match self with
  | KindUnspecified => "FUNCTION_KIND_UNSPECIFIED"
  | KindInit => "FUNCTION_KIND_INIT"
  | KindExec => "FUNCTION_KIND_EXEC"
  | KindQuery => "FUNCTION_KIND_QUERY"
  end.

Definition FunctionKind_from_str_name (value : string) : option FunctionKind :=
  if bool_decide (value = "FUNCTION_KIND_UNSPECIFIED"%string) then Some KindUnspecified
  else if bool_decide (value = "FUNCTION_KIND_INIT"%string) then Some KindInit
  else if bool_decide (value = "FUNCTION_KIND_EXEC"%string) then Some KindExec
  else if bool_decide (value = "FUNCTION_KIND_QUERY"%string) then Some KindQuery
  else None.

(** ** Requests and responses of the services *)
Record GetChainIdRequest := mkGetChainIdRequest {}.
Record GetChainIdResponse := mkGetChainIdResponse { gci_chain_id : Z }.
Record GetBlockNumberRequest := mkGetBlockNumberRequest {}.
Record GetBlockNumberResponse := mkGetBlockNumberResponse { gbn_block_number : Z }.
Record GetSyncingRequest := mkGetSyncingRequest {}.
Record GetSyncingResponse := mkGetSyncingResponse { gs_status : option SyncStatus }.
Record GetBlockByNumberRequest := mkGetBlockByNumberRequest { gbbn_block : option BlockId; gbbn_full_transactions : bool }.
Record GetBlockByNumberResponse := mkGetBlockByNumberResponse { gbbnr_block : option Block }.
Record GetBlockByHashRequest := mkGetBlockByHashRequest { gbbh_hash : option H256; gbbh_full_transactions : bool }.
Record GetBlockByHashResponse := mkGetBlockByHashResponse { gbbhr_block : option Block }.
Record GetBlockTransactionCountByNumberRequest := mkGetBlockTransactionCountByNumberRequest { gbtcn_block : option BlockId }.
Record GetBlockTransactionCountByHashRequest := mkGetBlockTransactionCountByHashRequest { gbtch_hash : option H256 }.
Record GetBlockTransactionCountResponse := mkGetBlockTransactionCountResponse { gbtc_count : option Z }.
Record GetTransactionByHashRequest := mkGetTransactionByHashRequest { gtbh_hash : option H256 }.
Record GetTransactionByHashResponse := mkGetTransactionByHashResponse { gtbh_transaction : option Transaction }.
Record GetTransactionReceiptRequest := mkGetTransactionReceiptRequest { gtr_hash : option H256 }.
Record GetTransactionReceiptResponse := mkGetTransactionReceiptResponse { gtr_receipt : option Receipt }.
Record GetTransactionCountRequest := mkGetTransactionCountRequest { gtc_address : option Address; gtc_block : option BlockId }.
Record GetTransactionCountResponse := mkGetTransactionCountResponse { gtc_count : Z }.
Record GetBalanceRequest := mkGetBalanceRequest { gb_address : option Address; gb_block : option BlockId }.
Record GetBalanceResponse := mkGetBalanceResponse { gb_balance : option U256 }.
Record GetCodeRequest := mkGetCodeRequest { gc_address : option Address; gc_block : option BlockId }.
Record GetCodeResponse := mkGetCodeResponse { gc_code : bytes }.
Record GetStorageAtRequest := mkGetStorageAtRequest {
  gsa_address : option Address; gsa_position : option U256; gsa_block : option BlockId }.
Record GetStorageAtResponse := mkGetStorageAtResponse { gsa_value : option H256 }.
Record ExecuteCallRequest := mkExecuteCallRequest { ec_request : option CallRequest; ec_block : option BlockId }.
Record CallResponse := mkCallResponse { ca_result : bytes }.
Record EstimateGasRequest := mkEstimateGasRequest { eg_request : option CallRequest; eg_block : option BlockId }.
Record EstimateGasResponse := mkEstimateGasResponse { eg_gas : Z }.
Record GetLogsRequest := mkGetLogsRequest { gl_filter : option LogFilter }.
Record GetLogsResponse := mkGetLogsResponse { gl_logs : list Log }.
Record SendRawTransactionRequest := mkSendRawTransactionRequest { srt_data : bytes }.
Record SendRawTransactionResponse := mkSendRawTransactionResponse { srt_hash : option H256 }.
Record ListModulesRequest := mkListModulesRequest {}.
Record ListModulesResponse := mkListModulesResponse { lm_identifiers : list string }.
Record GetModuleSchemaRequest := mkGetModuleSchemaRequest { gms_identifier : string }.
Record GetModuleSchemaResponse := mkGetModuleSchemaResponse { gms_schema : option AccountSchema }.
Record GetAllSchemasRequest := mkGetAllSchemasRequest {}.
Record GetAllSchemasResponse := mkGetAllSchemasResponse { gas_schemas : list AccountSchema }.

Record SubscribeNewHeadsRequest := mkSubscribeNewHeadsRequest {}.
Record SubscribeLogsRequest := mkSubscribeLogsRequest { sl_addresses : list Address; sl_topics : list TopicFilter }.
Record SubscribePendingTransactionsRequest := mkSubscribePendingTransactionsRequest {}.
Record SubscribeSyncingRequest := mkSubscribeSyncingRequest {}.

End proto.
