(* ===== verification/GrpcConv.v ===== *)
(** * Conversions and errors of the gRPC server

    Models [conversion.rs] and [error.rs] of [crates/rpc/grpc/src]: from the types
    of the servers to protobuf messages and back, and from errors to gRPC statuses.
    [None] stands for a panic where a function can panic; an [Option] of the source
    is then inside it. *)

From S2P Require Import Prelude Core ExecState Runtime Invoker Stf Mempool StorageBackend Server EthTx EthContext.
From S2P Require Import EthGateway Indexing IndexStore Rpc Schema.

Open Scope evolve_scope.

(** [Uint::from_be_slice] of the [ruint] crate, which panics when the number does
    not fit. *)
Class Uint := {
  from_be_slice : bytes -> option Z;
  from_be_slice_fits b : (length b <= 32)%nat -> from_be_slice b = Some (be_value b);
  from_be_slice_large b : 2 ^ 256 <= be_value b -> from_be_slice b = None
}.

(** [FixedBytes::from_slice] behind a check of the length. *)
Definition fixed_bytes (n : nat) (b : bytes) : option (vec byte n) :=
  match decide (length b = n) with
  | left e => Some (eq_rect _ (vec byte) (list_to_vec b) _ e)
  | right _ => None
  end.

(** [to::<u32>()], which panics when the number does not fit. *)
Definition to_u32 (z : Z) : option Z := if z <? 2 ^ 32 then Some z else None.

(** ** Primitive types *)
Definition b256_to_proto (value : B256) : proto.H256 := proto.mkH256 (vec_to_list value).

Definition proto_to_b256 (value : proto.H256) : option B256 := fixed_bytes 32 (proto.h256_data value).

Definition address_to_proto (value : Address) : proto.Address := proto.mkAddress (vec_to_list value).

Definition proto_to_address (value : proto.Address) : option Address := fixed_bytes 20 (proto.address_data value).

Definition u256_to_proto (value : Z) : proto.U256 := proto.mkU256 (be_bytes 32 value).

Definition proto_to_u256 `{Uint} (value : proto.U256) : option Z :=
  if bool_decide (proto.u256_data value = []) then Some 0 else from_be_slice (proto.u256_data value).

(** ** Block identifiers *)
Definition proto_to_block_id (value : proto.BlockId) : option BlockNumberOrTag :=
  (fun id => match id with
             | proto.IdNumber n => BlockNumber n
             | proto.IdTag t =>
                 let tag :=
                   match proto.BlockTag_try_from t with
                   | Some proto.TagLatest => TagLatest
                   | Some proto.TagEarliest => TagEarliest
                   | Some proto.TagPending => TagPending
                   | Some proto.TagSafe => TagSafe
                   | Some proto.TagFinalized => TagFinalized
                   | _ => TagLatest
                   end in
                 Tag tag
             end) <$> proto.bi_id value.

Definition block_id_to_proto (value : BlockNumberOrTag) : proto.BlockId :=
  match value with
  | BlockNumber n => proto.mkBlockId (Some (proto.IdNumber n))
  | Tag tag =>
      let proto_tag :=
        match tag with
        | TagLatest => proto.TagLatest
        | TagEarliest => proto.TagEarliest
        | TagPending => proto.TagPending
        | TagSafe => proto.TagSafe
        | TagFinalized => proto.TagFinalized
        end in
      proto.mkBlockId (Some (proto.IdTag (proto.BlockTag_as_i32 proto_tag)))
  end.

(** ** Logs, receipts, transactions, blocks *)
Definition rpc_log_to_proto (log : RpcLog) : proto.Log :=
  {| proto.log_address := Some (address_to_proto (rl_address log));
     proto.log_topics := map b256_to_proto (rl_topics log);
     proto.log_data := rl_data log;
     proto.log_block_number := rl_block_number log;
     proto.log_transaction_hash := b256_to_proto <$> rl_transaction_hash log;
     proto.log_transaction_index := rl_transaction_index log;
     proto.log_block_hash := b256_to_proto <$> rl_block_hash log;
     proto.log_log_index := rl_log_index log;
     proto.log_removed := rl_removed log |}.

Definition rpc_receipt_to_proto (receipt : RpcReceipt) : option proto.Receipt :=
  tx_type ← to_u32 (rc_tx_type receipt);
  Some {| proto.re_transaction_hash := Some (b256_to_proto (rc_transaction_hash receipt));
          proto.re_transaction_index := rc_transaction_index receipt;
          proto.re_block_hash := Some (b256_to_proto (rc_block_hash receipt));
          proto.re_block_number := rc_block_number receipt;
          proto.re_from := Some (address_to_proto (rc_from receipt));
          proto.re_to := address_to_proto <$> rc_to receipt;
          proto.re_cumulative_gas_used := rc_cumulative_gas_used receipt;
          proto.re_gas_used := rc_gas_used receipt;
          proto.re_effective_gas_price := Some (u256_to_proto (rc_effective_gas_price receipt));
          proto.re_contract_address := address_to_proto <$> rc_contract_address receipt;
          proto.re_logs := map rpc_log_to_proto (rc_logs receipt);
          proto.re_logs_bloom := rc_logs_bloom receipt;
          proto.re_tx_type := tx_type;
          proto.re_status := rc_status receipt |}.

Definition rpc_transaction_to_proto (tx : RpcTransaction) : option proto.Transaction :=
  tx_type ← to_u32 (rt_tx_type tx);
  Some {| proto.tx_hash := Some (b256_to_proto (rt_hash tx));
          proto.tx_nonce := rt_nonce tx;
          proto.tx_block_hash := b256_to_proto <$> rt_block_hash tx;
          proto.tx_block_number := rt_block_number tx;
          proto.tx_transaction_index := rt_transaction_index tx;
          proto.tx_from := Some (address_to_proto (rt_from tx));
          proto.tx_to := address_to_proto <$> rt_to tx;
          proto.tx_value := Some (u256_to_proto (rt_value tx));
          proto.tx_gas := rt_gas tx;
          proto.tx_gas_price := u256_to_proto <$> rt_gas_price tx;
          proto.tx_max_fee_per_gas := u256_to_proto <$> rt_max_fee_per_gas tx;
          proto.tx_max_priority_fee_per_gas := u256_to_proto <$> rt_max_priority_fee_per_gas tx;
          proto.tx_input := rt_input tx;
          proto.tx_tx_type := tx_type;
          proto.tx_chain_id := rt_chain_id tx;
          proto.tx_v := rt_v tx;
          proto.tx_r := Some (u256_to_proto (rt_r tx));
          proto.tx_s := Some (u256_to_proto (rt_s tx));
          proto.tx_access_list :=
            from_option (map (fun item => proto.mkAccessListItem (Some (address_to_proto item.1))
                                            (map b256_to_proto item.2))) [] (rt_access_list tx) |}.

Definition rpc_block_to_header (block : RpcBlock) : proto.BlockHeader :=
  {| proto.bh_number := rb_number block;
     proto.bh_hash := Some (b256_to_proto (rb_hash block));
     proto.bh_parent_hash := Some (b256_to_proto (rb_parent_hash block));
     proto.bh_state_root := Some (b256_to_proto (rb_state_root block));
     proto.bh_transactions_root := Some (b256_to_proto (rb_transactions_root block));
     proto.bh_receipts_root := Some (b256_to_proto (rb_receipts_root block));
     proto.bh_miner := Some (address_to_proto (rb_miner block));
     proto.bh_gas_limit := rb_gas_limit block;
     proto.bh_gas_used := rb_gas_used block;
     proto.bh_timestamp := rb_timestamp block;
     proto.bh_extra_data := rb_extra_data block;
     proto.bh_base_fee_per_gas := u256_to_proto <$> rb_base_fee_per_gas block;
     proto.bh_logs_bloom := rb_logs_bloom block |}.

Definition rpc_block_to_proto (block : RpcBlock) (full_transactions : bool) : option proto.Block :=
  let header := rpc_block_to_header block in
  transactions ←
    match rb_transactions block, full_transactions with
    | Some (TxHashes hashes), false =>
        Some (Some (proto.TxHashes (proto.mkTransactionHashes (map b256_to_proto hashes))))
    | Some (TxFull txs), true =>
        l ← mapM rpc_transaction_to_proto txs;
        Some (Some (proto.FullTransactions (proto.mkTransactions l)))
    | Some (TxHashes hashes), _ =>
        Some (Some (proto.TxHashes (proto.mkTransactionHashes (map b256_to_proto hashes))))
    | Some (TxFull txs), _ =>
        Some (Some (proto.TxHashes (proto.mkTransactionHashes (map (fun tx => b256_to_proto (rt_hash tx)) txs))))
    | None, _ => Some None
    end;
  Some {| proto.bl_header := Some header; proto.bl_transactions := transactions; proto.bl_size := rb_size block |}.

(** ** Requests *)
Definition topic_filter_of (tf : proto.TopicFilter) : option FilterTopic :=
  match proto.tf_topics tf with
  | [] => None
  | [t] => SingleTopic <$> proto_to_b256 t
  | ts => match omap proto_to_b256 ts with [] => None | topics => Some (MultipleTopics topics) end
  end.

Definition proto_to_log_filter (filter : proto.LogFilter) : LogFilter :=
  let address :=
    match proto.lf_addresses filter with
    | [] => None
    | [a] => SingleAddress <$> proto_to_address a
    | l => match omap proto_to_address l with [] => None | addrs => Some (MultipleAddresses addrs) end
    end in
  let topics :=
    match proto.lf_topics filter with
    | [] => None
    | l => Some (map topic_filter_of l)
    end in
  {| lf_from_block := proto.lf_from_block filter ≫= proto_to_block_id;
     lf_to_block := proto.lf_to_block filter ≫= proto_to_block_id;
     lf_address := address;
     lf_topics := topics;
     lf_block_hash := proto.lf_block_hash filter ≫= proto_to_b256 |}.

(** [RpcLogFilter::default()]. *)
Definition LogFilter_default : LogFilter := mkLogFilter None None None None None.

(** [as_ref().map(proto_to_u256)]. *)
Definition optional_u256 `{Uint} (o : option proto.U256) : option (option Z) :=
  match o with None => Some None | Some u => Some <$> proto_to_u256 u end.

Definition proto_to_call_request `{Uint} (req : proto.CallRequest) : option (option CallRequest) :=
  let to :=
    match proto.cr_to req ≫= proto_to_address with
    | Some a => Some a
    | None => match proto.cr_to req with None => Some (vreplicate 20 x00) | Some _ => None end
    end in
  match to with
  | None => Some None
  | Some to =>
      let from :=
        match proto.cr_from req with
        | Some f => Some <$> proto_to_address f
        | None => Some None
        end in
      match from with
      | None => Some None
      | Some from =>
          gas_price ← optional_u256 (proto.cr_gas_price req);
          max_fee_per_gas ← optional_u256 (proto.cr_max_fee_per_gas req);
          max_priority_fee_per_gas ← optional_u256 (proto.cr_max_priority_fee_per_gas req);
          value ← optional_u256 (proto.cr_value req);
          Some (Some {| cr_from := from;
                        cr_to := to;
                        cr_gas := proto.cr_gas req;
                        cr_gas_price := gas_price;
                        cr_max_fee_per_gas := max_fee_per_gas;
                        cr_max_priority_fee_per_gas := max_priority_fee_per_gas;
                        cr_value := value;
                        cr_data := proto.cr_data req;
                        cr_input := None |})
      end
  end.

(** ** Sync status *)
Definition rpc_sync_status_to_proto (status : SyncStatus) : proto.SyncStatus :=
  match status with
  | NotSyncing _ => proto.mkSyncStatus (Some (proto.NotSyncing false))
  | Syncing starting_block current_block highest_block =>
      proto.mkSyncStatus (Some (proto.Progress (proto.mkSyncProgress starting_block current_block highest_block)))
  end.

(** ** Schemas *)
Fixpoint type_schema_to_proto (ty : TypeSchema) : proto.TypeSchema :=
  let kind :=
    match ty with
    | Primitive name => Some (proto.Primitive name)
    | Array element => Some (proto.ArrayElement (type_schema_to_proto element))
    | Optional inner => Some (proto.OptionalInner (type_schema_to_proto inner))
    | Tuple elements => Some (proto.Tuple (proto.mkTupleSchema (map type_schema_to_proto elements)))
    | Struct name fields => Some (proto.StructType (proto.mkStructSchema name (map field_schema_to_proto fields)))
    | Enum name variants => Some (proto.EnumType (proto.mkEnumSchema name (map variant_schema_to_proto variants)))
    | SchemaAccountId => Some (proto.AccountId true)
    | SchemaUnit => Some (proto.Unit true)
    | Opaque rust_type => Some (proto.Opaque rust_type)
    end in
  proto.mkTypeSchema kind
with field_schema_to_proto (field : FieldSchema) : proto.FieldSchema :=
  match field with
  | mkFieldSchema name ty => proto.mkFieldSchema name (Some (type_schema_to_proto ty))
  end
with variant_schema_to_proto (variant : VariantSchema) : proto.VariantSchema :=
  match variant with
  | mkVariantSchema name fields => proto.mkVariantSchema name (map field_schema_to_proto fields)
  end.

Definition function_kind_to_proto (kind : FunctionKind) : Z :=
  match kind with
  | KindInit => proto.FunctionKind_as_i32 proto.KindInit
  | KindExec => proto.FunctionKind_as_i32 proto.KindExec
  | KindQuery => proto.FunctionKind_as_i32 proto.KindQuery
  end.

Definition function_schema_to_proto (func : FunctionSchema) : proto.FunctionSchema :=
  {| proto.fs_name := fs_name func;
     proto.fs_function_id := fs_function_id func;
     proto.fs_kind := function_kind_to_proto (fs_kind func);
     proto.fs_params := map field_schema_to_proto (fs_params func);
     proto.fs_return_type := Some (type_schema_to_proto (fs_return_type func));
     proto.fs_payable := fs_payable func |}.

Definition account_schema_to_proto (schema : AccountSchema) : proto.AccountSchema :=
  {| proto.as_name := as_name schema;
     proto.as_identifier := as_identifier schema;
     proto.as_init := function_schema_to_proto <$> as_init schema;
     proto.as_exec_functions := map function_schema_to_proto (as_exec_functions schema);
     proto.as_query_functions := map function_schema_to_proto (as_query_functions schema) |}.

(** ** [error.rs] *)
Inductive Code := CodeInvalidArgument | CodeNotFound | CodeInternal | CodeUnimplemented | CodeUnavailable | CodeAborted.

Record Status := mkStatus { st_code : Code; st_message : list Piece }.

Inductive GrpcError :=
| GrpcInvalidArgument (msg : string)
| GrpcNotFound (msg : string)
| GrpcInternal (msg : string)
| GrpcUnimplemented (msg : string)
| GrpcUnavailable (msg : string)
| GrpcRpc (e : RpcError).

Definition rpc_error_to_status (err : RpcError) : Status :=
  match err with
  | ParseError msg => mkStatus CodeInvalidArgument msg
  | InvalidParams msg => mkStatus CodeInvalidArgument msg
  | InternalError msg => mkStatus CodeInternal msg
  | RpcBlockNotFound => mkStatus CodeNotFound [Str "Block not found"]
  | RpcTransactionNotFound => mkStatus CodeNotFound [Str "Transaction not found"]
  | RpcReceiptNotFound => mkStatus CodeNotFound [Str "Receipt not found"]
  | AccountNotFound => mkStatus CodeNotFound [Str "Account not found"]
  | ExecutionReverted msg => mkStatus CodeAborted (Str "Execution reverted: " :: msg)
  | GasEstimationFailed msg => mkStatus CodeAborted (Str "Gas estimation failed: " :: msg)
  | NotImplemented method => mkStatus CodeUnimplemented [Str "Method not implemented: "; Str method]
  | InvalidBlockNumberOrTag => mkStatus CodeInvalidArgument [Str "Invalid block number or tag"]
  | InvalidAddress msg => mkStatus CodeInvalidArgument msg
  | InvalidTransaction msg => mkStatus CodeInvalidArgument (Str "Invalid transaction: " :: msg)
  end.

(** [From<GrpcError> for Status]. *)
Definition grpc_error_to_status (err : GrpcError) : Status :=
  match err with
  | GrpcInvalidArgument msg => mkStatus CodeInvalidArgument [Str msg]
  | GrpcNotFound msg => mkStatus CodeNotFound [Str msg]
  | GrpcInternal msg => mkStatus CodeInternal [Str msg]
  | GrpcUnimplemented msg => mkStatus CodeUnimplemented [Str msg]
  | GrpcUnavailable msg => mkStatus CodeUnavailable [Str msg]
  | GrpcRpc rpc_err => rpc_error_to_status rpc_err
  end.
