(* ===== verification/Grpc.v ===== *)
(** * The gRPC services

    Models [services/execution.rs], [services/streaming.rs] and [server.rs] of
    [crates/rpc/grpc/src], with the service traits and the generated routers of
    [generated/evolve.v1.rs]. As in the JSON-RPC server, a call of the provider is
    a point where others may run, which is the argument [meanwhile]. A handler that
    panics answers [None]. [tonic], which decodes requests, encodes responses and
    limits their size, and [prost] are interfaces. *)

From S2P Require Import Prelude Core Gas Collections ExecState Runtime Invoker Stf Mempool StorageBackend Server EthTx.
From S2P Require Import EthContext EthGateway Indexing IndexStore Rpc Provider RpcServer Schema GrpcConv.

Open Scope evolve_scope.

(** ** Handlers *)
Definition Handler (P A : Type) : Type := P -> option (Result Status A) * P.

Section Handlers.
Context {P : Type}.

Definition respond {A} (a : A) : Handler P A := fun p => (Some (Ok a), p).
Definition reject {A} (e : GrpcError) : Handler P A := fun p => (Some (Err (grpc_error_to_status e)), p).

(** [m.await.map_err(GrpcError::from)?]. *)
Definition ask {A B} (m : Op P (Result RpcError A)) (k : A -> Handler P B) : Handler P B := fun p =>
  match m p with
  | (Ok a, p) => k a p
  | (Err e, p) => (Some (Err (grpc_error_to_status (GrpcRpc e))), p)
  end.

(** The same for a call that runs code, and may panic. *)
Definition ask_run {A B} (m : P -> option (Result RpcError A) * P) (k : A -> Handler P B) : Handler P B := fun p =>
  match m p with
  | (None, p) => (None, p)
  | (Some (Ok a), p) => k a p
  | (Some (Err e), p) => (Some (Err (grpc_error_to_status (GrpcRpc e))), p)
  end.

(** [o.ok_or_else(|| GrpcError::InvalidArgument(msg))?]. *)
Definition require {A B} (o : option A) (msg : string) (k : A -> Handler P B) : Handler P B :=
  match o with Some a => k a | None => reject (GrpcInvalidArgument msg) end.

(** A computation that may panic. *)
Definition safely {A B} (o : option A) (k : A -> Handler P B) : Handler P B :=
  match o with Some a => k a | None => fun p => (None, p) end.

End Handlers.

(** ** The trait [ExecutionService] *)
Class ExecutionService (T P : Type) := {
  es_get_chain_id : T -> proto.GetChainIdRequest -> Handler P proto.GetChainIdResponse;
  es_get_block_number : T -> proto.GetBlockNumberRequest -> Handler P proto.GetBlockNumberResponse;
  es_get_syncing : T -> proto.GetSyncingRequest -> Handler P proto.GetSyncingResponse;
  es_get_block_by_number : T -> proto.GetBlockByNumberRequest -> Handler P proto.GetBlockByNumberResponse;
  es_get_block_by_hash : T -> proto.GetBlockByHashRequest -> Handler P proto.GetBlockByHashResponse;
  es_get_block_transaction_count_by_number :
    T -> proto.GetBlockTransactionCountByNumberRequest -> Handler P proto.GetBlockTransactionCountResponse;
  es_get_block_transaction_count_by_hash :
    T -> proto.GetBlockTransactionCountByHashRequest -> Handler P proto.GetBlockTransactionCountResponse;
  es_get_transaction_by_hash : T -> proto.GetTransactionByHashRequest -> Handler P proto.GetTransactionByHashResponse;
  es_get_transaction_receipt : T -> proto.GetTransactionReceiptRequest -> Handler P proto.GetTransactionReceiptResponse;
  es_get_transaction_count : T -> proto.GetTransactionCountRequest -> Handler P proto.GetTransactionCountResponse;
  es_get_balance : T -> proto.GetBalanceRequest -> Handler P proto.GetBalanceResponse;
  es_get_code : T -> proto.GetCodeRequest -> Handler P proto.GetCodeResponse;
  es_get_storage_at : T -> proto.GetStorageAtRequest -> Handler P proto.GetStorageAtResponse;
  es_call : T -> proto.ExecuteCallRequest -> Handler P proto.CallResponse;
  es_estimate_gas : T -> proto.EstimateGasRequest -> Handler P proto.EstimateGasResponse;
  es_get_logs : T -> proto.GetLogsRequest -> Handler P proto.GetLogsResponse;
  es_send_raw_transaction : T -> proto.SendRawTransactionRequest -> Handler P proto.SendRawTransactionResponse;
  es_list_modules : T -> proto.ListModulesRequest -> Handler P proto.ListModulesResponse;
  es_get_module_schema : T -> proto.GetModuleSchemaRequest -> Handler P proto.GetModuleSchemaResponse;
  es_get_all_schemas : T -> proto.GetAllSchemasRequest -> Handler P proto.GetAllSchemasResponse
}.

(** ** [ExecutionServiceImpl]

    The provider is the state the handlers run on; [meanwhile] is what others do
    to it and [delivery] what becomes of a transaction sent to the mempool. *)
Record ExecutionServiceImpl (P : Type) := mkExecutionServiceImpl {
  ex_chain_id : Z; ex_meanwhile : P -> P; ex_delivery : Delivery }.
Arguments mkExecutionServiceImpl {P} _ _ _.
Arguments ex_chain_id {P} _.
Arguments ex_meanwhile {P} _.
Arguments ex_delivery {P} _.

Module ExecutionServiceImpl.
Section Methods.
Context `{Uint} {P : Type} `{StateProvider P AccountSchema} (self : ExecutionServiceImpl P).

Definition resolve_block (block : option proto.BlockId) : Op P (Result RpcError (option Z)) :=
  match block ≫= proto_to_block_id with
  | None => mret (Ok None)
  | Some (BlockNumber n) => mret (Ok (Some n))
  | Some (Tag tag) =>
      match tag with
      | TagLatest | TagSafe | TagFinalized | TagPending => let? n := sp_block_number in mret (Ok (Some n))
      | TagEarliest => mret (Ok (Some 0))
      end
  end.

(** Others run. *)
Definition yield {A} (k : Handler P A) : Handler P A := fun p => k (ex_meanwhile self p).

Definition get_chain_id (request : proto.GetChainIdRequest) : Handler P proto.GetChainIdResponse :=
  respond (proto.mkGetChainIdResponse (ex_chain_id self)).

Definition get_block_number (request : proto.GetBlockNumberRequest) : Handler P proto.GetBlockNumberResponse :=
  ask sp_block_number (fun number =>
  respond (proto.mkGetBlockNumberResponse number)).

Definition get_syncing (request : proto.GetSyncingRequest) : Handler P proto.GetSyncingResponse :=
  let status := NotSyncing false in
  respond (proto.mkGetSyncingResponse (Some (rpc_sync_status_to_proto status))).

(** [block.map(|b| rpc_block_to_proto(&b, full))]. *)
Definition block_to_proto (block : option RpcBlock) (full : bool) : option (option proto.Block) :=
  match block with None => Some None | Some b => Some <$> rpc_block_to_proto b full end.

Definition get_block_by_number (req : proto.GetBlockByNumberRequest) : Handler P proto.GetBlockByNumberResponse :=
  ask (resolve_block (proto.gbbn_block req)) (fun block_num =>
  yield
    match block_num with
    | Some n =>
        ask (sp_get_block_by_number n (proto.gbbn_full_transactions req)) (fun block =>
        safely (block_to_proto block (proto.gbbn_full_transactions req)) (fun b =>
        respond (proto.mkGetBlockByNumberResponse b)))
    | None => respond (proto.mkGetBlockByNumberResponse None)
    end).

Definition get_block_by_hash (req : proto.GetBlockByHashRequest) : Handler P proto.GetBlockByHashResponse :=
  require (proto.gbbh_hash req ≫= proto_to_b256) "Invalid block hash" (fun hash =>
  ask (sp_get_block_by_hash hash (proto.gbbh_full_transactions req)) (fun block =>
  safely (block_to_proto block (proto.gbbh_full_transactions req)) (fun b =>
  respond (proto.mkGetBlockByHashResponse b)))).

Definition count_transactions (b : RpcBlock) : Z :=
  match rb_transactions b with
  | Some (TxHashes h) => zlen h
  | Some (TxFull f) => zlen f
  | None => 0
  end.

Definition get_block_transaction_count_by_number (req : proto.GetBlockTransactionCountByNumberRequest)
    : Handler P proto.GetBlockTransactionCountResponse :=
  ask (resolve_block (proto.gbtcn_block req)) (fun block_num =>
  yield
    match block_num with
    | Some n =>
        ask (sp_get_block_by_number n false) (fun block =>
        respond (proto.mkGetBlockTransactionCountResponse (count_transactions <$> block)))
    | None => respond (proto.mkGetBlockTransactionCountResponse None)
    end).

Definition get_block_transaction_count_by_hash (req : proto.GetBlockTransactionCountByHashRequest)
    : Handler P proto.GetBlockTransactionCountResponse :=
  require (proto.gbtch_hash req ≫= proto_to_b256) "Invalid block hash" (fun hash =>
  ask (sp_get_block_by_hash hash false) (fun block =>
  respond (proto.mkGetBlockTransactionCountResponse (count_transactions <$> block)))).

Definition get_transaction_by_hash (req : proto.GetTransactionByHashRequest) : Handler P proto.GetTransactionByHashResponse :=
  require (proto.gtbh_hash req ≫= proto_to_b256) "Invalid transaction hash" (fun hash =>
  ask (sp_get_transaction_by_hash hash) (fun tx =>
  safely (match tx with None => Some None | Some t => Some <$> rpc_transaction_to_proto t end) (fun t =>
  respond (proto.mkGetTransactionByHashResponse t)))).

Definition get_transaction_receipt (req : proto.GetTransactionReceiptRequest)
    : Handler P proto.GetTransactionReceiptResponse :=
  require (proto.gtr_hash req ≫= proto_to_b256) "Invalid transaction hash" (fun hash =>
  ask (sp_get_transaction_receipt hash) (fun receipt =>
  safely (match receipt with None => Some None | Some r => Some <$> rpc_receipt_to_proto r end) (fun r =>
  respond (proto.mkGetTransactionReceiptResponse r)))).

Definition get_transaction_count (req : proto.GetTransactionCountRequest) : Handler P proto.GetTransactionCountResponse :=
  require (proto.gtc_address req ≫= proto_to_address) "Invalid address" (fun address =>
  ask (resolve_block (proto.gtc_block req)) (fun block_num =>
  yield (ask (sp_get_transaction_count address block_num) (fun count =>
  respond (proto.mkGetTransactionCountResponse count))))).

Definition get_balance (req : proto.GetBalanceRequest) : Handler P proto.GetBalanceResponse :=
  require (proto.gb_address req ≫= proto_to_address) "Invalid address" (fun address =>
  ask (resolve_block (proto.gb_block req)) (fun block_num =>
  yield (ask (sp_get_balance address block_num) (fun balance =>
  respond (proto.mkGetBalanceResponse (Some (u256_to_proto balance))))))).

Definition get_code (req : proto.GetCodeRequest) : Handler P proto.GetCodeResponse :=
  require (proto.gc_address req ≫= proto_to_address) "Invalid address" (fun address =>
  ask (resolve_block (proto.gc_block req)) (fun block_num =>
  yield (ask (sp_get_code address block_num) (fun code =>
  respond (proto.mkGetCodeResponse code))))).

(** The [B256] of [get_storage_at] is its bytes. *)
Definition get_storage_at (req : proto.GetStorageAtRequest) : Handler P proto.GetStorageAtResponse :=
  require (proto.gsa_address req ≫= proto_to_address) "Invalid address" (fun address =>
  safely (optional_u256 (proto.gsa_position req)) (fun position =>
  require position "Invalid storage position" (fun position =>
  ask (resolve_block (proto.gsa_block req)) (fun block_num =>
  yield (ask (sp_get_storage_at address position block_num) (fun value =>
  respond (proto.mkGetStorageAtResponse (Some (proto.mkH256 value))))))))).

(** [req.request.as_ref().and_then(proto_to_call_request)]. *)
Definition call_request_of (request : option proto.CallRequest) : option (option CallRequest) :=
  match request with None => Some None | Some r => proto_to_call_request r end.

Definition call (req : proto.ExecuteCallRequest) : Handler P proto.CallResponse :=
  safely (call_request_of (proto.ec_request req)) (fun call_request =>
  require call_request "Missing or invalid call request" (fun call_request =>
  ask (resolve_block (proto.ec_block req)) (fun block_num =>
  yield (ask_run (sp_call call_request block_num) (fun result =>
  respond (proto.mkCallResponse result)))))).

Definition estimate_gas (req : proto.EstimateGasRequest) : Handler P proto.EstimateGasResponse :=
  safely (call_request_of (proto.eg_request req)) (fun call_request =>
  require call_request "Missing or invalid call request" (fun call_request =>
  ask (resolve_block (proto.eg_block req)) (fun block_num =>
  yield (ask_run (sp_estimate_gas call_request block_num) (fun gas =>
  respond (proto.mkEstimateGasResponse gas)))))).

Definition get_logs (req : proto.GetLogsRequest) : Handler P proto.GetLogsResponse :=
  let filter := from_option proto_to_log_filter LogFilter_default (proto.gl_filter req) in
  ask (sp_get_logs filter) (fun logs =>
  respond (proto.mkGetLogsResponse (map rpc_log_to_proto logs))).

(** [None] of the provider is its panic, which leaves no provider to answer with:
    the old one stands for it. *)
Definition send_raw_transaction (req : proto.SendRawTransactionRequest) : Handler P proto.SendRawTransactionResponse :=
  if bool_decide (proto.srt_data req = []) then reject (GrpcInvalidArgument "Empty transaction data")
  else fun p =>
    match sp_send_raw_transaction (ex_delivery self) (proto.srt_data req) p with
    | None => (None, p)
    | Some (Ok hash, p) => respond (proto.mkSendRawTransactionResponse (Some (b256_to_proto hash))) p
    | Some (Err e, p) => reject (GrpcRpc e) p
    end.

Definition list_modules (request : proto.ListModulesRequest) : Handler P proto.ListModulesResponse :=
  ask sp_list_module_identifiers (fun identifiers =>
  respond (proto.mkListModulesResponse identifiers)).

Definition get_module_schema (req : proto.GetModuleSchemaRequest) : Handler P proto.GetModuleSchemaResponse :=
  ask (sp_get_module_schema (proto.gms_identifier req)) (fun schema =>
  respond (proto.mkGetModuleSchemaResponse (account_schema_to_proto <$> schema))).

Definition get_all_schemas (request : proto.GetAllSchemasRequest) : Handler P proto.GetAllSchemasResponse :=
  ask sp_get_all_schemas (fun schemas =>
  respond (proto.mkGetAllSchemasResponse (map account_schema_to_proto schemas))).

End Methods.
End ExecutionServiceImpl.

#[global] Instance execution_service {P} `{Uint} `{StateProvider P AccountSchema}
    : ExecutionService (ExecutionServiceImpl P) P := {|
  es_get_chain_id := ExecutionServiceImpl.get_chain_id;
  es_get_block_number _ := ExecutionServiceImpl.get_block_number;
  es_get_syncing _ := ExecutionServiceImpl.get_syncing;
  es_get_block_by_number := ExecutionServiceImpl.get_block_by_number;
  es_get_block_by_hash _ := ExecutionServiceImpl.get_block_by_hash;
  es_get_block_transaction_count_by_number := ExecutionServiceImpl.get_block_transaction_count_by_number;
  es_get_block_transaction_count_by_hash _ := ExecutionServiceImpl.get_block_transaction_count_by_hash;
  es_get_transaction_by_hash _ := ExecutionServiceImpl.get_transaction_by_hash;
  es_get_transaction_receipt _ := ExecutionServiceImpl.get_transaction_receipt;
  es_get_transaction_count := ExecutionServiceImpl.get_transaction_count;
  es_get_balance := ExecutionServiceImpl.get_balance;
  es_get_code := ExecutionServiceImpl.get_code;
  es_get_storage_at := ExecutionServiceImpl.get_storage_at;
  es_call := ExecutionServiceImpl.call;
  es_estimate_gas := ExecutionServiceImpl.estimate_gas;
  es_get_logs _ := ExecutionServiceImpl.get_logs;
  es_send_raw_transaction := ExecutionServiceImpl.send_raw_transaction;
  es_list_modules _ := ExecutionServiceImpl.list_modules;
  es_get_module_schema _ := ExecutionServiceImpl.get_module_schema;
  es_get_all_schemas _ := ExecutionServiceImpl.get_all_schemas |}.

(** ** [StreamingServiceImpl]

    A stream is what it yields for the results its broadcast channel delivers. *)
Inductive SyncStatusEvent :=
| EventSyncing (starting_block current_block highest_block : Z)
| EventNotSyncing (b : bool).

Record StreamingServiceImpl := mkStreamingServiceImpl {}.

(** [BroadcastStream]: the stream ends when the channel closes. *)
Fixpoint broadcast_stream {A} (results : list (RecvResult A)) : list (Result Z A) :=
  match results with
  | [] | ChannelClosed :: _ => []
  | Received a :: results => Ok a :: broadcast_stream results
  | Lagged n :: results => Err n :: broadcast_stream results
  end.

Module StreamingServiceImpl.

Definition subscribe_new_heads (request : proto.SubscribeNewHeadsRequest) (rx : list (RecvResult RpcBlock))
    : list proto.BlockHeader :=
  omap (fun result => match result with
                      | Ok block => Some (rpc_block_to_header block)
                      | Err err => None
                      end) (broadcast_stream rx).

(** The topic filters from the [i]-th on. *)
Fixpoint topics_pass (i : nat) (topics : list (list B256)) (log : RpcLog) : bool :=
  match topics with
  | [] => true
  | filter_topics :: topics =>
      if bool_decide (filter_topics = []) then topics_pass (S i) topics log
      else match rl_topics log !! i with
           | Some log_topic => if bool_decide (log_topic ∈ filter_topics) then topics_pass (S i) topics log else false
           | None => false
           end
  end.

Definition subscribe_logs (req : proto.SubscribeLogsRequest) (rx : list (RecvResult RpcLog)) : list proto.Log :=
  let addresses := omap proto_to_address (proto.sl_addresses req) in
  let topics := map (fun tf => omap proto_to_b256 (proto.tf_topics tf)) (proto.sl_topics req) in
  omap (fun result => match result with
                      | Ok log =>
                          if negb (bool_decide (addresses = [])) && negb (bool_decide (rl_address log ∈ addresses)) then None
                          else if negb (topics_pass 0 topics log) then None
                          else Some (rpc_log_to_proto log)
                      | Err err => None
                      end) (broadcast_stream rx).

Definition subscribe_pending_transactions (request : proto.SubscribePendingTransactionsRequest)
    (rx : list (RecvResult B256)) : list proto.H256 :=
  omap (fun result => match result with
                      | Ok hash => Some (b256_to_proto hash)
                      | Err err => None
                      end) (broadcast_stream rx).

Definition subscribe_syncing (request : proto.SubscribeSyncingRequest) (rx : list (RecvResult SyncStatusEvent))
    : list proto.SyncStatus :=
  omap (fun result => match result with
                      | Ok status =>
                          let rpc_status :=
                            match status with
                            | EventSyncing starting_block current_block highest_block =>
                                Syncing starting_block current_block highest_block
                            | EventNotSyncing _ => NotSyncing false
                            end in
                          Some (rpc_sync_status_to_proto rpc_status)
                      | Err err => None
                      end) (broadcast_stream rx).

End StreamingServiceImpl.

(** The trait [StreamingService], with what the channels of the subscription
    manager deliver to a subscriber. *)
Record Channels := mkChannels {
  ch_new_heads : list (RecvResult RpcBlock); ch_logs : list (RecvResult RpcLog);
  ch_pending_transactions : list (RecvResult B256); ch_sync : list (RecvResult SyncStatusEvent) }.

Class StreamingService (T : Type) := {
  ss_subscribe_new_heads : T -> proto.SubscribeNewHeadsRequest -> Channels -> list proto.BlockHeader;
  ss_subscribe_logs : T -> proto.SubscribeLogsRequest -> Channels -> list proto.Log;
  ss_subscribe_pending_transactions : T -> proto.SubscribePendingTransactionsRequest -> Channels -> list proto.H256;
  ss_subscribe_syncing : T -> proto.SubscribeSyncingRequest -> Channels -> list proto.SyncStatus
}.

#[global] Instance streaming_service : StreamingService StreamingServiceImpl := {|
  ss_subscribe_new_heads _ request ch := StreamingServiceImpl.subscribe_new_heads request (ch_new_heads ch);
  ss_subscribe_logs _ request ch := StreamingServiceImpl.subscribe_logs request (ch_logs ch);
  ss_subscribe_pending_transactions _ request ch :=
    StreamingServiceImpl.subscribe_pending_transactions request (ch_pending_transactions ch);
  ss_subscribe_syncing _ request ch := StreamingServiceImpl.subscribe_syncing request (ch_sync ch) |}.

(** ** The generated routers *)
Inductive CompressionEncoding := Gzip.

Record GeneratedServer (T : Type) := mkGeneratedServer {
  inner : T;
  accept_compression_encodings : list CompressionEncoding;
  send_compression_encodings : list CompressionEncoding;
  max_decoding_message_size : option Z;
  max_encoding_message_size : option Z }.
Arguments mkGeneratedServer {T} _ _ _ _ _.
Arguments inner {T} _.
Arguments accept_compression_encodings {T} _.
Arguments send_compression_encodings {T} _.
Arguments max_decoding_message_size {T} _.
Arguments max_encoding_message_size {T} _.

(** [prost::Message]: the encoding of a value whose numbers are in range. *)
Class Prost (A : Type) := {
  prost_encode : A -> option bytes;
  prost_decode : bytes -> option A;
  prost_roundtrip a b : prost_encode a = Some b -> prost_decode b = Some a
}.

(** The limit of [tonic] where none is set. *)
Definition DEFAULT_MAX_RECV : Z := 4 * 1024 * 1024.

Inductive HttpResponse := HttpOk (body : bytes) | HttpStatus (status : Status) | HttpFailed.

(** [tonic::server::Grpc::unary] with the options of a server: a body within the
    limit that decodes is given to the handler, and its answer is sent back; a
    larger one is refused before that. *)
Class Tonic := {
  unary : forall {T P A B} `{Prost A, Prost B}, GeneratedServer T -> (A -> Handler P B) -> bytes -> P -> option HttpResponse * P;
  unary_answers {T P A B} `{Prost A, Prost B} (s : GeneratedServer T) (h : A -> Handler P B) body a p b p' out :
    zlen body <= default DEFAULT_MAX_RECV (max_decoding_message_size s) ->
    prost_decode body = Some a -> h a p = (Some (Ok b), p') -> prost_encode b = Some out ->
    from_option (fun limit => zlen out <= limit) True (max_encoding_message_size s) ->
    unary s h body p = (Some (HttpOk out), p');
  unary_rejects {T P A B} `{Prost A, Prost B} (s : GeneratedServer T) (h : A -> Handler P B) body a p status p' :
    zlen body <= default DEFAULT_MAX_RECV (max_decoding_message_size s) ->
    prost_decode body = Some a -> h a p = (Some (Err status), p') ->
    unary s h body p = (Some (HttpStatus status), p');
  unary_limited {T P A B} `{Prost A, Prost B} (s : GeneratedServer T) (h : A -> Handler P B) body p :
    default DEFAULT_MAX_RECV (max_decoding_message_size s) < zlen body ->
    unary s h body p = (Some HttpFailed, p)
}.

(** The codecs of the messages of [ExecutionService]. *)
Class ExecutionMessages := {
  prost_GetChainIdRequest :: Prost proto.GetChainIdRequest;
  prost_GetChainIdResponse :: Prost proto.GetChainIdResponse;
  prost_GetBlockNumberRequest :: Prost proto.GetBlockNumberRequest;
  prost_GetBlockNumberResponse :: Prost proto.GetBlockNumberResponse;
  prost_GetSyncingRequest :: Prost proto.GetSyncingRequest;
  prost_GetSyncingResponse :: Prost proto.GetSyncingResponse;
  prost_GetBlockByNumberRequest :: Prost proto.GetBlockByNumberRequest;
  prost_GetBlockByNumberResponse :: Prost proto.GetBlockByNumberResponse;
  prost_GetBlockByHashRequest :: Prost proto.GetBlockByHashRequest;
  prost_GetBlockByHashResponse :: Prost proto.GetBlockByHashResponse;
  prost_GetBlockTransactionCountByNumberRequest :: Prost proto.GetBlockTransactionCountByNumberRequest;
  prost_GetBlockTransactionCountResponse :: Prost proto.GetBlockTransactionCountResponse;
  prost_GetBlockTransactionCountByHashRequest :: Prost proto.GetBlockTransactionCountByHashRequest;
  prost_GetTransactionByHashRequest :: Prost proto.GetTransactionByHashRequest;
  prost_GetTransactionByHashResponse :: Prost proto.GetTransactionByHashResponse;
  prost_GetTransactionReceiptRequest :: Prost proto.GetTransactionReceiptRequest;
  prost_GetTransactionReceiptResponse :: Prost proto.GetTransactionReceiptResponse;
  prost_GetTransactionCountRequest :: Prost proto.GetTransactionCountRequest;
  prost_GetTransactionCountResponse :: Prost proto.GetTransactionCountResponse;
  prost_GetBalanceRequest :: Prost proto.GetBalanceRequest;
  prost_GetBalanceResponse :: Prost proto.GetBalanceResponse;
  prost_GetCodeRequest :: Prost proto.GetCodeRequest;
  prost_GetCodeResponse :: Prost proto.GetCodeResponse;
  prost_GetStorageAtRequest :: Prost proto.GetStorageAtRequest;
  prost_GetStorageAtResponse :: Prost proto.GetStorageAtResponse;
  prost_ExecuteCallRequest :: Prost proto.ExecuteCallRequest;
  prost_CallResponse :: Prost proto.CallResponse;
  prost_EstimateGasRequest :: Prost proto.EstimateGasRequest;
  prost_EstimateGasResponse :: Prost proto.EstimateGasResponse;
  prost_GetLogsRequest :: Prost proto.GetLogsRequest;
  prost_GetLogsResponse :: Prost proto.GetLogsResponse;
  prost_SendRawTransactionRequest :: Prost proto.SendRawTransactionRequest;
  prost_SendRawTransactionResponse :: Prost proto.SendRawTransactionResponse;
  prost_ListModulesRequest :: Prost proto.ListModulesRequest;
  prost_ListModulesResponse :: Prost proto.ListModulesResponse;
  prost_GetModuleSchemaRequest :: Prost proto.GetModuleSchemaRequest;
  prost_GetModuleSchemaResponse :: Prost proto.GetModuleSchemaResponse;
  prost_GetAllSchemasRequest :: Prost proto.GetAllSchemasRequest;
  prost_GetAllSchemasResponse :: Prost proto.GetAllSchemasResponse
}.

Module ExecutionServiceServer.
Section Router.
Context {T P : Type} `{ExecutionService T P} `{Tonic} `{ExecutionMessages}.

Definition from_arc (t : T) : GeneratedServer T := mkGeneratedServer t [] [] None None.

Definition new (t : T) : GeneratedServer T := from_arc t.

Definition accept_compressed (self : GeneratedServer T) (encoding : CompressionEncoding) : GeneratedServer T :=
  mkGeneratedServer (inner self) (encoding :: accept_compression_encodings self) (send_compression_encodings self)
    (max_decoding_message_size self) (max_encoding_message_size self).

Definition send_compressed (self : GeneratedServer T) (encoding : CompressionEncoding) : GeneratedServer T :=
  mkGeneratedServer (inner self) (accept_compression_encodings self) (encoding :: send_compression_encodings self)
    (max_decoding_message_size self) (max_encoding_message_size self).

Definition with_max_decoding_message_size (self : GeneratedServer T) (limit : Z) : GeneratedServer T :=
  mkGeneratedServer (inner self) (accept_compression_encodings self) (send_compression_encodings self) (Some limit)
    (max_encoding_message_size self).

Definition with_max_encoding_message_size (self : GeneratedServer T) (limit : Z) : GeneratedServer T :=
  mkGeneratedServer (inner self) (accept_compression_encodings self) (send_compression_encodings self)
    (max_decoding_message_size self) (Some limit).

(** The branches of [call]. *)
Definition GetChainIdSvc (self : GeneratedServer T) (body : bytes) : P -> option HttpResponse * P :=
  unary self (es_get_chain_id (inner self)) body.

Definition GetBlockNumberSvc (self : GeneratedServer T) (body : bytes) : P -> option HttpResponse * P :=
  unary self (es_get_block_number (inner self)) body.

Definition GetSyncingSvc (self : GeneratedServer T) (body : bytes) : P -> option HttpResponse * P :=
  unary self (es_get_syncing (inner self)) body.

Definition GetBlockByNumberSvc (self : GeneratedServer T) (body : bytes) : P -> option HttpResponse * P :=
  unary self (es_get_block_by_number (inner self)) body.

Definition GetBlockByHashSvc (self : GeneratedServer T) (body : bytes) : P -> option HttpResponse * P :=
  unary self (es_get_block_by_hash (inner self)) body.

Definition GetBlockTransactionCountByNumberSvc (self : GeneratedServer T) (body : bytes) : P -> option HttpResponse * P :=
  unary self (es_get_block_transaction_count_by_number (inner self)) body.

Definition GetBlockTransactionCountByHashSvc (self : GeneratedServer T) (body : bytes) : P -> option HttpResponse * P :=
  unary self (es_get_block_transaction_count_by_hash (inner self)) body.

Definition GetTransactionByHashSvc (self : GeneratedServer T) (body : bytes) : P -> option HttpResponse * P :=
  unary self (es_get_transaction_by_hash (inner self)) body.

Definition GetTransactionReceiptSvc (self : GeneratedServer T) (body : bytes) : P -> option HttpResponse * P :=
  unary self (es_get_transaction_receipt (inner self)) body.

Definition GetTransactionCountSvc (self : GeneratedServer T) (body : bytes) : P -> option HttpResponse * P :=
  unary self (es_get_transaction_count (inner self)) body.

Definition GetBalanceSvc (self : GeneratedServer T) (body : bytes) : P -> option HttpResponse * P :=
  unary self (es_get_balance (inner self)) body.

Definition GetCodeSvc (self : GeneratedServer T) (body : bytes) : P -> option HttpResponse * P :=
  unary self (es_get_code (inner self)) body.

Definition GetStorageAtSvc (self : GeneratedServer T) (body : bytes) : P -> option HttpResponse * P :=
  unary self (es_get_storage_at (inner self)) body.

Definition CallSvc (self : GeneratedServer T) (body : bytes) : P -> option HttpResponse * P :=
  unary self (es_call (inner self)) body.

Definition EstimateGasSvc (self : GeneratedServer T) (body : bytes) : P -> option HttpResponse * P :=
  unary self (es_estimate_gas (inner self)) body.

Definition GetLogsSvc (self : GeneratedServer T) (body : bytes) : P -> option HttpResponse * P :=
  unary self (es_get_logs (inner self)) body.

Definition SendRawTransactionSvc (self : GeneratedServer T) (body : bytes) : P -> option HttpResponse * P :=
  unary self (es_send_raw_transaction (inner self)) body.

Definition ListModulesSvc (self : GeneratedServer T) (body : bytes) : P -> option HttpResponse * P :=
  unary self (es_list_modules (inner self)) body.

Definition GetModuleSchemaSvc (self : GeneratedServer T) (body : bytes) : P -> option HttpResponse * P :=
  unary self (es_get_module_schema (inner self)) body.

Definition GetAllSchemasSvc (self : GeneratedServer T) (body : bytes) : P -> option HttpResponse * P :=
  unary self (es_get_all_schemas (inner self)) body.

Definition call (self : GeneratedServer T) (path : string) (body : bytes) : P -> option HttpResponse * P :=
  if bool_decide (path = "/evolve.v1.ExecutionService/GetChainId"%string) then GetChainIdSvc self body
  else if bool_decide (path = "/evolve.v1.ExecutionService/GetBlockNumber"%string) then GetBlockNumberSvc self body
  else if bool_decide (path = "/evolve.v1.ExecutionService/GetSyncing"%string) then GetSyncingSvc self body
  else if bool_decide (path = "/evolve.v1.ExecutionService/GetBlockByNumber"%string) then GetBlockByNumberSvc self body
  else if bool_decide (path = "/evolve.v1.ExecutionService/GetBlockByHash"%string) then GetBlockByHashSvc self body
  else if bool_decide (path = "/evolve.v1.ExecutionService/GetBlockTransactionCountByNumber"%string) then GetBlockTransactionCountByNumberSvc self body
  else if bool_decide (path = "/evolve.v1.ExecutionService/GetBlockTransactionCountByHash"%string) then GetBlockTransactionCountByHashSvc self body
  else if bool_decide (path = "/evolve.v1.ExecutionService/GetTransactionByHash"%string) then GetTransactionByHashSvc self body
  else if bool_decide (path = "/evolve.v1.ExecutionService/GetTransactionReceipt"%string) then GetTransactionReceiptSvc self body
  else if bool_decide (path = "/evolve.v1.ExecutionService/GetTransactionCount"%string) then GetTransactionCountSvc self body
  else if bool_decide (path = "/evolve.v1.ExecutionService/GetBalance"%string) then GetBalanceSvc self body
  else if bool_decide (path = "/evolve.v1.ExecutionService/GetCode"%string) then GetCodeSvc self body
  else if bool_decide (path = "/evolve.v1.ExecutionService/GetStorageAt"%string) then GetStorageAtSvc self body
  else if bool_decide (path = "/evolve.v1.ExecutionService/Call"%string) then CallSvc self body
  else if bool_decide (path = "/evolve.v1.ExecutionService/EstimateGas"%string) then EstimateGasSvc self body
  else if bool_decide (path = "/evolve.v1.ExecutionService/GetLogs"%string) then GetLogsSvc self body
  else if bool_decide (path = "/evolve.v1.ExecutionService/SendRawTransaction"%string) then SendRawTransactionSvc self body
  else if bool_decide (path = "/evolve.v1.ExecutionService/ListModules"%string) then ListModulesSvc self body
  else if bool_decide (path = "/evolve.v1.ExecutionService/GetModuleSchema"%string) then GetModuleSchemaSvc self body
  else if bool_decide (path = "/evolve.v1.ExecutionService/GetAllSchemas"%string) then GetAllSchemasSvc self body
  else fun p => (Some (HttpStatus (mkStatus CodeUnimplemented [])), p).

End Router.
End ExecutionServiceServer.

(** [tonic::server::Grpc::server_streaming]: a request that decodes is answered
    with the encodings of the messages of the stream, as long as they encode. *)
Inductive StreamResponse := StreamOf (messages : list bytes) | StreamStatus (status : Status) | StreamFailed.

Class TonicStreaming := {
  server_streaming : forall {T A B} `{Prost A, Prost B},
    GeneratedServer T -> (A -> Channels -> list B) -> bytes -> Channels -> StreamResponse;
  server_streaming_answers {T A B} `{Prost A, Prost B} (s : GeneratedServer T) (h : A -> Channels -> list B) body a ch out :
    zlen body <= default DEFAULT_MAX_RECV (max_decoding_message_size s) ->
    prost_decode body = Some a -> mapM prost_encode (h a ch) = Some out ->
    Forall (fun m => from_option (fun limit => zlen m <= limit) True (max_encoding_message_size s)) out ->
    server_streaming s h body ch = StreamOf out
}.

Class StreamingMessages := {
  prost_SubscribeNewHeadsRequest :: Prost proto.SubscribeNewHeadsRequest;
  prost_SubscribeLogsRequest :: Prost proto.SubscribeLogsRequest;
  prost_SubscribePendingTransactionsRequest :: Prost proto.SubscribePendingTransactionsRequest;
  prost_SubscribeSyncingRequest :: Prost proto.SubscribeSyncingRequest;
  prost_BlockHeader :: Prost proto.BlockHeader;
  prost_Log :: Prost proto.Log;
  prost_H256 :: Prost proto.H256;
  prost_SyncStatus :: Prost proto.SyncStatus
}.

Module StreamingServiceServer.
Section Router.
Context {T : Type} `{StreamingService T} `{TonicStreaming} `{StreamingMessages}.

Definition SubscribeNewHeadsSvc (self : GeneratedServer T) (body : bytes) : Channels -> StreamResponse :=
  server_streaming self (ss_subscribe_new_heads (inner self)) body.

Definition SubscribeLogsSvc (self : GeneratedServer T) (body : bytes) : Channels -> StreamResponse :=
  server_streaming self (ss_subscribe_logs (inner self)) body.

Definition SubscribePendingTransactionsSvc (self : GeneratedServer T) (body : bytes) : Channels -> StreamResponse :=
  server_streaming self (ss_subscribe_pending_transactions (inner self)) body.

Definition SubscribeSyncingSvc (self : GeneratedServer T) (body : bytes) : Channels -> StreamResponse :=
  server_streaming self (ss_subscribe_syncing (inner self)) body.

Definition call (self : GeneratedServer T) (path : string) (body : bytes) : Channels -> StreamResponse :=
  if bool_decide (path = "/evolve.v1.StreamingService/SubscribeNewHeads"%string) then SubscribeNewHeadsSvc self body
  else if bool_decide (path = "/evolve.v1.StreamingService/SubscribeLogs"%string) then SubscribeLogsSvc self body
  else if bool_decide (path = "/evolve.v1.StreamingService/SubscribePendingTransactions"%string) then
    SubscribePendingTransactionsSvc self body
  else if bool_decide (path = "/evolve.v1.StreamingService/SubscribeSyncing"%string) then SubscribeSyncingSvc self body
  else fun _ => StreamStatus (mkStatus CodeUnimplemented []).

End Router.
End StreamingServiceServer.

(** ** [server.rs] *)
Record GrpcServerConfig := mkGrpcServerConfig {
  gsc_addr : string; gsc_chain_id : Z; gsc_enable_gzip : bool; gsc_max_message_size : Z }.
Definition GrpcServerConfig_default : GrpcServerConfig := mkGrpcServerConfig "127.0.0.1:9545" 1 true (4 * 1024 * 1024).

Record GrpcServer (P : Type) := mkGrpcServer { gsv_config : GrpcServerConfig; gsv_state : P; gsv_subscriptions : SubscriptionManager }.
Arguments mkGrpcServer {P} _ _ _.
Arguments gsv_config {P} _.
Arguments gsv_state {P} _.
Arguments gsv_subscriptions {P} _.

Module GrpcServer.

Definition new {P} (config : GrpcServerConfig) (state : P) : GrpcServer P := mkGrpcServer config state SubscriptionManager.new.

Definition with_subscription_manager {P} (config : GrpcServerConfig) (state : P) (subscriptions : SubscriptionManager)
    : GrpcServer P := mkGrpcServer config state subscriptions.

(** The service that [serve] and [serve_with_shutdown] register. *)
Definition limited {T} (config : GrpcServerConfig) (server : GeneratedServer T) : GeneratedServer T :=
  let server := ExecutionServiceServer.with_max_encoding_message_size
                  (ExecutionServiceServer.with_max_decoding_message_size server (gsc_max_message_size config))
                  (gsc_max_message_size config) in
  if gsc_enable_gzip config then
    ExecutionServiceServer.send_compressed (ExecutionServiceServer.accept_compressed server Gzip) Gzip
  else server.

Definition serve {P} (self : GrpcServer P) (meanwhile : P -> P) (delivery : Delivery)
    : GeneratedServer (ExecutionServiceImpl P) * GeneratedServer StreamingServiceImpl :=
  let execution_service := mkExecutionServiceImpl (gsc_chain_id (gsv_config self)) meanwhile delivery in
  let streaming_service := mkStreamingServiceImpl in
  let execution_server := limited (gsv_config self) (ExecutionServiceServer.new execution_service) in
  let streaming_server := limited (gsv_config self) (ExecutionServiceServer.new streaming_service) in
  (execution_server, streaming_server).

End GrpcServer.
