(* ===== verification/GrpcFacts.v ===== *)
(** * Facts of the gRPC server

    What a client writes into a request and reads from a response: round trips of
    the conversions and of whole messages, and when a handler answers as the
    JSON-RPC method of the same name. *)

From S2P Require Import Prelude Core Gas Collections ExecState Runtime Invoker Stf Mempool StorageBackend Server EthTx.
From S2P Require Import EthContext EthGateway Indexing IndexStore IndexStoreFacts Rpc Provider RpcServer Schema.
From S2P Require Import GrpcConv Grpc.

Open Scope evolve_scope.

(** ** Round trips *)
Lemma fixed_bytes_list {n} (v : vec byte n) : fixed_bytes n (vec_to_list v) = Some v.
Proof.
  unfold fixed_bytes. destruct (decide _) as [e|ne]; [|by rewrite length_vec_to_list in ne]. f_equal. apply list_to_vec_cast.
Qed.

Lemma fixed_bytes_some n b v : fixed_bytes n b = Some v -> length b = n.
Proof. unfold fixed_bytes. by destruct (decide _). Qed.

Lemma b256_roundtrip v : proto_to_b256 (b256_to_proto v) = Some v.
Proof. apply fixed_bytes_list. Qed.

Lemma address_roundtrip a : proto_to_address (address_to_proto a) = Some a.
Proof. apply fixed_bytes_list. Qed.

Lemma u256_roundtrip `{Uint} z : is_u256 z -> proto_to_u256 (u256_to_proto z) = Some z.
Proof.
  intros Hz. unfold proto_to_u256, u256_to_proto; cbn [proto.u256_data].
  rewrite bool_decide_eq_false_2 by (intros He; apply (f_equal length) in He; by rewrite length_be_bytes in He).
  rewrite from_be_slice_fits by (by rewrite length_be_bytes). rewrite be_value_bytes.
  f_equal. apply Z.mod_small. exact Hz.
Qed.

Lemma proto_to_u256_large `{Uint} u : 2 ^ 256 <= be_value (proto.u256_data u) -> proto_to_u256 u = None.
Proof.
  intros Hu. unfold proto_to_u256. rewrite bool_decide_eq_false_2; [by apply from_be_slice_large|].
  intros He. rewrite He in Hu. by vm_compute in Hu.
Qed.

Lemma block_id_roundtrip b : proto_to_block_id (block_id_to_proto b) = Some b.
Proof. by destruct b as [n|[]]. Qed.

Lemma block_ids_roundtrip block : (block_id_to_proto <$> block) ≫= proto_to_block_id = block.
Proof. destruct block; cbn; [apply block_id_roundtrip | done]. Qed.

Lemma addresses_roundtrip l : omap proto_to_address (map address_to_proto l) = l.
Proof. induction l as [|a l IH]; cbn; [done|]. by rewrite address_roundtrip, IH. Qed.

Lemma hashes_roundtrip l : omap proto_to_b256 (map b256_to_proto l) = l.
Proof. induction l as [|a l IH]; cbn; [done|]. by rewrite b256_roundtrip, IH. Qed.

(** ** The request a client makes of a filter *)
Definition topic_to_proto (t : option FilterTopic) : proto.TopicFilter :=
  proto.mkTopicFilter
    match t with
    | None => []
    | Some (SingleTopic t) => [b256_to_proto t]
    | Some (MultipleTopics l) => map b256_to_proto l
    end.

Definition addresses_to_proto (a : option FilterAddress) : list proto.Address :=
  match a with
  | None => []
  | Some (SingleAddress a) => [address_to_proto a]
  | Some (MultipleAddresses l) => map address_to_proto l
  end.

Definition topics_to_proto (topics : option (list (option FilterTopic))) : list proto.TopicFilter :=
  from_option (map topic_to_proto) [] topics.

Definition log_filter_to_proto (f : LogFilter) : proto.LogFilter :=
  {| proto.lf_from_block := block_id_to_proto <$> lf_from_block f;
     proto.lf_to_block := block_id_to_proto <$> lf_to_block f;
     proto.lf_addresses := addresses_to_proto (lf_address f);
     proto.lf_topics := topics_to_proto (lf_topics f);
     proto.lf_block_hash := b256_to_proto <$> lf_block_hash f |}.

(** A list of alternatives has at least [n] elements. *)
Definition topic_of_size (n : nat) (t : option FilterTopic) : Prop :=
  match t with Some (MultipleTopics l) => (n <= length l)%nat | _ => True end.
Definition address_of_size (n : nat) (a : option FilterAddress) : Prop :=
  match a with Some (MultipleAddresses l) => (n <= length l)%nat | _ => True end.

(** A filter with one writing: a list of one alternative is that alternative, and
    no topics are no filter. *)
Record canonical_filter (f : LogFilter) : Prop := {
  canonical_address : address_of_size 2 (lf_address f);
  canonical_topics : Forall (topic_of_size 2) (default [] (lf_topics f));
  canonical_some_topics : lf_topics f <> Some [] }.

Lemma topic_filter_roundtrip t : topic_of_size 2 t -> topic_filter_of (topic_to_proto t) = t.
Proof.
  destruct t as [[t|[|a [|b l]]]|]; cbn; try lia; try done; intros _; unfold topic_filter_of; cbn.
  - by rewrite b256_roundtrip.
  - by rewrite !b256_roundtrip, hashes_roundtrip.
Qed.

Lemma log_filter_roundtrip f : canonical_filter f -> proto_to_log_filter (log_filter_to_proto f) = f.
Proof.
  intros [Ha Ht Hs]. destruct f as [fb tb a ts bh]; unfold proto_to_log_filter, log_filter_to_proto; cbn in *. f_equal.
  - apply block_ids_roundtrip.
  - apply block_ids_roundtrip.
  - destruct a as [[a|[|x [|y l]]]|]; cbn in *; try lia; try done.
    + by rewrite address_roundtrip.
    + by rewrite !address_roundtrip, addresses_roundtrip.
  - destruct ts as [[|t ts]|]; cbn in *; try done. f_equal. inversion_clear Ht. rewrite map_map. f_equal.
    + by apply topic_filter_roundtrip.
    + rewrite <-(map_id ts) at 2. apply map_ext_in. intros u Hu%list_elem_of_In.
      eapply topic_filter_roundtrip, Forall_forall; eauto.
  - destruct bh; cbn; [apply b256_roundtrip | done].
Qed.

Lemma omap_none {A B} (f : A -> option B) l : Forall (fun a => f a = None) l -> omap f l = [].
Proof. induction 1 as [|a l Ha _ IH]; cbn; [done|]. by rewrite Ha. Qed.

Lemma malformed_addresses l :
  Forall (fun a => proto_to_address a = None) l ->
  match l with
  | [] => None
  | [a] => SingleAddress <$> proto_to_address a
  | l => match omap proto_to_address l with [] => None | addrs => Some (MultipleAddresses addrs) end
  end = None.
Proof.
  intros Hl. destruct l as [|a [|b l]]; [done|inversion_clear Hl as [|? ? Ha]; by rewrite Ha|]. by rewrite (omap_none _ _ Hl).
Qed.

(** ** The two servers

    Both answers are made of one outcome of the provider, and leave it the same. *)
Definition json_answer {A} (r : Result RpcError A) : Result ErrorObjectOwned A :=
  match r with Ok a => Ok a | Err e => Err (error_object e) end.

Definition grpc_answer {A B} (conv : A -> option B) (r : Result RpcError A) : option (Result Status B) :=
  match r with Ok a => Ok <$> conv a | Err e => Some (Err (rpc_error_to_status e)) end.

Definition agree {P A B} (conv : A -> option B) (json : Op P (Result ErrorObjectOwned A)) (grpc : Handler P B) : Prop :=
  forall p, exists r p', json p = (json_answer r, p') /\ grpc p = (grpc_answer conv r, p').

(** The same for requests that run code: a panic of the code is one of both. *)
Definition agree_run {P A B} (conv : A -> option B) (json : P -> option (Result ErrorObjectOwned A) * P)
    (grpc : Handler P B) : Prop :=
  forall p, exists r p', json p = (json_answer <$> r, p') /\ grpc p = (r ≫= grpc_answer conv, p').

(** What a converted optional value is. *)
Definition optionally {A B} (conv : A -> option B) (o : option A) : option (option B) :=
  match o with None => Some None | Some a => Some <$> conv a end.

(** The request a client makes of a call. *)
Definition call_request_to_proto (r : CallRequest) : proto.CallRequest :=
  {| proto.cr_from := address_to_proto <$> cr_from r;
     proto.cr_to := Some (address_to_proto (cr_to r));
     proto.cr_gas := cr_gas r;
     proto.cr_gas_price := u256_to_proto <$> cr_gas_price r;
     proto.cr_max_fee_per_gas := u256_to_proto <$> cr_max_fee_per_gas r;
     proto.cr_max_priority_fee_per_gas := u256_to_proto <$> cr_max_priority_fee_per_gas r;
     proto.cr_value := u256_to_proto <$> cr_value r;
     proto.cr_data := cr_data r |}.

(** A request without the field [input], which the message does not have. *)
Record call_in_range (r : CallRequest) : Prop := {
  range_gas_price : from_option is_u256 True (cr_gas_price r);
  range_max_fee : from_option is_u256 True (cr_max_fee_per_gas r);
  range_priority_fee : from_option is_u256 True (cr_max_priority_fee_per_gas r);
  range_value : from_option is_u256 True (cr_value r);
  range_no_input : cr_input r = None }.

Section Agreement.
Context `{Uint} {P : Type} `{StateProvider P AccountSchema} (self : ExecutionServiceImpl P).
Abbreviation between := (ex_meanwhile self).

Lemma optional_u256_roundtrip o : from_option is_u256 True o -> optional_u256 (u256_to_proto <$> o) = Some o.
Proof. destruct o as [z|]; [|done]. intros Hz. change (Some <$> proto_to_u256 (u256_to_proto z) = Some (Some z)). by rewrite u256_roundtrip. Qed.

Lemma call_request_roundtrip r : call_in_range r -> proto_to_call_request (call_request_to_proto r) = Some (Some r).
Proof.
  intros [H1 H2 H3 H4 H5]. destruct r as [from to gas gp mf mp v d i]. cbn in H1, H2, H3, H4, H5. subst i.
  unfold proto_to_call_request, call_request_to_proto; cbn. rewrite address_roundtrip. destruct from as [from|]; cbn;
    rewrite ?address_roundtrip; cbn; by rewrite !optional_u256_roundtrip.
Qed.

Lemma resolve_block_json block p :
  ExecutionServiceImpl.resolve_block (block_id_to_proto <$> block) p = EthRpcServer.resolve_block_number block p.
Proof.
  unfold ExecutionServiceImpl.resolve_block. rewrite block_ids_roundtrip. by destruct block as [[n|[]]|].
Qed.

Lemma agree_ask {A B} (conv : A -> option B) (m : Op P (Result RpcError A)) k :
  (forall a p, k a p = (Ok <$> conv a, p)) -> agree conv (EthRpcServer.rpc m) (ask m k).
Proof.
  intros Hk p. unfold EthRpcServer.rpc, ask. destruct (m p) as [r p'] eqn:Hm. exists r, p'. split; [done|].
  destruct r as [a|e]; cbn; [apply Hk | done].
Qed.

Lemma agree_resolved {A B} (conv : A -> option B) block json (grpc : option Z -> Handler P B) :
  (forall n, agree conv (json n) (grpc n)) ->
  agree conv (let? n := EthRpcServer.rpc (EthRpcServer.resolve_block_number block) in do? EthRpcServer.await between in json n)
    (ask (ExecutionServiceImpl.resolve_block (block_id_to_proto <$> block)) (fun n => ExecutionServiceImpl.yield self (grpc n))).
Proof.
  intros Hn p. unfold ask. rewrite resolve_block_json. unfold try_bind, EthRpcServer.rpc, EthRpcServer.await, mbind, Op_bind.
  destruct (EthRpcServer.resolve_block_number block p) as [[n|e] p']; cbn.
  - destruct (Hn n (between p')) as (r & p'' & Hj & Hg). by exists r, p''.
  - by exists (Err e), p'.
Qed.

Lemma agree_run_resolved {A B} (conv : A -> option B) block (m : option Z -> P -> option (Result RpcError A) * P) k :
  (forall a p, k a p = (Ok <$> conv a, p)) ->
  agree_run conv
    (fun p => match EthRpcServer.rpc (EthRpcServer.resolve_block_number block) p with
              | (Err e, p) => (Some (Err e), p)
              | (Ok n, p) => EthRpcServer.rpc_run (m n (between p))
              end)
    (ask (ExecutionServiceImpl.resolve_block (block_id_to_proto <$> block)) (fun n =>
     ExecutionServiceImpl.yield self (ask_run (m n) k))).
Proof.
  intros Hk p. unfold ask. rewrite resolve_block_json. unfold EthRpcServer.rpc, ExecutionServiceImpl.yield, ask_run.
  destruct (EthRpcServer.resolve_block_number block p) as [[n|e] p']; cbn.
  - destruct (m n (between p')) as [r p''] eqn:Hm. exists r, p''. unfold EthRpcServer.rpc_run; cbn. split; [done|].
    destruct r as [[a|e]|]; cbn; [apply Hk | done | done].
  - by exists (Some (Err e)), p'.
Qed.

Lemma agree_map {A A' B} (f : A -> A') (conv : A' -> option B) (json : Op P (Result ErrorObjectOwned A)) grpc :
  agree (fun a => conv (f a)) json grpc -> agree conv (let? a := json in mret (Ok (f a))) grpc.
Proof.
  intros Ha p. destruct (Ha p) as (r & p' & Hj & Hg). unfold try_bind, mbind, Op_bind. rewrite Hj.
  exists (match r with Ok a => Ok (f a) | Err e => Err e end), p'. by destruct r.
Qed.

(** A handler that decodes its argument. *)
Lemma require_some {A B} (o : option A) msg (k : A -> Handler P B) a p : o = Some a -> require o msg k p = k a p.
Proof. by intros ->. Qed.

Lemma safely_some {A B} (o : option A) (k : A -> Handler P B) a p : o = Some a -> safely o k p = k a p.
Proof. by intros ->. Qed.

Lemma block_to_proto_agrees {B} (f : option proto.Block -> B) b full (p : P) :
  safely (ExecutionServiceImpl.block_to_proto b full) (fun b => respond (f b)) p =
  (Ok <$> (f <$> optionally (fun b => rpc_block_to_proto b full) b), p).
Proof. destruct b as [b|]; cbn; [|done]. by destruct (rpc_block_to_proto b full). Qed.

Lemma agree_ext {A B} (conv : A -> option B) (json : Op P (Result ErrorObjectOwned A)) grpc grpc' :
  (forall p, grpc p = grpc' p) -> agree conv json grpc' -> agree conv json grpc.
Proof. intros He Ha p. rewrite He. apply Ha. Qed.

Lemma agree_optional {A B C} (conv : A -> option B) (f : option B -> C) (m : Op P (Result RpcError (option A))) :
  agree (fun a => f <$> optionally conv a) (EthRpcServer.rpc m)
    (ask m (fun a => safely (match a with None => Some None | Some a => Some <$> conv a end) (fun b => respond (f b)))).
Proof. apply agree_ask. intros [a|] p; cbn; [|done]. by destruct (conv a). Qed.

Lemma block_by_number_agrees block full :
  agree (fun b => proto.mkGetBlockByNumberResponse <$> optionally (fun b => rpc_block_to_proto b full) b)
    (EthRpcServer.get_block_by_number between block full)
    (ExecutionServiceImpl.get_block_by_number self (proto.mkGetBlockByNumberRequest (Some (block_id_to_proto block)) full)).
Proof.
  apply (agree_resolved _ (Some block)). intros [n|]; [|by intros p; exists (Ok None), p].
  apply agree_ask. intros. apply block_to_proto_agrees.
Qed.

Lemma count_by_number_agrees block :
  agree (fun n => Some (proto.mkGetBlockTransactionCountResponse n))
    (EthRpcServer.get_block_transaction_count_by_number between block)
    (ExecutionServiceImpl.get_block_transaction_count_by_number self
       (proto.mkGetBlockTransactionCountByNumberRequest (Some (block_id_to_proto block)))).
Proof.
  apply agree_map. apply (agree_resolved _ (Some block)). intros [n|]; [|by intros p; exists (Ok None), p].
  by apply agree_ask.
Qed.

Lemma storage_agrees address position block : is_u256 position ->
  agree (fun v => Some (proto.mkGetStorageAtResponse (Some (proto.mkH256 v))))
    (EthRpcServer.get_storage_at between address position block)
    (ExecutionServiceImpl.get_storage_at self
       (proto.mkGetStorageAtRequest (Some (address_to_proto address)) (Some (u256_to_proto position)) (block_id_to_proto <$> block))).
Proof.
  intros Hp. eapply agree_ext; [|apply agree_resolved; intros n; by apply agree_ask].
  intros p. unfold ExecutionServiceImpl.get_storage_at. erewrite require_some by apply address_roundtrip.
  by erewrite safely_some by exact (optional_u256_roundtrip (Some position) Hp).
Qed.

Lemma call_agrees request block : call_in_range request ->
  agree_run (fun r => Some (proto.mkCallResponse r)) (EthRpcServer.call between request block)
    (ExecutionServiceImpl.call self (proto.mkExecuteCallRequest (Some (call_request_to_proto request)) (block_id_to_proto <$> block))).
Proof.
  intros Hr p. unfold ExecutionServiceImpl.call. erewrite safely_some by (apply call_request_roundtrip; done).
  by apply (agree_run_resolved (fun r => Some (proto.mkCallResponse r)) block (sp_call request)
             (fun r => respond (proto.mkCallResponse r))).
Qed.

Lemma estimate_agrees request block : call_in_range request ->
  agree_run (fun g => Some (proto.mkEstimateGasResponse g)) (EthRpcServer.estimate_gas between request block)
    (ExecutionServiceImpl.estimate_gas self
       (proto.mkEstimateGasRequest (Some (call_request_to_proto request)) (block_id_to_proto <$> block))).
Proof.
  intros Hr p. unfold ExecutionServiceImpl.estimate_gas. erewrite safely_some by (apply call_request_roundtrip; done).
  by apply (agree_run_resolved (fun g => Some (proto.mkEstimateGasResponse g)) block (sp_estimate_gas request)
             (fun g => respond (proto.mkEstimateGasResponse g))).
Qed.

Lemma balance_answered address block bal p p' :
  EthRpcServer.get_balance between address block p = (Ok bal, p') ->
  es_get_balance self (proto.mkGetBalanceRequest (Some (address_to_proto address)) (block_id_to_proto <$> block)) p =
  (Some (Ok (proto.mkGetBalanceResponse (Some (u256_to_proto bal)))), p').
Proof.
  intros Hj. cbn. unfold ExecutionServiceImpl.get_balance. erewrite require_some by apply address_roundtrip.
  destruct (agree_resolved (fun n => Some (proto.mkGetBalanceResponse (Some (u256_to_proto n)))) block
              (fun n => EthRpcServer.rpc (sp_get_balance address n))
              (fun n => ask (sp_get_balance address n) (fun b => respond (proto.mkGetBalanceResponse (Some (u256_to_proto b)))))
              ltac:(intros n; by apply agree_ask) p) as (r & q & Hj' & Hg).
  change (EthRpcServer.get_balance between address block p = (json_answer r, q)) in Hj'. rewrite Hj in Hj'.
  destruct r as [x|e]; [|done]. injection Hj'; intros; subst. exact Hg.
Qed.

End Agreement.

(** Decodes the argument of a handler. *)
Ltac decode_with H := eapply agree_ext; [intros; apply require_some, H|].

(** ** Log streams *)
Definition log_request (params : LogSubscriptionParams) : proto.SubscribeLogsRequest :=
  proto.mkSubscribeLogsRequest (addresses_to_proto (ls_address params)) (topics_to_proto (ls_topics params)).

Lemma topics_pass_match i ts log :
  Forall (topic_of_size 1) ts ->
  StreamingServiceImpl.topics_pass i (map (fun tf => omap proto_to_b256 (proto.tf_topics tf)) (map topic_to_proto ts)) log =
  SubscriptionManager.topics_match i ts log.
Proof.
  intros Hts. revert i. induction Hts as [|t ts Ht _ IH]; intros i; [done|]. cbn.
  destruct t as [[t|l]|]; cbn; rewrite ?b256_roundtrip, ?hashes_roundtrip.
  - rewrite bool_decide_eq_false_2 by done. rewrite IH. destruct (rl_topics log !! i) as [x|].
    + by rewrite (bool_decide_ext (x ∈ [t]) (Some x = Some t)) by (rewrite list_elem_of_singleton; split; congruence).
    + done.
  - rewrite bool_decide_eq_false_2 by (intros ->; cbn in Ht; lia). rewrite IH. by destruct (rl_topics log !! i) as [x|].
  - apply IH.
Qed.

Lemma addresses_pass_match (a : option FilterAddress) (x : Address) :
  address_of_size 1 a ->
  negb (bool_decide (omap proto_to_address (addresses_to_proto a) = [])) &&
    negb (bool_decide (x ∈ omap proto_to_address (addresses_to_proto a))) =
  negb (from_option (fun f => match f with
                              | SingleAddress addr => bool_decide (x = addr)
                              | MultipleAddresses addrs => bool_decide (x ∈ addrs)
                              end) true a).
Proof.
  destruct a as [[a|l]|]; cbn; rewrite ?address_roundtrip, ?addresses_roundtrip; [..|done]; intros Hl.
  - rewrite bool_decide_eq_false_2 by done. cbn. f_equal. apply bool_decide_ext, list_elem_of_singleton.
  - by rewrite bool_decide_eq_false_2 by (intros ->; cbn in Hl; lia).
Qed.

(** ** What a client reads from a message

    A client reads hashes, addresses and numbers with the conversions of the
    crate; a field that is always set is required. *)
#[local] Arguments proto_to_u256 : simpl never.
#[local] Arguments proto_to_b256 : simpl never.
#[local] Arguments proto_to_address : simpl never.
#[local] Arguments u256_to_proto : simpl never.
#[local] Arguments optionally : simpl never.

Section Client.
Context `{Uint}.

Definition log_of_proto (m : proto.Log) : option RpcLog :=
  address ← proto.log_address m ≫= proto_to_address;
  topics ← mapM proto_to_b256 (proto.log_topics m);
  tx ← optionally proto_to_b256 (proto.log_transaction_hash m);
  block ← optionally proto_to_b256 (proto.log_block_hash m);
  Some (mkRpcLog address topics (proto.log_data m) (proto.log_block_number m) tx (proto.log_transaction_index m) block
          (proto.log_log_index m) (proto.log_removed m)).

Definition receipt_of_proto (m : proto.Receipt) : option RpcReceipt :=
  hash ← proto.re_transaction_hash m ≫= proto_to_b256;
  block ← proto.re_block_hash m ≫= proto_to_b256;
  from ← proto.re_from m ≫= proto_to_address;
  to ← optionally proto_to_address (proto.re_to m);
  price ← proto.re_effective_gas_price m ≫= proto_to_u256;
  contract ← optionally proto_to_address (proto.re_contract_address m);
  logs ← mapM log_of_proto (proto.re_logs m);
  Some (mkRpcReceipt hash (proto.re_transaction_index m) block (proto.re_block_number m) from to
          (proto.re_cumulative_gas_used m) (proto.re_gas_used m) price contract logs (proto.re_logs_bloom m)
          (proto.re_tx_type m) (proto.re_status m) None).

Definition access_item_of_proto (m : proto.AccessListItem) : option (Address * list B256) :=
  address ← proto.al_address m ≫= proto_to_address;
  storage ← mapM proto_to_b256 (proto.al_storage_keys m);
  Some (address, storage).

(** A list without elements is read as none. *)
Definition listed {A} (l : list A) : option (list A) := match l with [] => None | _ => Some l end.

Definition transaction_of_proto (m : proto.Transaction) : option RpcTransaction :=
  hash ← proto.tx_hash m ≫= proto_to_b256;
  block ← optionally proto_to_b256 (proto.tx_block_hash m);
  from ← proto.tx_from m ≫= proto_to_address;
  to ← optionally proto_to_address (proto.tx_to m);
  value ← proto.tx_value m ≫= proto_to_u256;
  price ← optionally proto_to_u256 (proto.tx_gas_price m);
  max_fee ← optionally proto_to_u256 (proto.tx_max_fee_per_gas m);
  priority_fee ← optionally proto_to_u256 (proto.tx_max_priority_fee_per_gas m);
  r ← proto.tx_r m ≫= proto_to_u256;
  s ← proto.tx_s m ≫= proto_to_u256;
  items ← mapM access_item_of_proto (proto.tx_access_list m);
  Some (mkRpcTransaction hash (proto.tx_nonce m) block (proto.tx_block_number m) (proto.tx_transaction_index m) from to value
          (proto.tx_gas m) price max_fee priority_fee (proto.tx_input m) (proto.tx_v m) r s (proto.tx_tx_type m)
          (proto.tx_chain_id m) (listed items)).

Definition transactions_of_proto (m : proto.BlockTransactions) : option BlockTransactions :=
  match m with
  | proto.TxHashes h => TxHashes <$> mapM proto_to_b256 (proto.th_hashes h)
  | proto.FullTransactions t => TxFull <$> mapM transaction_of_proto (proto.txs_transactions t)
  end.

(** The fields that a header has not are those of every block of the index. *)
Definition block_of_proto (m : proto.Block) : option RpcBlock :=
  header ← proto.bl_header m;
  hash ← proto.bh_hash header ≫= proto_to_b256;
  parent ← proto.bh_parent_hash header ≫= proto_to_b256;
  state ← proto.bh_state_root header ≫= proto_to_b256;
  txs_root ← proto.bh_transactions_root header ≫= proto_to_b256;
  receipts ← proto.bh_receipts_root header ≫= proto_to_b256;
  miner ← proto.bh_miner header ≫= proto_to_address;
  base_fee ← optionally proto_to_u256 (proto.bh_base_fee_per_gas header);
  txs ← optionally transactions_of_proto (proto.bl_transactions m);
  Some (mkRpcBlock (proto.bh_number header) hash parent (vreplicate 8 x00) empty_uncles_hash (proto.bh_logs_bloom header)
          txs_root state receipts miner 0 0 (proto.bh_extra_data header) (proto.bl_size m) (proto.bh_gas_limit header)
          (proto.bh_gas_used header) (proto.bh_timestamp header) txs [] base_fee None None).

(** ** What reaches the client *)

(** A receipt, but for the reason of a revert. *)
Definition sent_receipt (r : RpcReceipt) : RpcReceipt :=
  mkRpcReceipt (rc_transaction_hash r) (rc_transaction_index r) (rc_block_hash r) (rc_block_number r) (rc_from r) (rc_to r)
    (rc_cumulative_gas_used r) (rc_gas_used r) (rc_effective_gas_price r) (rc_contract_address r) (rc_logs r)
    (rc_logs_bloom r) (rc_tx_type r) (rc_status r) None.

(** A transaction; an access list without items is none. *)
Definition sent_transaction (t : RpcTransaction) : RpcTransaction :=
  mkRpcTransaction (rt_hash t) (rt_nonce t) (rt_block_hash t) (rt_block_number t) (rt_transaction_index t) (rt_from t)
    (rt_to t) (rt_value t) (rt_gas t) (rt_gas_price t) (rt_max_fee_per_gas t) (rt_max_priority_fee_per_gas t) (rt_input t)
    (rt_v t) (rt_r t) (rt_s t) (rt_tx_type t) (rt_chain_id t) (rt_access_list t ≫= listed).

(** The transactions in the form that was asked for, where the block has it. *)
Definition sent_transactions (full : bool) (txs : BlockTransactions) : BlockTransactions :=
  match txs with
  | TxHashes l => TxHashes l
  | TxFull l => if full then TxFull (map sent_transaction l) else TxHashes (map rt_hash l)
  end.

(** A block, but for the fields of proof of work, uncles and withdrawals. *)
Definition sent_block (full : bool) (b : RpcBlock) : RpcBlock :=
  mkRpcBlock (rb_number b) (rb_hash b) (rb_parent_hash b) (vreplicate 8 x00) empty_uncles_hash (rb_logs_bloom b)
    (rb_transactions_root b) (rb_state_root b) (rb_receipts_root b) (rb_miner b) 0 0 (rb_extra_data b) (rb_size b)
    (rb_gas_limit b) (rb_gas_used b) (rb_timestamp b) (sent_transactions full <$> rb_transactions b) [] (rb_base_fee_per_gas b)
    None None.

(** The numbers of 256 bits are such; the transaction type fits 32 bits. *)
Record receipt_in_range (r : RpcReceipt) : Prop := {
  range_receipt_price : is_u256 (rc_effective_gas_price r);
  range_receipt_type : rc_tx_type r < 2 ^ 32 }.

Record transaction_in_range (t : RpcTransaction) : Prop := {
  range_tx_value : is_u256 (rt_value t);
  range_tx_price : from_option is_u256 True (rt_gas_price t);
  range_tx_max_fee : from_option is_u256 True (rt_max_fee_per_gas t);
  range_tx_priority_fee : from_option is_u256 True (rt_max_priority_fee_per_gas t);
  range_tx_r : is_u256 (rt_r t);
  range_tx_s : is_u256 (rt_s t);
  range_tx_type : rt_tx_type t < 2 ^ 32 }.

Record block_in_range (b : RpcBlock) : Prop := {
  range_base_fee : from_option is_u256 True (rb_base_fee_per_gas b);
  range_txs : match rb_transactions b with Some (TxFull l) => Forall transaction_in_range l | _ => True end }.

Lemma mapM_roundtrip {A B} (f : A -> B) (g : B -> option A) l : (forall a, g (f a) = Some a) -> mapM g (map f l) = Some l.
Proof. intros Hg. induction l as [|a l IH]; [done|]. change (mapM g (map f (a :: l))) with (x ← g (f a); y ← mapM g (map f l); Some (x :: y)). by rewrite Hg, IH. Qed.

Lemma optionally_roundtrip {A B} (f : A -> B) (g : B -> option A) o :
  (forall a, o = Some a -> g (f a) = Some a) -> optionally g (f <$> o) = Some o.
Proof. destruct o as [a|]; [|done]. intros Hg. unfold optionally. cbn. by rewrite Hg. Qed.

Lemma optional_b256 o : optionally proto_to_b256 (b256_to_proto <$> o) = Some o.
Proof. apply optionally_roundtrip. intros a _. apply b256_roundtrip. Qed.

Lemma optional_address o : optionally proto_to_address (address_to_proto <$> o) = Some o.
Proof. apply optionally_roundtrip. intros a _. apply address_roundtrip. Qed.

Lemma optional_number o : from_option is_u256 True o -> optionally proto_to_u256 (u256_to_proto <$> o) = Some o.
Proof. intros Ho. apply optionally_roundtrip. intros a ->. by apply u256_roundtrip. Qed.

Lemma topics_roundtrip l : mapM proto_to_b256 (map b256_to_proto l) = Some l.
Proof. apply mapM_roundtrip, b256_roundtrip. Qed.

Lemma to_u32_fits z : z < 2 ^ 32 -> to_u32 z = Some z.
Proof. intros Hz. unfold to_u32. by destruct (Z.ltb_spec z (2 ^ 32)); [|lia]. Qed.

Lemma log_roundtrip log : log_of_proto (rpc_log_to_proto log) = Some log.
Proof.
  destruct log. unfold log_of_proto, rpc_log_to_proto. cbn -[fmap].
  rewrite address_roundtrip. cbn -[fmap]. by rewrite topics_roundtrip, !optional_b256.
Qed.

Lemma receipt_roundtrip r : receipt_in_range r -> rpc_receipt_to_proto r ≫= receipt_of_proto = Some (sent_receipt r).
Proof.
  intros [Hp Ht]. unfold rpc_receipt_to_proto. rewrite to_u32_fits by done. unfold receipt_of_proto. cbn -[fmap].
  rewrite !b256_roundtrip, address_roundtrip, !optional_address, u256_roundtrip by done. cbn -[fmap].
  by rewrite (mapM_roundtrip rpc_log_to_proto log_of_proto) by apply log_roundtrip.
Qed.

Lemma access_roundtrip (items : option (list (Address * list B256))) :
  mapM access_item_of_proto (from_option (map (fun item => proto.mkAccessListItem (Some (address_to_proto item.1))
                                            (map b256_to_proto item.2))) [] items) = Some (default [] items).
Proof.
  destruct items as [l|]; [|done]. apply mapM_roundtrip. intros [a ks]. unfold access_item_of_proto. cbn.
  by rewrite address_roundtrip, topics_roundtrip.
Qed.

Lemma transaction_roundtrip t : transaction_in_range t ->
  rpc_transaction_to_proto t ≫= transaction_of_proto = Some (sent_transaction t).
Proof.
  intros []. unfold rpc_transaction_to_proto. rewrite to_u32_fits by done. unfold transaction_of_proto. cbn -[fmap].
  rewrite b256_roundtrip, address_roundtrip, optional_address, optional_b256, !u256_roundtrip by done.
  cbn -[fmap]. rewrite !optional_number by done. cbn -[fmap]. rewrite access_roundtrip.
  unfold sent_transaction. cbn. by destruct (rt_access_list t).
Qed.

Lemma full_roundtrip txs : Forall transaction_in_range txs ->
  mapM rpc_transaction_to_proto txs ≫= mapM transaction_of_proto = Some (map sent_transaction txs).
Proof.
  induction 1 as [|t txs Ht _ IH]; [done|]. apply transaction_roundtrip in Ht. cbn.
  destruct (rpc_transaction_to_proto t) as [m|]; [|done]. destruct (mapM rpc_transaction_to_proto txs) as [ms|]; [|done].
  cbn in *. by rewrite Ht, IH.
Qed.

Lemma block_roundtrip b full : block_in_range b ->
  rpc_block_to_proto b full ≫= block_of_proto = Some (sent_block full b).
Proof.
  intros [Hf Ht]. unfold rpc_block_to_proto, sent_block.
  assert (Hb : forall sent read, optionally transactions_of_proto sent = Some read ->
    block_of_proto (proto.mkBlock (Some (rpc_block_to_header b)) (rb_size b) sent) =
    Some (mkRpcBlock (rb_number b) (rb_hash b) (rb_parent_hash b) (vreplicate 8 x00) empty_uncles_hash (rb_logs_bloom b)
      (rb_transactions_root b) (rb_state_root b) (rb_receipts_root b) (rb_miner b) 0 0 (rb_extra_data b) (rb_size b)
      (rb_gas_limit b) (rb_gas_used b) (rb_timestamp b) read [] (rb_base_fee_per_gas b) None None)).
  { intros sent read Hr. unfold block_of_proto. cbn -[fmap vreplicate empty_uncles_hash].
    rewrite !b256_roundtrip, address_roundtrip. cbn -[fmap vreplicate empty_uncles_hash].
    by rewrite optional_number, Hr. }
  destruct (rb_transactions b) as [[hashes|txs]|]; [| |by apply Hb].
  - destruct full; apply Hb; unfold optionally; cbn; by rewrite topics_roundtrip.
  - destruct full; [|apply Hb; unfold optionally; cbn; by rewrite <-(map_map rt_hash b256_to_proto), topics_roundtrip].
    apply full_roundtrip in Ht. destruct (mapM rpc_transaction_to_proto txs) as [ms|]; [|done]. apply Hb.
    unfold optionally. cbn in *. by rewrite Ht.
Qed.

(** A block of the index has no more than what is sent. *)
Lemma stored_block_sent sb txs : sent_block true (to_rpc_block sb (Some (TxFull (map to_rpc_transaction txs)))) =
  to_rpc_block sb (Some (TxFull (map to_rpc_transaction txs))).
Proof. unfold sent_block, to_rpc_block. cbn -[vreplicate empty_uncles_hash]. by rewrite map_map. Qed.

End Client.

(** ** Schemas *)
#[export] Instance map_inj {A B} (f : A -> B) : Inj (=) (=) f -> Inj (=) (=) (map f).
Proof. intros Hf l. induction l as [|a l IH]; intros [|b m] [=]; [done|]. f_equal; [by apply Hf | by apply IH]. Qed.

(** [f] is injective at the elements of [l]. *)
Lemma map_inj_at {A B} (f : A -> B) l m :
  Forall (fun a => forall b, f a = f b -> a = b) l -> map f l = map f m -> l = m.
Proof.
  intros Hl. revert m. induction Hl as [|a l Ha _ IH]; intros [|b m] [=]; [done|]. f_equal; [by apply Ha | by apply IH].
Qed.

Lemma field_inj_at f g :
  field_holds (fun ty => forall ty', type_schema_to_proto ty = type_schema_to_proto ty' -> ty = ty') f ->
  field_schema_to_proto f = field_schema_to_proto g -> f = g.
Proof. destruct f as [n ty], g as [n' ty']; intros Hf [= -> Ht]. f_equal. by apply Hf. Qed.

Lemma variant_inj_at v w :
  variant_holds (fun ty => forall ty', type_schema_to_proto ty = type_schema_to_proto ty' -> ty = ty') v ->
  variant_schema_to_proto v = variant_schema_to_proto w -> v = w.
Proof.
  destruct v as [n fs], w as [n' fs']; intros Hv [= -> Hf]. f_equal. eapply map_inj_at; [|exact Hf].
  eapply Forall_impl; [exact Hv|]. intros f Hh g. by apply field_inj_at.
Qed.

#[export] Instance type_schema_inj : Inj (=) (=) type_schema_to_proto.
Proof.
  intros ty. induction ty as [n|e IH|e IH|es IH|n fs IH|n vs IH| | |r] using TypeSchema_induction;
    intros [] Heq; cbn in Heq; try discriminate Heq; try done; injection Heq; intros; subst; f_equal; auto.
  - by eapply map_inj_at.
  - eapply map_inj_at; [|done]. eapply Forall_impl; [exact IH|]. intros f Hf g. by apply field_inj_at.
  - eapply map_inj_at; [|done]. eapply Forall_impl; [exact IH|]. intros v Hv w. by apply variant_inj_at.
Qed.

#[export] Instance field_schema_inj : Inj (=) (=) field_schema_to_proto.
Proof. intros [n ty] [n' ty'] [= -> Ht]. f_equal. by apply (inj type_schema_to_proto). Qed.

#[export] Instance function_schema_inj : Inj (=) (=) function_schema_to_proto.
Proof.
  intros [n i k ps r y] [n' i' k' ps' r' y'] [= -> -> Hk Hp Hr ->].
  apply (inj (map field_schema_to_proto)) in Hp. apply (inj type_schema_to_proto) in Hr. subst. f_equal.
  by destruct k, k'.
Qed.
