(* ===== verification/GrpcTheorems.v ===== *)
(** * Theorems of the gRPC server

    The gRPC server answers as the JSON-RPC server, streams the logs a subscription
    over it receives, sends messages that can be read back, and shows a module's
    schema without losing a part of it; with the requests it treats otherwise. *)

From S2P Require Import Prelude Core Gas Collections ExecState Runtime Invoker Stf Mempool StorageBackend Server EthTx.
From S2P Require Import EthContext EthGateway Indexing IndexStore IndexStoreFacts Rpc Provider RpcServer Schema.
From S2P Require Import GrpcConv Grpc GrpcFacts.

Open Scope evolve_scope.

(** The same for a transaction that is sent: a panic on the way to the mempool is
    one of both. *)
Definition agree_send {P A B} (conv : A -> option B) (json : P -> option (Result ErrorObjectOwned A * P))
    (grpc : Handler P B) : Prop :=
  forall p, (json p = None /\ (grpc p).1 = None) \/
    exists r p', json p = Some (json_answer r, p') /\ grpc p = (grpc_answer conv r, p').

(** Each method over gRPC and over JSON-RPC, on a request a client writes for
    both. [GetSyncing] does not ask the provider: it answers as the JSON-RPC
    method where that one finds that the provider is not syncing. *)
Record servers_agree `{Uint} {P} `{StateProvider P AccountSchema} (self : ExecutionServiceImpl P) : Prop := {
  agree_chain_id config p : rs_chain_id config = ex_chain_id self ->
    es_get_chain_id self proto.mkGetChainIdRequest p =
    (Some (Ok (proto.mkGetChainIdResponse (EthRpcServer.chain_id config))), p);
  agree_syncing p : EthRpcServer.syncing p = (Ok (NotSyncing false), p) ->
    es_get_syncing self proto.mkGetSyncingRequest p =
    (Some (Ok (proto.mkGetSyncingResponse (Some (rpc_sync_status_to_proto (NotSyncing false))))), p);
  agree_send_raw data : data ≠ [] -> zlen data <= MAX_RAW_TX_SIZE ->
    agree_send (fun hash => Some (proto.mkSendRawTransactionResponse (Some (b256_to_proto hash))))
      (EthRpcServer.send_raw_transaction (ex_delivery self) data)
      (es_send_raw_transaction self (proto.mkSendRawTransactionRequest data));
  agree_block_number :
    agree (fun n => Some (proto.mkGetBlockNumberResponse n)) EthRpcServer.block_number
      (es_get_block_number self proto.mkGetBlockNumberRequest);
  agree_block_by_number block full :
    agree (fun b => proto.mkGetBlockByNumberResponse <$> optionally (fun b => rpc_block_to_proto b full) b)
      (EthRpcServer.get_block_by_number (ex_meanwhile self) block full)
      (es_get_block_by_number self (proto.mkGetBlockByNumberRequest (Some (block_id_to_proto block)) full));
  agree_block_by_hash hash full :
    agree (fun b => proto.mkGetBlockByHashResponse <$> optionally (fun b => rpc_block_to_proto b full) b)
      (EthRpcServer.get_block_by_hash hash full)
      (es_get_block_by_hash self (proto.mkGetBlockByHashRequest (Some (b256_to_proto hash)) full));
  agree_count_by_number block :
    agree (fun n => Some (proto.mkGetBlockTransactionCountResponse n))
      (EthRpcServer.get_block_transaction_count_by_number (ex_meanwhile self) block)
      (es_get_block_transaction_count_by_number self
         (proto.mkGetBlockTransactionCountByNumberRequest (Some (block_id_to_proto block))));
  agree_count_by_hash hash :
    agree (fun n => Some (proto.mkGetBlockTransactionCountResponse n)) (EthRpcServer.get_block_transaction_count_by_hash hash)
      (es_get_block_transaction_count_by_hash self (proto.mkGetBlockTransactionCountByHashRequest (Some (b256_to_proto hash))));
  agree_transaction hash :
    agree (fun t => proto.mkGetTransactionByHashResponse <$> optionally rpc_transaction_to_proto t)
      (EthRpcServer.get_transaction_by_hash hash)
      (es_get_transaction_by_hash self (proto.mkGetTransactionByHashRequest (Some (b256_to_proto hash))));
  agree_receipt hash :
    agree (fun t => proto.mkGetTransactionReceiptResponse <$> optionally rpc_receipt_to_proto t)
      (EthRpcServer.get_transaction_receipt hash)
      (es_get_transaction_receipt self (proto.mkGetTransactionReceiptRequest (Some (b256_to_proto hash))));
  agree_transaction_count address block :
    agree (fun n => Some (proto.mkGetTransactionCountResponse n))
      (EthRpcServer.get_transaction_count (ex_meanwhile self) address block)
      (es_get_transaction_count self
         (proto.mkGetTransactionCountRequest (Some (address_to_proto address)) (block_id_to_proto <$> block)));
  agree_balance address block :
    agree (fun n => Some (proto.mkGetBalanceResponse (Some (u256_to_proto n))))
      (EthRpcServer.get_balance (ex_meanwhile self) address block)
      (es_get_balance self (proto.mkGetBalanceRequest (Some (address_to_proto address)) (block_id_to_proto <$> block)));
  agree_code address block :
    agree (fun c => Some (proto.mkGetCodeResponse c)) (EthRpcServer.get_code (ex_meanwhile self) address block)
      (es_get_code self (proto.mkGetCodeRequest (Some (address_to_proto address)) (block_id_to_proto <$> block)));
  agree_storage address position block : is_u256 position ->
    agree (fun v => Some (proto.mkGetStorageAtResponse (Some (proto.mkH256 v))))
      (EthRpcServer.get_storage_at (ex_meanwhile self) address position block)
      (es_get_storage_at self (proto.mkGetStorageAtRequest (Some (address_to_proto address)) (Some (u256_to_proto position))
                                 (block_id_to_proto <$> block)));
  agree_call request block : call_in_range request ->
    agree_run (fun r => Some (proto.mkCallResponse r)) (EthRpcServer.call (ex_meanwhile self) request block)
      (es_call self (proto.mkExecuteCallRequest (Some (call_request_to_proto request)) (block_id_to_proto <$> block)));
  agree_estimate request block : call_in_range request ->
    agree_run (fun g => Some (proto.mkEstimateGasResponse g)) (EthRpcServer.estimate_gas (ex_meanwhile self) request block)
      (es_estimate_gas self (proto.mkEstimateGasRequest (Some (call_request_to_proto request)) (block_id_to_proto <$> block)));
  agree_logs filter : canonical_filter filter ->
    agree (fun l => Some (proto.mkGetLogsResponse (map rpc_log_to_proto l))) (EthRpcServer.get_logs filter)
      (es_get_logs self (proto.mkGetLogsRequest (Some (log_filter_to_proto filter))));
  agree_modules :
    agree (fun l => Some (proto.mkListModulesResponse l)) EthRpcServer.list_modules
      (es_list_modules self proto.mkListModulesRequest);
  agree_schema id :
    agree (fun s => Some (proto.mkGetModuleSchemaResponse (account_schema_to_proto <$> s))) (EthRpcServer.get_module_schema id)
      (es_get_module_schema self (proto.mkGetModuleSchemaRequest id));
  agree_schemas :
    agree (fun l => Some (proto.mkGetAllSchemasResponse (map account_schema_to_proto l))) EthRpcServer.get_all_schemas
      (es_get_all_schemas self proto.mkGetAllSchemasRequest)
}.

Section Agreement.
Context `{Uint} {P : Type} `{StateProvider P AccountSchema} (self : ExecutionServiceImpl P).

Lemma send_agrees data : data ≠ [] -> zlen data <= MAX_RAW_TX_SIZE ->
  agree_send (fun hash => Some (proto.mkSendRawTransactionResponse (Some (b256_to_proto hash))))
    (EthRpcServer.send_raw_transaction (ex_delivery self) data)
    (es_send_raw_transaction self (proto.mkSendRawTransactionRequest data)).
Proof.
  intros Hne Hsize p. cbn. unfold EthRpcServer.send_raw_transaction, ExecutionServiceImpl.send_raw_transaction.
  cbn [proto.srt_data]. rewrite bool_decide_false by done. destruct (Z.ltb_spec MAX_RAW_TX_SIZE (zlen data)); [lia|].
  destruct (sp_send_raw_transaction (ex_delivery self) data p) as [[r p']|]; [right | by left].
  exists r, p'. by destruct r.
Qed.

(** C14: the gRPC server answers as the JSON-RPC server. On a request that can be
    written for both, each method of [ExecutionService] that reads blocks,
    transactions, receipts, accounts, logs or schemas, runs a call, estimates gas
    or sends a transaction answers the protobuf form of what the JSON-RPC method
    answers, or the status of the error it answers, and leaves the provider in
    the same state, whatever others do to it in between. That a request can be
    written for both means: storage positions and the numbers of a call are of
    256 bits, a call has no [input], a list of addresses or topics in a log
    filter has at least two elements, its list of topic positions at least one,
    and a transaction is not empty and within the size limit of the JSON-RPC
    server. The chain ids agree when both servers are configured with the same
    one, [GetSyncing] agrees as long as the provider reports that it is not
    syncing. *)
Theorem grpc_agrees_with_json_rpc : servers_agree self.
Proof.
  split.
  - intros config p Hid. unfold EthRpcServer.chain_id. by rewrite Hid.
  - done.
  - exact send_agrees.
  - by apply (agree_ask _ sp_block_number).
  - exact (block_by_number_agrees self).
  - intros hash full. decode_with b256_roundtrip. apply agree_ask. intros. apply block_to_proto_agrees.
  - exact (count_by_number_agrees self).
  - intros hash. decode_with b256_roundtrip. apply agree_map. by apply agree_ask.
  - intros hash. decode_with b256_roundtrip. apply agree_optional.
  - intros hash. decode_with b256_roundtrip. apply agree_optional.
  - intros address block. decode_with address_roundtrip. apply agree_resolved. intros n. by apply agree_ask.
  - intros address block. decode_with address_roundtrip. apply agree_resolved. intros n. by apply agree_ask.
  - intros address block. decode_with address_roundtrip. apply agree_resolved. intros n. by apply agree_ask.
  - exact (storage_agrees self).
  - exact (call_agrees self).
  - exact (estimate_agrees self).
  - intros filter Hf. cbn. unfold ExecutionServiceImpl.get_logs. cbn. rewrite log_filter_roundtrip by done. by apply agree_ask.
  - by apply agree_ask.
  - intros id. by apply agree_ask.
  - by apply agree_ask.
Qed.

(** A client of the gRPC server can make it panic: a number of more than 256
    bits in the position of [GetStorageAt], or as the price, the fees or the value
    of [Call] and [EstimateGas], is not refused with a status; the handler panics
    before the provider is asked. *)
Theorem grpc_large_number_panics address u block request p :
  2 ^ 256 <= be_value (proto.u256_data u) ->
  es_get_storage_at self (proto.mkGetStorageAtRequest (Some (address_to_proto address)) (Some u) block) p = (None, p) /\
  (proto.cr_value request = Some u -> proto.cr_to request = None -> proto.cr_from request = None ->
   es_call self (proto.mkExecuteCallRequest (Some request) block) p = (None, p) /\
   es_estimate_gas self (proto.mkEstimateGasRequest (Some request) block) p = (None, p)).
Proof.
  intros Hu. pose proof (proto_to_u256_large u Hu) as Hl. split.
  - cbn. unfold ExecutionServiceImpl.get_storage_at. erewrite require_some by apply address_roundtrip. cbn. by rewrite Hl.
  - intros Hv Ht Hf. assert (proto_to_call_request request = None) as Hr.
    { unfold proto_to_call_request. rewrite Hv, Ht, Hf. cbn -[optional_u256].
      destruct (optional_u256 (proto.cr_gas_price request)), (optional_u256 (proto.cr_max_fee_per_gas request)),
        (optional_u256 (proto.cr_max_priority_fee_per_gas request)); cbn -[proto_to_u256]; try done. by rewrite Hl. }
    cbn. unfold ExecutionServiceImpl.call, ExecutionServiceImpl.estimate_gas. cbn. by rewrite Hr.
Qed.

(** A raw transaction larger than the limit of the JSON-RPC server, which refuses
    it, reaches the provider over gRPC. *)
Theorem grpc_raw_size_unchecked data p :
  MAX_RAW_TX_SIZE < zlen data ->
  EthRpcServer.send_raw_transaction (ex_delivery self) data p =
    Some (Err (error_object (InvalidTransaction [Str "transaction exceeds maximum size of "; Num MAX_RAW_TX_SIZE; Str " bytes"])), p) /\
  es_send_raw_transaction self (proto.mkSendRawTransactionRequest data) p =
    match sp_send_raw_transaction (ex_delivery self) data p with
    | None => (None, p)
    | Some (r, p) => (grpc_answer (fun h => Some (proto.mkSendRawTransactionResponse (Some (b256_to_proto h)))) r, p)
    end.
Proof.
  intros Hd. assert (data <> []) as Hne by (intros ->; by vm_compute in Hd). split.
  - unfold EthRpcServer.send_raw_transaction. rewrite bool_decide_eq_false_2 by done. by rewrite (proj2 (Z.ltb_lt _ _) Hd).
  - cbn. unfold ExecutionServiceImpl.send_raw_transaction; cbn. rewrite bool_decide_eq_false_2 by done.
    by destruct (sp_send_raw_transaction _ _ _) as [[[h|e] p']|].
Qed.

(** A request for the logs of addresses none of which is well-formed, or of a
    malformed block hash, is answered as one without them. *)
Theorem grpc_malformed_filter_widens f p :
  Forall (fun a => proto_to_address a = None) (proto.lf_addresses f) ->
  from_option (fun h => proto_to_b256 h = None) True (proto.lf_block_hash f) ->
  es_get_logs self (proto.mkGetLogsRequest (Some f)) p =
  es_get_logs self (proto.mkGetLogsRequest (Some (proto.mkLogFilter (proto.lf_from_block f) (proto.lf_to_block f) []
                                                    (proto.lf_topics f) None))) p.
Proof.
  intros Ha Hb. cbn. unfold ExecutionServiceImpl.get_logs; cbn. f_equal. f_equal. unfold proto_to_log_filter.
  f_equal; [|by destruct (proto.lf_block_hash f)].
  apply malformed_addresses in Ha. by destruct (proto.lf_addresses f) as [|a [|b l]].
Qed.

End Agreement.

(** A subscription to logs over gRPC receives, in protobuf form, the logs that
    the same subscription over the WebSocket of the JSON-RPC server receives from
    the same channel while its client keeps up, whichever addresses and topics it
    asks for. *)
Theorem grpc_log_stream_matches_json params rx :
  address_of_size 1 (ls_address params) ->
  Forall (topic_of_size 1) (default [] (ls_topics params)) ->
  StreamingServiceImpl.subscribe_logs (log_request params) rx =
  map rpc_log_to_proto (stream_logs (Some params) (map (fun r => Recv r true) rx)).
Proof.
  intros Ha Ht. unfold StreamingServiceImpl.subscribe_logs. induction rx as [|[log|n|] rx IH]; [done| |exact IH|done].
  cbn -[StreamingServiceImpl.topics_pass]. rewrite addresses_pass_match by done.
  assert (StreamingServiceImpl.topics_pass 0 (map (fun tf => omap proto_to_b256 (proto.tf_topics tf))
            (topics_to_proto (ls_topics params))) log =
          from_option (fun f => SubscriptionManager.topics_match 0 f log) true (ls_topics params)) as Htm.
  { destruct (ls_topics params) as [ts|]; [|done]. by apply topics_pass_match. }
  rewrite Htm. destruct (from_option _ true (ls_address params)); cbn; [|exact IH].
  destruct (from_option _ true (ls_topics params)); cbn; [f_equal|]; exact IH.
Qed.

(** C38: what the gRPC server sends of blocks, transactions, receipts and logs
    can be read back. A client that decodes a message with the conversions of
    the crate gets the log itself; the receipt without the reason of a revert;
    the transaction, where an empty access list is none; and the block with its
    transactions in the form it asked for, where the block has it, but without
    the fields of proof of work, uncles and withdrawals. The numbers of 256 bits
    must be such, and the transaction types fit 32 bits, without which the
    conversion panics. Of a block of the index with its transactions nothing is
    missing. *)
Theorem grpc_messages_roundtrip `{Uint} block full tx receipt log :
  block_in_range block -> transaction_in_range tx -> receipt_in_range receipt ->
  rpc_block_to_proto block full ≫= block_of_proto = Some (sent_block full block) /\
  rpc_transaction_to_proto tx ≫= transaction_of_proto = Some (sent_transaction tx) /\
  rpc_receipt_to_proto receipt ≫= receipt_of_proto = Some (sent_receipt receipt) /\
  log_of_proto (rpc_log_to_proto log) = Some log /\
  (forall sb txs, block = to_rpc_block sb (Some (TxFull (map to_rpc_transaction txs))) -> sent_block true block = block).
Proof.
  intros Hb Ht Hr. split_and!; [by apply block_roundtrip | by apply transaction_roundtrip | by apply receipt_roundtrip |
    apply log_roundtrip | intros sb txs ->; apply stored_block_sent].
Qed.

(** The schema of a module that a client receives over gRPC determines the
    module's schema: no two schemas are sent as the same message. *)
Theorem account_schema_to_proto_injective : Inj (=) (=) account_schema_to_proto.
Proof.
  intros [n i init ex qu] [n' i' init' ex' qu'] [= -> -> Hi He Hq].
  apply (inj (fmap function_schema_to_proto)) in Hi. apply (inj (map function_schema_to_proto)) in He, Hq. by subst.
Qed.

(** ** The transport *)
Section Transport.
Context `{Uint} `{Tonic} `{ExecutionMessages} {P : Type} `{StateProvider P AccountSchema}.
Context (server : GrpcServer P) (meanwhile : P -> P) (delivery : Delivery).
Abbreviation limit := (gsc_max_message_size (gsv_config server)).
Abbreviation execution_server := (GrpcServer.serve server meanwhile delivery).1.

Lemma execution_server_limits :
  max_decoding_message_size execution_server = Some limit /\ max_encoding_message_size execution_server = Some limit.
Proof. unfold GrpcServer.serve, GrpcServer.limited; cbn. by destruct (gsc_enable_gzip _). Qed.

Lemma execution_server_inner :
  inner execution_server = mkExecutionServiceImpl (gsc_chain_id (gsv_config server)) meanwhile delivery.
Proof. unfold GrpcServer.serve, GrpcServer.limited; cbn. by destruct (gsc_enable_gzip _). Qed.

(** The bytes of a [GetBalance] request within the configured message size are
    answered with the bytes of the balance that the JSON-RPC method answers on the
    same provider; a body larger than that size is refused, and the provider is not
    asked. *)
Theorem grpc_balance_served address block body bal out p p' :
  prost_encode (proto.mkGetBalanceRequest (Some (address_to_proto address)) (block_id_to_proto <$> block)) = Some body ->
  EthRpcServer.get_balance meanwhile address block p = (Ok bal, p') ->
  prost_encode (proto.mkGetBalanceResponse (Some (u256_to_proto bal))) = Some out ->
  zlen out <= limit ->
  ExecutionServiceServer.call execution_server "/evolve.v1.ExecutionService/GetBalance" body p =
  if zlen body <=? limit then (Some (HttpOk out), p') else (Some HttpFailed, p).
Proof.
  intros Hreq Hjson Hresp Hout. destruct execution_server_limits as [Hdec Henc].
  transitivity (ExecutionServiceServer.GetBalanceSvc execution_server body p); [reflexivity|].
  unfold ExecutionServiceServer.GetBalanceSvc. rewrite execution_server_inner.
  destruct (Z.leb_spec (zlen body) limit).
  - eapply unary_answers.
    + by rewrite Hdec.
    + by apply prost_roundtrip.
    + apply balance_answered, Hjson.
    + exact Hresp.
    + by rewrite Henc.
  - apply unary_limited. by rewrite Hdec.
Qed.

End Transport.

(** ** Instances and witnesses *)
#[local] Obligation Tactic := idtac.

#[export] Program Instance ref_uint : Uint := {|
  from_be_slice b := if (length b <=? 32)%nat then Some (be_value b) else None |}.
Next Obligation. intros b Hb. cbn -[Nat.leb]. by rewrite (proj2 (Nat.leb_le _ _) Hb). Qed.
Next Obligation.
  intros b Hb. cbn -[Nat.leb]. destruct (Nat.leb_spec (length b) 32) as [Hl|]; [|done]. exfalso.
  pose proof (le_value_range (reverse b)) as Hr. unfold be_value in Hb. unfold zlen in Hr. rewrite length_reverse in Hr.
  pose proof (Z.pow_le_mono_r 256 (Z.of_nat (length b)) 32 ltac:(lia) ltac:(lia)). change (2 ^ 256) with (256 ^ 32) in Hb. lia.
Qed.

(** A codec of no value. *)
#[local] Program Definition no_codec {A} : Prost A := {| prost_encode _ := None; prost_decode _ := None |}.
Next Obligation. done. Qed.

Definition encode_balance_request (r : proto.GetBalanceRequest) : option bytes :=
  match r with
  | proto.mkGetBalanceRequest (Some a) None => Some (proto.address_data a)
  | _ => None
  end.

#[local] Program Instance ref_balance_request : Prost proto.GetBalanceRequest := {|
  prost_encode := encode_balance_request;
  prost_decode b := Some (proto.mkGetBalanceRequest (Some (proto.mkAddress b)) None) |}.
Next Obligation. by intros [[[a]|] [bl|]] b [= <-]. Qed.

#[local] Program Instance ref_balance_response : Prost proto.GetBalanceResponse := {|
  prost_encode r := proto.u256_data <$> proto.gb_balance r;
  prost_decode b := Some (proto.mkGetBalanceResponse (Some (proto.mkU256 b))) |}.
Next Obligation. by intros [[[u]|]] b [= <-]. Qed.

#[export] Instance ref_messages : ExecutionMessages.
Proof. constructor; first [exact ref_balance_request | exact ref_balance_response | exact no_codec]. Defined.

Definition ref_unary {T P A B} `{Prost A, Prost B} (s : GeneratedServer T) (h : A -> Handler P B) (body : bytes) (p : P)
    : option HttpResponse * P :=
  if default DEFAULT_MAX_RECV (max_decoding_message_size s) <? zlen body then (Some HttpFailed, p)
  else match prost_decode body with
       | None => (Some HttpFailed, p)
       | Some a =>
           match h a p with
           | (None, p) => (None, p)
           | (Some (Err status), p) => (Some (HttpStatus status), p)
           | (Some (Ok b), p) =>
               match prost_encode b with
               | Some out =>
                   if from_option (fun limit => limit <? zlen out) false (max_encoding_message_size s)
                   then (Some HttpFailed, p) else (Some (HttpOk out), p)
               | None => (Some HttpFailed, p)
               end
           end
       end.

#[export] Program Instance ref_tonic : Tonic := {| unary T P A B _ _ := ref_unary |}.
Next Obligation.
  intros T P A B ?? s h body a p b p' out Hd Ha Hh Hb He. unfold ref_unary. rewrite (proj2 (Z.ltb_ge _ _) Hd), Ha, Hh, Hb.
  destruct (max_encoding_message_size s); cbn in *; [|done]. by rewrite (proj2 (Z.ltb_ge _ _) He).
Qed.
Next Obligation. intros T P A B ?? s h body a p st p' Hd Ha Hh. unfold ref_unary. by rewrite (proj2 (Z.ltb_ge _ _) Hd), Ha, Hh. Qed.
Next Obligation. intros T P A B ?? s h body p Hd. unfold ref_unary. by rewrite (proj2 (Z.ltb_lt _ _) Hd). Qed.

Definition noop_service : ExecutionServiceImpl NoopStateProvider := mkExecutionServiceImpl 1 id Answered.
Definition an_address : Address := vreplicate 20 x11.
Definition a_log : RpcLog := RpcLog_pending an_address [vreplicate 32 x22] [x01].

Lemma grpc_agrees_with_json_rpc_witness : servers_agree noop_service.
Proof. apply grpc_agrees_with_json_rpc. Defined.

Lemma grpc_large_number_panics_witness :
  es_get_storage_at noop_service
    (proto.mkGetStorageAtRequest (Some (address_to_proto an_address)) (Some (proto.mkU256 (x01 :: replicate 32 x00))) None)
    mkNoop = (None, mkNoop).
Proof.
  apply (grpc_large_number_panics noop_service an_address (proto.mkU256 (x01 :: replicate 32 x00)) None
           (proto.mkCallRequest None None None None None None None None) mkNoop).
  by_decision.
Defined.

Lemma grpc_raw_size_unchecked_witness :
  EthRpcServer.send_raw_transaction (P := NoopStateProvider) (Schema := AccountSchema) Answered
    (replicate (Z.to_nat MAX_RAW_TX_SIZE + 1) x00) mkNoop =
  Some (Err (error_object (InvalidTransaction [Str "transaction exceeds maximum size of "; Num MAX_RAW_TX_SIZE; Str " bytes"])), mkNoop).
Proof.
  apply (grpc_raw_size_unchecked noop_service (replicate (Z.to_nat MAX_RAW_TX_SIZE + 1) x00) mkNoop).
  unfold zlen. rewrite length_replicate. unfold MAX_RAW_TX_SIZE. lia.
Defined.

Lemma grpc_malformed_filter_widens_witness :
  es_get_logs noop_service
    (proto.mkGetLogsRequest (Some (proto.mkLogFilter None None [proto.mkAddress [x01]] [] None))) mkNoop =
  es_get_logs noop_service (proto.mkGetLogsRequest (Some (proto.mkLogFilter None None [] [] None))) mkNoop.
Proof.
  apply (grpc_malformed_filter_widens noop_service (proto.mkLogFilter None None [proto.mkAddress [x01]] [] None) mkNoop);
    [by repeat constructor | done].
Defined.

Lemma grpc_log_stream_matches_json_witness :
  StreamingServiceImpl.subscribe_logs
    (log_request (mkLogSubscriptionParams (Some (SingleAddress an_address)) (Some [Some (MultipleTopics [vreplicate 32 x22])])))
    [Received a_log; Lagged 3; Received a_log] = [rpc_log_to_proto a_log; rpc_log_to_proto a_log].
Proof.
  rewrite (grpc_log_stream_matches_json
             (mkLogSubscriptionParams (Some (SingleAddress an_address)) (Some [Some (MultipleTopics [vreplicate 32 x22])]))
             [Received a_log; Lagged 3; Received a_log]); [vm_compute; reflexivity | done | by repeat constructor].
Defined.

(** A block with one transaction, and the receipt of a transaction that reverted. *)
Definition a_hash (b : byte) : B256 := vreplicate 32 b.

Definition a_stored_block : StoredBlock :=
  mkStoredBlock 1 (a_hash x01) (a_hash x02) (a_hash x03) (a_hash x04) (a_hash x05) 1000 21000 30000000 1 an_address [x07].

Definition a_transaction : StoredTransaction :=
  mkStoredTransaction (a_hash x06) 1 (a_hash x01) 0 an_address None 100 21000 7 [x2a] 0 27 1 2 0 (Some 1) None (Some 3).

Definition a_block : RpcBlock := to_rpc_block a_stored_block (Some (TxFull (map to_rpc_transaction [a_transaction]))).

Definition a_receipt : RpcReceipt :=
  mkRpcReceipt (a_hash x06) 0 (a_hash x01) 1 an_address None 21000 21000 7 None [a_log] [] 0 0 (Some "insufficient balance"%string).

Lemma grpc_messages_roundtrip_witness :
  rpc_block_to_proto a_block true ≫= block_of_proto = Some a_block /\
  rpc_receipt_to_proto a_receipt ≫= receipt_of_proto = Some (sent_receipt a_receipt) /\
  sent_receipt a_receipt ≠ a_receipt.
Proof.
  destruct (grpc_messages_roundtrip a_block true (to_rpc_transaction a_transaction) a_receipt a_log) as (Hb & _ & Hr & _ & Hs).
  - split; [by_decision | constructor; [|constructor]]. split; by_decision.
  - split; by_decision.
  - split; by_decision.
  - rewrite (Hs a_stored_block [a_transaction] eq_refl) in Hb. split; [exact Hb|]. split; [exact Hr|].
    intros E. apply (f_equal rc_revert_reason) in E. discriminate E.
Defined.

Lemma grpc_balance_served_witness :
  ExecutionServiceServer.call (GrpcServer.serve (GrpcServer.new GrpcServerConfig_default mkNoop) id Answered).1
    "/evolve.v1.ExecutionService/GetBalance" (vec_to_list an_address) mkNoop = (Some (HttpOk (replicate 32 x00)), mkNoop).
Proof.
  rewrite (grpc_balance_served (GrpcServer.new GrpcServerConfig_default mkNoop) id Answered an_address None
             (vec_to_list an_address) 0 (replicate 32 x00) mkNoop mkNoop); try reflexivity.
  by_decision.
Defined.
