(* ===== verification/Replayer.v ===== *)
(** * The debugger

    Models [crates/testing/debugger/src]: execution traces, breakpoints and file
    formats, then the replay engine and its inspector. *)

From stdpp Require Import sorting pretty.
From S2P Require Import Prelude Core ExecState Runtime StorageBackend Indexing.

Open Scope evolve_scope.

(** ** Execution traces

    Models [trace.rs], [breakpoints.rs] and [format.rs] of
    [crates/testing/debugger/src]: traces of a run and their builder, the state at
    an event, breakpoints, and the file formats. Positions are natural numbers;
    [bincode], [serde_json] and [flate2] are interfaces. *)

(** ** [trace.rs] *)
Definition account_to_bytes (id : AccountId) : vec byte 32 := account_id_bytes id.

Record StateSnapshot := mkStateSnapshot { sn_data : gmap bytes bytes; sn_height : Z; sn_timestamp_ms : Z }.

Record TraceMetadata := mkTraceMetadata {
  tm_total_blocks : Z; tm_total_txs : Z; tm_total_state_changes : Z; tm_total_events_emitted : Z;
  tm_start_timestamp_ms : Z; tm_end_timestamp_ms : Z; tm_serialized_size_bytes : Z }.

Definition TraceMetadata_default : TraceMetadata := mkTraceMetadata 0 0 0 0 0 0 0.

Inductive TraceEvent :=
| BlockStart (height timestamp_ms : Z) (event_index : nat)
| TxStart (tx_id sender recipient : vec byte 32) (event_index : nat)
| StateChange (key : bytes) (old_value new_value : option bytes) (event_index : nat)
| Call (from to : vec byte 32) (function_id : Z) (data_hash : vec byte 32) (event_index : nat)
| CallReturn (success : bool) (data_hash : option (vec byte 32)) (event_index : nat)
| GasCharge (amount remaining : Z) (operation : string) (event_index : nat)
| EventEmitted (name : string) (data_hash : vec byte 32) (event_index : nat)
| TxEnd (tx_id : vec byte 32) (success : bool) (gas_used : Z) (event_index : nat)
| BlockEnd (height : Z) (state_hash : vec byte 32) (event_index : nat)
| Checkpoint (id : Z) (event_index : nat)
| Rollback (to_checkpoint : Z) (event_index : nat)
| ErrorEvent (code : Z) (message : string) (event_index : nat).

Record ExecutionTrace := mkExecutionTrace {
  et_seed : Z; et_commit_hash : option (vec byte 20); et_initial_state : StateSnapshot; et_events : list TraceEvent;
  et_metadata : TraceMetadata }.

Module StateSnapshot.

Definition empty : StateSnapshot := mkStateSnapshot ∅ 0 0.

Definition from_data (data : gmap bytes bytes) (height timestamp_ms : Z) : StateSnapshot :=
  mkStateSnapshot data height timestamp_ms.

Definition len (self : StateSnapshot) : nat := size (sn_data self).
Definition is_empty (self : StateSnapshot) : bool := bool_decide (sn_data self = ∅).
Definition get (self : StateSnapshot) (key : bytes) : option bytes := sn_data self !! key.

(** The keys are sorted; the hasher is fed keys and values in turn. *)
Definition hash `{Sha256} (self : StateSnapshot) : vec byte 32 :=
  let keys := merge_sort bytes_le (elements (dom (sn_data self))) in
  sha256 (mjoin ((fun key => match sn_data self !! key with Some value => key ++ value | None => [] end) <$> keys)).

End StateSnapshot.

Module TraceEvent.

Definition event_index (self : TraceEvent) : nat :=
  match self with
  | BlockStart _ _ event_index => event_index
  | TxStart _ _ _ event_index => event_index
  | StateChange _ _ _ event_index => event_index
  | Call _ _ _ _ event_index => event_index
  | CallReturn _ _ event_index => event_index
  | GasCharge _ _ _ event_index => event_index
  | EventEmitted _ _ event_index => event_index
  | TxEnd _ _ _ event_index => event_index
  | BlockEnd _ _ event_index => event_index
  | Checkpoint _ event_index => event_index
  | Rollback _ event_index => event_index
  | ErrorEvent _ _ event_index => event_index
  end.

Definition is_block_boundary (self : TraceEvent) : bool :=
  match self with BlockStart _ _ _ | BlockEnd _ _ _ => true | _ => false end.

Definition is_tx_boundary (self : TraceEvent) : bool :=
  match self with TxStart _ _ _ _ | TxEnd _ _ _ _ => true | _ => false end.

Definition is_state_change (self : TraceEvent) : bool :=
  match self with StateChange _ _ _ _ => true | _ => false end.

End TraceEvent.

(** The body of the loop of [state_at]. *)
Definition apply_event (state : StateSnapshot) (event : TraceEvent) : StateSnapshot :=
  match event with
  | StateChange key _ (Some value) _ => mkStateSnapshot (<[key := value]> (sn_data state)) (sn_height state) (sn_timestamp_ms state)
  | StateChange key _ None _ => mkStateSnapshot (delete key (sn_data state)) (sn_height state) (sn_timestamp_ms state)
  | _ => state
  end.

Module ExecutionTrace.

Definition new (seed : Z) (initial_state : StateSnapshot) : ExecutionTrace :=
  mkExecutionTrace seed None initial_state [] TraceMetadata_default.

Definition with_commit (seed : Z) (commit_hash : vec byte 20) (initial_state : StateSnapshot) : ExecutionTrace :=
  mkExecutionTrace seed (Some commit_hash) initial_state [] TraceMetadata_default.

Definition push_event (self : ExecutionTrace) (event : TraceEvent) : ExecutionTrace :=
  mkExecutionTrace (et_seed self) (et_commit_hash self) (et_initial_state self) (et_events self ++ [event]) (et_metadata self).

Definition len (self : ExecutionTrace) : nat := length (et_events self).
Definition is_empty (self : ExecutionTrace) : bool := bool_decide (et_events self = []).

Definition events_for_block (self : ExecutionTrace) (height : Z) : list TraceEvent :=
  List.filter (fun e => match e with
                        | BlockStart h _ _ => h =? height
                        | BlockEnd h _ _ => h =? height
                        | _ => false
                        end) (et_events self).

Definition events_for_tx (self : ExecutionTrace) (tx_id : vec byte 32) : list TraceEvent :=
  List.filter (fun e => match e with
                        | TxStart id _ _ _ => bool_decide (id = tx_id)
                        | TxEnd id _ _ _ => bool_decide (id = tx_id)
                        | _ => false
                        end) (et_events self).

Definition state_at (self : ExecutionTrace) (event_index : nat) : StateSnapshot :=
  foldl apply_event (et_initial_state self) (take (event_index + 1) (et_events self)).

Definition final_state (self : ExecutionTrace) : StateSnapshot := state_at self (length (et_events self) - 1).

End ExecutionTrace.

(** ** The builder *)
Record TraceBuilder := mkTraceBuilder { tb_trace : ExecutionTrace; tb_event_counter : nat }.

Module TraceBuilder.

Definition new (seed : Z) (initial_state : StateSnapshot) : TraceBuilder :=
  mkTraceBuilder (ExecutionTrace.new seed initial_state) 0.

(** Every recording takes the next index and pushes its event. *)
Definition record (self : TraceBuilder) (event : nat -> TraceEvent) : TraceBuilder :=
  let event_index := tb_event_counter self in
  mkTraceBuilder (ExecutionTrace.push_event (tb_trace self) (event event_index)) (tb_event_counter self + 1).

Definition count (self : TraceBuilder) (f : TraceMetadata -> TraceMetadata) : TraceBuilder :=
  let t := tb_trace self in
  mkTraceBuilder (mkExecutionTrace (et_seed t) (et_commit_hash t) (et_initial_state t) (et_events t) (f (et_metadata t)))
    (tb_event_counter self).

Definition block_start (self : TraceBuilder) (height timestamp_ms : Z) : TraceBuilder :=
  count (record self (BlockStart height timestamp_ms))
    (fun m => mkTraceMetadata (wrap64 (tm_total_blocks m + 1)) (tm_total_txs m) (tm_total_state_changes m)
                (tm_total_events_emitted m) (tm_start_timestamp_ms m) (tm_end_timestamp_ms m) (tm_serialized_size_bytes m)).

Definition block_end (self : TraceBuilder) (height : Z) (state_hash : vec byte 32) : TraceBuilder :=
  record self (BlockEnd height state_hash).

Definition tx_start (self : TraceBuilder) (tx_id : vec byte 32) (sender recipient : AccountId) : TraceBuilder :=
  count (record self (TxStart tx_id (account_to_bytes sender) (account_to_bytes recipient)))
    (fun m => mkTraceMetadata (tm_total_blocks m) (wrap64 (tm_total_txs m + 1)) (tm_total_state_changes m)
                (tm_total_events_emitted m) (tm_start_timestamp_ms m) (tm_end_timestamp_ms m) (tm_serialized_size_bytes m)).

Definition tx_end (self : TraceBuilder) (tx_id : vec byte 32) (success : bool) (gas_used : Z) : TraceBuilder :=
  record self (TxEnd tx_id success gas_used).

Definition state_change (self : TraceBuilder) (key : bytes) (old_value new_value : option bytes) : TraceBuilder :=
  count (record self (StateChange key old_value new_value))
    (fun m => mkTraceMetadata (tm_total_blocks m) (tm_total_txs m) (wrap64 (tm_total_state_changes m + 1))
                (tm_total_events_emitted m) (tm_start_timestamp_ms m) (tm_end_timestamp_ms m) (tm_serialized_size_bytes m)).

Definition call (self : TraceBuilder) (from to : AccountId) (function_id : Z) (data_hash : vec byte 32) : TraceBuilder :=
  record self (Call (account_to_bytes from) (account_to_bytes to) function_id data_hash).

Definition call_return (self : TraceBuilder) (success : bool) (data_hash : option (vec byte 32)) : TraceBuilder :=
  record self (CallReturn success data_hash).

Definition gas_charge (self : TraceBuilder) (amount remaining : Z) (operation : string) : TraceBuilder :=
  record self (GasCharge amount remaining operation).

Definition event_emitted (self : TraceBuilder) (name : string) (data_hash : vec byte 32) : TraceBuilder :=
  count (record self (EventEmitted name data_hash))
    (fun m => mkTraceMetadata (tm_total_blocks m) (tm_total_txs m) (tm_total_state_changes m)
                (wrap64 (tm_total_events_emitted m + 1)) (tm_start_timestamp_ms m) (tm_end_timestamp_ms m) (tm_serialized_size_bytes m)).

Definition error (self : TraceBuilder) (code : Z) (message : string) : TraceBuilder := record self (ErrorEvent code message).
Definition checkpoint (self : TraceBuilder) (id : Z) : TraceBuilder := record self (Checkpoint id).
Definition rollback (self : TraceBuilder) (to_checkpoint : Z) : TraceBuilder := record self (Rollback to_checkpoint).
Definition finish (self : TraceBuilder) : ExecutionTrace := tb_trace self.

End TraceBuilder.

(** ** [breakpoints.rs] *)
Inductive Breakpoint :=
| OnBlock (height : Z)
| OnTx (tx_id : vec byte 32)
| OnAccount (account : vec byte 32)
| OnStorageKey (key : bytes)
| OnError
| OnGasExhausted
| OnStoragePrefix (prefix : bytes)
| OnEvent (name : string)
| OnEventIndex (idx : nat)
| All (breakpoints : list Breakpoint)
| Any (breakpoints : list Breakpoint)
| Not (breakpoint : Breakpoint).

Module Breakpoint.

Definition on_account (account : AccountId) : Breakpoint := OnAccount (account_to_bytes account).

Fixpoint matches (self : Breakpoint) (event : TraceEvent) (state : StateSnapshot) : bool :=
  match self with
  | OnBlock height => match event with BlockStart h _ _ => h =? height | _ => false end
  | OnTx tx_id => match event with TxStart id _ _ _ => bool_decide (id = tx_id) | _ => false end
  | OnAccount account =>
      match event with
      | TxStart _ sender recipient _ => bool_decide (sender = account) || bool_decide (recipient = account)
      | Call from to _ _ _ => bool_decide (from = account) || bool_decide (to = account)
      | _ => false
      end
  | OnStorageKey key => match event with StateChange k _ _ _ => bool_decide (k = key) | _ => false end
  | OnStoragePrefix prefix => match event with StateChange key _ _ _ => bool_decide (prefix `prefix_of` key) | _ => false end
  | OnError => match event with ErrorEvent _ _ _ => true | _ => false end
  | OnGasExhausted => match event with GasCharge _ 0 _ _ => true | _ => false end
  | OnEvent name => match event with EventEmitted n _ _ => bool_decide (n = name) | _ => false end
  | OnEventIndex idx => bool_decide (TraceEvent.event_index event = idx)
  | All breakpoints => forallb (fun bp => matches bp event state) breakpoints
  | Any breakpoints => existsb (fun bp => matches bp event state) breakpoints
  | Not bp => negb (matches bp event state)
  end.

End Breakpoint.

Inductive BuilderMode := ModeAll | ModeAny.
Record BreakpointBuilder := mkBreakpointBuilder { bb_conditions : list Breakpoint; bb_mode : BuilderMode }.

Module BreakpointBuilder.

Definition all : BreakpointBuilder := mkBreakpointBuilder [] ModeAll.
Definition any : BreakpointBuilder := mkBreakpointBuilder [] ModeAny.

Definition with_ (self : BreakpointBuilder) (bp : Breakpoint) : BreakpointBuilder :=
  mkBreakpointBuilder (bb_conditions self ++ [bp]) (bb_mode self).

Definition on_block (self : BreakpointBuilder) (height : Z) : BreakpointBuilder := with_ self (OnBlock height).
Definition on_tx (self : BreakpointBuilder) (tx_id : vec byte 32) : BreakpointBuilder := with_ self (OnTx tx_id).
Definition on_account (self : BreakpointBuilder) (account : AccountId) : BreakpointBuilder :=
  with_ self (OnAccount (account_to_bytes account)).
Definition on_storage_key (self : BreakpointBuilder) (key : bytes) : BreakpointBuilder := with_ self (OnStorageKey key).
Definition on_error (self : BreakpointBuilder) : BreakpointBuilder := with_ self OnError.

Definition build (self : BreakpointBuilder) : Breakpoint :=
  match bb_conditions self with
  | [bp] => bp
  | conditions => match bb_mode self with ModeAll => All conditions | ModeAny => Any conditions end
  end.

End BreakpointBuilder.

(** ** [format.rs] *)
Inductive TraceFormat := FormatBinary | FormatBinaryCompressed | FormatJson | FormatJsonPretty.

Inductive FormatError :=
| FormatIo
| FormatSerialization
| FormatDeserialization
| InvalidFormat (message : string).

Definition TRACE_MAGIC : bytes := string_bytes "EVTR".
Definition TRACE_VERSION : Z := 1.

Record TraceHeader := mkTraceHeader { hd_magic : bytes; hd_version : Z; hd_format : Z; hd_reserved : bytes }.

Module TraceHeader.

Definition new (compressed : bool) : TraceHeader :=
  mkTraceHeader TRACE_MAGIC TRACE_VERSION (if compressed then 1 else 0) [x00; x00].

Definition is_valid (self : TraceHeader) : bool :=
  bool_decide (hd_magic self = TRACE_MAGIC) && (hd_version self <=? TRACE_VERSION).

Definition is_compressed (self : TraceHeader) : bool := hd_format self =? 1.

(** [bincode] of a header: its bytes. *)
Definition serialize (self : TraceHeader) : bytes :=
  hd_magic self ++ [byte_of_Z (hd_version self); byte_of_Z (hd_format self)] ++ hd_reserved self.

(** [size_of::<TraceHeader>()]. *)
Definition header_size : nat := 8.

Definition deserialize (data : bytes) : option TraceHeader :=
  match data with
  | [m0; m1; m2; m3; version; format; r0; r1] =>
      Some (mkTraceHeader [m0; m1; m2; m3] (Z_of_byte version) (Z_of_byte format) [r0; r1])
  | _ => None
  end.

End TraceHeader.

(** [bincode], [serde_json] and [flate2] on traces. A JSON object is written with
    an opening brace; a map whose keys are not strings is refused. *)
Class TraceCodecs := {
  bincode_serialize : ExecutionTrace -> option bytes;
  bincode_deserialize : bytes -> option ExecutionTrace;
  bincode_roundtrip t b : bincode_serialize t = Some b -> bincode_deserialize b = Some t;
  json_to_vec : bool -> ExecutionTrace -> option bytes;
  json_from_slice : bytes -> option ExecutionTrace;
  json_roundtrip pretty t b : json_to_vec pretty t = Some b -> json_from_slice b = Some t;
  json_object pretty t b : json_to_vec pretty t = Some b -> head b = Some "{"%byte;
  json_map_keys pretty t : sn_data (et_initial_state t) <> ∅ -> json_to_vec pretty t = None;
  gzip : bytes -> bytes;
  gunzip : bytes -> option bytes;
  gzip_roundtrip b : gunzip (gzip b) = Some b
}.

Section Format.
Context `{TraceCodecs}.

Definition serialize_binary (trace : ExecutionTrace) (compress : bool) : Result FormatError bytes :=
  let header := TraceHeader.new compress in
  let output := TraceHeader.serialize header in
  match bincode_serialize trace with
  | None => Err FormatSerialization
  | Some trace_bytes => if compress then Ok (output ++ gzip trace_bytes) else Ok (output ++ trace_bytes)
  end.

Definition serialize_json (trace : ExecutionTrace) (pretty : bool) : Result FormatError bytes :=
  match json_to_vec pretty trace with Some b => Ok b | None => Err FormatSerialization end.

Definition serialize_trace (trace : ExecutionTrace) (format : TraceFormat) : Result FormatError bytes :=
  match format with
  | FormatBinary => serialize_binary trace false
  | FormatBinaryCompressed => serialize_binary trace true
  | FormatJson => serialize_json trace false
  | FormatJsonPretty => serialize_json trace true
  end.

Definition deserialize_binary (data : bytes) : Result FormatError ExecutionTrace :=
  if (length data <? TraceHeader.header_size)%nat then Err (InvalidFormat "Data too short for header")
  else
    match TraceHeader.deserialize (take TraceHeader.header_size data) with
    | None => Err FormatDeserialization
    | Some header =>
        if negb (TraceHeader.is_valid header) then Err (InvalidFormat "Invalid header")
        else
          let trace_data := drop TraceHeader.header_size data in
          if TraceHeader.is_compressed header then
            match gunzip trace_data with
            | None => Err FormatIo
            | Some decompressed =>
                match bincode_deserialize decompressed with Some t => Ok t | None => Err FormatDeserialization end
            end
          else match bincode_deserialize trace_data with Some t => Ok t | None => Err FormatDeserialization end
    end.

Definition deserialize_json (data : bytes) : Result FormatError ExecutionTrace :=
  match json_from_slice data with Some t => Ok t | None => Err FormatDeserialization end.

Definition deserialize_trace (data : bytes) : Result FormatError ExecutionTrace :=
  if (4 <=? length data)%nat && bool_decide (take 4 data = TRACE_MAGIC) then deserialize_binary data
  else if bool_decide (string_bytes "{" `prefix_of` data) then deserialize_json data
  else Err (InvalidFormat "Unknown trace format").

End Format.

Definition format_extension (format : TraceFormat) : string :=
  match format with
  | FormatBinary => ".trace"
  | FormatBinaryCompressed => ".trace.gz"
  | FormatJson | FormatJsonPretty => ".trace.json"
  end.

(** [ends_with]. *)
Definition ends_with (s suffix : string) : bool :=
  bool_decide (String.substring (String.length s - String.length suffix) (String.length suffix) s = suffix).

(** [name] is the file name of the path. *)
Definition detect_format_from_extension (name : string) : option TraceFormat :=
  if ends_with name ".trace.gz" then Some FormatBinaryCompressed
  else if ends_with name ".trace.json" then Some FormatJson
  else if ends_with name ".trace" then Some FormatBinary
  else None.

(** ** The replay engine

    Models [replay.rs] and [inspector.rs] of [crates/testing/debugger/src]: stepping
    through a trace forward and backward, breakpoints and jumps, and queries over
    traces and states. [None] stands for a panic; the loops take fuel. The order in
    which a hash map is iterated is that of [map_to_list]. *)

(** ** [replay.rs] *)
Inductive StepResult := StepOk | HitBreakpoint (bp_idx : nat) | AtBeginning | AtEnd.

Record Replayer := mkReplayer {
  rp_trace : ExecutionTrace; rp_position : nat; rp_current_state : StateSnapshot; rp_breakpoints : list Breakpoint;
  rp_history : list nat; rp_max_history : nat }.

Module Replayer.

Definition new (trace : ExecutionTrace) : Replayer :=
  let initial_state := et_initial_state trace in
  mkReplayer trace 0 initial_state [] [] 1000.

Definition total_events (self : Replayer) : nat := ExecutionTrace.len (rp_trace self).

Definition current_event (self : Replayer) : option TraceEvent :=
  if (rp_position self <? ExecutionTrace.len (rp_trace self))%nat then et_events (rp_trace self) !! rp_position self else None.

Definition push_history (self : Replayer) : Replayer :=
  let history := if (rp_max_history self <=? length (rp_history self))%nat then tail (rp_history self) else rp_history self in
  mkReplayer (rp_trace self) (rp_position self) (rp_current_state self) (rp_breakpoints self)
    (history ++ [rp_position self]) (rp_max_history self).

Definition apply_event_to_state (self : Replayer) (event_idx : nat) : Replayer :=
  match et_events (rp_trace self) !! event_idx with
  | None => self
  | Some event =>
      let state := rp_current_state self in
      let data :=
        match event with
        | StateChange key _ (Some value) _ => <[key := value]> (sn_data state)
        | StateChange key _ None _ => delete key (sn_data state)
        | _ => sn_data state
        end in
      mkReplayer (rp_trace self) (rp_position self) (mkStateSnapshot data (sn_height state) (sn_timestamp_ms state))
        (rp_breakpoints self) (rp_history self) (rp_max_history self)
  end.

(** The first of the breakpoints from the [idx]-th on that matches. *)
Fixpoint first_match (idx : nat) (breakpoints : list Breakpoint) (event : TraceEvent) (state : StateSnapshot) : option nat :=
  match breakpoints with
  | [] => None
  | bp :: breakpoints =>
      if Breakpoint.matches bp event state then Some idx else first_match (S idx) breakpoints event state
  end.

Definition check_breakpoints (self : Replayer) : option nat :=
  event ← current_event self; first_match 0 (rp_breakpoints self) event (rp_current_state self).

(** The position, and the state there. *)
Definition move_to (self : Replayer) (position : nat) (state : StateSnapshot) : Replayer :=
  mkReplayer (rp_trace self) position state (rp_breakpoints self) (rp_history self) (rp_max_history self).

Definition step (self : Replayer) : StepResult * Replayer :=
  if (ExecutionTrace.len (rp_trace self) <=? rp_position self)%nat then (AtEnd, self)
  else
    let self := push_history self in
    let self := apply_event_to_state self (rp_position self) in
    let self := move_to self (rp_position self + 1) (rp_current_state self) in
    match check_breakpoints self with
    | Some bp_idx => (HitBreakpoint bp_idx, self)
    | None => (StepOk, self)
    end.

Definition step_back (self : Replayer) : StepResult * Replayer :=
  if (rp_position self =? 0)%nat then (AtBeginning, self)
  else
    let position := (rp_position self - 1)%nat in
    (StepOk, move_to self position (ExecutionTrace.state_at (rp_trace self) (position - 1))).

Fixpoint run_to_breakpoint (fuel : nat) (self : Replayer) : option (StepResult * Replayer) :=
  match fuel with
  | O => None
  | S fuel =>
      match step self with
      | (StepOk, self) => run_to_breakpoint fuel self
      | result => Some result
      end
  end.

Fixpoint run_back_to_breakpoint (fuel : nat) (self : Replayer) : option (StepResult * Replayer) :=
  match fuel with
  | O => None
  | S fuel =>
      match step_back self with
      | (StepOk, self) =>
          match check_breakpoints self with
          | Some bp_idx => Some (HitBreakpoint bp_idx, self)
          | None => run_back_to_breakpoint fuel self
          end
      | result => Some result
      end
  end.

Definition goto_position (self : Replayer) (target : nat) : StepResult * Replayer :=
  if (ExecutionTrace.len (rp_trace self) <=? target)%nat then (AtEnd, self)
  else
    let self := push_history self in
    let self := move_to self target (ExecutionTrace.state_at (rp_trace self) (target - 1)) in
    match check_breakpoints self with
    | Some bp_idx => (HitBreakpoint bp_idx, self)
    | None => (StepOk, self)
    end.

(** The first index from [idx] on whose event satisfies [f]. *)
Fixpoint find_event (idx : nat) (events : list TraceEvent) (f : TraceEvent -> bool) : option nat :=
  match events with
  | [] => None
  | event :: events => if f event then Some idx else find_event (S idx) events f
  end.

Definition goto_block (self : Replayer) (height : Z) : StepResult * Replayer :=
  match find_event 0 (et_events (rp_trace self)) (fun event => match event with BlockStart h _ _ => h =? height | _ => false end) with
  | Some idx => goto_position self idx
  | None => (StepOk, self)
  end.

Definition goto_tx (self : Replayer) (tx_id : vec byte 32) : StepResult * Replayer :=
  match find_event 0 (et_events (rp_trace self))
          (fun event => match event with TxStart id _ _ _ => bool_decide (id = tx_id) | _ => false end) with
  | Some idx => goto_position self idx
  | None => (StepOk, self)
  end.

Definition reset (self : Replayer) : Replayer :=
  mkReplayer (rp_trace self) 0 (et_initial_state (rp_trace self)) (rp_breakpoints self) [] (rp_max_history self).

Definition add_breakpoint (self : Replayer) (bp : Breakpoint) : nat * Replayer :=
  let self := mkReplayer (rp_trace self) (rp_position self) (rp_current_state self) (rp_breakpoints self ++ [bp])
                (rp_history self) (rp_max_history self) in
  ((length (rp_breakpoints self) - 1)%nat, self).

Definition remove_breakpoint (self : Replayer) (index : nat) : option Breakpoint * Replayer :=
  (rp_breakpoints self !! index,
   mkReplayer (rp_trace self) (rp_position self) (rp_current_state self) (delete index (rp_breakpoints self))
     (rp_history self) (rp_max_history self)).

Definition clear_breakpoints (self : Replayer) : Replayer :=
  mkReplayer (rp_trace self) (rp_position self) (rp_current_state self) [] (rp_history self) (rp_max_history self).

Definition get_storage (self : Replayer) (key : bytes) : option bytes := StateSnapshot.get (rp_current_state self) key.

(** [&events[..=position.min(len.saturating_sub(1))]], which panics when there
    are no events. *)
Definition events_up_to_position (self : Replayer) : option (list TraceEvent) :=
  let last := Nat.min (rp_position self) (ExecutionTrace.len (rp_trace self) - 1) in
  if (last <? ExecutionTrace.len (rp_trace self))%nat then Some (take (last + 1) (et_events (rp_trace self))) else None.

Fixpoint last_block (events : list TraceEvent) : option Z :=
  match events with
  | [] => None
  | BlockStart height _ _ :: _ => Some height
  | _ :: events => last_block events
  end.

Definition current_block (self : Replayer) : option (option Z) := (fun l => last_block (reverse l)) <$> events_up_to_position self.

Fixpoint last_tx (events : list TraceEvent) : option (vec byte 32) :=
  match events with
  | [] => None
  | TxStart tx_id _ _ _ :: _ => Some tx_id
  | TxEnd _ _ _ _ :: _ => None
  | _ :: events => last_tx events
  end.

Definition current_tx (self : Replayer) : option (option (vec byte 32)) :=
  (fun l => last_tx (reverse l)) <$> events_up_to_position self.

End Replayer.

(** ** [inspector.rs] *)
Record StateInspector := mkStateInspector { si_trace : ExecutionTrace; si_position : nat }.
Record KeyChange := mkKeyChange { kc_key : bytes; kc_old_value : option bytes; kc_new_value : option bytes }.
Record StateDiff := mkStateDiff {
  df_from_position : nat; df_to_position : nat; df_added : list KeyChange; df_removed : list KeyChange;
  df_changed : list KeyChange }.

Module StateInspector.

Definition at_start (trace : ExecutionTrace) : StateInspector := mkStateInspector trace 0.
Definition at_end (trace : ExecutionTrace) : StateInspector := mkStateInspector trace (ExecutionTrace.len trace - 1).
Definition state (self : StateInspector) : StateSnapshot := ExecutionTrace.state_at (si_trace self) (si_position self).
Definition event (self : StateInspector) : option TraceEvent := et_events (si_trace self) !! si_position self.
Definition get (self : StateInspector) (key : bytes) : option bytes := StateSnapshot.get (state self) key.
Definition keys (self : StateInspector) : list bytes := (map_to_list (sn_data (state self))).*1.

Definition keys_with_prefix (self : StateInspector) (prefix : bytes) : list bytes :=
  filter (fun k => prefix `prefix_of` k) (keys self).

Definition diff_with (self : StateInspector) (other_position : nat) : StateDiff :=
  let state1 := state self in
  let state2 := ExecutionTrace.state_at (si_trace self) other_position in
  let added := omap (fun '(key, new_value) =>
                       match sn_data state1 !! key with
                       | None => Some (mkKeyChange key None (Some new_value))
                       | Some _ => None
                       end) (map_to_list (sn_data state2)) in
  let changed := omap (fun '(key, new_value) =>
                         match sn_data state1 !! key with
                         | Some old_value =>
                             if bool_decide (old_value <> new_value)
                             then Some (mkKeyChange key (Some old_value) (Some new_value)) else None
                         | None => None
                         end) (map_to_list (sn_data state2)) in
  let removed := omap (fun '(key, old_value) =>
                         match sn_data state2 !! key with
                         | None => Some (mkKeyChange key (Some old_value) None)
                         | Some _ => None
                         end) (map_to_list (sn_data state1)) in
  mkStateDiff (si_position self) other_position added removed changed.

End StateInspector.

Module StateDiff.
Definition is_empty (self : StateDiff) : bool :=
  bool_decide (df_added self = []) && bool_decide (df_removed self = []) && bool_decide (df_changed self = []).
Definition total_changes (self : StateDiff) : nat :=
  length (df_added self) + length (df_removed self) + length (df_changed self).
End StateDiff.

(** The filters are the closures of the source. *)
Record TraceQuery := mkTraceQuery { tq_trace : ExecutionTrace; tq_filters : list (TraceEvent -> bool) }.

Module TraceQuery.

Definition new (trace : ExecutionTrace) : TraceQuery := mkTraceQuery trace [].
Definition push (self : TraceQuery) (f : TraceEvent -> bool) : TraceQuery := mkTraceQuery (tq_trace self) (tq_filters self ++ [f]).
Definition blocks (self : TraceQuery) : TraceQuery := push self TraceEvent.is_block_boundary.
Definition transactions (self : TraceQuery) : TraceQuery := push self TraceEvent.is_tx_boundary.
Definition state_changes (self : TraceQuery) : TraceQuery := push self TraceEvent.is_state_change.

Definition involving (self : TraceQuery) (account : AccountId) : TraceQuery :=
  let account_bytes := account_to_bytes account in
  push self (fun e => match e with
                      | TxStart _ sender recipient _ =>
                          bool_decide (sender = account_bytes) || bool_decide (recipient = account_bytes)
                      | Call from to _ _ _ => bool_decide (from = account_bytes) || bool_decide (to = account_bytes)
                      | _ => false
                      end).

Definition key_prefix (self : TraceQuery) (prefix : bytes) : TraceQuery :=
  push self (fun e => match e with StateChange key _ _ _ => bool_decide (prefix `prefix_of` key) | _ => false end).

Definition errors (self : TraceQuery) : TraceQuery :=
  push self (fun e => match e with ErrorEvent _ _ _ => true | _ => false end).

Definition execute (self : TraceQuery) : list (nat * TraceEvent) :=
  List.filter (fun p => forallb (fun f => f p.2) (tq_filters self)) (imap (fun i e => (i, e)) (et_events (tq_trace self))).

Definition count (self : TraceQuery) : nat := length (execute self).

End TraceQuery.
