(* ===== verification/ReplayTheorems.v ===== *)
(** * The debugger, verified

    What replaying a trace shows: facts of the replay engine, then the theorems. *)

From S2P Require Import Prelude Core ExecState Runtime StorageBackend Indexing Replayer.

Open Scope evolve_scope.

(** ** Facts of the replay engine

    The state at a position of a trace, what the movements of a replayer keep, and
    where its runs stop. *)

(** The state before the [n]-th event. *)
Definition state_before (t : ExecutionTrace) (n : nat) : StateSnapshot :=
  foldl apply_event (et_initial_state t) (take n (et_events t)).

(** The breakpoint that stops a replayer at an event. *)
Definition stops (bps : list Breakpoint) (event : TraceEvent) : option nat :=
  Replayer.first_match 0 bps event StateSnapshot.empty.

(** A replayer shows the state of its position. At the first position it may show
    the state after the first event instead. *)
Definition shows (t : ExecutionTrace) (r : Replayer) : Prop :=
  rp_trace r = t /\ (rp_position r <= ExecutionTrace.len t)%nat /\
  (rp_current_state r = state_before t (rp_position r) \/
   rp_position r = 0%nat /\ rp_current_state r = ExecutionTrace.state_at t 0).

Lemma state_before_S t n e : et_events t !! n = Some e -> state_before t (S n) = apply_event (state_before t n) e.
Proof. intros He. unfold state_before. by rewrite (take_S_r _ _ _ He), foldl_app. Qed.

Lemma state_at_before t n : ExecutionTrace.state_at t n = state_before t (S n).
Proof. unfold ExecutionTrace.state_at. by rewrite Nat.add_1_r. Qed.

Lemma state_at_pred t n : (0 < n)%nat -> ExecutionTrace.state_at t (n - 1) = state_before t n.
Proof. intros Hn. rewrite state_at_before. f_equal. lia. Qed.

(** Where the first event is no state change, the exception is none. *)
Lemma state_before_1 t :
  from_option (fun e => TraceEvent.is_state_change e = false) True (head (et_events t)) ->
  ExecutionTrace.state_at t 0 = state_before t 0.
Proof.
  rewrite state_at_before. unfold state_before. destruct (et_events t) as [|e l]; [done|]. cbn. rewrite take_0. cbn.
  by destruct e.
Qed.

(** ** Matching does not look at the state *)
Lemma matches_state bp e s s' : Breakpoint.matches bp e s = Breakpoint.matches bp e s'.
Proof.
  revert bp. fix IH 1. intros []; cbn; try done.
  - induction breakpoints as [|bp l IHl]; cbn; [done|]. by rewrite (IH bp), IHl.
  - induction breakpoints as [|bp l IHl]; cbn; [done|]. by rewrite (IH bp), IHl.
  - by rewrite (IH breakpoint).
Qed.

Lemma first_match_state i bps e s s' : Replayer.first_match i bps e s = Replayer.first_match i bps e s'.
Proof. revert i. induction bps as [|bp bps IH]; intros i; cbn; [done|]. by rewrite (matches_state bp e s s'), IH. Qed.

Lemma check_breakpoints_stops r :
  Replayer.check_breakpoints r = et_events (rp_trace r) !! rp_position r ≫= stops (rp_breakpoints r).
Proof.
  unfold Replayer.check_breakpoints, Replayer.current_event.
  destruct (Nat.ltb_spec (rp_position r) (ExecutionTrace.len (rp_trace r))) as [Hl|Hl].
  - destruct (et_events (rp_trace r) !! rp_position r) as [e|]; cbn; [apply first_match_state | done].
  - by rewrite lookup_ge_None_2.
Qed.

(** ** Movements *)
Lemma step_end r : (ExecutionTrace.len (rp_trace r) <= rp_position r)%nat -> Replayer.step r = (AtEnd, r).
Proof. intros Hl. unfold Replayer.step. by rewrite (proj2 (Nat.leb_le _ _) Hl). Qed.

(** The replayer applies an event as [state_at] does. *)
Lemma apply_event_to_state_spec r i e : et_events (rp_trace r) !! i = Some e ->
  Replayer.apply_event_to_state r i =
  mkReplayer (rp_trace r) (rp_position r) (apply_event (rp_current_state r) e) (rp_breakpoints r) (rp_history r) (rp_max_history r).
Proof.
  intros He. unfold Replayer.apply_event_to_state. rewrite He. cbv zeta. f_equal.
  destruct (rp_current_state r) as [d h ts]. by destruct e as [| |key old [v|] j| | | | | | | | |].
Qed.

Lemma step_event r e :
  et_events (rp_trace r) !! rp_position r = Some e ->
  exists r', rp_trace r' = rp_trace r /\ rp_position r' = S (rp_position r) /\ rp_breakpoints r' = rp_breakpoints r /\
    rp_current_state r' = apply_event (rp_current_state r) e /\
    Replayer.step r =
      (from_option HitBreakpoint StepOk (et_events (rp_trace r) !! S (rp_position r) ≫= stops (rp_breakpoints r)), r').
Proof.
  intros He. pose proof (lookup_lt_Some _ _ _ He) as Hl. unfold Replayer.step, ExecutionTrace.len.
  rewrite (proj2 (Nat.leb_gt _ _) Hl). rewrite (apply_event_to_state_spec _ _ e) by exact He. cbn.
  eexists. split_and!; [..|].
  5: { rewrite check_breakpoints_stops. cbn. rewrite Nat.add_1_r. by destruct (_ ≫= _). }
  all: cbn; done || lia.
Qed.

Lemma apply_event_idem s e : apply_event (apply_event s e) e = apply_event s e.
Proof.
  destruct e as [| |key old [v|] i| | | | | | | | |]; try done; cbn; f_equal; [apply insert_insert_eq | apply delete_delete_eq].
Qed.

Lemma shows_step t r : shows t r -> shows t (Replayer.step r).2.
Proof.
  intros (Ht & Hp & Hs). destruct (decide (ExecutionTrace.len (rp_trace r) <= rp_position r)%nat) as [Hl|Hl].
  { by rewrite step_end. }
  destruct (lookup_lt_is_Some_2 (et_events (rp_trace r)) (rp_position r)) as [e He]; [unfold ExecutionTrace.len in Hl; lia|].
  destruct (step_event r e He) as (r' & Ht' & Hp' & _ & Hs' & ->). cbn. rewrite Ht in *.
  split; [done|]. split; [unfold ExecutionTrace.len in *; lia|]. left. rewrite Hs', Hp', (state_before_S _ _ _ He).
  destruct Hs as [->|[Hz ->]]; [done|]. rewrite Hz in *. rewrite state_at_before, (state_before_S _ _ _ He).
  apply apply_event_idem.
Qed.

(** To a position, with the state there recomputed. *)
Lemma shows_move t r n :
  rp_trace r = t -> (n <= ExecutionTrace.len t)%nat -> shows t (Replayer.move_to r n (ExecutionTrace.state_at t (n - 1))).
Proof.
  intros Ht Hn. split; [done|]. split; [done|]. cbn. destruct n as [|n]; [by right|]. left. apply state_at_pred. lia.
Qed.

Lemma shows_step_back t r : shows t r -> shows t (Replayer.step_back r).2.
Proof.
  intros Hr. unfold Replayer.step_back. destruct (Nat.eqb_spec (rp_position r) 0); [done|]. cbn.
  destruct Hr as (Ht & Hp & _). rewrite Ht. apply shows_move; [done | lia].
Qed.

Lemma shows_goto t r n : shows t r -> shows t (Replayer.goto_position r n).2.
Proof.
  intros Hr. unfold Replayer.goto_position. destruct (Nat.leb_spec (ExecutionTrace.len (rp_trace r)) n); [done|].
  destruct Hr as (Ht & Hp & _). rewrite Ht in *.
  assert (shows t (Replayer.move_to (Replayer.push_history r) n (ExecutionTrace.state_at t (n - 1)))) as Hm
    by (apply shows_move; [done | lia]).
  cbn [Replayer.push_history rp_trace]. rewrite Ht. by destruct (Replayer.check_breakpoints _).
Qed.

Lemma shows_find t r f : shows t r ->
  shows t match Replayer.find_event 0 (et_events (rp_trace r)) f with
          | Some idx => Replayer.goto_position r idx
          | None => (StepOk, r)
          end.2.
Proof. intros Hr. destruct (Replayer.find_event _ _ _); [by apply shows_goto | done]. Qed.

Lemma shows_run fuel t r x r' : shows t r -> Replayer.run_to_breakpoint fuel r = Some (x, r') -> shows t r'.
Proof.
  revert r. induction fuel as [|fuel IH]; intros r Hr; [done|]. cbn. pose proof (shows_step t r Hr) as Hs.
  destruct (Replayer.step r) as [[] q]; cbn in Hs; [by apply IH|..]; by intros [= <- <-].
Qed.

Lemma shows_run_back fuel t r x r' : shows t r -> Replayer.run_back_to_breakpoint fuel r = Some (x, r') -> shows t r'.
Proof.
  revert r. induction fuel as [|fuel IH]; intros r Hr; [done|]. cbn. pose proof (shows_step_back t r Hr) as Hs.
  destruct (Replayer.step_back r) as [[] q]; cbn in Hs; [|by intros [= <- <-]..].
  destruct (Replayer.check_breakpoints q); [by intros [= <- <-] | by apply IH].
Qed.

(** ** Runs *)

(** The run from [p] on: the first position after it that stops, or the end. *)
Lemma run_stops fuel r :
  (rp_position r <= ExecutionTrace.len (rp_trace r))%nat ->
  (ExecutionTrace.len (rp_trace r) - rp_position r < fuel)%nat ->
  exists x r', Replayer.run_to_breakpoint fuel r = Some (x, r') /\ rp_trace r' = rp_trace r /\
    (forall k e, (rp_position r < k < rp_position r')%nat -> et_events (rp_trace r) !! k = Some e ->
                 stops (rp_breakpoints r) e = None) /\
    match x with
    | HitBreakpoint i => (rp_position r < rp_position r')%nat /\
                         et_events (rp_trace r) !! rp_position r' ≫= stops (rp_breakpoints r) = Some i
    | AtEnd => rp_position r' = ExecutionTrace.len (rp_trace r)
    | _ => False
    end.
Proof.
  revert r. induction fuel as [|fuel IH]; intros r Hp Hf; [lia|]. cbn [Replayer.run_to_breakpoint].
  destruct (decide (ExecutionTrace.len (rp_trace r) <= rp_position r)%nat) as [Hl|Hl].
  { rewrite step_end by done. exists AtEnd, r. split_and!; try done; [intros; lia | lia]. }
  destruct (lookup_lt_is_Some_2 (et_events (rp_trace r)) (rp_position r)) as [e He]; [unfold ExecutionTrace.len in Hl; lia|].
  destruct (step_event r e He) as (q & Ht & Hq & Hb & _ & ->).
  destruct (et_events (rp_trace r) !! S (rp_position r) ≫= stops (rp_breakpoints r)) as [i|] eqn:Hs; cbn [from_option].
  { exists (HitBreakpoint i), q. rewrite Hq. split_and!; try done; [intros; lia | lia]. }
  destruct (IH q) as (x & r' & Hrun & Ht' & Hno & Hx); [rewrite Ht, Hq; lia.. |].
  rewrite Hq, Ht, Hb in *. exists x, r'. split_and!; [done|done| |destruct x; try done; split; [lia | apply Hx]].
  intros k e' Hk Hek. destruct (decide (k = S (rp_position r))) as [->|]; [by rewrite Hek in Hs | apply (Hno k); [lia|done]].
Qed.

(** ** Theorems of the debugger

    A replayer shows the state of its position whatever commands it is given, its
    runs end where they should, traces survive their file formats, and differences
    of states are exact; with the cases where a trace is not shown as recorded. *)

(** ** Commands *)
Inductive Command :=
| CStep | CStepBack | CRun | CRunBack | CGoto (n : nat) | CGotoBlock (h : Z) | CGotoTx (id : vec byte 32) | CReset
| CAdd (bp : Breakpoint) | CRemove (i : nat) | CClear.

(** The fuel is one more than the events. *)
Definition run_command (r : Replayer) (c : Command) : Replayer :=
  match c with
  | CStep => (Replayer.step r).2
  | CStepBack => (Replayer.step_back r).2
  | CRun => from_option snd r (Replayer.run_to_breakpoint (S (Replayer.total_events r)) r)
  | CRunBack => from_option snd r (Replayer.run_back_to_breakpoint (S (Replayer.total_events r)) r)
  | CGoto n => (Replayer.goto_position r n).2
  | CGotoBlock h => (Replayer.goto_block r h).2
  | CGotoTx id => (Replayer.goto_tx r id).2
  | CReset => Replayer.reset r
  | CAdd bp => (Replayer.add_breakpoint r bp).2
  | CRemove i => (Replayer.remove_breakpoint r i).2
  | CClear => Replayer.clear_breakpoints r
  end.

Definition debug (t : ExecutionTrace) (cs : list Command) : Replayer := foldl run_command (Replayer.new t) cs.

Lemma shows_command t r c : shows t r -> shows t (run_command r c).
Proof.
  intros Hr. destruct c; cbn [run_command]; try exact Hr.
  - by apply shows_step.
  - by apply shows_step_back.
  - destruct (Replayer.run_to_breakpoint _ r) as [[x r']|] eqn:Hq; cbn; [by eapply shows_run | done].
  - destruct (Replayer.run_back_to_breakpoint _ r) as [[x r']|] eqn:Hq; cbn; [by eapply shows_run_back | done].
  - by apply shows_goto.
  - by apply shows_find.
  - by apply shows_find.
  - destruct Hr as (Ht & _). unfold shows, Replayer.reset; cbn. rewrite Ht. split_and!; [done | lia | by left].
Qed.

Lemma shows_debug t cs : shows t (debug t cs).
Proof.
  unfold debug. assert (shows t (Replayer.new t)) as Hn by (split_and!; [done | cbn; lia | by left]).
  revert Hn. generalize (Replayer.new t). induction cs as [|c cs IH]; intros r Hr; cbn; [done|]. by apply IH, shows_command.
Qed.

(** C27: whatever commands a replayer is given - steps forward and back, runs to
    breakpoints in both directions, jumps to positions, blocks and transactions,
    resets, changes of breakpoints - it shows the state that the events before its
    position make of the initial state; only where the trace begins with a state
    change and the replayer came back to the beginning it shows the state after
    that first event. *)
Theorem replay_shows_state t cs :
  let r := debug t cs in
  rp_trace r = t /\ (rp_position r <= ExecutionTrace.len t)%nat /\
  (rp_current_state r = state_before t (rp_position r) \/
   rp_position r = 0%nat /\ from_option TraceEvent.is_state_change false (head (et_events t)) = true /\
   rp_current_state r = ExecutionTrace.state_at t 0).
Proof.
  destruct (shows_debug t cs) as (Ht & Hp & Hs). split_and!; [done..|]. destruct Hs as [Hs|[Hz Hs]]; [by left|].
  destruct (from_option TraceEvent.is_state_change false (head (et_events t))) eqn:Hf; [by right|].
  left. rewrite Hz, Hs. apply state_before_1. by destruct (head (et_events t)).
Qed.

(** Stepping forward over a state change that is the first event of a trace and
    back again does not restore the state: the replayer is at the beginning and
    still shows the new value, which was not there. *)
Theorem step_back_keeps_first_change t key old value i events :
  et_events t = StateChange key old (Some value) i :: events ->
  let r := debug t [CStep; CStepBack] in
  rp_position r = 0%nat /\ Replayer.get_storage r key = Some value /\
  Replayer.get_storage (debug t []) key = sn_data (et_initial_state t) !! key.
Proof.
  intros He r. assert (rp_position r = 0%nat /\ rp_current_state r = ExecutionTrace.state_at t 0) as [Hz Hs].
  { unfold r, debug; cbn [foldl run_command].
    destruct (step_event (Replayer.new t) (StateChange key old (Some value) i)) as (q & Ht & Hq & _ & _ & ->); [by cbn; rewrite He|].
    cbn [snd]. unfold Replayer.step_back. rewrite Hq, Ht. done. }
  split_and!; [done| |done]. unfold Replayer.get_storage. rewrite Hs, state_at_before. unfold state_before. rewrite He. cbn.
  apply lookup_insert_eq.
Qed.

(** A run to a breakpoint ends, within one step per event: at the first event
    after the position that a breakpoint matches, with that breakpoint's index, or
    at the end of the trace when none does. *)
Theorem run_finds_breakpoint t cs :
  let r := debug t cs in
  exists x r', Replayer.run_to_breakpoint (S (ExecutionTrace.len t)) r = Some (x, r') /\
    (forall k e, (rp_position r < k < rp_position r')%nat -> et_events t !! k = Some e -> stops (rp_breakpoints r) e = None) /\
    match x with
    | HitBreakpoint i => (rp_position r < rp_position r')%nat /\
                         et_events t !! rp_position r' ≫= stops (rp_breakpoints r) = Some i
    | AtEnd => rp_position r' = ExecutionTrace.len t
    | _ => False
    end.
Proof.
  intros r. destruct (shows_debug t cs) as (Ht & Hp & _). fold r in Ht, Hp.
  destruct (run_stops (S (ExecutionTrace.len t)) r) as (x & r' & Hrun & _ & Hno & Hx); [rewrite Ht; lia..|].
  rewrite Ht in *. by exists x, r'.
Qed.

(** ** File formats *)
Section Formats.
Context `{TraceCodecs}.

Lemma deserialize_header compress rest :
  deserialize_trace (TraceHeader.serialize (TraceHeader.new compress) ++ rest) =
  match (if compress then gunzip rest else Some rest) with
  | None => Err FormatIo
  | Some data => match bincode_deserialize data with Some t => Ok t | None => Err FormatDeserialization end
  end.
Proof. by destruct compress. Qed.

Lemma binary_roundtrip t compress b : serialize_binary t compress = Ok b -> deserialize_trace b = Ok t.
Proof.
  unfold serialize_binary. destruct (bincode_serialize t) as [tb|] eqn:Ht; [|done]. apply bincode_roundtrip in Ht.
  destruct compress; intros <-%(inj Ok); refine (eq_trans (deserialize_header _ _) _); cbn; [rewrite gzip_roundtrip|]; by rewrite Ht.
Qed.

Lemma json_trace_roundtrip t pretty b : serialize_json t pretty = Ok b -> deserialize_trace b = Ok t.
Proof.
  unfold serialize_json. destruct (json_to_vec pretty t) as [j|] eqn:Hj; [|done]. intros [= ->].
  pose proof (json_object _ _ _ Hj) as Ho. apply json_roundtrip in Hj. destruct b as [|c b]; [done|]. cbn in Ho.
  injection Ho as ->. unfold deserialize_trace, deserialize_json. rewrite (bool_decide_eq_false_2 (take 4 _ = _)) by done.
  rewrite andb_false_r, bool_decide_eq_true_2 by (by exists b). by rewrite Hj.
Qed.

(** A trace written in any of the formats is read back as it was: the reader
    finds the format from the first bytes. *)
Theorem trace_roundtrip t format b : serialize_trace t format = Ok b -> deserialize_trace b = Ok t.
Proof. destruct format; [apply binary_roundtrip.. | apply json_trace_roundtrip | apply json_trace_roundtrip]. Qed.

(** A trace with a non-empty initial state cannot be written as JSON. *)
Theorem json_needs_empty_state t format :
  sn_data (et_initial_state t) <> ∅ -> format = FormatJson \/ format = FormatJsonPretty ->
  serialize_trace t format = Err FormatSerialization.
Proof. intros Hd [->| ->]; cbn; unfold serialize_json; by rewrite json_map_keys. Qed.

End Formats.

(** ** Differences of states *)
Lemma omap_nil {A B} (f : A -> option B) l : omap f l = [] <-> forall a, a ∈ l -> f a = None.
Proof.
  split.
  - intros Hn a Ha. destruct (f a) as [b|] eqn:Hf; [|done]. exfalso. apply (not_elem_of_nil b). rewrite <-Hn.
    apply list_elem_of_omap. by exists a.
  - induction l as [|a l IH]; intros Hl; cbn; [done|]. rewrite (Hl a) by set_solver. apply IH. set_solver.
Qed.

Lemma diff_empty (self : StateInspector) n :
  StateDiff.is_empty (StateInspector.diff_with self n) = true <->
  sn_data (StateInspector.state self) = sn_data (ExecutionTrace.state_at (si_trace self) n).
Proof.
  unfold StateDiff.is_empty, StateInspector.diff_with; cbn [df_added df_removed df_changed].
  set (s1 := sn_data (StateInspector.state self)). set (s2 := sn_data (ExecutionTrace.state_at (si_trace self) n)).
  rewrite !andb_true_iff, !bool_decide_eq_true, !omap_nil. split.
  - intros [[Ha Hr] Hc]. apply map_eq. intros k. destruct (s2 !! k) as [v|] eqn:H2.
    + apply elem_of_map_to_list in H2. specialize (Ha _ H2). specialize (Hc _ H2). cbn in Ha, Hc.
      destruct (s1 !! k) as [w|]; [|done]. by destruct (bool_decide_reflect (w <> v)); [|f_equal; apply dec_stable].
    + destruct (s1 !! k) as [w|] eqn:H1; [|done]. apply elem_of_map_to_list in H1. specialize (Hr _ H1). cbn in Hr.
      by rewrite H2 in Hr.
  - intros <-. split_and!; intros [k v] Hk; apply elem_of_map_to_list in Hk; rewrite Hk; [done..|].
    by rewrite bool_decide_eq_false_2 by naive_solver.
Qed.

(** The difference the inspector reports between two positions is exact: a key
    is added, removed or changed as its values there say, with those values, and
    the difference is empty exactly when the states hold the same data. *)
Theorem diff_exact (self : StateInspector) n c :
  let d := StateInspector.diff_with self n in
  let s1 := sn_data (StateInspector.state self) in
  let s2 := sn_data (ExecutionTrace.state_at (si_trace self) n) in
  (c ∈ df_added d <-> kc_old_value c = None /\ is_Some (kc_new_value c) /\ s1 !! kc_key c = None /\ s2 !! kc_key c = kc_new_value c) /\
  (c ∈ df_removed d <-> is_Some (kc_old_value c) /\ kc_new_value c = None /\ s1 !! kc_key c = kc_old_value c /\ s2 !! kc_key c = None) /\
  (c ∈ df_changed d <-> is_Some (kc_old_value c) /\ is_Some (kc_new_value c) /\ kc_old_value c <> kc_new_value c /\
                        s1 !! kc_key c = kc_old_value c /\ s2 !! kc_key c = kc_new_value c) /\
  (StateDiff.is_empty d = true <-> s1 = s2).
Proof.
  intros d s1 s2. destruct c as [k o v]. cbn [kc_key kc_old_value kc_new_value]. split_and!.
  - unfold d, StateInspector.diff_with; cbn [df_added]. fold s1 s2. rewrite list_elem_of_omap. split.
    + intros [[k' v'] [Hk Hv]]. apply elem_of_map_to_list in Hk. destruct (s1 !! k') eqn:H1; [done|].
      injection Hv as <- <- <-. by rewrite Hk.
    + intros (-> & [v' ->] & H1 & H2). exists (k, v'). rewrite elem_of_map_to_list, H1. done.
  - unfold d, StateInspector.diff_with; cbn [df_removed]. fold s1 s2. rewrite list_elem_of_omap. split.
    + intros [[k' v'] [Hk Hv]]. apply elem_of_map_to_list in Hk. destruct (s2 !! k') eqn:H2; [done|].
      injection Hv as <- <- <-. by rewrite Hk.
    + intros ([v' ->] & -> & H1 & H2). exists (k, v'). rewrite elem_of_map_to_list, H2. done.
  - unfold d, StateInspector.diff_with; cbn [df_changed]. fold s1 s2. rewrite list_elem_of_omap. split.
    + intros [[k' v'] [Hk Hv]]. apply elem_of_map_to_list in Hk. destruct (s1 !! k') as [w|] eqn:H1; [|done].
      destruct (bool_decide_reflect (w <> v')) as [Hne|]; [|done]. injection Hv as <- <- <-. split_and!; eauto. congruence.
    + intros ([o' ->] & [v' ->] & Hne & H1 & H2). exists (k, v'). rewrite elem_of_map_to_list, H1.
      rewrite bool_decide_eq_true_2 by congruence. done.
  - apply diff_empty.
Qed.

(** ** Builders *)
Inductive Recording :=
| RBlockStart (height timestamp_ms : Z) | RBlockEnd (height : Z) (state_hash : vec byte 32)
| RTxStart (tx_id : vec byte 32) (sender recipient : AccountId) | RTxEnd (tx_id : vec byte 32) (success : bool) (gas_used : Z)
| RStateChange (key : bytes) (old_value new_value : option bytes)
| RCall (from to : AccountId) (function_id : Z) (data_hash : vec byte 32)
| RCallReturn (success : bool) (data_hash : option (vec byte 32)) | RGas (amount remaining : Z) (operation : string)
| REvent (name : string) (data_hash : vec byte 32) | RError (code : Z) (message : string) | RCheckpoint (id : Z)
| RRollback (to_checkpoint : Z).

Definition record_one (b : TraceBuilder) (r : Recording) : TraceBuilder :=
  match r with
  | RBlockStart h t => TraceBuilder.block_start b h t
  | RBlockEnd h s => TraceBuilder.block_end b h s
  | RTxStart i s r => TraceBuilder.tx_start b i s r
  | RTxEnd i s g => TraceBuilder.tx_end b i s g
  | RStateChange k o n => TraceBuilder.state_change b k o n
  | RCall f t i d => TraceBuilder.call b f t i d
  | RCallReturn s d => TraceBuilder.call_return b s d
  | RGas a r o => TraceBuilder.gas_charge b a r o
  | REvent n d => TraceBuilder.event_emitted b n d
  | RError c m => TraceBuilder.error b c m
  | RCheckpoint i => TraceBuilder.checkpoint b i
  | RRollback i => TraceBuilder.rollback b i
  end.

(** The counters of a trace count its events. *)
Record counted (b : TraceBuilder) : Prop := {
  counted_index i e : et_events (tb_trace b) !! i = Some e -> TraceEvent.event_index e = i;
  counted_next : tb_event_counter b = length (et_events (tb_trace b));
  counted_changes : tm_total_state_changes (et_metadata (tb_trace b)) =
                    wrap64 (zlen (List.filter TraceEvent.is_state_change (et_events (tb_trace b)))) }.

Lemma counted_record b (f : nat -> TraceEvent) g :
  (forall i, TraceEvent.event_index (f i) = i) ->
  (forall m, tm_total_state_changes (g m) =
             if TraceEvent.is_state_change (f (tb_event_counter b)) then wrap64 (tm_total_state_changes m + 1)
             else tm_total_state_changes m) ->
  counted b -> counted (TraceBuilder.count (TraceBuilder.record b f) g).
Proof.
  intros Hf Hg [Hi Hn Hc]. split; cbn.
  - intros i e. rewrite lookup_snoc_Some. intros [[Hl He]|[-> <-]]; [by apply Hi | by rewrite Hf].
  - rewrite length_app. cbn. lia.
  - rewrite Hg, Hc, List.filter_app, zlen_app. cbn [List.filter].
    destruct (TraceEvent.is_state_change _); [unfold wrap64; by rewrite Zplus_mod_idemp_l | by rewrite Z.add_0_r].
Qed.

Lemma count_id b : TraceBuilder.count b id = b.
Proof. by destruct b as [[] n]. Qed.

Lemma counted_recording b r : counted b -> counted (record_one b r).
Proof.
  intros Hb. destruct r; cbn [record_one];
    try (apply counted_record; [done | by intros [] | done]);
    rewrite <-count_id; (apply counted_record; [done | by intros [] | done]).
Qed.

(** The events of a trace that the builder records carry their positions, so
    that a breakpoint on an event index stops there, and the trace counts its
    state changes, in a counter of 64 bits. *)
Theorem builder_counts seed initial rs :
  let t := TraceBuilder.finish (foldl record_one (TraceBuilder.new seed initial) rs) in
  (forall i e, et_events t !! i = Some e -> TraceEvent.event_index e = i) /\
  length (et_events t) = length rs /\
  tm_total_state_changes (et_metadata t) = wrap64 (zlen (List.filter TraceEvent.is_state_change (et_events t))).
Proof.
  intros t. unfold t, TraceBuilder.finish.
  assert (counted (TraceBuilder.new seed initial)) as Hb by by split.
  assert (forall b, counted b -> counted (foldl record_one b rs) /\
    length (et_events (tb_trace (foldl record_one b rs))) = (length (et_events (tb_trace b)) + length rs)%nat) as Hrs.
  { clear. induction rs as [|r rs IH]; intros b Hb; cbn; [split; [done | lia]|].
    destruct (IH _ (counted_recording b r Hb)) as [Hc Hl]. split; [done|]. rewrite Hl.
    assert (length (et_events (tb_trace (record_one b r))) = S (length (et_events (tb_trace b)))) as ->; [|lia].
    destruct r; cbn; rewrite length_app; cbn; lia. }
  destruct (Hrs _ Hb) as [[Hi _ Hc] Hl]. done.
Qed.

(** Two snapshots that differ have the same hash: keys and values are hashed
    without their lengths. *)
Theorem snapshot_hash_collides `{Sha256} h ts :
  let a := StateSnapshot.from_data {[ string_bytes "a" := string_bytes "bc" ]} h ts in
  let b := StateSnapshot.from_data {[ string_bytes "ab" := string_bytes "c" ]} h ts in
  sn_data a <> sn_data b /\ StateSnapshot.hash a = StateSnapshot.hash b.
Proof. split; [by_decision | reflexivity]. Qed.

(** A replayer of an empty trace panics when it is asked for its block. *)
Theorem empty_trace_panics seed initial cs :
  Replayer.current_block (debug (ExecutionTrace.new seed initial) cs) = None.
Proof.
  destruct (shows_debug (ExecutionTrace.new seed initial) cs) as (Ht & Hp & _). unfold Replayer.current_block, Replayer.events_up_to_position.
  rewrite Ht. assert (rp_position (debug (ExecutionTrace.new seed initial) cs) = 0%nat) as -> by (cbn in Hp; lia). done.
Qed.

(** ** Witnesses *)
Definition ex_trace : ExecutionTrace :=
  TraceBuilder.finish (foldl record_one (TraceBuilder.new 42 StateSnapshot.empty)
    [RStateChange [x01] None (Some [x02]); RBlockStart 1 1000; RStateChange [x01] (Some [x02]) None; RBlockEnd 1 (vreplicate 32 x00)]).

Lemma step_back_keeps_first_change_witness :
  Replayer.get_storage (debug ex_trace [CStep; CStepBack]) [x01] = Some [x02] /\
  Replayer.get_storage (debug ex_trace []) [x01] = None.
Proof.
  destruct (step_back_keeps_first_change ex_trace [x01] None [x02] 0
              [BlockStart 1 1000 1; StateChange [x01] (Some [x02]) None 2; BlockEnd 1 (vreplicate 32 x00) 3]) as (_ & Hs & Hn);
    [reflexivity|].
  split; [exact Hs | rewrite Hn; reflexivity].
Defined.

(** Codecs of one trace. *)
#[local] Obligation Tactic := idtac.
#[local] Instance StateSnapshot_eq_dec : EqDecision StateSnapshot.
Proof. solve_decision. Defined.
#[local] Instance TraceMetadata_eq_dec : EqDecision TraceMetadata.
Proof. solve_decision. Defined.
#[local] Instance TraceEvent_eq_dec : EqDecision TraceEvent.
Proof. solve_decision. Defined.
#[local] Instance ExecutionTrace_eq_dec : EqDecision ExecutionTrace.
Proof. solve_decision. Defined.

Definition plain_trace : ExecutionTrace := ExecutionTrace.new 42 StateSnapshot.empty.

Definition only {A} (t : ExecutionTrace) (a : A) : option A := if decide (t = plain_trace) then Some a else None.
Definition only_if (b : bool) : option ExecutionTrace := if b then Some plain_trace else None.

Lemma only_some {A} t (a b : A) : only t a = Some b -> t = plain_trace /\ b = a.
Proof. unfold only. destruct (decide _); [|done]. by intros [= <-]. Qed.

#[local] Program Instance ref_codecs : TraceCodecs := {|
  bincode_serialize t := only t [x07];
  bincode_deserialize b := only_if (bool_decide (b = [x07]));
  json_to_vec _ t := only t (string_bytes "{}");
  json_from_slice b := only_if (bool_decide (b = string_bytes "{}"));
  gzip b := x1f :: b;
  gunzip b := Some (tail b) |}.
Next Obligation. by intros t b [-> ->]%only_some. Qed.
Next Obligation. by intros p t b [-> ->]%only_some. Qed.
Next Obligation. by intros p t b [-> ->]%only_some. Qed.
Next Obligation. intros p t Ht. cbv beta. destruct (only t (string_bytes "{}")) as [b|] eqn:Ho; [|done]. apply only_some in Ho as [-> _]. done. Qed.
Next Obligation. done. Qed.

Lemma trace_roundtrip_witness :
  deserialize_trace (TraceHeader.serialize (TraceHeader.new true) ++ [x1f; x07]) = Ok plain_trace.
Proof. apply (trace_roundtrip plain_trace FormatBinaryCompressed). reflexivity. Defined.

Lemma json_needs_empty_state_witness :
  serialize_trace (ExecutionTrace.new 1 (StateSnapshot.from_data {[ [x01] := [x02] ]} 0 0)) FormatJson = Err FormatSerialization.
Proof.
  apply (json_needs_empty_state (ExecutionTrace.new 1 (StateSnapshot.from_data {[ [x01] := [x02] ]} 0 0)) FormatJson);
    [by_decision | by left].
Defined.

Example replay_example :
  Replayer.run_to_breakpoint 5 (debug ex_trace [CAdd (OnStorageKey [x01])]) =
  Some (HitBreakpoint 0, debug ex_trace [CAdd (OnStorageKey [x01]); CStep; CStep]).
Proof. by vm_compute. Qed.
