(* ===== verification/Simulator.v ===== *)
(** * The simulator

    Models [crates/testing/simulator/src]: simulated time ([time.rs]), seeded
    random numbers ([seed.rs]), the metrics that are counted ([metrics.rs]; the
    report, whose ratios are floating-point numbers, is left out), the storage
    backends ([backend.rs]) and the simulator ([lib.rs]). The generator of the
    [rand_chacha] crate is an interface; wall-clock times are arguments. [None]
    stands for a panic. *)

From S2P Require Import Prelude Core ExecState ExecStateFacts Commit StorageBackend.

Open Scope evolve_scope.

(** ** [time.rs] *)
Record TimeConfig := mkTimeConfig { tc_ticks_per_block : Z; tc_tick_ms : Z; tc_initial_timestamp_ms : Z }.
Definition TimeConfig_default : TimeConfig := mkTimeConfig 100 10 1700000000000.

Record SimulatedTime := mkSimulatedTime { stm_current_tick : Z; stm_current_block : Z; stm_config : TimeConfig }.
Record TimeSnapshot := mkTimeSnapshot { ts_tick : Z; ts_block : Z; ts_timestamp_ms : Z }.

Module SimulatedTime.

Definition new (config : TimeConfig) : SimulatedTime := mkSimulatedTime 0 0 config.

Definition now_ms (self : SimulatedTime) : Z :=
  saturating_add u64_max (tc_initial_timestamp_ms (stm_config self))
    (saturating_mul u64_max (stm_current_tick self) (tc_tick_ms (stm_config self))).

Definition now_secs (self : SimulatedTime) : Z := now_ms self / 1000.

Definition advance_tick (self : SimulatedTime) : option (bool * SimulatedTime) :=
  let current_tick := saturating_add u64_max (stm_current_tick self) 1 in
  if tc_ticks_per_block (stm_config self) =? 0 then None
  else
    let ticks_in_block := current_tick mod tc_ticks_per_block (stm_config self) in
    Some ((ticks_in_block =? 0) && (0 <? current_tick), mkSimulatedTime current_tick (stm_current_block self) (stm_config self)).

Definition advance_ticks (self : SimulatedTime) (n : Z) : option (Z * SimulatedTime) :=
  if tc_ticks_per_block (stm_config self) =? 0 then None
  else
    let old_block_tick := stm_current_tick self / tc_ticks_per_block (stm_config self) in
    let current_tick := saturating_add u64_max (stm_current_tick self) n in
    let new_block_tick := current_tick / tc_ticks_per_block (stm_config self) in
    Some (saturating_sub new_block_tick old_block_tick, mkSimulatedTime current_tick (stm_current_block self) (stm_config self)).

Definition advance_block (self : SimulatedTime) : SimulatedTime :=
  let current_block := saturating_add u64_max (stm_current_block self) 1 in
  let target_tick := saturating_mul u64_max current_block (tc_ticks_per_block (stm_config self)) in
  let current_tick := if stm_current_tick self <? target_tick then target_tick else stm_current_tick self in
  mkSimulatedTime current_tick current_block (stm_config self).

Definition set_block_height (self : SimulatedTime) (height : Z) : SimulatedTime :=
  let min_tick := saturating_mul u64_max height (tc_ticks_per_block (stm_config self)) in
  let current_tick := if stm_current_tick self <? min_tick then min_tick else stm_current_tick self in
  mkSimulatedTime current_tick height (stm_config self).

Definition block_start_tick (self : SimulatedTime) (block : Z) : Z :=
  saturating_mul u64_max block (tc_ticks_per_block (stm_config self)).

Definition block_end_tick (self : SimulatedTime) (block : Z) : Z :=
  saturating_mul u64_max (saturating_add u64_max block 1) (tc_ticks_per_block (stm_config self)).

Definition block_time_ms (self : SimulatedTime) : Z :=
  saturating_mul u64_max (tc_ticks_per_block (stm_config self)) (tc_tick_ms (stm_config self)).

Definition snapshot (self : SimulatedTime) : TimeSnapshot :=
  mkTimeSnapshot (stm_current_tick self) (stm_current_block self) (now_ms self).

Definition restore (self : SimulatedTime) (snapshot : TimeSnapshot) : SimulatedTime :=
  mkSimulatedTime (ts_tick snapshot) (ts_block snapshot) (stm_config self).

End SimulatedTime.

(** ** [seed.rs] *)

(** [ChaCha20Rng]: a generator and the next [u64] it draws. *)
Class ChaCha20 (R : Type) := {
  seed_from_u64 : Z -> R;
  next_u64 : R -> Z * R
}.

Record SeededRng (R : Type) := mkSeededRng { rng_seed : Z; rng_rng : R }.
Arguments mkSeededRng {R} _ _.
Arguments rng_seed {R} _.
Arguments rng_rng {R} _.

Module SeededRng.
Section Methods.
Context {R : Type} `{ChaCha20 R}.

Definition new (seed : Z) : SeededRng R :=
  let rng := seed_from_u64 seed in
  mkSeededRng seed rng.

(** [entropy] is [rand::random()]. *)
Definition from_entropy (entropy : Z) : SeededRng R * Z :=
  let seed := entropy in
  (new seed, seed).

(** [gen::<u64>]. *)
Definition gen (self : SeededRng R) : Z * SeededRng R :=
  let '(v, rng) := next_u64 (rng_rng self) in (v, mkSeededRng (rng_seed self) rng).

Definition derive_child (self : SeededRng R) : SeededRng R * SeededRng R :=
  let '(child_seed, self) := gen self in (new child_seed, self).

End Methods.
End SeededRng.

Record SeedInfo := mkSeedInfo { sd_seed : Z; sd_commit_hash : option (vec byte 20) }.
Definition SeedInfo_new (seed : Z) : SeedInfo := mkSeedInfo seed None.

(** ** [metrics.rs] *)
Record MetricsConfig := mkMetricsConfig { mc_max_block_history : Z; mc_track_tx_details : bool; mc_track_storage_ops : bool }.
Definition MetricsConfig_default : MetricsConfig := mkMetricsConfig 1000 true true.

Record BlockMetrics := mkBlockMetrics {
  bm_height : Z; bm_tx_count : Z; bm_tx_success : Z; bm_tx_failed : Z; bm_gas_consumed : Z; bm_execution_time_ns : Z;
  bm_storage_reads : Z; bm_storage_writes : Z; bm_events_emitted : Z; bm_state_size_delta : Z }.

Record SimMetrics := mkSimMetrics {
  sm_blocks_executed : Z; sm_txs_executed : Z; sm_txs_success : Z; sm_txs_failed : Z; sm_gas_consumed : Z;
  sm_storage_reads : Z; sm_storage_writes : Z; sm_events_emitted : Z; sm_execution_time_ns : Z; sm_state_size_bytes : Z;
  sm_peak_state_size_bytes : Z; sm_simulated_time_ms : Z; sm_block_metrics : list BlockMetrics; sm_config : MetricsConfig }.

Record SimMetricsSnapshot := mkSimMetricsSnapshot {
  mss_blocks_executed : Z; mss_txs_executed : Z; mss_txs_success : Z; mss_txs_failed : Z; mss_gas_consumed : Z;
  mss_execution_time_ns : Z; mss_state_size_bytes : Z }.

Module SimMetrics.

Definition with_config (config : MetricsConfig) : SimMetrics := mkSimMetrics 0 0 0 0 0 0 0 0 0 0 0 0 [] config.

(** The delta is an [i64]; its negation as [u64] is exact. *)
Definition record_block (self : SimMetrics) (metrics : BlockMetrics) : SimMetrics :=
  let state_size_bytes :=
    if 0 <=? bm_state_size_delta metrics
    then saturating_add u64_max (sm_state_size_bytes self) (bm_state_size_delta metrics)
    else saturating_sub (sm_state_size_bytes self) (- bm_state_size_delta metrics) in
  let history := if mc_max_block_history (sm_config self) <=? zlen (sm_block_metrics self)
                 then tail (sm_block_metrics self) else sm_block_metrics self in
  {| sm_blocks_executed := saturating_add u64_max (sm_blocks_executed self) 1;
     sm_txs_executed := saturating_add u64_max (sm_txs_executed self) (bm_tx_count metrics);
     sm_txs_success := saturating_add u64_max (sm_txs_success self) (bm_tx_success metrics);
     sm_txs_failed := saturating_add u64_max (sm_txs_failed self) (bm_tx_failed metrics);
     sm_gas_consumed := saturating_add u64_max (sm_gas_consumed self) (bm_gas_consumed metrics);
     sm_storage_reads := saturating_add u64_max (sm_storage_reads self) (bm_storage_reads metrics);
     sm_storage_writes := saturating_add u64_max (sm_storage_writes self) (bm_storage_writes metrics);
     sm_events_emitted := saturating_add u64_max (sm_events_emitted self) (bm_events_emitted metrics);
     sm_execution_time_ns := saturating_add u64_max (sm_execution_time_ns self) (bm_execution_time_ns metrics);
     sm_state_size_bytes := state_size_bytes;
     sm_peak_state_size_bytes := Z.max (sm_peak_state_size_bytes self) state_size_bytes;
     sm_simulated_time_ms := sm_simulated_time_ms self;
     sm_block_metrics := history ++ [metrics];
     sm_config := sm_config self |}.

Definition set_simulated_time_ms (self : SimMetrics) (ms : Z) : SimMetrics :=
  mkSimMetrics (sm_blocks_executed self) (sm_txs_executed self) (sm_txs_success self) (sm_txs_failed self)
    (sm_gas_consumed self) (sm_storage_reads self) (sm_storage_writes self) (sm_events_emitted self)
    (sm_execution_time_ns self) (sm_state_size_bytes self) (sm_peak_state_size_bytes self) ms (sm_block_metrics self)
    (sm_config self).

Definition snapshot (self : SimMetrics) : SimMetricsSnapshot :=
  mkSimMetricsSnapshot (sm_blocks_executed self) (sm_txs_executed self) (sm_txs_success self) (sm_txs_failed self)
    (sm_gas_consumed self) (sm_execution_time_ns self) (sm_state_size_bytes self).

Definition delta (self other : SimMetricsSnapshot) : SimMetricsSnapshot :=
  mkSimMetricsSnapshot (saturating_sub (mss_blocks_executed self) (mss_blocks_executed other))
    (saturating_sub (mss_txs_executed self) (mss_txs_executed other))
    (saturating_sub (mss_txs_success self) (mss_txs_success other))
    (saturating_sub (mss_txs_failed self) (mss_txs_failed other))
    (saturating_sub (mss_gas_consumed self) (mss_gas_consumed other))
    (saturating_sub (mss_execution_time_ns self) (mss_execution_time_ns other)) (mss_state_size_bytes self).

End SimMetrics.

(** The builder; [elapsed_ns] is what its timer measures. *)
Module BlockMetricsBuilder.

Definition new (height : Z) : BlockMetrics := mkBlockMetrics height 0 0 0 0 0 0 0 0 0.

Definition record_tx_success (m : BlockMetrics) (gas events : Z) : BlockMetrics :=
  mkBlockMetrics (bm_height m) (saturating_add u64_max (bm_tx_count m) 1) (saturating_add u64_max (bm_tx_success m) 1)
    (bm_tx_failed m) (saturating_add u64_max (bm_gas_consumed m) gas) (bm_execution_time_ns m) (bm_storage_reads m)
    (bm_storage_writes m) (saturating_add u64_max (bm_events_emitted m) events) (bm_state_size_delta m).

Definition record_tx_failure (m : BlockMetrics) (gas : Z) : BlockMetrics :=
  mkBlockMetrics (bm_height m) (saturating_add u64_max (bm_tx_count m) 1) (bm_tx_success m)
    (saturating_add u64_max (bm_tx_failed m) 1) (saturating_add u64_max (bm_gas_consumed m) gas) (bm_execution_time_ns m)
    (bm_storage_reads m) (bm_storage_writes m) (bm_events_emitted m) (bm_state_size_delta m).

Definition record_storage_ops (m : BlockMetrics) (reads writes : Z) : BlockMetrics :=
  mkBlockMetrics (bm_height m) (bm_tx_count m) (bm_tx_success m) (bm_tx_failed m) (bm_gas_consumed m)
    (bm_execution_time_ns m) (saturating_add u64_max (bm_storage_reads m) reads)
    (saturating_add u64_max (bm_storage_writes m) writes) (bm_events_emitted m) (bm_state_size_delta m).

Definition set_state_size_delta (m : BlockMetrics) (delta : Z) : BlockMetrics :=
  mkBlockMetrics (bm_height m) (bm_tx_count m) (bm_tx_success m) (bm_tx_failed m) (bm_gas_consumed m)
    (bm_execution_time_ns m) (bm_storage_reads m) (bm_storage_writes m) (bm_events_emitted m) delta.

Definition finish (m : BlockMetrics) (elapsed_ns : Z) : BlockMetrics :=
  mkBlockMetrics (bm_height m) (bm_tx_count m) (bm_tx_success m) (bm_tx_failed m) (bm_gas_consumed m) elapsed_ns
    (bm_storage_reads m) (bm_storage_writes m) (bm_events_emitted m) (bm_state_size_delta m).

End BlockMetricsBuilder.

(** ** [backend.rs] *)
Inductive StorageBackendConfig := ConfigMock | ConfigQmdb (path : option string).

(** The proxy is the store it forwards to. *)
Inductive StorageBackend (Q : Type) := BackendMock (storage : gmap bytes bytes) | BackendQmdb (storage : Q).
Arguments BackendMock {Q} _.
Arguments BackendQmdb {Q} _.

Module StorageBackend.
Section Methods.
Context {Q : Type} `{Storage Q}.

(** [open] opens a store at a path, or at one made of the seed. *)
Definition new (open : option string -> Z -> Q) (seed : Z) (backend_config : StorageBackendConfig) : StorageBackend Q :=
  match backend_config with
  | ConfigMock => BackendMock MockStorage.new
  | ConfigQmdb path => BackendQmdb (open path seed)
  end.

Definition get (self : StorageBackend Q) (key : bytes) : SdkResult (option bytes) :=
  match self with
  | BackendMock storage => storage_get storage key
  | BackendQmdb storage => storage_get storage key
  end.

Definition apply_changes (self : StorageBackend Q) (changes : list CoreStateChange) : SdkResult unit * StorageBackend Q :=
  match self with
  | BackendMock storage =>
      let ops := state_changes_to_operations changes in
      let '(r, storage) := storage_batch storage ops in (r, BackendMock storage)
  | BackendQmdb storage =>
      let ops := state_changes_to_operations changes in
      let '(r, storage) := storage_batch storage ops in (r, BackendQmdb storage)
  end.

Definition commit (self : StorageBackend Q) : SdkResult (vec byte 32) * StorageBackend Q :=
  match self with
  | BackendMock storage => let '(r, storage) := storage_commit storage in ((h ← r; Ok (commit_bytes h)), BackendMock storage)
  | BackendQmdb storage => let '(r, storage) := storage_commit storage in ((h ← r; Ok (commit_bytes h)), BackendQmdb storage)
  end.

End Methods.
End StorageBackend.

(** ** [lib.rs] *)
Definition ERR_SIMULATION_ABORTED : ErrorCode := define_error 0x10.

(** The settings of fault injection, which no backend uses, are left out. *)
Record SimConfig := mkSimConfig {
  sc_storage_backend : StorageBackendConfig; sc_time : TimeConfig; sc_metrics : MetricsConfig; sc_max_blocks : Z;
  sc_max_txs_per_block : Z; sc_stop_on_error : bool }.
Definition SimConfig_default : SimConfig := mkSimConfig ConfigMock TimeConfig_default MetricsConfig_default 0 1000 false.

Record Simulator (R Q : Type) := mkSimulator {
  sim_seed : Z; sim_rng : SeededRng R; sim_time : SimulatedTime; sim_storage : StorageBackend Q; sim_config : SimConfig;
  sim_metrics : SimMetrics; sim_last_app_hash : option (vec byte 32); sim_running : bool; sim_abort_reason : option string }.
Arguments mkSimulator {R Q} _ _ _ _ _ _ _ _ _.
Arguments sim_seed {R Q} _.
Arguments sim_rng {R Q} _.
Arguments sim_time {R Q} _.
Arguments sim_storage {R Q} _.
Arguments sim_config {R Q} _.
Arguments sim_metrics {R Q} _.
Arguments sim_last_app_hash {R Q} _.
Arguments sim_running {R Q} _.
Arguments sim_abort_reason {R Q} _.

Record SimSnapshot := mkSimSnapshot {
  ssn_seed : Z; ssn_time : TimeSnapshot; ssn_metrics : SimMetricsSnapshot; ssn_app_hash : option (vec byte 32) }.

Module Simulator.
Section Methods.
Context {R Q : Type} `{ChaCha20 R} `{Storage Q} (open : option string -> Z -> Q).

Definition new (seed : Z) (config : SimConfig) : Simulator R Q :=
  let rng := SeededRng.new seed in
  let '(storage_seed, rng) := SeededRng.gen rng in
  let storage := StorageBackend.new open storage_seed (sc_storage_backend config) in
  let time := SimulatedTime.new (sc_time config) in
  let metrics := SimMetrics.with_config (sc_metrics config) in
  mkSimulator seed rng time storage config metrics None false None.

Definition with_random_seed (entropy : Z) (config : SimConfig) : Simulator R Q * Z :=
  let '(rng, seed) := SeededRng.from_entropy entropy in
  let storage_seed := wrap64 (rng_seed rng + 1) in
  let storage := StorageBackend.new open storage_seed (sc_storage_backend config) in
  let time := SimulatedTime.new (sc_time config) in
  let metrics := SimMetrics.with_config (sc_metrics config) in
  (mkSimulator seed rng time storage config metrics None false None, seed).

(** The fields that the methods change. *)
Definition set_time (self : Simulator R Q) (time : SimulatedTime) : Simulator R Q :=
  mkSimulator (sim_seed self) (sim_rng self) time (sim_storage self) (sim_config self) (sim_metrics self)
    (sim_last_app_hash self) (sim_running self) (sim_abort_reason self).

Definition set_storage (self : Simulator R Q) (storage : StorageBackend Q) (hash : option (vec byte 32)) : Simulator R Q :=
  mkSimulator (sim_seed self) (sim_rng self) (sim_time self) storage (sim_config self) (sim_metrics self) hash
    (sim_running self) (sim_abort_reason self).

Definition set_running (self : Simulator R Q) (running : bool) (reason : option string) : Simulator R Q :=
  mkSimulator (sim_seed self) (sim_rng self) (sim_time self) (sim_storage self) (sim_config self) (sim_metrics self)
    (sim_last_app_hash self) running reason.

Definition tick (self : Simulator R Q) : option (Simulator R Q) :=
  '(_, t) ← SimulatedTime.advance_tick (sim_time self); Some (set_time self t).

Definition advance_ticks (self : Simulator R Q) (n : Z) : option (Simulator R Q) :=
  '(_, t) ← SimulatedTime.advance_ticks (sim_time self) n; Some (set_time self t).

Definition advance_block (self : Simulator R Q) : Simulator R Q := set_time self (SimulatedTime.advance_block (sim_time self)).

Definition set_block_height (self : Simulator R Q) (height : Z) : Simulator R Q :=
  set_time self (SimulatedTime.set_block_height (sim_time self) height).

Definition record_block_metrics (self : Simulator R Q) (metrics : BlockMetrics) : Simulator R Q :=
  mkSimulator (sim_seed self) (sim_rng self) (sim_time self) (sim_storage self) (sim_config self)
    (SimMetrics.set_simulated_time_ms (SimMetrics.record_block (sim_metrics self) metrics) (SimulatedTime.now_ms (sim_time self)))
    (sim_last_app_hash self) (sim_running self) (sim_abort_reason self).

Definition apply_state_changes (self : Simulator R Q) (changes : list CoreStateChange) : SdkResult unit * Simulator R Q :=
  match StorageBackend.apply_changes (sim_storage self) changes with
  | (Err e, storage) => (Err e, set_storage self storage (sim_last_app_hash self))
  | (Ok _, storage) =>
      match StorageBackend.commit storage with
      | (Err e, storage) => (Err e, set_storage self storage (sim_last_app_hash self))
      | (Ok hash, storage) => (Ok tt, set_storage self storage (Some hash))
      end
  end.

Definition snapshot (self : Simulator R Q) : SimSnapshot :=
  mkSimSnapshot (sim_seed self) (SimulatedTime.snapshot (sim_time self)) (SimMetrics.snapshot (sim_metrics self))
    (sim_last_app_hash self).

Definition restore (self : Simulator R Q) (snapshot : SimSnapshot) : Simulator R Q :=
  set_storage (set_time self (SimulatedTime.restore (sim_time self) (ssn_time snapshot))) (sim_storage self)
    (ssn_app_hash snapshot).

Definition abort (self : Simulator R Q) (reason : string) : Simulator R Q := set_running self false (Some reason).

Definition reset (self : Simulator R Q) : Simulator R Q := new (sim_seed self) (sim_config self).

(** The loop of [run_until]. *)
Fixpoint run_loop (fuel : nat) (max_blocks : Z) (predicate : Simulator R Q -> bool) (self : Simulator R Q) : option (Simulator R Q) :=
  match fuel with
  | O => None
  | S fuel =>
      if negb (sim_running self) then Some self
      else if max_blocks <=? stm_current_block (sim_time self) then Some (set_running self false (sim_abort_reason self))
      else if predicate self then Some (set_running self false (sim_abort_reason self))
      else run_loop fuel max_blocks predicate (advance_block self)
  end.

Definition run_until (fuel : nat) (predicate : Simulator R Q -> bool) (self : Simulator R Q)
    : option (SdkResult unit * Simulator R Q) :=
  let self := set_running self true (sim_abort_reason self) in
  let max_blocks := if 0 <? sc_max_blocks (sim_config self) then sc_max_blocks (sim_config self) else u64_max in
  self ← run_loop fuel max_blocks predicate self;
  Some (if bool_decide (is_Some (sim_abort_reason self)) then Err ERR_SIMULATION_ABORTED else Ok tt, self).

Definition run_blocks (fuel : nat) (n : Z) (self : Simulator R Q) : option (SdkResult unit * Simulator R Q) :=
  let target := saturating_add u64_max (stm_current_block (sim_time self)) n in
  run_until fuel (fun sim => target <=? stm_current_block (sim_time sim)) self.

End Methods.
End Simulator.

(** ** Theorems of the simulator

    Simulated time agrees with the block height and never goes back, a run ends at
    its target, and resetting a simulator gives the run of its seed again; with the
    seed that does not. *)

(** ** Time *)
Inductive TimeOp := TTick | TTicks (n : Z) | TBlock | THeight (h : Z).

Definition time_step (t : SimulatedTime) (op : TimeOp) : option SimulatedTime :=
  match op with
  | TTick => snd <$> SimulatedTime.advance_tick t
  | TTicks n => snd <$> SimulatedTime.advance_ticks t n
  | TBlock => Some (SimulatedTime.advance_block t)
  | THeight h => Some (SimulatedTime.set_block_height t h)
  end.

Fixpoint time_run (t : SimulatedTime) (ops : list TimeOp) : option SimulatedTime :=
  match ops with [] => Some t | op :: ops => t ← time_step t op; time_run t ops end.

Definition op_in_range (op : TimeOp) : Prop :=
  match op with TTicks n => is_u64 n | THeight h => is_u64 h | _ => True end.

(** The ticks have reached the start of the block. *)
Record time_ok (t : SimulatedTime) : Prop := {
  ok_tick : is_u64 (stm_current_tick t);
  ok_block : is_u64 (stm_current_block t);
  ok_reached : SimulatedTime.block_start_tick t (stm_current_block t) <= stm_current_tick t }.

Lemma time_step_ok c t op :
  is_u64 (tc_ticks_per_block c) -> is_u64 (tc_tick_ms c) -> tc_ticks_per_block c <> 0 -> stm_config t = c ->
  time_ok t -> op_in_range op ->
  exists t', time_step t op = Some t' /\ time_ok t' /\ stm_config t' = c /\ stm_current_tick t <= stm_current_tick t'.
Proof.
  intros Htpb Hms Hne Hc [Ht Hb Hr] Hop. unfold SimulatedTime.block_start_tick in Hr. rewrite Hc in Hr.
  destruct op as [|n| |h]; cbn [time_step];
    unfold SimulatedTime.advance_tick, SimulatedTime.advance_ticks, SimulatedTime.advance_block, SimulatedTime.set_block_height;
    rewrite ?Hc, ?(proj2 (Z.eqb_neq _ _) Hne); cbn [fmap option_fmap option_map snd].
  all: eexists; split_and!; [reflexivity|split|..]; cbn [stm_current_tick stm_current_block stm_config]; try done.
  all: unfold SimulatedTime.block_start_tick; cbn [stm_config stm_current_block stm_current_tick] in *.
  all: unfold op_in_range, saturating_add, saturating_mul, is_u64, u64_max in *.
  all: repeat match goal with |- context [?a <? ?b] => destruct (Z.ltb_spec a b) end; nia.
Qed.

Lemma time_run_ok c ops t :
  is_u64 (tc_ticks_per_block c) -> is_u64 (tc_tick_ms c) -> tc_ticks_per_block c <> 0 -> stm_config t = c ->
  time_ok t -> Forall op_in_range ops ->
  exists t', time_run t ops = Some t' /\ time_ok t' /\ stm_config t' = c /\ stm_current_tick t <= stm_current_tick t'.
Proof.
  intros Htpb Hms Hne Hc Ht Hops. revert t Hc Ht. induction Hops as [|op ops Hop _ IH]; intros t Hc Ht; [exists t; split_and!; done || lia|].
  destruct (time_step_ok c t op Htpb Hms Hne Hc Ht Hop) as (t1 & Hs & Ht1 & Hc1 & Hl1).
  destruct (IH t1 Hc1 Ht1) as (t2 & Hs2 & Ht2 & Hc2 & Hl2). exists t2. cbn. rewrite Hs. cbn. split_and!; try done. lia.
Qed.

(** Simulated time is consistent: whatever ticks, blocks and heights it is
    advanced by, it does not panic, ticks and time never go back, and the ticks
    have reached the start of the current block. *)
Theorem sim_time_consistent c ops ops' :
  is_u64 (tc_ticks_per_block c) -> is_u64 (tc_tick_ms c) -> tc_ticks_per_block c <> 0 ->
  Forall op_in_range ops -> Forall op_in_range ops' ->
  exists t t', time_run (SimulatedTime.new c) ops = Some t /\ time_run t ops' = Some t' /\
    SimulatedTime.block_start_tick t (stm_current_block t) <= stm_current_tick t /\
    stm_current_tick t <= stm_current_tick t' /\ SimulatedTime.now_ms t <= SimulatedTime.now_ms t'.
Proof.
  intros Htpb Hms Hne Hops Hops'.
  assert (time_ok (SimulatedTime.new c)) as Hok.
  { split; unfold SimulatedTime.block_start_tick, saturating_mul, is_u64, u64_max in *; cbn; lia. }
  destruct (time_run_ok c ops (SimulatedTime.new c) Htpb Hms Hne eq_refl Hok Hops) as (t & Hr & Ht & Hc & _).
  destruct (time_run_ok c ops' t Htpb Hms Hne Hc Ht Hops') as (t' & Hr' & Ht' & Hc' & Hl). exists t, t'. split_and!; try done; [apply Ht|].
  unfold SimulatedTime.now_ms. rewrite Hc, Hc'. unfold saturating_add, saturating_mul, is_u64 in *. nia.
Qed.

(** ** Runs *)
Section Runs.
Context {R Q : Type} `{ChaCha20 R} `{Storage Q} (open : option string -> Z -> Q).
Abbreviation height sim := (stm_current_block (sim_time sim)).

Lemma run_loop_height fuel max target (sim : Simulator R Q) :
  sim_running sim = true -> max <= u64_max -> target <= u64_max ->
  Z.max 0 (Z.min max target - height sim) < Z.of_nat fuel ->
  exists sim', Simulator.run_loop fuel max (fun s => target <=? height s) sim = Some sim' /\
    height sim' = Z.max (height sim) (Z.min max target) /\ sim_abort_reason sim' = sim_abort_reason sim /\
    sim_running sim' = false.
Proof.
  revert sim. induction fuel as [|fuel IH]; intros sim Hrun Hmax Htar Hf; [lia|].
  cbn [Simulator.run_loop]. rewrite Hrun. cbn [negb].
  destruct (Z.leb_spec max (height sim)); [eexists; split; [reflexivity|]; cbn; split_and!; done || lia|].
  destruct (Z.leb_spec target (height sim)); [eexists; split; [reflexivity|]; cbn; split_and!; done || lia|].
  assert (height (Simulator.advance_block sim) = height sim + 1) as Ha by (cbn; unfold saturating_add; lia).
  destruct (IH (Simulator.advance_block sim)) as (sim' & Hr & Hh & Hb & Hs); [done|done|done|lia|].
  exists sim'. rewrite Hh, Ha. split_and!; try done. lia.
Qed.

(** A run of [n] blocks ends, within one turn per block, at the height [n]
    above the current one or at the configured maximum, whichever comes first, and
    fails only when the simulation had been aborted. *)
Theorem run_blocks_reaches n (sim : Simulator R Q) :
  0 <= n -> is_u64 (height sim) -> sc_max_blocks (sim_config sim) <= u64_max ->
  let limit := if 0 <? sc_max_blocks (sim_config sim) then sc_max_blocks (sim_config sim) else u64_max in
  exists sim', Simulator.run_blocks (S (Z.to_nat n)) n sim =
      Some (if bool_decide (is_Some (sim_abort_reason sim)) then Err ERR_SIMULATION_ABORTED else Ok tt, sim') /\
    height sim' = Z.max (height sim) (Z.min limit (height sim + n)) /\ sim_running sim' = false.
Proof.
  intros Hn Hh Hmax limit. unfold Simulator.run_blocks, Simulator.run_until. cbn [sim_config Simulator.set_running].
  fold limit. assert (limit <= u64_max) as Hl by (unfold limit; destruct (0 <? _); lia).
  destruct (run_loop_height (S (Z.to_nat n)) limit (saturating_add u64_max (height sim) n)
              (Simulator.set_running sim true (sim_abort_reason sim))) as (sim' & Hr & He & Hb & Hs);
    [done|done|unfold saturating_add; lia|cbn; unfold saturating_add, is_u64 in *; lia|].
  exists sim'. cbn in Hr, He, Hb |- *. rewrite Hr. cbn. rewrite Hb. split_and!; [done| |done].
  rewrite He. unfold saturating_add, is_u64 in *. lia.
Qed.

(** The seed that a simulator with a random seed returns does not reproduce it:
    the simulator's next random number is the first of the generator's, that of a
    simulator made of the returned seed the second, and their stores get different
    seeds. *)
Theorem random_seed_not_reproduced entropy config :
  let '(sim, seed) := Simulator.with_random_seed open entropy config in
  let '(first, rest) := next_u64 (R := R) (seed_from_u64 seed) in
  (SeededRng.gen (sim_rng sim)).1 = first /\
  (SeededRng.gen (sim_rng (Simulator.new open seed config))).1 = (next_u64 rest).1 /\
  sim_storage sim = StorageBackend.new open (wrap64 (seed + 1)) (sc_storage_backend config) /\
  sim_storage (Simulator.new open seed config) = StorageBackend.new open first (sc_storage_backend config).
Proof.
  unfold Simulator.with_random_seed, Simulator.new, SeededRng.from_entropy, SeededRng.gen, SeededRng.new; cbn.
  destruct (next_u64 (seed_from_u64 entropy)) as [first rest]; cbn. destruct (next_u64 rest); done.
Qed.

(** ** Resets *)
Inductive SimOp :=
| STick | STicks (n : Z) | SBlock | SHeight (h : Z) | SMetrics (m : BlockMetrics) | SChanges (l : list CoreStateChange)
| SRestore (s : SimSnapshot) | SAbort (reason : string) | SRun (fuel : nat) (n : Z).

(** An operation that panics leaves the simulator. *)
Definition sim_step (sim : Simulator R Q) (op : SimOp) : Simulator R Q :=
  match op with
  | STick => default sim (Simulator.tick sim)
  | STicks n => default sim (Simulator.advance_ticks sim n)
  | SBlock => Simulator.advance_block sim
  | SHeight h => Simulator.set_block_height sim h
  | SMetrics m => Simulator.record_block_metrics sim m
  | SChanges l => (Simulator.apply_state_changes sim l).2
  | SRestore s => Simulator.restore sim s
  | SAbort reason => Simulator.abort sim reason
  | SRun fuel n => from_option snd sim (Simulator.run_blocks fuel n sim)
  end.

Lemma run_loop_seed fuel max p (sim sim' : Simulator R Q) :
  Simulator.run_loop fuel max p sim = Some sim' -> sim_seed sim' = sim_seed sim /\ sim_config sim' = sim_config sim.
Proof.
  revert sim. induction fuel as [|fuel IH]; intros sim; [done|]. cbn.
  destruct (sim_running sim), (max <=? height sim), (p sim); cbn; try (by intros [= <-]); intros Hr; by apply IH in Hr.
Qed.

Lemma sim_step_seed sim op : sim_seed (sim_step sim op) = sim_seed sim /\ sim_config (sim_step sim op) = sim_config sim.
Proof.
  destruct op; cbn; try done.
  - unfold Simulator.tick. by destruct (SimulatedTime.advance_tick _) as [[]|].
  - unfold Simulator.advance_ticks. by destruct (SimulatedTime.advance_ticks _ _) as [[]|].
  - unfold Simulator.apply_state_changes. destruct (StorageBackend.apply_changes _ _) as [[] b]; [|done].
    by destruct (StorageBackend.commit b) as [[] ?].
  - unfold Simulator.run_blocks, Simulator.run_until; cbn. destruct (Simulator.run_loop _ _ _ _) as [s|] eqn:Hr; [|done].
    cbn. by apply run_loop_seed in Hr.
Qed.

Lemma new_seed seed config :
  sim_seed (Simulator.new open seed config) = seed /\ sim_config (Simulator.new open seed config) = config.
Proof. unfold Simulator.new. by destruct (SeededRng.gen (SeededRng.new seed)). Qed.

(** A simulator that is reset, whatever was done with it, is the simulator of
    its seed and configuration, so that a run can be repeated. *)
Theorem reset_repeats_run seed config ops :
  Simulator.reset open (foldl sim_step (Simulator.new open seed config) ops) = Simulator.new open seed config.
Proof.
  unfold Simulator.reset. assert (forall sim, sim_seed (foldl sim_step sim ops) = sim_seed sim /\
    sim_config (foldl sim_step sim ops) = sim_config sim) as Hs.
  { induction ops as [|op ops IH]; intros sim; cbn; [done|]. destruct (IH (sim_step sim op)) as [-> ->]. apply sim_step_seed. }
  destruct (Hs (Simulator.new open seed config)) as [-> ->]. destruct (new_seed seed config) as [-> ->]. done.
Qed.

End Runs.

(** ** Witnesses *)
#[export] Instance ref_chacha : ChaCha20 Z := {|
  seed_from_u64 s := s;
  next_u64 r := (wrap64 (r * 6364136223846793005 + 1), wrap64 (r * 6364136223846793005 + 1)) |}.

Definition ex_sim : Simulator Z (gmap bytes bytes) := Simulator.new (fun _ _ => ∅) 7 SimConfig_default.

Lemma sim_time_consistent_witness :
  exists t t', time_run (SimulatedTime.new TimeConfig_default) [TTick; TBlock; THeight 9] = Some t /\
    time_run t [TTicks 5] = Some t' /\
    SimulatedTime.block_start_tick t (stm_current_block t) <= stm_current_tick t /\
    stm_current_tick t <= stm_current_tick t' /\ SimulatedTime.now_ms t <= SimulatedTime.now_ms t'.
Proof.
  apply (sim_time_consistent TimeConfig_default [TTick; TBlock; THeight 9] [TTicks 5]).
  - by vm_compute.
  - by vm_compute.
  - done.
  - repeat apply Forall_cons_2; try apply Forall_nil_2; by vm_compute.
  - repeat apply Forall_cons_2; try apply Forall_nil_2; by vm_compute.
Defined.

Lemma run_blocks_reaches_witness :
  exists sim', Simulator.run_blocks 4 3 ex_sim = Some (Ok tt, sim') /\ stm_current_block (sim_time sim') = 3 /\
    sim_running sim' = false.
Proof. apply (run_blocks_reaches 3 ex_sim); by vm_compute. Defined.

Example random_seed_example :
  (SeededRng.gen (sim_rng (Simulator.with_random_seed (R := Z) (Q := gmap bytes bytes) (fun _ _ => ∅) 7 SimConfig_default).1)).1 <>
  (SeededRng.gen (sim_rng ex_sim)).1.
Proof. by vm_compute. Qed.
