(* ===== verification/BlockStore.v ===== *)
(** * The block archive

    Models [crates/storage/src/block_store.rs] with its configuration
    ([types.rs]) and the writer of produced blocks that the node builds on it
    ([build_block_archive] of [crates/app/node/src/lib.rs]). The prunable archive
    of the [commonware-storage] crate is an interface, with laws for an archive
    whose disk does not fail. *)

From S2P Require Import Prelude Core.

Open Scope evolve_scope.

(** ** [types.rs] *)
Abbreviation BlockHash := (vec byte 32).

Record BlockStorageConfig := mkBlockStorageConfig {
  partition_prefix : string; blocks_per_section : Z; key_write_buffer : Z; value_write_buffer : Z; replay_buffer : Z;
  compression_level : Z; retention_blocks : Z }.

Definition BlockStorageConfig_default : BlockStorageConfig :=
  mkBlockStorageConfig "evolve-blocks" 65536 (1024 * 1024) (4 * 1024 * 1024) 4096 3 100000.

(** ** The archive of [commonware-storage] *)

(** Its configuration, without the translator and the page cache. *)
Record ArchiveConfig := mkArchiveConfig {
  key_partition : string; value_partition : string; compression : option Z; items_per_section : Z;
  ac_key_write_buffer : Z; ac_value_write_buffer : Z; ac_replay_buffer : Z }.

Inductive Identifier := Index (n : Z) | Key (hash : BlockHash).

(** [C] is the runtime context, with the disk; [E] the errors. *)
Class PrunableArchive (C A E : Type) := {
  archive_init : C -> ArchiveConfig -> Result E A;
  archive_put : A -> Z -> BlockHash -> bytes -> Result E unit * A;
  archive_put_sync : A -> Z -> BlockHash -> bytes -> Result E unit * A;
  archive_get : A -> Identifier -> Result E (option bytes);
  archive_has : A -> Identifier -> Result E bool;
  archive_first : A -> option Z;
  archive_last : A -> option Z;
  archive_prune : A -> Z -> Result E unit * A;
  archive_sync : A -> Result E unit * A
}.

(** ** [block_store.rs] *)
Inductive BlockStorageError (E : Type) := Archive (e : E) | InvalidConfig (msg : string).
Arguments Archive {E} _.
Arguments InvalidConfig {E} _.

Record BlockStorage (A : Type) := mkBlockStorage { bs_archive : A }.
Arguments mkBlockStorage {A} _.
Arguments bs_archive {A} _.

Module BlockStorage.
Section Methods.
Context {C A E : Type} `{PrunableArchive C A E}.

Abbreviation Res X := (Result (BlockStorageError E) X).

(** The [?] of an operation of the archive. *)
Definition lift {X} (r : Result E X) : Res X := match r with Ok x => Ok x | Err e => Err (Archive e) end.

Definition update {X} (self : BlockStorage A) (m : A -> Result E X * A) : Res X * BlockStorage A :=
  let '(r, archive) := m (bs_archive self) in (lift r, mkBlockStorage archive).

Definition new (context : C) (config : BlockStorageConfig) : Res (BlockStorage A) :=
  if blocks_per_section config =? 0 then Err (InvalidConfig "blocks_per_section must be non-zero")
  else if key_write_buffer config =? 0 then Err (InvalidConfig "key_write_buffer must be non-zero")
  else if value_write_buffer config =? 0 then Err (InvalidConfig "value_write_buffer must be non-zero")
  else if replay_buffer config =? 0 then Err (InvalidConfig "replay_buffer must be non-zero")
  else
    let cfg := mkArchiveConfig (partition_prefix config ++ "-block-index") (partition_prefix config ++ "-block-data")
                 (if 0 <? compression_level config then Some (compression_level config) else None)
                 (blocks_per_section config) (key_write_buffer config) (value_write_buffer config)
                 (replay_buffer config) in
    archive ← lift (archive_init context cfg); Ok (mkBlockStorage archive).

Definition put (self : BlockStorage A) (block_number : Z) (block_hash : BlockHash) (block_bytes : bytes)
    : Res unit * BlockStorage A :=
  update self (fun archive => archive_put archive block_number block_hash block_bytes).

Definition get_by_number (self : BlockStorage A) (block_number : Z) : Res (option bytes) :=
  lift (archive_get (bs_archive self) (Index block_number)).

Definition get_by_hash (self : BlockStorage A) (block_hash : BlockHash) : Res (option bytes) :=
  lift (archive_get (bs_archive self) (Key block_hash)).

Definition has_block_number (self : BlockStorage A) (block_number : Z) : Res bool :=
  lift (archive_has (bs_archive self) (Index block_number)).

Definition has_block_hash (self : BlockStorage A) (block_hash : BlockHash) : Res bool :=
  lift (archive_has (bs_archive self) (Key block_hash)).

Definition first_block_number (self : BlockStorage A) : option Z := archive_first (bs_archive self).
Definition last_block_number (self : BlockStorage A) : option Z := archive_last (bs_archive self).

Definition prune (self : BlockStorage A) (min_block : Z) : Res unit * BlockStorage A :=
  update self (fun archive => archive_prune archive min_block).

Definition sync (self : BlockStorage A) : Res unit * BlockStorage A := update self archive_sync.

Definition put_sync (self : BlockStorage A) (block_number : Z) (block_hash : BlockHash) (block_bytes : bytes)
    : Res unit * BlockStorage A :=
  update self (fun archive => archive_put_sync archive block_number block_hash block_bytes).

End Methods.
End BlockStorage.

(** ** [build_block_archive] *)

(** A block on its way to the archive: number, hash and bytes. *)
Record ArchiveMessage := mkArchiveMessage { am_number : Z; am_hash : BlockHash; am_bytes : bytes }.

Definition CHANNEL_CAPACITY : Z := 64.

(** The channel of the callback and the store its only consumer owns. *)
Record BlockArchive (A : Type) := mkBlockArchive {
  ba_retention : Z; ba_prune_interval : Z; ba_channel : list ArchiveMessage; ba_store : BlockStorage A }.
Arguments mkBlockArchive {A} _ _ _ _.
Arguments ba_retention {A} _.
Arguments ba_prune_interval {A} _.
Arguments ba_channel {A} _.
Arguments ba_store {A} _.

(** What happens to it: the callback is called, or the consumer takes a block. *)
Inductive ArchiveEvent := Produced (block : ArchiveMessage) | Consumed.

Module BlockArchive.
Section Methods.
Context {C A E : Type} `{PrunableArchive C A E}.

(** [None] stands for the [expect] on the initialisation. *)
Definition build_block_archive (context : C) : option (BlockArchive A) :=
  let config := BlockStorageConfig_default in
  match BlockStorage.new context config with
  | Ok store => Some (mkBlockArchive (retention_blocks config) (blocks_per_section config) [] store)
  | Err _ => None
  end.

(** The callback: [try_send], whose failures are logged. *)
Definition callback (self : BlockArchive A) (block : ArchiveMessage) : BlockArchive A :=
  if zlen (ba_channel self) <? CHANNEL_CAPACITY
  then mkBlockArchive (ba_retention self) (ba_prune_interval self) (ba_channel self ++ [block]) (ba_store self)
  else self.

(** The body of the consumer's loop; errors are logged. *)
Definition archive_block (retention prune_interval : Z) (store : BlockStorage A) (block : ArchiveMessage)
    : BlockStorage A :=
  let store := (BlockStorage.put_sync store (am_number block) (am_hash block) (am_bytes block)).2 in
  if (0 <? retention) && (retention <? am_number block) && (am_number block mod prune_interval =? 0)
  then (BlockStorage.prune store (saturating_sub (am_number block) retention)).2
  else store.

(** [recv] and the body of the loop; nothing happens while the channel is empty. *)
Definition consume (self : BlockArchive A) : BlockArchive A :=
  match ba_channel self with
  | [] => self
  | block :: channel =>
      mkBlockArchive (ba_retention self) (ba_prune_interval self) channel
        (archive_block (ba_retention self) (ba_prune_interval self) (ba_store self) block)
  end.

Definition on_event (self : BlockArchive A) (event : ArchiveEvent) : BlockArchive A :=
  match event with Produced block => callback self block | Consumed => consume self end.

Definition run (self : BlockArchive A) (events : list ArchiveEvent) : BlockArchive A := foldl on_event self events.

End Methods.
End BlockArchive.

(** ** The laws of an archive whose disk does not fail

    Its documentation: an index that is present is not written again, one below
    the section pruned last is refused, and pruning drops whole sections. *)
Class ArchiveLaws (C A E : Type) `{PrunableArchive C A E} := {
  archive_items : A -> gmap Z (BlockHash * bytes);
  archive_horizon : A -> Z;
  archive_section : A -> Z;
  init_law context cfg a : archive_init context cfg = Ok a -> archive_section a = items_per_section cfg;
  put_sync_law a n hash b :
    let '(r, a') := archive_put_sync a n hash b in
    archive_section a' = archive_section a /\ archive_horizon a' = archive_horizon a /\
    if bool_decide (archive_horizon a <= n)
    then r = Ok tt /\
         archive_items a' = match archive_items a !! n with Some _ => archive_items a
                            | None => <[n := (hash, b)]> (archive_items a) end
    else (exists e, r = Err e) /\ archive_items a' = archive_items a;
  get_law a n : archive_get a (Index n) = Ok (snd <$> archive_items a !! n);
  prune_law a min :
    let '(_, a') := archive_prune a min in
    let floor := min / archive_section a * archive_section a in
    archive_section a' = archive_section a /\ archive_horizon a' = Z.max (archive_horizon a) floor /\
    archive_items a' = filter (fun '(n, _) => floor <= n) (archive_items a)
}.

(** ** What the block archive holds

    The writer keeps every block it accepted within the retention, and its size
    is bounded while no block is refused; a block produced while the channel is
    full is never archived. *)

(** The blocks the callback accepts over a run. *)
Fixpoint accepted {C A E} `{PrunableArchive C A E} (self : BlockArchive A) (events : list ArchiveEvent)
    : list ArchiveMessage :=
  match events with
  | [] => []
  | Produced block :: events =>
      if zlen (ba_channel self) <? CHANNEL_CAPACITY
      then block :: accepted (BlockArchive.callback self block) events
      else accepted self events
  | Consumed :: events => accepted (BlockArchive.consume self) events
  end.

Definition produced (events : list ArchiveEvent) : list ArchiveMessage :=
  omap (fun e => match e with Produced block => Some block | Consumed => None end) events.

(** Blocks in the order of their numbers. *)
Definition ascending (blocks : list ArchiveMessage) : Prop := StronglySorted Z.lt (am_number <$> blocks).

Section Archive.
Context {C A E : Type} `{ArchiveLaws C A E}.

Abbreviation items s := (archive_items (bs_archive s)).
Abbreviation horizon s := (archive_horizon (bs_archive s)).
Abbreviation section s := (archive_section (bs_archive s)).

(** ** The consumer *)

Lemma run_split (self : BlockArchive A) events :
  exists done, ba_channel self ++ accepted self events = done ++ ba_channel (BlockArchive.run self events) /\
    ba_store (BlockArchive.run self events)
      = foldl (BlockArchive.archive_block (ba_retention self) (ba_prune_interval self)) (ba_store self) done.
Proof.
  unfold BlockArchive.run. revert self. induction events as [|[block|] events IH]; intros self; cbn [foldl accepted].
  - exists []. by rewrite app_nil_r.
  - cbn [BlockArchive.on_event]. destruct (IH (BlockArchive.callback self block)) as (d & H1 & H2).
    unfold BlockArchive.callback in H1, H2 |- *. destruct (zlen (ba_channel self) <? CHANNEL_CAPACITY); exists d; [|done].
    cbn in H1, H2. rewrite <-app_assoc in H1. done.
  - cbn [BlockArchive.on_event]. destruct (IH (BlockArchive.consume self)) as (d & H1 & H2).
    unfold BlockArchive.consume in H1, H2 |- *. destruct (ba_channel self) as [|block channel] eqn:E1.
    + exists d. rewrite E1 in H1. done.
    + cbn in H1, H2. exists (block :: d). cbn. by rewrite <-H1.
Qed.

Lemma accepted_sublist (self : BlockArchive A) events : accepted self events `sublist_of` produced events.
Proof.
  revert self. induction events as [|[block|] events IH]; intros self; cbn; [done| |apply IH].
  case_match; [by constructor | by apply sublist_cons].
Qed.

(** One round of the consumer on a block that is new. *)
Lemma archive_block_spec retention prune_interval (s : BlockStorage A) block :
  let s' := BlockArchive.archive_block retention prune_interval s block in
  horizon s <= am_number block -> items s !! am_number block = None ->
  let kept := <[am_number block := (am_hash block, am_bytes block)]> (items s) in
  let floor := saturating_sub (am_number block) retention / section s * section s in
  section s' = section s /\
  if (0 <? retention) && (retention <? am_number block) && (am_number block mod prune_interval =? 0)
  then horizon s' = Z.max (horizon s) floor /\ items s' = filter (fun '(n, _) => floor <= n) kept
  else horizon s' = horizon s /\ items s' = kept.
Proof.
  cbv zeta. intros Hhor Hnew. unfold BlockArchive.archive_block, BlockStorage.put_sync, BlockStorage.prune, BlockStorage.update.
  pose proof (put_sync_law (bs_archive s) (am_number block) (am_hash block) (am_bytes block)) as Hput.
  destruct (archive_put_sync _ _ _ _) as [r a]. destruct Hput as (Hsec & Hhor' & Hput).
  rewrite bool_decide_true in Hput by done. rewrite Hnew in Hput. destruct Hput as [-> Hitems]. cbn.
  case_match; cbn; [|by rewrite Hsec, Hhor', Hitems].
  pose proof (prune_law a (saturating_sub (am_number block) retention)) as Hprune.
  destruct (archive_prune _ _) as [r' a']. destruct Hprune as (Hsec' & Hhor2 & Hitems'). cbn.
  by rewrite Hsec', Hsec, Hhor2, Hhor', Hitems', Hitems, Hsec.
Qed.

Lemma floor_le x d : 0 < d -> x - d < x / d * d <= x.
Proof. intros. pose proof (Z.mod_pos_bound x d). pose proof (Z.div_mod x d). nia. Qed.

Lemma ascending_snoc l block :
  ascending (l ++ [block]) <-> ascending l /\ Forall (fun b => am_number b < am_number block) l.
Proof.
  unfold ascending. rewrite fmap_app, StronglySorted_app, Forall_forall. cbn. split.
  - intros (Hlt & Hs & _). split; [done|]. intros b Hb. apply Hlt; [by apply list_elem_of_fmap_2 | set_solver].
  - intros [Hs Hl]. split_and!; [|done|repeat constructor].
    intros x y Hx Hy. apply list_elem_of_fmap in Hx as (b & -> & Hb). apply list_elem_of_singleton in Hy as ->. by apply Hl.
Qed.

Lemma fold_archive retention prune_interval (s0 : BlockStorage A) blocks :
  0 < section s0 -> ascending blocks ->
  Forall (fun b => 0 <= am_number b /\ horizon s0 <= am_number b /\ items s0 !! am_number b = None) blocks ->
  let s := foldl (BlockArchive.archive_block retention prune_interval) s0 blocks in
  section s = section s0 /\
  (horizon s <= horizon s0 \/ exists b, b ∈ blocks /\ horizon s <= am_number b) /\
  (forall n, items s0 !! n = None -> Forall (fun b => am_number b < n) blocks -> items s !! n = None) /\
  (forall b, b ∈ blocks -> Forall (fun b' => am_number b' <= am_number b + retention) blocks ->
     items s !! am_number b = Some (am_hash b, am_bytes b)).
Proof.
  intros Hsec. induction blocks as [|block blocks IH] using rev_ind; intros Hasc Hall; cbv zeta.
  { cbn. split_and!; [done | by left | done | set_solver]. }
  apply ascending_snoc in Hasc as [Hasc Hlt]. apply Forall_app in Hall as [Hall Hblock].
  apply Forall_singleton in Hblock as (Hpos & Hhor & Hnew).
  destruct (IH Hasc Hall) as (Hs & Hh & Hfresh & Hkept). rewrite foldl_snoc.
  set (s := foldl _ s0 blocks) in *.
  assert (Hnum : horizon s <= am_number block).
  { destruct Hh as [?|(b & Hb & ?)]; [lia|]. eapply Forall_forall in Hlt; [|exact Hb]. cbv beta in Hlt. lia. }
  destruct (archive_block_spec retention prune_interval s block Hnum (Hfresh _ Hnew Hlt)) as (Hs' & Hcase).
  assert (Hpos' : 0 < section s) by (by rewrite Hs).
  pose proof (floor_le (saturating_sub (am_number block) retention) (section s) Hpos') as Hfl.
  assert (Hkeep : forall b, b ∈ blocks ++ [block] ->
    Forall (fun b' => am_number b' <= am_number b + retention) (blocks ++ [block]) ->
    am_number block <= am_number b + retention /\
    <[am_number block := (am_hash block, am_bytes block)]> (items s) !! am_number b = Some (am_hash b, am_bytes b)).
  { intros b Hb Hl. apply Forall_app in Hl as [Hl Hlast]. rewrite Forall_singleton in Hlast. split; [done|]. apply elem_of_app in Hb as [Hb|Hb].
    - rewrite lookup_insert_ne; [by apply Hkept|]. eapply Forall_forall in Hlt; [|exact Hb]. cbv beta in Hlt. lia.
    - apply list_elem_of_singleton in Hb as ->. apply lookup_insert_eq. }
  assert (Hnone : forall n, items s0 !! n = None -> Forall (fun b => am_number b < n) (blocks ++ [block]) ->
    <[am_number block := (am_hash block, am_bytes block)]> (items s) !! n = None).
  { intros n Hn Hl. apply Forall_app in Hl as [Hl Hlast]. rewrite Forall_singleton in Hlast. rewrite lookup_insert_ne by lia. by apply Hfresh. }
  split; [congruence|]. destruct ((0 <? retention) && _ && _) eqn:Ecase; destruct Hcase as [Hh' Hi']; rewrite Hh', Hi'.
  - unfold saturating_sub in *. repeat apply andb_true_iff in Ecase as [Ecase ?]. zbool. split_and!.
    + right. exists block. split; [set_solver | lia].
    + intros n Hn Hl. apply map_lookup_filter_None. left. by apply Hnone.
    + intros b Hb Hl. destruct (Hkeep b Hb Hl). apply map_lookup_filter_Some. split; [done|]. lia.
  - split_and!; [right; exists block; split; [set_solver | done] | done | by intros; apply Hkeep].
Qed.

Lemma Forall_sublist (P : ArchiveMessage -> Prop) l k : l `sublist_of` k -> Forall P k -> Forall P l.
Proof. rewrite !Forall_forall. intros Hl HP b Hb. apply HP. by eapply elem_of_sublist. Qed.


(** ** Consecutive blocks *)
Definition consecutive (h : Z) (blocks : list ArchiveMessage) : Prop :=
  am_number <$> blocks = seqZ h (zlen blocks).

Lemma consecutive_snoc h l block :
  consecutive h (l ++ [block]) -> consecutive h l /\ am_number block = h + zlen l.
Proof.
  unfold consecutive. rewrite fmap_app, zlen_app. cbn. change (zlen [block]) with 1.
  rewrite seqZ_app by (unfold zlen; lia). intros Heq. apply app_inj_2 in Heq as [Hl Hb]; [|done].
  split; [done|]. unfold seqZ in Hb. cbn in Hb. injection Hb as ->. lia.
Qed.

Lemma consecutive_range h l : consecutive h l -> Forall (fun b => h <= am_number b < h + zlen l) l.
Proof.
  intros Hc. apply Forall_forall. intros b Hb. apply (list_elem_of_fmap_2 am_number) in Hb. rewrite Hc in Hb.
  apply elem_of_seqZ in Hb. lia.
Qed.

Lemma consecutive_ascending h l : consecutive h l -> ascending l.
Proof.
  induction l as [|block l IH] using rev_ind; intros Hc; [constructor|].
  apply consecutive_snoc in Hc as [Hc Hb]. apply ascending_snoc. split; [by apply IH|].
  eapply Forall_impl; [by apply consecutive_range|]. cbn. lia.
Qed.

Lemma fold_bounded retention (s0 : BlockStorage A) h blocks :
  0 < section s0 -> 0 < retention -> 0 <= h -> horizon s0 <= h -> items s0 = ∅ -> consecutive h blocks ->
  let s := foldl (BlockArchive.archive_block retention (section s0)) s0 blocks in
  forall n x, items s !! n = Some x ->
    h <= n /\ (h + zlen blocks - 1) / section s0 * section s0 - retention - section s0 < n.
Proof.
  intros Hsec Hret Hh Hhor Hempty. induction blocks as [|block blocks IH] using rev_ind; intros Hc; cbv zeta.
  { cbn. rewrite Hempty. intros n x Hx. by rewrite lookup_empty in Hx. }
  apply consecutive_snoc in Hc as [Hc Hb]. specialize (IH Hc). cbv zeta in IH. rewrite foldl_snoc, zlen_app.
  change (zlen [block]) with 1. pose proof (consecutive_range _ _ Hc) as Hrange.
  destruct (fold_archive retention (section s0) s0 blocks) as (Hs & Hh' & Hfresh & _);
    [done | by eapply consecutive_ascending | |].
  { eapply Forall_impl; [exact Hrange|]. intros b Hb'. cbv beta in Hb'. rewrite Hempty. split_and!; [lia | lia | done]. }
  set (s := foldl _ s0 blocks) in *. assert (Hlast : h + (zlen blocks + 1) - 1 = am_number block) by lia. rewrite Hlast.
  assert (Hnum : horizon s <= am_number block).
  { pose proof (zlen_nonneg blocks). destruct Hh' as [?|(b & Hb' & ?)]; [lia|].
    rewrite Forall_forall in Hrange. specialize (Hrange _ Hb'). lia. }
  assert (Hnew : items s !! am_number block = None).
  { apply Hfresh; [by rewrite Hempty|]. eapply Forall_impl; [exact Hrange|]. cbn. lia. }
  destruct (archive_block_spec retention (section s0) s block Hnum Hnew) as (_ & Hcase). rewrite Hs in Hcase.
  pose proof (floor_le (am_number block) (section s0) Hsec) as Hfl. pose proof (zlen_nonneg blocks) as Hlen.
  assert (Hkept : forall n x, <[am_number block := (am_hash block, am_bytes block)]> (items s) !! n = Some x ->
    h <= n /\ (n = am_number block \/ (h + zlen blocks - 1) / section s0 * section s0 - retention - section s0 < n)).
  { intros n x Hx. apply lookup_insert_Some in Hx as [[<- _]|[_ Hx]]; [lia|]. specialize (IH _ _ Hx). lia. }
  assert (Hstep : am_number block mod section s0 ≠ 0 ->
    (h + zlen blocks - 1) / section s0 = am_number block / section s0).
  { intros Hmod. replace (h + zlen blocks - 1) with (am_number block - 1) by lia.
    pose proof (Z.div_mod (am_number block) (section s0)). pose proof (Z.mod_pos_bound (am_number block) (section s0)).
    symmetry. apply (Z.div_unique _ _ _ (am_number block mod section s0 - 1)); lia. }
  intros n x. destruct ((0 <? retention) && _ && _) eqn:Ecase; destruct Hcase as [_ ->].
  - repeat apply andb_true_iff in Ecase as [Ecase ?]. zbool. intros [Hx Hn]%map_lookup_filter_Some.
    pose proof (floor_le (saturating_sub (am_number block) retention) (section s0) Hsec) as Hfl'.
    unfold saturating_sub in *. specialize (Hkept _ _ Hx). lia.
  - intros Hx. destruct (Hkept _ _ Hx) as [Hn [->|Hn']]; [lia|]. split; [done|].
    destruct (Z.eq_dec (am_number block mod section s0) 0) as [Hz|Hnz]; [|by rewrite <-Hstep].
    rewrite Hz in Ecase. cbn in Ecase. zbool. destruct (Z.ltb_spec 0 retention); [|lia]. cbn in Ecase.
    rewrite andb_true_r in Ecase. zbool. lia.
Qed.

(** ** Blocks that are never written *)
Lemma archive_block_absent retention prune_interval (s : BlockStorage A) block n :
  am_number block ≠ n -> items s !! n = None ->
  items (BlockArchive.archive_block retention prune_interval s block) !! n = None.
Proof.
  intros Hne Hn. unfold BlockArchive.archive_block, BlockStorage.put_sync, BlockStorage.prune, BlockStorage.update.
  pose proof (put_sync_law (bs_archive s) (am_number block) (am_hash block) (am_bytes block)) as Hput.
  destruct (archive_put_sync _ _ _ _) as [r a]. destruct Hput as (_ & _ & Hput). cbn.
  assert (Ha : archive_items a !! n = None).
  { case_bool_decide; destruct Hput as [_ ->]; [|done]. case_match; [done|]. by rewrite lookup_insert_ne. }
  clear Hput. case_match; [|exact Ha]. pose proof (prune_law a (saturating_sub (am_number block) retention)) as Hprune.
  destruct (archive_prune _ _) as [r' a']. destruct Hprune as (_ & _ & Hitems). cbn. rewrite Hitems.
  apply map_lookup_filter_None. by left.
Qed.

Lemma get_by_number_items (s : BlockStorage A) n : BlockStorage.get_by_number s n = Ok (snd <$> items s !! n).
Proof. unfold BlockStorage.get_by_number. by rewrite get_law. Qed.


(** The archive is bounded. When an empty archive is given consecutive
    blocks and refuses none, it holds no block that is more than the retention
    and two sections older than the latest one written. *)
Theorem archive_bounded (self : BlockArchive A) h events written n b :
  0 < section (ba_store self) -> ba_prune_interval self = section (ba_store self) -> 0 < ba_retention self ->
  ba_channel self = [] -> items (ba_store self) = ∅ -> horizon (ba_store self) <= h -> 0 <= h ->
  let self' := BlockArchive.run self events in
  accepted self events = written ++ ba_channel self' -> consecutive h written -> b ∈ written ->
  BlockStorage.get_by_number (ba_store self') n ≠ Ok None ->
  am_number b < n + ba_retention self + 2 * section (ba_store self).
Proof.
  intros Hsec Hpi Hret Hch Hempty Hhor Hh. cbv zeta. intros Hacc Hc Hb Hget.
  destruct (run_split self events) as (written' & Hacc' & Hstore). rewrite Hch in Hacc'. cbn in Hacc'.
  rewrite Hacc in Hacc'. apply app_inj_2 in Hacc' as [<- _]; [|done].
  rewrite get_by_number_items, Hstore, Hpi in Hget.
  destruct (items (foldl _ (ba_store self) written) !! n) as [x|] eqn:Hx; [|done].
  pose proof (fold_bounded _ _ _ _ Hsec Hret Hh Hhor Hempty Hc n x Hx) as [_ Hn].
  pose proof (consecutive_range _ _ Hc) as Hrange. rewrite Forall_forall in Hrange. specialize (Hrange _ Hb). cbn in Hrange.
  pose proof (floor_le (h + zlen written - 1) (section (ba_store self)) Hsec). lia.
Qed.

(** A block produced while 64 others wait is not archived, now or later:
    the callback drops it, and its number stays absent unless it is produced
    again. *)
Theorem archive_loses_block (self : BlockArchive A) block events :
  zlen (ba_channel self) = CHANNEL_CAPACITY -> items (ba_store self) !! am_number block = None ->
  Forall (fun b => am_number b ≠ am_number block) (ba_channel self ++ produced events) ->
  BlockStorage.get_by_number (ba_store (BlockArchive.run self (Produced block :: events))) (am_number block) = Ok None.
Proof.
  intros Hfull Hnone Hother. unfold BlockArchive.run. cbn [foldl BlockArchive.on_event]. unfold BlockArchive.callback.
  rewrite Hfull, Z.ltb_irrefl. destruct (run_split self events) as (written & Hacc & Hstore).
  fold (BlockArchive.run self events). rewrite get_by_number_items, Hstore.
  assert (Hw : Forall (fun b => am_number b ≠ am_number block) written).
  { apply Forall_app in Hother as [Hc Hp].
    assert (Forall (fun b => am_number b ≠ am_number block) (ba_channel self ++ accepted self events)) as Hca.
    { apply Forall_app. split; [done|]. eapply Forall_sublist; [|done]. apply accepted_sublist. }
    rewrite Hacc in Hca. by apply Forall_app in Hca as [? _]. }
  clear Hacc Hstore. assert (Hfold : items (foldl (BlockArchive.archive_block (ba_retention self) (ba_prune_interval self))
    (ba_store self) written) !! am_number block = None); [|by rewrite Hfold].
  revert Hnone. generalize (ba_store self). induction Hw as [|b written Hb Hw IH]; intros s Hs; [done|].
  cbn. apply IH. by apply archive_block_absent.
Qed.

End Archive.

(** ** An archive in memory *)
Record MemoryArchive := mkMemoryArchive { ma_section : Z; ma_horizon : Z; ma_items : gmap Z (BlockHash * bytes) }.

Definition memory_put (a : MemoryArchive) (n : Z) (hash : BlockHash) (b : bytes) : Result unit unit * MemoryArchive :=
  if bool_decide (ma_horizon a <= n)
  then (Ok tt, mkMemoryArchive (ma_section a) (ma_horizon a)
                 match ma_items a !! n with Some _ => ma_items a | None => <[n := (hash, b)]> (ma_items a) end)
  else (Err tt, a).

Definition memory_find (a : MemoryArchive) (id : Identifier) : option bytes :=
  match id with
  | Index n => snd <$> ma_items a !! n
  | Key hash => list.head (omap (fun '(_, (h, b)) => if bool_decide (h = hash) then Some b else None) (map_to_list (ma_items a)))
  end.

Definition memory_floor (a : MemoryArchive) (min : Z) : Z := min / ma_section a * ma_section a.

#[export] Instance memory_archive : PrunableArchive unit MemoryArchive unit := {|
  archive_init _ cfg := Ok (mkMemoryArchive (items_per_section cfg) 0 ∅);
  archive_put := memory_put;
  archive_put_sync := memory_put;
  archive_get a id := Ok (memory_find a id);
  archive_has a id := Ok (bool_decide (is_Some (memory_find a id)));
  archive_first a := list.head (merge_sort Z.le (map_to_list (ma_items a)).*1);
  archive_last a := last (merge_sort Z.le (map_to_list (ma_items a)).*1);
  archive_prune a min :=
    (Ok tt, mkMemoryArchive (ma_section a) (Z.max (ma_horizon a) (memory_floor a min))
              (filter (fun '(n, _) => memory_floor a min <= n) (ma_items a)));
  archive_sync a := (Ok tt, a) |}.

#[export] Program Instance memory_archive_laws : ArchiveLaws unit MemoryArchive unit := {|
  archive_items := ma_items; archive_horizon := ma_horizon; archive_section := ma_section |}.
Next Obligation. intros context cfg a Ha. by injection Ha as <-. Qed.
Next Obligation.
  intros a n hash b. cbn. unfold memory_put. case_bool_decide; cbn; split_and!; try done. by exists tt.
Qed.
Next Obligation. done. Qed.
Next Obligation. done. Qed.

(** The archive of the node, and blocks to write. *)
Definition node_archive : BlockArchive MemoryArchive := default (mkBlockArchive 0 0 [] (mkBlockStorage (mkMemoryArchive 0 0 ∅)))
  (BlockArchive.build_block_archive tt).

Definition block_message (n : Z) : ArchiveMessage := mkArchiveMessage n (vreplicate 32 x01) (le_bytes 8 n).

(** Three blocks, the consumer lagging behind. *)
Definition three_blocks : list ArchiveEvent :=
  [Produced (block_message 1); Produced (block_message 2); Consumed; Produced (block_message 3); Consumed].

(** The archive while 64 blocks wait. *)
Definition full_archive : BlockArchive MemoryArchive := BlockArchive.run node_archive (Produced ∘ block_message <$> seqZ 1 64).


Lemma archive_bounded_witness :
  am_number (block_message 2) < 1 + ba_retention node_archive + 2 * archive_section (bs_archive (ba_store node_archive)).
Proof.
  apply (archive_bounded node_archive 1 three_blocks [block_message 1; block_message 2] 1 (block_message 2));
    [by vm_compute | by vm_compute | by vm_compute | by vm_compute | by vm_compute | by vm_compute | by vm_compute
    | by vm_compute | by vm_compute | by right; left | by vm_compute].
Defined.

Lemma archive_loses_block_witness :
  BlockStorage.get_by_number (ba_store (BlockArchive.run full_archive (Produced (block_message 65) :: replicate 64 Consumed))) 65
    = Ok None.
Proof.
  apply (archive_loses_block full_archive (block_message 65) (replicate 64 Consumed)); [by vm_compute | by vm_compute |].
  apply Forall_forall. intros b Hb.
  assert (Hn : am_number b ∈ seqZ 1 64) by (apply (list_elem_of_fmap_2 am_number) in Hb; by vm_compute in Hb).
  apply elem_of_seqZ in Hn. cbn. lia.
Defined.
