(* ===== verification/Node.v ===== *)
(** * The development node

    Models [crates/app/node/src/lib.rs]: the RPC configuration, the start of the
    chain from storage or from genesis, the runners and the end of a run. A run
    takes what its ticks see as an argument: the time, and what the RPC server
    does to the shared mempool while the block is produced. It stops between two
    ticks. The storage, the database of the index and the genesis of the
    application are arguments, as they are of the code; [None] stands for a
    panic. Addresses are their texts; environment variables are arguments. The
    loops are those of [crates/app/server/src/dev.rs]. *)

From S2P Require Import Prelude Core Gas Collections ExecState ExecStateFacts Commit Runtime Invoker Token Stf Mempool.
From S2P Require Import StorageBackend Server EthTx EthContext EthGateway Indexing IndexStore Rpc Querier Provider.
From S2P Require Import RpcServer Schema GrpcConv Grpc.

Open Scope evolve_scope.

Definition DEFAULT_DATA_DIR : string := "./data".
Definition DEFAULT_RPC_ADDR : string := "127.0.0.1:8545".

(** ** The environment *)

(** [str::parse::<u64>]: digits, perhaps after a plus sign. *)
Fixpoint parse_digits (n : Z) (s : string) : option Z :=
  match s with
  | EmptyString => Some n
  | String c s =>
      let d := Z.of_N (Ascii.N_of_ascii c) - 48 in
      if (0 <=? d) && (d <=? 9) && (n * 10 + d <=? u64_max) then parse_digits (n * 10 + d) s else None
  end.

Definition parse_u64 (s : string) : option Z :=
  let digits := match s with String c rest => if Ascii.eqb c (Ascii.ascii_of_N 43) then rest else s | EmptyString => s end in
  match digits with EmptyString => None | _ => parse_digits 0 digits end.

Definition parse_env_u64 (var : option string) (default : Z) : Z :=
  match var ≫= parse_u64 with
  | Some v => if 0 <? v then v else default
  | None => default
  end.

(** A [usize] has 64 bits. *)
Definition parse_env_usize (var : option string) (default : Z) : Z :=
  match var ≫= parse_u64 with
  | Some v => if 0 <? v then v else default
  | None => default
  end.

(** The variables [EVOLVE_BLOCK_INTERVAL_MS] and [EVOLVE_MAX_TXS_PER_BLOCK]. *)
Record NodeEnv := mkNodeEnv { evolve_block_interval_ms : option string; evolve_max_txs_per_block : option string }.

Definition configured_block_interval (env : NodeEnv) : Z := parse_env_u64 (evolve_block_interval_ms env) 1000.
Definition configured_max_txs_per_block (env : NodeEnv) : Z := parse_env_usize (evolve_max_txs_per_block env) 1000.

(** ** [RpcConfig] *)
Record RpcConfig := mkRpcConfig {
  http_addr : string; rc_chain_id : Z; enabled : bool; enable_block_indexing : bool; grpc_addr : option string;
  grpc_enable_gzip : bool; grpc_max_message_size : Z; shutdown_timeout_secs : Z }.

Definition RpcConfig_default : RpcConfig :=
  mkRpcConfig DEFAULT_RPC_ADDR 1 true true None true (4 * 1024 * 1024) 10.

Module RpcConfig.

Definition disabled : RpcConfig :=
  mkRpcConfig (http_addr RpcConfig_default) (rc_chain_id RpcConfig_default) false
    (enable_block_indexing RpcConfig_default) (grpc_addr RpcConfig_default) (grpc_enable_gzip RpcConfig_default)
    (grpc_max_message_size RpcConfig_default) (shutdown_timeout_secs RpcConfig_default).

Definition with_addr (self : RpcConfig) (addr : string) : RpcConfig :=
  mkRpcConfig addr (rc_chain_id self) (enabled self) (enable_block_indexing self) (grpc_addr self)
    (grpc_enable_gzip self) (grpc_max_message_size self) (shutdown_timeout_secs self).

Definition with_chain_id (self : RpcConfig) (chain_id : Z) : RpcConfig :=
  mkRpcConfig (http_addr self) chain_id (enabled self) (enable_block_indexing self) (grpc_addr self)
    (grpc_enable_gzip self) (grpc_max_message_size self) (shutdown_timeout_secs self).

Definition with_block_indexing (self : RpcConfig) (on : bool) : RpcConfig :=
  mkRpcConfig (http_addr self) (rc_chain_id self) (enabled self) on (grpc_addr self)
    (grpc_enable_gzip self) (grpc_max_message_size self) (shutdown_timeout_secs self).

Definition with_grpc (self : RpcConfig) (addr : string) : RpcConfig :=
  mkRpcConfig (http_addr self) (rc_chain_id self) (enabled self) (enable_block_indexing self) (Some addr)
    (grpc_enable_gzip self) (grpc_max_message_size self) (shutdown_timeout_secs self).

Definition with_grpc_settings (self : RpcConfig) (enable_gzip : bool) (max_message_size : Z) : RpcConfig :=
  mkRpcConfig (http_addr self) (rc_chain_id self) (enabled self) (enable_block_indexing self) (grpc_addr self)
    enable_gzip max_message_size (shutdown_timeout_secs self).

Definition with_shutdown_timeout_secs (self : RpcConfig) (secs : Z) : RpcConfig :=
  mkRpcConfig (http_addr self) (rc_chain_id self) (enabled self) (enable_block_indexing self) (grpc_addr self)
    (grpc_enable_gzip self) (grpc_max_message_size self) secs.

End RpcConfig.

Definition grpc_server_config (rpc_config : RpcConfig) (addr : string) : GrpcServerConfig :=
  mkGrpcServerConfig addr (rc_chain_id rpc_config) (grpc_enable_gzip rpc_config) (grpc_max_message_size rpc_config).

(** ** The modes of the Ethereum runner *)
Inductive EthRunnerMode := PersistentSidecars | EphemeralSidecars.

Definition enable_block_archive (self : EthRunnerMode) : bool :=
  match self with PersistentSidecars => true | EphemeralSidecars => false end.

(** [data_dir.join] on a directory without a trailing slash. *)
Definition persistent_chain_index_path (self : EthRunnerMode) (data_dir : string) : option string :=
  match self with PersistentSidecars => Some (data_dir ++ "/chain-index.sqlite")%string | EphemeralSidecars => None end.

Record EthRunnerConfig := mkEthRunnerConfig { er_rpc : RpcConfig; runner_mode : EthRunnerMode }.

(** ** Genesis *)
Record GenesisOutput (G : Type) := mkGenesisOutput { go_result : G; go_changes : list CoreStateChange }.
Arguments mkGenesisOutput {G} _ _.
Arguments go_result {G} _.
Arguments go_changes {G} _.

Class HasTokenAccountId (G : Type) := { token_account_id : G -> AccountId }.

Section Genesis.
Context {G S : Type} `{Borsh (Server.ChainState G)} `{Storage S}.

Definition commit_genesis (storage : S) (changes : list CoreStateChange) (genesis_result : G)
    : Result (list Server.Piece) unit * S :=
  let operations := state_changes_to_operations changes in
  match to_vec (Server.mkChainState 1 genesis_result) with
  | None => (Err [Server.Lit "serialize chain state: "], storage)
  | Some value =>
      let operations := operations ++ [OperationSet Server.CHAIN_STATE_KEY value] in
      match storage_batch storage operations with
      | (Err e, storage) => (Err [Server.Lit "batch failed: "; Server.Debug e], storage)
      | (Ok _, storage) =>
          match storage_commit storage with
          | (Err e, storage) => (Err [Server.Lit "commit failed: "; Server.Debug e], storage)
          | (Ok _, storage) => (Ok tt, storage)
          end
      end
  end.

(** The genesis of the application on a new storage. *)
Abbreviation RunGenesis := (S -> Result (list Server.Piece) (GenesisOutput G)).

(** Where the chain starts: what was saved, or what genesis leaves. *)
Definition start_chain (run_genesis : RunGenesis) (storage : S) : option (G * Z * S) :=
  match Server.load_chain_state storage with
  | Some state => Some (Server.genesis_result state, Server.cs_height state, storage)
  | None =>
      match run_genesis storage with
      | Err _ => None
      | Ok output =>
          match commit_genesis storage (go_changes output) (go_result output) with
          | (Err _, _) => None
          | (Ok _, storage) => Some (go_result output, 1, storage)
          end
      end
  end.

(** What [init_dev_node] leaves in the storage. *)
Definition init_dev_node (run_genesis : RunGenesis) (storage : S) : option S :=
  match Server.load_chain_state (G := G) storage with
  | Some _ => Some storage
  | None =>
      match run_genesis storage with
      | Err _ => None
      | Ok output =>
          match commit_genesis storage (go_changes output) (go_result output) with
          | (Err _, _) => None
          | (Ok _, storage) => Some storage
          end
      end
  end.

(** The end of a run; a failure to save is logged. *)
Definition stop_chain (genesis_result : G) (final_height : Z) (storage : S) : S :=
  (Server.save_chain_state storage (Server.mkChainState final_height genesis_result)).2.

End Genesis.

(** ** Runs *)

(** What a tick sees. *)
Record Tick (Tx : Type) `{MempoolTx Tx} := mkTick { tick_now : Z; tick_meanwhile : Mempool Tx -> Mempool Tx }.
Arguments mkTick {Tx _} _ _.
Arguments tick_now {Tx _} _.
Arguments tick_meanwhile {Tx _} _.

(** What a run did: the result of each tick, the tasks it spawned, the engine
    when it stopped, and the storage after the state of the chain was saved. *)
Record Run (Tx S I Subs Callback : Type) `{MempoolTx Tx} := mkRun {
  run_blocks : list (Result Server.ServerError Server.ProducedBlock);
  run_tasks : list (Server.Task Tx I Subs Callback);
  run_engine : Server.DevConsensus Tx S I Subs Callback;
  run_storage : S }.
Arguments mkRun {Tx S I Subs Callback _} _ _ _ _.
Arguments run_blocks {Tx S I Subs Callback _} _.
Arguments run_tasks {Tx S I Subs Callback _} _.
Arguments run_engine {Tx S I Subs Callback _} _.
Arguments run_storage {Tx S I Subs Callback _} _.

Section Runners.
Context `{RuntimeDeps} {Tx S I Subs Callback G : Type}.
Context `{Transaction Tx} `{MempoolTx Tx} `{Encodable Tx} `{Storage S} `{Borsh Server.ArchivedBlock}.
Context `{Borsh (Server.ChainState G)}.
Context (fuel : nat) (drained : gset Hash -> list Hash) (env : NodeEnv).

Abbreviation Dev := (Server.DevConsensus Tx S I Subs Callback).
Abbreviation TickResult := (Result Server.ServerError Server.ProducedBlock).

(** The loop of [run_block_production] and [run_block_production_with_mempool]
    over the ticks before the stop; a failure is logged. *)
Fixpoint production_loop (tick : Dev -> Tick Tx -> option (TickResult * list (Server.Task Tx I Subs Callback) * Dev))
    (self : Dev) (ticks : list (Tick Tx)) : option (list TickResult * list (Server.Task Tx I Subs Callback) * Dev) :=
  match ticks with
  | [] => Some ([], [], self)
  | t :: ticks =>
      '(r, tasks, self) ← tick self t;
      '(rs, more, self) ← production_loop tick self ticks;
      Some (r :: rs, tasks ++ more, self)
  end.

Definition run_block_production (self : Dev) (ticks : list (Tick Tx)) :=
  match Server.block_interval (Server.config self) with
  | None => Some ([], [], self)
  | Some _ => production_loop (fun self t => Server.DevConsensus.produce_block fuel self (tick_now t)) self ticks
  end.

Definition run_block_production_with_mempool (self : Dev) (max_txs_per_block : Z) (ticks : list (Tick Tx)) :=
  match Server.block_interval (Server.config self) with
  | None => Some ([], [], self)
  | Some _ =>
      production_loop
        (fun self t => Server.DevConsensus.production_tick fuel drained (tick_meanwhile t) self (tick_now t) max_txs_per_block)
        self ticks
  end.

(** The configuration of the engine. *)
Definition dev_config (initial_height chain_id : Z) : Server.DevConfig :=
  Server.mkDevConfig (Some (configured_block_interval env)) (Server.dev_gas_limit Server.config_default) initial_height chain_id.

(** From the end of the loop to the end of the run. *)
Definition finish (genesis_result : G)
    (outcome : option (list TickResult * list (Server.Task Tx I Subs Callback) * Dev)) : option (Run Tx S I Subs Callback) :=
  '(blocks, tasks, dev) ← outcome;
  Some (mkRun blocks tasks dev (stop_chain genesis_result (Server.DevConsensus.height dev) (Server.dc_storage dev))).

Context (build_stf : G -> Stf Tx (Server.Block Tx)) (codes : AccountsCodeStorage).
Context (run_genesis : S -> Result (list Server.Piece) (GenesisOutput G)).

Definition run_dev_node_with_rpc (storage : S) (rpc_config : RpcConfig) (archive_cb : Callback) (ticks : list (Tick Tx))
    : option (Run Tx S I Subs Callback) :=
  if enabled rpc_config then None
  else
    '(genesis_result, initial_height, storage) ← start_chain run_genesis storage;
    let stf := build_stf genesis_result in
    let consensus :=
      Server.DevConsensus.with_block_archive
        (Server.DevConsensus.new stf storage codes (dev_config initial_height (rc_chain_id rpc_config))) archive_cb in
    finish genesis_result (run_block_production consensus ticks).

Definition run_dev_node (storage : S) (archive_cb : Callback) (ticks : list (Tick Tx)) : option (Run Tx S I Subs Callback) :=
  run_dev_node_with_rpc storage RpcConfig.disabled archive_cb ticks.

(** The check of the configuration comes after genesis. *)
Definition run_dev_node_with_rpc_and_mempool (storage : S) (rpc_config : RpcConfig) (ticks : list (Tick Tx))
    : option (Run Tx S I Subs Callback) :=
  '(genesis_result, initial_height, storage) ← start_chain run_genesis storage;
  let stf := build_stf genesis_result in
  let max_txs_per_block := configured_max_txs_per_block env in
  let mempool := Mempool.new in
  if enabled rpc_config then None
  else
    let dev := Server.DevConsensus.with_mempool stf storage codes (dev_config initial_height (rc_chain_id rpc_config)) mempool in
    finish genesis_result (run_block_production_with_mempool dev max_txs_per_block ticks).

Record DevNodeMempoolHandles := mkDevNodeMempoolHandles { dn_dev : Dev; dn_mempool : Mempool Tx }.

Definition build_dev_node_with_mempool (stf : Stf Tx (Server.Block Tx)) (storage : S) (config : Server.DevConfig)
    : DevNodeMempoolHandles :=
  let mempool := Mempool.new in
  mkDevNodeMempoolHandles (Server.DevConsensus.with_mempool stf storage codes config mempool) mempool.

End Runners.

(** ** The Ethereum runner *)

(** A run with the servers it started: the provider of the JSON-RPC server, and
    the gRPC server. *)
Record EthRun (S I Subs Callback P : Type) `{MempoolTx TxContext} := mkEthRun {
  eth_run : Run TxContext S I Subs Callback; json_rpc : option P; grpc : option (GrpcServer P) }.
Arguments mkEthRun {S I Subs Callback P _} _ _ _.
Arguments eth_run {S I Subs Callback P _} _.
Arguments json_rpc {S I Subs Callback P _} _.
Arguments grpc {S I Subs Callback P _} _.

Section EthRunner.
Context `{RuntimeDeps} `{CollectionCodec} `{!TokenCodec} `{EthCodec} `{Borsh string} `{CallJson}.
Context `{Secp256k1} `{AlloyTx TxLegacy} `{AlloyTx TxEip1559} `{Borsh Server.ArchivedBlock}.
Context {S I Callback G A Schema : Type} `{Storage S} `{ChainIndex I ChainIndexError} `{SchemaCodes A Schema}.
Context `{Borsh (Server.ChainState G)} `{HasTokenAccountId G}.
Context (fuel : nat) (drained : gset Hash -> list Hash) (env : NodeEnv).
Context (build_stf : G -> Stf TxContext (Server.Block TxContext)) (codes : AccountsCodeStorage) (rpc_codes : A).
Context (run_genesis : S -> Result (list Server.Piece) (GenesisOutput G)).

Abbreviation Querier := (StorageStateQuerier (RpcStf (Server.Block TxContext))).
Abbreviation Provider := (ChainStateProvider I A Querier Schema).

(** [None] stands for the panic. *)
Definition ensure_rpc_startup_compatibility (provider : Provider) : option unit :=
  match ChainStateProvider.ensure_rpc_compatibility provider with Ok _ => Some tt | Err _ => None end.

(** The provider of a server; its querier reads the storage of the engine. *)
Definition state_provider (chain_index : I) (rpc_config : RpcConfig) (genesis_result : G) (storage : S)
    (mempool : Mempool TxContext) : Provider :=
  ChainStateProvider.with_state_querier
    (ChainStateProvider.with_mempool chain_index
       (mkChainStateProviderConfig (rc_chain_id rpc_config) DEFAULT_PROTOCOL_VERSION 0 (NotSyncing false))
       rpc_codes mempool)
    (StorageStateQuerier.new (storage_get storage) (token_account_id genesis_result) codes
       (mkRpcStf (build_stf genesis_result) fuel)).

(** [open_index] opens the database of the index, in memory without a path, and
    initialises it. *)
Definition run_dev_node_with_rpc_and_mempool_eth_impl (data_dir : string) (storage : S) (open_index : option string -> option I)
    (archive_cb : Callback) (runner_config : EthRunnerConfig) (ticks : list (Tick TxContext))
    : option (EthRun S I SubscriptionManager Callback Provider) :=
  let rpc_config := er_rpc runner_config in
  '(genesis_result, initial_height, storage) ← start_chain run_genesis storage;
  let stf := build_stf genesis_result in
  let max_txs_per_block := configured_max_txs_per_block env in
  let config := dev_config env initial_height (rc_chain_id rpc_config) in
  let mempool := Mempool.new in
  let archived consensus :=
    if enable_block_archive (runner_mode runner_config)
    then Server.DevConsensus.with_block_archive consensus archive_cb else consensus in
  if enabled rpc_config then
    chain_index ← open_index (persistent_chain_index_path (runner_mode runner_config) data_dir);
    let subscriptions := SubscriptionManager.new in
    let provider := state_provider chain_index rpc_config genesis_result storage mempool in
    _ ← ensure_rpc_startup_compatibility provider;
    let grpc_server :=
      (fun grpc_addr => GrpcServer.with_subscription_manager (grpc_server_config rpc_config grpc_addr) provider subscriptions)
        <$> grpc_addr rpc_config in
    let consensus :=
      Server.DevConsensus.with_indexing_enabled
        (Server.DevConsensus.with_rpc_and_mempool stf storage codes config chain_index subscriptions mempool)
        (enable_block_indexing rpc_config) in
    let dev := archived consensus in
    run ← finish genesis_result (run_block_production_with_mempool fuel drained dev max_txs_per_block ticks);
    Some (mkEthRun run (Some provider) grpc_server)
  else
    let dev := archived (Server.DevConsensus.with_mempool stf storage codes config mempool) in
    run ← finish genesis_result (run_block_production_with_mempool fuel drained dev max_txs_per_block ticks);
    Some (mkEthRun run None None).

Definition run_dev_node_with_rpc_and_mempool_eth (data_dir : string) (storage : S) (open_index : option string -> option I)
    (archive_cb : Callback) (rpc_config : RpcConfig) (ticks : list (Tick TxContext)) :=
  run_dev_node_with_rpc_and_mempool_eth_impl data_dir storage open_index archive_cb
    (mkEthRunnerConfig rpc_config PersistentSidecars) ticks.

End EthRunner.

(** The runner on a new storage in memory. *)
Section MockRunner.
Context `{RuntimeDeps} `{CollectionCodec} `{!TokenCodec} `{EthCodec} `{Borsh string} `{CallJson}.
Context `{Secp256k1} `{AlloyTx TxLegacy} `{AlloyTx TxEip1559} `{Borsh Server.ArchivedBlock}.
Context {I Callback G A Schema : Type} `{ChainIndex I ChainIndexError} `{SchemaCodes A Schema}.
Context `{Borsh (Server.ChainState G)} `{HasTokenAccountId G}.
Context (fuel : nat) (drained : gset Hash -> list Hash) (env : NodeEnv).
Context (build_stf : G -> Stf TxContext (Server.Block TxContext)) (codes : AccountsCodeStorage) (rpc_codes : A).

Definition run_dev_node_with_rpc_and_mempool_mock_storage
    (run_genesis : gmap bytes bytes -> Result (list Server.Piece) (GenesisOutput G)) (data_dir : string)
    (open_index : option string -> option I) (archive_cb : Callback) (rpc_config : RpcConfig) (ticks : list (Tick TxContext)) :=
  run_dev_node_with_rpc_and_mempool_eth_impl (Schema := Schema) fuel drained env build_stf codes rpc_codes run_genesis data_dir ∅ open_index
    archive_cb (mkEthRunnerConfig rpc_config EphemeralSidecars) ticks.

End MockRunner.
