(* ===== verification/NodeTheorems.v ===== *)
(** * Restarts of the development node

    The heights of a node that is stopped and started again continue where they
    stopped; what a restart does to the hashes of the blocks, and what happens
    when the node ends without being stopped. *)

From S2P Require Import Prelude Core Gas Collections ExecState ExecStateFacts Commit Runtime Invoker InvokerFacts Token Codec Stf StfFacts.
From S2P Require Import Example Mempool MempoolFacts MempoolSpec StorageBackend StorageTheorems Server ServerFacts.
From S2P Require Import ServerExample EthTx EthContext EthGateway Indexing IndexStore Rpc Querier Provider RpcServer.
From S2P Require Import Schema GrpcConv Grpc Node.

Open Scope evolve_scope.

(** A storage that keeps what a committed batch wrote last. *)
Class DurableStorage (S : Type) `{Storage S} :=
  durable_read s ops k v s1 s2 h :
    storage_batch s (ops ++ [OperationSet k v]) = (Ok tt, s1) -> storage_commit s1 = (Ok h, s2) ->
    storage_get s2 k = Ok (Some v).

#[export] Instance mock_durable : DurableStorage (gmap bytes bytes).
Proof.
  intros s ops k v s1 s2 h. cbn. unfold MockStorage.batch, mock_commit. intros [= <-] [= _ <-].
  unfold MockStorage.get. rewrite foldl_snoc. cbn. by rewrite lookup_insert_eq.
Qed.

(** A storage in which a batch leaves the keys it does not name alone, and a
    commit all of them. *)
Definition operation_key (op : Operation) : bytes :=
  match op with OperationSet k _ | OperationRemove k => k end.

Class FramedStorage (S : Type) `{Storage S} := {
  batch_frame s ops k s1 : k ∉ operation_key <$> ops -> storage_batch s ops = (Ok tt, s1) ->
    storage_get s1 k = storage_get s k;
  commit_frame s k h s1 : storage_commit s = (Ok h, s1) -> storage_get s1 k = storage_get s k }.

#[export] Instance mock_framed : FramedStorage (gmap bytes bytes).
Proof.
  split.
  - intros s ops k s1 Hk. cbn. unfold MockStorage.batch, MockStorage.get. intros [= <-]. by rewrite batch_lookup_notin.
  - intros s k h s1. cbn. unfold mock_commit. by intros [= _ <-].
Qed.

(** The key under which the state of the chain is saved is none of those the
    code of an account can write. *)
Lemma CHAIN_STATE_not_protocol : ~ protocol_key Server.CHAIN_STATE_KEY.
Proof. by intros Hk; inversion Hk. Qed.

(** A key that the execution did not write is not among its changes. *)
Lemma unwritten_not_changed s changes k : ExecutionState.into_changes s = Ok changes ->
  overlay s !! k = None -> k ∉ operation_key <$> state_changes_to_operations changes.
Proof.
  unfold ExecutionState.into_changes. rewrite changes_of_entries_eq. intros [= <-] Hk.
  unfold operation_key. rewrite op_keys, merge_sort_Permutation, entry_keys.
  intros ([k' v] & -> & Hin)%list_elem_of_fmap. apply elem_of_map_to_list in Hin. cbn in Hk. congruence.
Qed.

Section Restart.
Context `{RuntimeDeps} {Tx S I Subs Callback G : Type}.
Context `{Transaction Tx} `{MempoolTx Tx} `{Encodable Tx} `{DurableStorage S} `{Borsh Server.ArchivedBlock}.
Context `{Borsh (Server.ChainState G)}.
Context (fuel : nat) (drained : gset Hash -> list Hash) (env : NodeEnv).
Context (run_genesis : S -> Result (list Server.Piece) (GenesisOutput G)).

Abbreviation Dev := (Server.DevConsensus Tx S I Subs Callback).
Abbreviation TickResult := (Result Server.ServerError Server.ProducedBlock).
Abbreviation height self := (Server.DevConsensus.height self).

(** A tick takes one height, whatever becomes of its block, and a block that is
    produced has that height and names the block before it. *)
Definition takes_height (tick : Dev -> Tick Tx -> option (TickResult * list (Server.Task Tx I Subs Callback) * Dev)) : Prop :=
  forall self t r tasks self', tick self t = Some (r, tasks, self') ->
    height self' = wrap64 (height self + 1) /\
    forall b, r = Ok b -> Server.pb_height b = height self /\
      Server.pb_hash b = Server.compute_block_hash (height self) (tick_now t) (Server.last_hash (Server.state self)).

Lemma produce_takes_height (self self' : Dev) now txs r tasks :
  Server.DevConsensus.produce_block_with_txs fuel self now txs = Some (r, tasks, self') ->
  height self' = wrap64 (height self + 1) /\
  forall b, r = Ok b -> Server.pb_height b = height self /\
    Server.pb_hash b = Server.compute_block_hash (height self) now (Server.last_hash (Server.state self)).
Proof.
  unfold Server.DevConsensus.produce_block_with_txs, Server.DevConsensus.height. cbv zeta.
  destruct (Stf.apply_block _ _ _ _ _); [|done..]. destruct (ExecutionState.into_changes _); [|by intros [= <- _ <-]].
  destruct (storage_batch _ _) as [[] s1]; [|by intros [= <- _ <-]].
  destruct (storage_commit _) as [[] s2]; [|by intros [= <- _ <-]].
  intros [= <- _ <-]. split; [done|]. by intros b [= <-].
Qed.

Lemma production_takes_height :
  takes_height (fun self t => Server.DevConsensus.produce_block fuel self (tick_now t)).
Proof. intros self t r tasks self'. apply produce_takes_height. Qed.

Lemma mempool_takes_height max_txs :
  takes_height (fun self t => Server.DevConsensus.production_tick fuel drained (tick_meanwhile t) self (tick_now t) max_txs).
Proof.
  intros self t r tasks self'. unfold Server.DevConsensus.production_tick.
  destruct (Server.mempool self) as [pool|] eqn:Hpool; [|apply produce_takes_height].
  unfold Server.DevConsensus.produce_block_from_mempool. rewrite Hpool. case_match; [apply produce_takes_height|].
  destruct (Mempool.propose _ _ _) as [[selected gas] pool1].
  destruct (Server.DevConsensus.produce_block_with_txs _ _ _ _) as [[[r1 tasks1] self1]|] eqn:Hprod; [|done].
  apply produce_takes_height in Hprod as [Hh Hb]. cbn [mbind option_bind].
  assert (Hfin : forall pool, height (Server.DevConsensus.set_mempool self1 pool) = height self1) by done.
  destruct r1; intros [= <- _ <-]; (split; [|exact Hb]); repeat case_match; by rewrite ?Hfin.
Qed.

(** A tick that produced its block changed no value but those of the keys the
    code of accounts writes. *)
Definition writes_accounts (tick : Dev -> Tick Tx -> option (TickResult * list (Server.Task Tx I Subs Callback) * Dev)) : Prop :=
  forall self t b tasks self' k, tick self t = Some (Ok b, tasks, self') -> ~ protocol_key k ->
    storage_get (Server.dc_storage self') k = storage_get (Server.dc_storage self) k.

Section Frame.
Context `{!FramedStorage S}.

Lemma produce_frame (self self' : Dev) now txs b tasks k :
  Server.DevConsensus.produce_block_with_txs fuel self now txs = Some (Ok b, tasks, self') -> ~ protocol_key k ->
  storage_get (Server.dc_storage self') k = storage_get (Server.dc_storage self) k.
Proof.
  intros Hprod Hk. revert Hprod. unfold Server.DevConsensus.produce_block_with_txs. cbv zeta.
  destruct (Stf.apply_block _ _ _ _ _) as [result w| |] eqn:Hexec; [|done..].
  apply apply_block_advances in Hexec. pose proof (advances_overlay _ _ k Hexec Hk) as Hover.
  destruct (ExecutionState.into_changes _) as [changes|] eqn:Hc; [|done].
  pose proof (unwritten_not_changed _ _ k Hc Hover) as Hnot.
  destruct (storage_batch _ _) as [[[]|] s1] eqn:Hb; [|done]. apply (batch_frame _ _ k) in Hb; [|done].
  destruct (storage_commit _) as [[h|] s2] eqn:Hs; [|done]. apply (commit_frame _ k) in Hs.
  intros [= _ _ <-]. cbn. by rewrite Hs, Hb.
Qed.

Lemma production_writes_accounts :
  writes_accounts (fun self t => Server.DevConsensus.produce_block fuel self (tick_now t)).
Proof. intros self t b tasks self' k. apply produce_frame. Qed.

Lemma mempool_writes_accounts max_txs :
  writes_accounts (fun self t => Server.DevConsensus.production_tick fuel drained (tick_meanwhile t) self (tick_now t) max_txs).
Proof.
  intros self t b tasks self' k. unfold Server.DevConsensus.production_tick.
  destruct (Server.mempool self) as [pool|] eqn:Hpool; [|apply produce_frame].
  unfold Server.DevConsensus.produce_block_from_mempool. rewrite Hpool. case_match; [apply produce_frame|].
  destruct (Mempool.propose _ _ _) as [[selected gas] pool1].
  destruct (Server.DevConsensus.produce_block_with_txs _ _ _ _) as [[[[b1|e] tasks1] self1]|] eqn:Hprod; [|done..].
  intros Hself Hk. apply (produce_frame _ _ _ _ _ _ k) in Hprod; [|done].
  injection Hself as _ _ <-. by repeat case_match.
Qed.

(** Over the loop. *)
Lemma loop_frame tick (Htick : writes_accounts tick) k (Hk : ~ protocol_key k) ticks : forall (self self' : Dev) blocks tasks,
  production_loop tick self ticks = Some (blocks, tasks, self') -> Forall (fun r => is_ok r = true) blocks ->
  storage_get (Server.dc_storage self') k = storage_get (Server.dc_storage self) k.
Proof.
  induction ticks as [|t ticks IH]; intros self self' blocks tasks; [by intros [= _ _ <-]|].
  cbn [production_loop]. destruct (tick self t) as [[[r tasks1] self1]|] eqn:Ht; [|done]. cbn [mbind option_bind].
  destruct (production_loop tick self1 ticks) as [[[rs more] self2]|] eqn:Hloop; [|done].
  intros [= <- _ <-] [Hr Hrs]%Forall_cons. destruct r as [b|]; [|done].
  by rewrite (IH _ _ _ _ Hloop Hrs), (Htick _ _ _ _ _ _ Ht Hk).
Qed.

End Frame.

Lemma wrap64_add a b : wrap64 (wrap64 a + b) = wrap64 (a + b).
Proof. unfold wrap64. by rewrite Zplus_mod_idemp_l. Qed.

(** The heights along the loop. *)
Lemma loop_heights tick (Htick : takes_height tick) ticks : forall (self self' : Dev) h0 blocks tasks,
  height self = wrap64 h0 -> production_loop tick self ticks = Some (blocks, tasks, self') ->
  length blocks = length ticks /\ height self' = wrap64 (h0 + zlen ticks) /\
  forall i b, blocks !! i = Some (Ok b) -> Server.pb_height b = wrap64 (h0 + Z.of_nat i).
Proof.
  induction ticks as [|t ticks IH]; intros self self' h0 blocks tasks Hh.
  { intros [= <- _ <-]. split_and!; [done | | by intros [|]]. change (zlen []) with 0. by rewrite Z.add_0_r. }
  cbn [production_loop]. destruct (tick self t) as [[[r tasks1] self1]|] eqn:Ht; [|done].
  apply Htick in Ht as [Hh1 Hb]. cbn [mbind option_bind]. rewrite Hh, wrap64_add in Hh1.
  destruct (production_loop tick self1 ticks) as [[[rs more] self2]|] eqn:Hloop; [|done].
  intros [= <- _ <-]. destruct (IH _ _ _ _ _ Hh1 Hloop) as (Hlen & Hfinal & Hblocks). rewrite zlen_cons.
  split_and!; [by f_equal/= | by rewrite Hfinal, <-Z.add_assoc |].
  intros [|i] b; cbn.
  - intros [= ->]. destruct (Hb _ eq_refl) as [-> _]. by rewrite Hh, Z.add_0_r.
  - intros Hi. rewrite (Hblocks _ _ Hi). f_equal. lia.
Qed.

(** What a runner does: start the chain, run an engine that begins there, save
    the state of the chain. *)
Class NodeRunner (runner : S -> list (Tick Tx) -> option (Run Tx S I Subs Callback)) :=
  runner_steps storage ticks r : runner storage ticks = Some r ->
    exists g h s tick dev blocks tasks dev', start_chain run_genesis storage = Some (g, h, s) /\
      takes_height tick /\ Server.state dev = Server.state_new h /\ Server.dc_storage dev = s /\
      production_loop tick dev ticks = Some (blocks, tasks, dev') /\
      r = mkRun blocks tasks dev' (stop_chain g (height dev') (Server.dc_storage dev')).

(** The ticks of the runners: production without a mempool, or with one. *)
Inductive production_step : (Dev -> Tick Tx -> option (TickResult * list (Server.Task Tx I Subs Callback) * Dev)) -> Prop :=
| timer_step : production_step (fun self t => Server.DevConsensus.produce_block fuel self (tick_now t))
| mempool_step max_txs : production_step (fun self t =>
    Server.DevConsensus.production_tick fuel drained (tick_meanwhile t) self (tick_now t) max_txs).

Lemma step_takes_height tick : production_step tick -> takes_height tick.
Proof. destruct 1; [apply production_takes_height | apply mempool_takes_height]. Qed.

(** How a runner is composed: the loop of one of these ticks, between the start
    of the chain and the saving of its state. *)
Class ProductionRunner (runner : S -> list (Tick Tx) -> option (Run Tx S I Subs Callback)) :=
  runner_loop storage ticks r : runner storage ticks = Some r ->
    exists g h s tick dev blocks tasks dev', start_chain run_genesis storage = Some (g, h, s) /\
      production_step tick /\ Server.state dev = Server.state_new h /\ Server.dc_storage dev = s /\
      production_loop tick dev ticks = Some (blocks, tasks, dev') /\
      r = mkRun blocks tasks dev' (stop_chain g (height dev') (Server.dc_storage dev')).

#[export] Instance production_node_runner runner : ProductionRunner runner -> NodeRunner runner.
Proof.
  intros Hr storage ticks r Hrun. destruct (Hr _ _ _ Hrun) as (g & h & s & tick & dev & blocks & tasks & dev' & ? & Ht & Hrest).
  exists g, h, s, tick, dev, blocks, tasks, dev'. split; [done|]. split; [by apply step_takes_height | done].
Qed.

#[export] Instance run_dev_node_with_rpc_runner build_stf codes rpc_config archive_cb :
  ProductionRunner (fun storage ticks =>
    run_dev_node_with_rpc fuel env build_stf codes run_genesis storage rpc_config archive_cb ticks).
Proof.
  intros storage ticks r. unfold run_dev_node_with_rpc. destruct (enabled rpc_config); [done|].
  destruct (start_chain run_genesis storage) as [[[g h] s]|]; [|done]. cbn [mbind option_bind]. unfold finish, run_block_production.
  cbn [Server.block_interval Server.config Server.DevConsensus.with_block_archive Server.DevConsensus.new dev_config].
  destruct (production_loop _ _ _) as [[[blocks tasks] dev']|] eqn:Hloop; [|done]. intros [= <-].
  eexists g, h, s, _, _, blocks, tasks, dev'. split_and!; [done | apply timer_step | | | exact Hloop | done]; done.
Qed.

#[export] Instance run_dev_node_with_rpc_and_mempool_runner build_stf codes rpc_config :
  ProductionRunner (fun storage ticks =>
    run_dev_node_with_rpc_and_mempool fuel drained env build_stf codes run_genesis storage rpc_config ticks).
Proof.
  intros storage ticks r. unfold run_dev_node_with_rpc_and_mempool.
  destruct (start_chain run_genesis storage) as [[[g h] s]|]; [|done]. cbn [mbind option_bind].
  destruct (enabled rpc_config); [done|]. unfold finish, run_block_production_with_mempool.
  cbn [Server.block_interval Server.config Server.DevConsensus.with_mempool dev_config].
  destruct (production_loop _ _ _) as [[[blocks tasks] dev']|] eqn:Hloop; [|done]. intros [= <-].
  eexists g, h, s, _, _, blocks, tasks, dev'. split_and!; [done | apply mempool_step | | | exact Hloop | done]; done.
Qed.

(** ** What is read back *)
Lemma saved_loaded (s : S) g h : (Server.save_chain_state s (Server.mkChainState h g)).1 = Ok tt ->
  Server.load_chain_state (stop_chain g h s) = Some (Server.mkChainState h g).
Proof.
  unfold stop_chain, Server.save_chain_state, Server.load_chain_state. destruct (to_vec _) as [value|] eqn:Hv; [|done].
  destruct (storage_batch s _) as [[[]|] s1] eqn:Hb; [|done]. destruct (storage_commit s1) as [[c|] s2] eqn:Hc; [|done].
  intros _. cbn [snd]. rewrite (durable_read s [] _ _ _ _ _ Hb Hc). by apply from_slice_to_vec.
Qed.

Lemma started_loaded (s s1 : S) (g : G) h : start_chain run_genesis s = Some (g, h, s1) ->
  Server.load_chain_state s1 = Some (Server.mkChainState h g).
Proof.
  unfold start_chain. destruct (Server.load_chain_state s) as [[h' g']|] eqn:Hl; [by intros [= <- <- <-]|].
  destruct (run_genesis s) as [[g' changes]|]; [|done]. cbn. unfold commit_genesis.
  destruct (to_vec _) as [value|] eqn:Hv; [|done]. destruct (storage_batch s _) as [[[]|] s2] eqn:Hb; [|done].
  destruct (storage_commit s2) as [[c|] s3] eqn:Hc; [|done]. intros [= <- <- <-].
  unfold Server.load_chain_state. rewrite (durable_read s _ _ _ _ _ _ Hb Hc). by apply from_slice_to_vec.
Qed.

Lemma loaded_start (s : S) (g : G) h : Server.load_chain_state s = Some (Server.mkChainState h g) ->
  start_chain run_genesis s = Some (g, h, s).
Proof. unfold start_chain. by intros ->. Qed.

Context (runner : S -> list (Tick Tx) -> option (Run Tx S I Subs Callback)).

(** A run whose blocks are all produced keeps the values that no account owns. *)
Lemma run_frame `{!FramedStorage S} `{!ProductionRunner runner} storage ticks r g h s k :
  start_chain run_genesis storage = Some (g, h, s) -> runner storage ticks = Some r ->
  Forall (fun b => is_ok b = true) (run_blocks r) -> ~ protocol_key k ->
  storage_get (Server.dc_storage (run_engine r)) k = storage_get s k.
Proof.
  intros Hstart Hrun Hok Hk. apply runner_loop in Hrun as (g' & h' & s' & tick & dev & blocks & tasks & dev' & Hs & Ht & _ & Hdev & Hloop & ->).
  rewrite Hstart in Hs. injection Hs as _ _ ->. rewrite <-Hdev.
  refine (loop_frame tick _ k Hk ticks dev dev' blocks tasks Hloop Hok).
  destruct Ht; [apply production_writes_accounts | apply mempool_writes_accounts].
Qed.

Context `{!NodeRunner runner}.

(** The state of the chain was saved when the run ended. *)
Definition saved (g : G) (r : Run Tx S I Subs Callback) : Prop :=
  (Server.save_chain_state (Server.dc_storage (run_engine r)) (Server.mkChainState (height (run_engine r)) g)).1 = Ok tt.

(** A run from a start of the chain. *)
Lemma run_from_start storage ticks r g h s :
  start_chain run_genesis storage = Some (g, h, s) -> wrap64 h = h -> runner storage ticks = Some r ->
  run_storage r = stop_chain g (height (run_engine r)) (Server.dc_storage (run_engine r)) /\
  length (run_blocks r) = length ticks /\ height (run_engine r) = wrap64 (h + zlen ticks) /\
  forall i b, run_blocks r !! i = Some (Ok b) -> Server.pb_height b = wrap64 (h + Z.of_nat i).
Proof.
  intros Hstart Hh Hrun. apply runner_steps in Hrun as (g' & h' & s' & tick & dev & blocks & tasks & dev' & Hs & Ht & Hst & _ & Hloop & ->).
  rewrite Hstart in Hs. injection Hs as <- <- <-. cbn. split; [done|].
  refine (loop_heights tick Ht ticks dev dev' h blocks tasks _ Hloop).
  unfold Server.DevConsensus.height. by rewrite Hst.
Qed.

(** C15: a restart continues the chain's heights. After a run that ended by saving
    its state, the next run does not run genesis again: it starts with the same
    genesis result at the height after the last tick, and over both runs the
    block of the [i]-th tick, when it is produced, has the [i]-th height after
    the first. *)
Theorem restart_continues storage ticks1 ticks2 r1 r2 g h s :
  start_chain run_genesis storage = Some (g, h, s) -> wrap64 h = h ->
  runner storage ticks1 = Some r1 -> saved g r1 -> runner (run_storage r1) ticks2 = Some r2 ->
  start_chain run_genesis (run_storage r1) = Some (g, wrap64 (h + zlen ticks1), run_storage r1) /\
  forall i b, (run_blocks r1 ++ run_blocks r2) !! i = Some (Ok b) -> Server.pb_height b = wrap64 (h + Z.of_nat i).
Proof.
  intros Hstart Hh Hrun1 Hsaved Hrun2.
  destruct (run_from_start _ _ _ _ _ _ Hstart Hh Hrun1) as (Hs1 & Hlen1 & Hfinal1 & Hb1).
  assert (Hstart2 : start_chain run_genesis (run_storage r1) = Some (g, wrap64 (h + zlen ticks1), run_storage r1)).
  { apply loaded_start. rewrite Hs1, <-Hfinal1. by apply saved_loaded. }
  split; [done|]. assert (Hw : wrap64 (wrap64 (h + zlen ticks1)) = wrap64 (h + zlen ticks1)).
  { pose proof (wrap64_add (h + zlen ticks1) 0) as Hw. by rewrite !Z.add_0_r in Hw. }
  destruct (run_from_start _ _ _ _ _ _ Hstart2 Hw Hrun2) as (_ & _ & _ & Hb2).
  intros i b [Hi|[Hle Hi]]%lookup_app_Some; [by apply Hb1|]. rewrite (Hb2 _ _ Hi), wrap64_add. f_equal.
  unfold zlen. lia.
Qed.

(** A restart forgets the last block. The first block after a restart names
    the zero hash as its parent, whatever was produced before. *)
Theorem restart_forgets_parent storage t ticks r b :
  runner storage (t :: ticks) = Some r -> run_blocks r !! 0%nat = Some (Ok b) ->
  Server.pb_hash b = Server.compute_block_hash (Server.pb_height b) (tick_now t) B256_ZERO.
Proof.
  intros Hrun Hb. apply runner_steps in Hrun as (g & h & s & tick & dev & blocks & tasks & dev' & _ & Ht & Hst & _ & Hloop & ->).
  cbn in Hb, Hloop. destruct (tick dev t) as [[[r1 tasks1] dev1]|] eqn:Htick; [|done]. cbn [mbind option_bind] in Hloop.
  destruct (production_loop tick dev1 ticks) as [[[rs more] dev2]|]; [|done]. injection Hloop as <- _ _. cbn in Hb.
  injection Hb as ->. destruct (Ht _ _ _ _ _ Htick) as [_ Hok]. destruct (Hok _ eq_refl) as [-> ->]. by rewrite Hst.
Qed.

End Restart.

(** ** A node that is not stopped *)
Section Crash.
Context `{RuntimeDeps} {Tx S I Subs Callback G : Type}.
Context `{Transaction Tx} `{MempoolTx Tx} `{Encodable Tx} `{DurableStorage S} `{Borsh Server.ArchivedBlock}.
Context `{Borsh (Server.ChainState G)} `{!FramedStorage S}.
Context (fuel : nat) (drained : gset Hash -> list Hash).
Context (run_genesis : S -> Result (list Server.Piece) (GenesisOutput G)).
Context (runner : S -> list (Tick Tx) -> option (Run Tx S I Subs Callback)).
Context `{!ProductionRunner fuel drained run_genesis runner}.

(** C28: a node that ends without being stopped repeats heights. Over a storage
    that keeps what was committed and in which a batch changes the keys it names
    only: when the blocks of a run were all produced and the node starts again
    from the storage they left, it starts at the height of that run once more,
    since producing a block does not write the key of the saved state; so the
    blocks of the second run take the heights of the first, over the state the
    first one left. *)
Theorem crash_repeats_heights storage ticks1 ticks2 r1 r2 g h s :
  start_chain run_genesis storage = Some (g, h, s) -> wrap64 h = h ->
  runner storage ticks1 = Some r1 -> Forall (fun b => is_ok b = true) (run_blocks r1) ->
  let left := Server.dc_storage (run_engine r1) in
  runner left ticks2 = Some r2 ->
  start_chain run_genesis left = Some (g, h, left) /\
  forall i b1 b2, run_blocks r1 !! i = Some (Ok b1) -> run_blocks r2 !! i = Some (Ok b2) ->
    Server.pb_height b1 = wrap64 (h + Z.of_nat i) /\ Server.pb_height b2 = wrap64 (h + Z.of_nat i).
Proof.
  intros Hstart Hh Hrun1 Hok left Hrun2.
  assert (Hstart2 : start_chain run_genesis left = Some (g, h, left)).
  { apply loaded_start. rewrite <-(started_loaded _ _ _ _ _ Hstart). unfold Server.load_chain_state.
    subst left. by rewrite (run_frame fuel drained _ _ _ _ _ _ _ _ _ Hstart Hrun1 Hok CHAIN_STATE_not_protocol). }
  split; [done|]. intros i b1 b2 Hb1 Hb2.
  destruct (run_from_start _ _ _ _ _ _ _ _ Hstart Hh Hrun1) as (_ & _ & _ & Hn1).
  destruct (run_from_start _ _ _ _ _ _ _ _ Hstart2 Hh Hrun2) as (_ & _ & _ & Hn2).
  by rewrite (Hn1 _ _ Hb1), (Hn2 _ _ Hb2).
Qed.

End Crash.

(** The Ethereum runner is one of them. *)
#[export] Instance eth_runner `{RuntimeDeps} `{CollectionCodec} `{!TokenCodec} `{EthCodec} `{Borsh string} `{CallJson}
    `{Secp256k1} `{AlloyTx TxLegacy} `{AlloyTx TxEip1559} `{Borsh Server.ArchivedBlock}
    {S I Callback G A Schema : Type} `{Storage S} `{ChainIndex I ChainIndexError} `{SchemaCodes A Schema}
    `{Borsh (Server.ChainState G)} `{HasTokenAccountId G}
    fuel drained env build_stf codes (rpc_codes : A) run_genesis data_dir open_index (archive_cb : Callback) runner_config :
  ProductionRunner (S := S) (I := I) (G := G) fuel drained run_genesis (fun storage ticks =>
    eth_run <$> run_dev_node_with_rpc_and_mempool_eth_impl (Schema := Schema) fuel drained env build_stf codes rpc_codes run_genesis
                  data_dir storage open_index archive_cb runner_config ticks).
Proof.
  intros storage ticks r. unfold run_dev_node_with_rpc_and_mempool_eth_impl.
  destruct (start_chain run_genesis storage) as [[[g h] s]|]; [|done]. cbn [mbind option_bind fmap option_fmap option_map].
  destruct (enabled _); [destruct (open_index _) as [index|]; [|done]; cbn [mbind option_bind]; destruct (ensure_rpc_startup_compatibility _); [|done]|].
  all: cbn [mbind option_bind]; destruct (enable_block_archive _); unfold finish, run_block_production_with_mempool.
  all: cbn [Server.block_interval Server.config Server.DevConsensus.with_mempool Server.DevConsensus.with_rpc_and_mempool
    Server.DevConsensus.with_indexing_enabled Server.DevConsensus.with_block_archive dev_config].
  all: destruct (production_loop _ _ _) as [[[blocks tasks] dev']|] eqn:Hloop; [|done]; intros [= <-].
  all: eexists g, h, s, _, _, blocks, tasks, dev'; split_and!; [done | apply mempool_step | | | exact Hloop | done]; done.
Qed.

(** The configured interval is never zero, for which the timer of the
    loop would panic, and a variable that is not a positive [u64] changes
    nothing. *)
Theorem interval_positive env :
  0 < configured_block_interval env <= u64_max /\
  (evolve_block_interval_ms env ≫= parse_u64 = None -> configured_block_interval env = 1000).
Proof.
  assert (Hdigits : forall s n m, 0 <= n -> parse_digits n s = Some m -> n <= m <= u64_max \/ (s = EmptyString /\ m = n)).
  { induction s as [|c s IH]; intros n m Hn; cbn; [intros [= <-]; by right|]. case_match eqn:Hd; [|done].
    repeat apply andb_true_iff in Hd as [Hd ?]. zbool. intros Hm. left. destruct (IH (n * 10 + (Z.of_N (Ascii.N_of_ascii c) - 48)) m ltac:(lia) Hm) as [?|[_ ->]]; lia. }
  unfold configured_block_interval, parse_env_u64. destruct (evolve_block_interval_ms env ≫= parse_u64) as [v|] eqn:Hv;
    [|split; [by vm_compute | done]].
  split; [|done]. destruct (Z.ltb_spec 0 v); [|by vm_compute]. split; [done|].
  destruct (evolve_block_interval_ms env) as [text|]; [|done]. cbn in Hv. unfold parse_u64 in Hv.
  case_match; [done|]. apply Hdigits in Hv as [?|[? _]]; [lia | done | lia].
Qed.

(** Whatever the node's index, codes and storage, the provider it builds has
    what the RPC servers require. *)
Theorem rpc_startup_compatible `{RuntimeDeps} `{CollectionCodec} `{!TokenCodec} `{EthCodec} `{Borsh string} `{CallJson}
    `{Secp256k1} `{AlloyTx TxLegacy} `{AlloyTx TxEip1559}
    {S I G A Schema : Type} `{Storage S} `{ChainIndex I ChainIndexError} `{SchemaCodes A Schema} `{HasTokenAccountId G}
    fuel (build_stf : G -> Stf TxContext (Server.Block TxContext)) codes (rpc_codes : A) (index : I) rpc_config g (storage : S) mempool :
  ensure_rpc_startup_compatibility (Schema := Schema)
    (state_provider fuel build_stf codes rpc_codes index rpc_config g storage mempool) = Some tt.
Proof. done. Qed.

(** ** A node on concrete data *)
Import Reference.

(** The state of the chain is encoded by its height. *)
Definition height_to_vec (st : Server.ChainState unit) : option bytes :=
  if bool_decide (wrap64 (Server.cs_height st) = Server.cs_height st) then Some (le_bytes 8 (Server.cs_height st)) else None.

#[local] Program Instance chain_state_borsh : Borsh (Server.ChainState unit) := {|
  to_vec := height_to_vec;
  from_slice b := if bool_decide (length b = 8%nat) then Some (Server.mkChainState (le_value b) tt) else None |}.
Next Obligation.
  intros [h []] b. unfold height_to_vec. cbn [Server.cs_height]. case_bool_decide as Hh; [|done]. intros Hb. apply (inj Some) in Hb as <-.
  rewrite bool_decide_true by apply length_le_bytes. rewrite le_value_bytes. by rewrite <-Hh at 2.
Qed.

Definition cell_genesis (s : gmap bytes bytes) : Result (list Server.Piece) (GenesisOutput unit) :=
  Ok (mkGenesisOutput tt ((fun '(k, v) => CoreSet k v) <$> map_to_list base_map)).

Definition cell_node (storage : gmap bytes bytes) (ticks : list (Tick PoolTx)) : option (Run PoolTx (gmap bytes bytes) unit unit unit) :=
  run_dev_node_with_rpc_and_mempool 5 elements (mkNodeEnv None None) (fun _ : unit => pool_stf) codes cell_genesis storage
    RpcConfig.disabled ticks.

(** Two ticks, a transaction arriving during the first, and one after a restart. *)
Definition ticks_before : list (Tick PoolTx) := [mkTick 10 (arrive [tx_low]); mkTick 20 (fun pool => pool)].
Definition ticks_after : list (Tick PoolTx) := [mkTick 30 (fun pool => pool)].

Definition run_or_engine (r : option (Run PoolTx (gmap bytes bytes) unit unit unit)) := default (mkRun [] [] engine base_map) r.

Definition first_run := run_or_engine (cell_node ∅ ticks_before).
Definition second_run := run_or_engine (cell_node (run_storage first_run) ticks_after).
Definition crashed_storage := Server.dc_storage (run_engine first_run).
Definition crashed_run := run_or_engine (cell_node crashed_storage ticks_after).

Lemma some_run o : (if o is Some _ then true else false) = true -> o = Some (run_or_engine o).
Proof. by destruct o. Qed.

Definition block_heights (rs : list (Result Server.ServerError Server.ProducedBlock)) : list Z :=
  omap (fun r => match r with Ok b => Some (Server.pb_height b) | Err _ => None end) rs.

#[local] Instance cell_node_runner : ProductionRunner 5 elements cell_genesis cell_node :=
  run_dev_node_with_rpc_and_mempool_runner 5 elements (mkNodeEnv None None) cell_genesis (fun _ => pool_stf) codes RpcConfig.disabled.

Lemma first_run_ran : cell_node ∅ ticks_before = Some first_run.
Proof. apply some_run. vm_compute. reflexivity. Qed.

Lemma all_produced {E A} (rs : list (Result E A)) : forallb is_ok rs = true -> Forall (fun r => is_ok r = true) rs.
Proof. intros Hall. apply Forall_forall. intros r Hr. rewrite forallb_forall in Hall. by apply Hall, list_elem_of_In. Qed.

Lemma first_run_produced : Forall (fun b => is_ok b = true) (run_blocks first_run).
Proof. apply all_produced. vm_compute. reflexivity. Qed.

Lemma second_run_ran : cell_node (run_storage first_run) ticks_after = Some second_run.
Proof. apply some_run. vm_compute. reflexivity. Qed.

Lemma crashed_run_ran : cell_node crashed_storage ticks_after = Some crashed_run.
Proof. apply some_run. vm_compute. reflexivity. Qed.

Definition started_storage : gmap bytes bytes := from_option snd ∅ (start_chain cell_genesis ∅).

Lemma cell_started : start_chain cell_genesis ∅ = Some (tt, 1, started_storage).
Proof. reflexivity. Qed.

Lemma restart_continues_witness :
  block_heights (run_blocks first_run ++ run_blocks second_run) = [1; 2; 3] /\
  start_chain cell_genesis (run_storage first_run) = Some (tt, wrap64 (1 + zlen ticks_before), run_storage first_run).
Proof.
  split; [vm_compute; reflexivity|].
  apply (restart_continues cell_genesis cell_node ∅ ticks_before ticks_after first_run second_run tt 1 started_storage).
  - exact cell_started.
  - reflexivity.
  - exact first_run_ran.
  - vm_compute. reflexivity.
  - exact second_run_ran.
Defined.

(** The block at height 3 does not name the one at height 2. *)
Lemma restart_forgets_parent_witness :
  exists b, run_blocks second_run !! 0%nat = Some (Ok b) /\ Server.pb_height b = 3 /\
    Server.pb_hash b = @Server.compute_block_hash deps_keccak (Server.pb_height b) 30 Server.B256_ZERO.
Proof.
  destruct (run_blocks second_run !! 0%nat) as [[b|e]|] eqn:Hb; [|vm_compute in Hb; discriminate Hb..].
  exists b. split; [reflexivity|]. split.
  - assert (Hh : block_heights (run_blocks second_run) = [3]) by (vm_compute; reflexivity).
    destruct (run_blocks second_run) as [|r rs]; [discriminate Hb|]. injection Hb as ->. cbn in Hh. by injection Hh as ->.
  - apply (restart_forgets_parent cell_genesis cell_node (run_storage first_run) (mkTick 30 (fun pool => pool)) [] second_run b).
    + exact second_run_ran.
    + exact Hb.
Defined.

(** The state holds what the transaction stored, and height 1 is taken again. *)
Lemma crash_repeats_heights_witness :
  bool_decide (crashed_storage = started_storage) = false /\
  block_heights (run_blocks first_run) = [1; 2] /\ block_heights (run_blocks crashed_run) = [1] /\
  start_chain cell_genesis crashed_storage = Some (tt, 1, crashed_storage).
Proof.
  do 3 (split; [vm_compute; reflexivity|]).
  apply (crash_repeats_heights 5 elements cell_genesis cell_node ∅ ticks_before ticks_after first_run crashed_run tt 1 started_storage).
  - exact cell_started.
  - reflexivity.
  - exact first_run_ran.
  - exact first_run_produced.
  - exact crashed_run_ran.
Defined.
